(** * quick-music-notation: keyboard capture core, embedded in Rocq

    A shallow embedding of the input-interpretation and fragment-state core
    of the library (musical helpers, validation, FragmentManager,
    ShortcutEngine, ConfigurationManager, EventEmitter, NotationCapture),
    followed by the properties established about it.

    Conventions of the embedding.
    - A JavaScript [number] that takes part in floating-point arithmetic is a
      binary64 [float] (the kernel's primitive floats follow IEEE 754 exactly
      as JavaScript numbers do).  A number that only ever holds an integer
      (an index, a length, an octave, a dot count, a history size) is a [Z].
    - A JavaScript string is a [string].  The functions below only inspect
      ASCII characters; [toLowerCase]/[toUpperCase] are modelled on ASCII
      letters.
    - An object used as a dictionary ([Record<string, string>]) is a
      [gmap string string] holding its own properties.  Names inherited from
      [Object.prototype] ("constructor", "toString", ...) are not keys of the
      model.
    - Methods of a class become functions from the state of the object to a
      result and a new state.  Reads of the wall clock ([Date.now()],
      [new Date()]) become an explicit argument [now]. *)

From Stdlib Require Import ZArith String Ascii List Bool Lia Floats DecimalString Sorted.
From stdpp Require Import base option list gmap strings.

Local Open Scope string_scope.
Local Open Scope list_scope.
Local Open Scope Z_scope.

(** ** JavaScript primitives used by the sources *)

Module JS.

(** [`${n}`] for a number holding an integer (of magnitude below 1e21). *)
Definition string_of_Z (n : Z) : string :=
  NilZero.string_of_int (Z.to_int n).

Definition is_upper (c : ascii) : bool :=
  let n := nat_of_ascii c in (65 <=? n)%nat && (n <=? 90)%nat.

Definition is_lower (c : ascii) : bool :=
  let n := nat_of_ascii c in (97 <=? n)%nat && (n <=? 122)%nat.

Definition lower_char (c : ascii) : ascii :=
  if is_upper c then ascii_of_nat (nat_of_ascii c + 32) else c.

Definition upper_char (c : ascii) : ascii :=
  if is_lower c then ascii_of_nat (nat_of_ascii c - 32) else c.

Fixpoint map_string (f : ascii -> ascii) (s : string) : string :=
  match s with
  | EmptyString => EmptyString
  | String c r => String (f c) (map_string f r)
  end.

Definition toLowerCase : string -> string := map_string lower_char.
Definition toUpperCase : string -> string := map_string upper_char.

(** [\d] of a regular expression: one of the ten ASCII digits. *)
Definition is_digit (c : ascii) : bool :=
  let n := nat_of_ascii c in (48 <=? n)%nat && (n <=? 57)%nat.

(** [parseInt] of a string made of a single decimal digit. *)
Definition parseInt_digit (c : ascii) : Z :=
  Z.of_nat (nat_of_ascii c) - 48.

(** [Array.prototype.includes] on an array of strings. *)
Definition includes (xs : list string) (x : string) : bool :=
  existsb (String.eqb x) xs.

(** A string is falsy exactly when it is empty; [undefined] is falsy.
    [truthy_lookup d k] is [d[k]] when that value is truthy. *)
Definition truthy_lookup (d : gmap string string) (k : string) : option string :=
  match d !! k with
  | Some v => if String.eqb v "" then None else Some v
  | None => None
  end.

(** [Number.isInteger] on a binary64 value. *)
Definition Number_isInteger (x : float) : bool :=
  match Prim2SF x with
  | S754_zero _ => true
  | S754_finite _ m e =>
      if (0 <=? e) then true else Z.eqb (Z.pos m mod 2 ^ (- e)) 0
  | _ => false
  end.

(** The parts of the runtime the sources call and that are kept abstract:
    [Math.floor], the remainder operator [%] on numbers, the rendering of
    a number inside a template literal, and [Date.prototype.toISOString]
    applied to an instant given in milliseconds. *)
Class Runtime := {
  Math_floor : float -> float;
  Number_rem : float -> float -> float;
  Number_toString : float -> string;
  Date_toISOString : Z -> string
}.

End JS.

(** ** src/types/musical.ts *)

Module Musical.

(** [NoteName], [Duration], [Articulation], [Dynamic] and [TupletType] are
    unions of string literals: at run time they are strings, and the
    sources cast arbitrary strings to them. *)
Definition NoteName := string.
Definition Duration := string.

(** ['sharp' | 'flat']; [null] is [None]. *)
Inductive AccidentalMark := sharp | flat.

(** [Duration | DottedDuration]. *)
Inductive DurationSpec :=
| Plain (duration : Duration)
| Dotted (duration : Duration) (dots : Z).

Record Note := {
  note_pitch : string;
  note_duration : DurationSpec;
  note_accidental : option AccidentalMark;
  note_tuplet : option string
}.

Record Chord := {
  chord_pitches : list string;
  chord_duration : DurationSpec
}.

Inductive MusicalElement :=
| ENote (n : Note)
| ERest (duration : DurationSpec)
| EChord (c : Chord)
| EBarline (style : option string)
| ETimeSignature (numerator denominator : float)
| EKeySignature (key mode : string)
| ETempo (bpm : float).

Record TimeSig := { numerator : float; denominator : float }.
Record KeySig := { key : string; mode : string }.

Record FragmentMetadata := {
  measures : nat;
  totalDuration : string
}.

Record MusicalFragment := {
  id : string;
  timestamp : string;
  timeSignature : TimeSig;
  keySignature : KeySig;
  tempo : float;
  elements : list MusicalElement;
  metadata : FragmentMetadata
}.

End Musical.

(** ** src/utils/musical-helpers.ts *)

Module MusicalHelpers.
Import JS Musical.

Record ParsedPitch := {
  note : NoteName;
  accidental : option AccidentalMark;
  octave : Z
}.

Definition is_A_to_G (c : ascii) : bool :=
  let n := nat_of_ascii c in (65 <=? n)%nat && (n <=? 71)%nat.

Definition accidental_of_char (c : ascii) : option AccidentalMark :=
  if Ascii.eqb c "#" then Some sharp
  else if Ascii.eqb c "b" then Some flat
  else None.

(** [pitch.match(/^([A-G])([#b]?)(\d)$/)]: the whole string is a letter,
    an optional [#] or [b], and one digit. *)
Definition parsePitchString (pitch : string) : option ParsedPitch :=
  match pitch with
  | String n (String d EmptyString) =>
      if is_A_to_G n && is_digit d
      then Some {| note := String n EmptyString;
                   accidental := None;
                   octave := parseInt_digit d |}
      else None
  | String n (String a (String d EmptyString)) =>
      if is_A_to_G n && (Ascii.eqb a "#" || Ascii.eqb a "b") && is_digit d
      then Some {| note := String n EmptyString;
                   accidental := accidental_of_char a;
                   octave := parseInt_digit d |}
      else None
  | _ => None
  end.

Definition formatPitch (note : NoteName) (accidental : option AccidentalMark)
    (octave : Z) : string :=
  let accidentalStr :=
    match accidental with
    | Some sharp => "#"
    | Some flat => "b"
    | None => ""
    end in
  (note ++ accidentalStr ++ string_of_Z octave)%string.

Local Open Scope float_scope.

(** The table [baseValues] of [getDurationValue]. *)
Definition baseValues : gmap string float :=
  list_to_map
    [ ("whole", 1); ("half", 0.5); ("quarter", 0.25); ("eighth", 0.125);
      ("sixteenth", 0.0625); ("thirty-second", 0.03125);
      ("sixty-fourth", 0.015625) ].

(** The loop [for (let i = 0; i < dots; i++) { dotValue /= 2; value += dotValue; }],
    run [i] times; it returns both variables. *)
Fixpoint dots_loop (i : nat) (value dotValue : float) : float * float :=
  match i with
  | O => (value, dotValue)
  | S k => let dotValue := dotValue / 2 in dots_loop k (value + dotValue) dotValue
  end.

Definition baseDuration_of (duration : DurationSpec) : Duration :=
  match duration with Plain d => d | Dotted d _ => d end.

Definition dots_of (duration : DurationSpec) : Z :=
  match duration with Plain _ => 0%Z | Dotted _ n => n end.

(** [getDurationValue].  [None] is [undefined]: what the function returns
    when the base duration is not in the table and the loop does not run;
    when the loop runs on [undefined] the result is [NaN]. *)
Definition getDurationValue (duration : DurationSpec) : option float :=
  let baseDuration := baseDuration_of duration in
  let dots := dots_of duration in
  match baseValues !! baseDuration with
  | Some value => Some (fst (dots_loop (Z.to_nat dots) value value))
  | None => if (dots <=? 0)%Z then None else Some nan
  end.

(** A value used as an operand of float arithmetic: [undefined] becomes [NaN]. *)
Definition ToNumber (v : option float) : float :=
  match v with Some x => x | None => nan end.

Definition has_duration (e : MusicalElement) : option DurationSpec :=
  match e with
  | ENote n => Some (note_duration n)
  | ERest d => Some d
  | EChord c => Some (chord_duration c)
  | _ => None
  end.

Definition add_beats (ts : TimeSig) (totalBeats : float) (element : MusicalElement) : float :=
  match has_duration element with
  | Some d => totalBeats + ToNumber (getDurationValue d) * denominator ts
  | None => totalBeats
  end.

Definition calculateFragmentDuration `{Runtime} (elements : list MusicalElement)
    (ts : TimeSig) : string :=
  let totalBeats := fold_left (add_beats ts) elements 0 in
  let measures := Math_floor (totalBeats / numerator ts) in
  let remainingBeats := Number_rem totalBeats (numerator ts) in
  if (remainingBeats =? 0)
  then Number_toString measures
  else (Number_toString measures ++ "." ++ Number_toString remainingBeats
          ++ "/" ++ Number_toString (numerator ts))%string.

Definition is_barline (e : MusicalElement) : bool :=
  match e with EBarline _ => true | _ => false end.

Definition countMeasures (elements : list MusicalElement) : nat :=
  length (List.filter is_barline elements).

(** [createEmptyFragment], called at instant [now]. *)
Definition createEmptyFragment `{Runtime} (now : Z) (ts : TimeSig) (ks : KeySig)
    (tempo : float) : MusicalFragment :=
  {| id := ("fragment_" ++ string_of_Z now)%string;
     timestamp := Date_toISOString now;
     timeSignature := ts;
     keySignature := ks;
     tempo := tempo;
     elements := [];
     metadata := {| measures := 0; totalDuration := "0" |} |}.

(** The table [semitoneMap] of [transposeNote], in the order of its
    entries, which is the order [Object.entries] lists them in. *)
Definition semitoneMap : list (string * Z) :=
  [ ("C", 0); ("D", 2); ("E", 4); ("F", 5); ("G", 7); ("A", 9); ("B", 11) ]%Z.

(** [semitoneMap[note]]; [None] is [undefined]. *)
Definition semitone_of (note : string) : option Z :=
  snd <$> List.find (fun entry => String.eqb (fst entry) note) semitoneMap.

(** The loop that looks for the closest natural note: the first entry whose
    semitone is [noteInOctave], or one below it, or one above it; ['C'] with
    no accidental when the loop ends without a [break]. *)
Fixpoint closest_note (entries : list (string * Z)) (noteInOctave : Z)
    : NoteName * option AccidentalMark :=
  match entries with
  | [] => ("C", None)
  | (note, baseSemitone) :: rest =>
      if (baseSemitone =? noteInOctave)%Z then (note, None)
      else if (baseSemitone =? noteInOctave - 1)%Z then (note, Some sharp)
      else if (baseSemitone =? noteInOctave + 1)%Z then (note, Some flat)
      else closest_note rest noteInOctave
  end.

(** [transposeNote], for a number of semitones that is an integer.
    [Math.floor(n / 12)] is the quotient [n / 12] of [Z], which rounds down,
    and [%] is the remainder [Z.rem], which has the sign of the dividend.
    The pattern of [parsePitchString] leaves no note outside the table; a
    note that were outside would turn every number into [NaN] and the result
    into ["CNaN"]. *)
Definition transposeNote (pitch : string) (semitones : Z) : string :=
  match parsePitchString pitch with
  | None => pitch
  | Some parsed =>
      match semitone_of (note parsed) with
      | None => "CNaN"
      | Some currentSemitone =>
          let currentSemitone :=
            match accidental parsed with
            | Some sharp => currentSemitone + 1
            | Some flat => currentSemitone - 1
            | None => currentSemitone
            end%Z in
          let currentSemitone := (currentSemitone + octave parsed * 12)%Z in
          let newSemitone := (currentSemitone + semitones)%Z in
          let newOctave := (newSemitone / 12)%Z in
          let noteInOctave := Z.rem (Z.rem newSemitone 12 + 12) 12 in
          (* Find closest natural note *)
          let '(closestNote, accidental) := closest_note semitoneMap noteInOctave in
          formatPitch closestNote accidental newOctave
      end
  end.

Definition isNoteElement (element : MusicalElement) : bool :=
  match element with ENote _ => true | _ => false end.

Definition isRestElement (element : MusicalElement) : bool :=
  match element with ERest _ => true | _ => false end.

(** The table [durationMap] of [getDurationFromKeyNumber]. *)
Definition durationMap : gmap string Duration :=
  list_to_map
    [ ("1", "whole"); ("2", "half"); ("4", "quarter"); ("8", "eighth");
      ("6", "sixteenth") ].

(** [durationMap[key] || null]. *)
Definition getDurationFromKeyNumber (key : string) : option Duration :=
  truthy_lookup durationMap key.

End MusicalHelpers.

(** ** src/utils/validation.ts *)

Module Validation.
Import JS Musical MusicalHelpers.
Local Open Scope float_scope.

Definition isValidNoteName (name : string) : bool :=
  includes ["C"; "D"; "E"; "F"; "G"; "A"; "B"] (toUpperCase name).

(** [Number.isInteger(octave) && octave >= 0 && octave <= 8]; an octave of
    the model is an integer. *)
Definition isValidOctave (octave : Z) : bool :=
  ((0 <=? octave) && (octave <=? 8))%Z.

Definition isValidDuration (duration : string) : bool :=
  includes
    ["whole"; "half"; "quarter"; "eighth"; "sixteenth"; "thirty-second";
     "sixty-fourth"] duration.

Definition isValidPitch (pitch : string) : bool :=
  match parsePitchString pitch with
  | None => false
  | Some m => isValidNoteName (note m) && isValidOctave (octave m)
  end.

Definition error_if (b : bool) (msg : string) : list string :=
  if b then [msg] else [].

Definition validateNote (n : Note) : list string :=
  error_if (negb (isValidPitch (note_pitch n)))
           ("Invalid pitch: " ++ note_pitch n)%string
  ++ error_if (negb (isValidDuration (baseDuration_of (note_duration n))))
           ("Invalid duration: " ++ baseDuration_of (note_duration n))%string
  ++ match note_duration n with
     | Dotted _ dots => error_if (dots <? 0)%Z "Dots cannot be negative"
     | Plain _ => []
     end.

Definition validateChord (c : Chord) : list string :=
  error_if (Nat.eqb (length (chord_pitches c)) 0) "Chord must have at least one pitch"
  ++ flat_map (fun pitch => error_if (negb (isValidPitch pitch))
                              ("Invalid pitch in chord: " ++ pitch)%string)
              (chord_pitches c)
  ++ error_if (negb (isValidDuration (baseDuration_of (chord_duration c))))
           ("Invalid duration: " ++ baseDuration_of (chord_duration c))%string.

Definition validDenominators : list float := [1; 2; 4; 8; 16; 32; 64].

Definition validateTimeSignature (numerator denominator : float) : list string :=
  error_if (negb (Number_isInteger numerator) || (numerator <? 1))
           "Time signature numerator must be a positive integer"
  ++ error_if (negb (existsb (PrimFloat.eqb denominator) validDenominators))
           "Time signature denominator must be one of: 1, 2, 4, 8, 16, 32, 64".

(** The [default] branch of the source's [switch] answers to values outside
    [MusicalElement]; the type of the model has none. *)
Definition validateMusicalElement (element : MusicalElement) : list string :=
  match element with
  | ENote n => validateNote n
  | EChord c => validateChord c
  | ETimeSignature n d => validateTimeSignature n d
  | ERest _ | EBarline _ | EKeySignature _ _ | ETempo _ => []
  end.

Inductive CanAdd := Valid | Invalid (reason : string).

Definition is_note_or_rest (e : MusicalElement) : bool :=
  match e with ENote _ | ERest _ => true | _ => false end.

Definition is_signature (e : MusicalElement) : bool :=
  match e with ETimeSignature _ _ | EKeySignature _ _ => true | _ => false end.

Definition canAddElementToFragment (element : MusicalElement)
    (currentElements : list MusicalElement) : CanAdd :=
  if is_signature element && existsb is_note_or_rest currentElements
  then Invalid "Time and key signatures should be placed before notes"
  else Valid.

End Validation.

(** ** src/core/FragmentManager.ts

    The fields of the class are the fields of [State].  The manager's own
    methods never write into an element, a time signature or a key signature
    once built, and every array and metadata object has a single holder
    (each copy is made with a spread), so its methods are functions on
    values.  What a caller can do through the references it receives is the
    subject of the reference-level model further down. *)

Module FragmentManager.
Import JS Musical MusicalHelpers Validation.

Inductive Action := act_add | act_delete | act_clear | act_modify.

Record FragmentHistoryEntry := {
  fragment : MusicalFragment;
  entry_timestamp : Z;
  action : Action
}.

Record State := {
  currentFragment : MusicalFragment;
  history : list FragmentHistoryEntry;
  historyIndex : Z;
  maxHistorySize : Z;
  committedFragments : list MusicalFragment
}.

(** [a[i]] for an integer [i]: [undefined] outside the array. *)
Definition index {A} (a : list A) (i : Z) : option A :=
  if i <? 0 then None else a !! Z.to_nat i.

(** [a.slice(0, e)]: a negative [e] counts from the end of the array. *)
Definition slice0 {A} (a : list A) (e : Z) : list A :=
  if e <? 0
  then take (Z.to_nat (Z.max (Z.of_nat (length a) + e) 0)) a
  else take (Z.to_nat e) a.

Definition len {A} (a : list A) : Z := Z.of_nat (length a).

Definition with_fragment (f : MusicalFragment) (s : State) : State :=
  {| currentFragment := f;
     history := history s;
     historyIndex := historyIndex s;
     maxHistorySize := maxHistorySize s;
     committedFragments := committedFragments s |}.

Definition with_history (h : list FragmentHistoryEntry) (i : Z) (s : State) : State :=
  {| currentFragment := currentFragment s;
     history := h;
     historyIndex := i;
     maxHistorySize := maxHistorySize s;
     committedFragments := committedFragments s |}.

Definition set_elements (es : list MusicalElement) (f : MusicalFragment) : MusicalFragment :=
  {| id := id f; timestamp := timestamp f; timeSignature := timeSignature f;
     keySignature := keySignature f; tempo := tempo f;
     elements := es; metadata := metadata f |}.

Definition set_metadata (m : FragmentMetadata) (f : MusicalFragment) : MusicalFragment :=
  {| id := id f; timestamp := timestamp f; timeSignature := timeSignature f;
     keySignature := keySignature f; tempo := tempo f;
     elements := elements f; metadata := m |}.

Definition set_timestamp (t : string) (f : MusicalFragment) : MusicalFragment :=
  {| id := id f; timestamp := t; timeSignature := timeSignature f;
     keySignature := keySignature f; tempo := tempo f;
     elements := elements f; metadata := metadata f |}.

Definition set_timeSignature (ts : TimeSig) (f : MusicalFragment) : MusicalFragment :=
  {| id := id f; timestamp := timestamp f; timeSignature := ts;
     keySignature := keySignature f; tempo := tempo f;
     elements := elements f; metadata := metadata f |}.

Definition set_keySignature (ks : KeySig) (f : MusicalFragment) : MusicalFragment :=
  {| id := id f; timestamp := timestamp f; timeSignature := timeSignature f;
     keySignature := ks; tempo := tempo f;
     elements := elements f; metadata := metadata f |}.

Definition set_tempo (bpm : float) (f : MusicalFragment) : MusicalFragment :=
  {| id := id f; timestamp := timestamp f; timeSignature := timeSignature f;
     keySignature := keySignature f; tempo := bpm;
     elements := elements f; metadata := metadata f |}.

Section Methods.
Context `{Runtime}.

Definition saveToHistory (now : Z) (a : Action) (s : State) : State :=
  (* Remove any history after current index (for redo functionality) *)
  let history1 :=
    if historyIndex s <? len (history s) - 1
    then slice0 (history s) (historyIndex s + 1)
    else history s in
  (* Add new entry *)
  let entry := {| fragment := currentFragment s; entry_timestamp := now; action := a |} in
  let history2 := history1 ++ [entry] in
  let index2 := historyIndex s + 1 in
  (* Limit history size *)
  if maxHistorySize s <? len history2
  then with_history (tail history2) (index2 - 1) s
  else with_history history2 index2 s.

Definition updateMetadata (s : State) : State :=
  let f := currentFragment s in
  with_fragment
    (set_metadata
       {| measures := countMeasures (elements f);
          totalDuration := calculateFragmentDuration (elements f) (timeSignature f) |}
       f) s.

(** [new FragmentManager(maxHistorySize, initialTimeSignature,
    initialKeySignature, initialTempo)]. *)
Definition constructor (now : Z) (maxHistorySize : Z) (ts : TimeSig) (ks : KeySig)
    (tempo : float) : State :=
  saveToHistory now act_clear
    {| currentFragment := createEmptyFragment now ts ks tempo;
       history := [];
       historyIndex := -1;
       maxHistorySize := maxHistorySize;
       committedFragments := [] |}.

Definition default_constructor (now : Z) : State :=
  constructor now 20
    {| numerator := 4%float; denominator := 4%float |}
    {| key := "C"; mode := "major" |} 120%float.

Definition getCurrentFragment (s : State) : MusicalFragment := currentFragment s.

Inductive AddResult := success_true | success_false (error : option string).

Definition join_errors (errors : list string) : string :=
  String.concat "; " errors.

Definition addElement (now : Z) (element : MusicalElement) (s : State)
    : AddResult * State :=
  (* Validate element *)
  let validationErrors := validateMusicalElement element in
  if (0 <? length validationErrors)%nat
  then (success_false (Some (join_errors validationErrors)), s)
  else
    (* Check if element can be added *)
    match canAddElementToFragment element (elements (currentFragment s)) with
    | Invalid reason => (success_false (Some reason), s)
    | Valid =>
        (* Add element *)
        let s1 := with_fragment
                    (set_elements (elements (currentFragment s) ++ [element])
                                  (currentFragment s)) s in
        (success_true, saveToHistory now act_add (updateMetadata s1))
    end.

Definition deleteLastElement (now : Z) (s : State) : option MusicalElement * State :=
  let es := elements (currentFragment s) in
  match last es with
  | None => (None, s)
  | Some deleted =>
      let s1 := with_fragment (set_elements (removelast es) (currentFragment s)) s in
      (Some deleted, saveToHistory now act_delete (updateMetadata s1))
  end.

Definition deleteElementAt (now : Z) (i : Z) (s : State) : option MusicalElement * State :=
  let es := elements (currentFragment s) in
  if (i <? 0) || (len es <=? i) then (None, s)
  else
    match es !! Z.to_nat i with
    | None => (None, s)
    | Some deleted =>
        let s1 := with_fragment
                    (set_elements (take (Z.to_nat i) es ++ drop (S (Z.to_nat i)) es)
                                  (currentFragment s)) s in
        (Some deleted, saveToHistory now act_delete (updateMetadata s1))
    end.

Definition clear (now : Z) (s : State) : State :=
  let f := currentFragment s in
  saveToHistory now act_clear
    (with_fragment
       (createEmptyFragment now (timeSignature f) (keySignature f) (tempo f)) s).

(** [undo] and [redo] read [this.history[this.historyIndex]] after moving
    the cursor; reading [.fragment] of [undefined] throws a [TypeError],
    which is the result [None]. *)
Definition undo (s : State) : option (bool * State) :=
  if historyIndex s <=? 0 then Some (false, s)
  else
    let i := historyIndex s - 1 in
    match index (history s) i with
    | None => None
    | Some entry => Some (true, with_fragment (fragment entry) (with_history (history s) i s))
    end.

Definition redo (s : State) : option (bool * State) :=
  if len (history s) - 1 <=? historyIndex s then Some (false, s)
  else
    let i := historyIndex s + 1 in
    match index (history s) i with
    | None => None
    | Some entry => Some (true, with_fragment (fragment entry) (with_history (history s) i s))
    end.

Definition canUndo (s : State) : bool := 0 <? historyIndex s.
Definition canRedo (s : State) : bool := historyIndex s <? len (history s) - 1.

Definition commit (now : Z) (s : State) : MusicalFragment * State :=
  let committed := set_timestamp (Date_toISOString now) (getCurrentFragment s) in
  let f := currentFragment s in
  (* Clear current fragment but keep settings *)
  let s1 :=
    {| currentFragment :=
         createEmptyFragment now (timeSignature f) (keySignature f) (tempo f);
       history := [];
       historyIndex := -1;
       maxHistorySize := maxHistorySize s;
       committedFragments := committedFragments s ++ [committed] |} in
  (committed, saveToHistory now act_clear s1).

Definition getCommittedFragments (s : State) : list MusicalFragment :=
  committedFragments s.

Definition setTimeSignature (now : Z) (n d : float) (s : State) : State :=
  saveToHistory now act_modify
    (updateMetadata
       (with_fragment
          (set_timeSignature {| numerator := n; denominator := d |} (currentFragment s)) s)).

Definition setKeySignature (now : Z) (k m : string) (s : State) : State :=
  saveToHistory now act_modify
    (with_fragment (set_keySignature {| key := k; mode := m |} (currentFragment s)) s).

Definition setTempo (now : Z) (bpm : float) (s : State) : State :=
  saveToHistory now act_modify
    (with_fragment (set_tempo bpm (currentFragment s)) s).

Definition isEmpty (s : State) : bool :=
  Nat.eqb (length (elements (currentFragment s))) 0.

Definition getElementCount (s : State) : nat :=
  length (elements (currentFragment s)).

Definition getLastElement (s : State) : option MusicalElement :=
  let es := elements (currentFragment s) in
  if (0 <? length es)%nat then es !! (length es - 1)%nat else None.

(** [getElementAt(index)], for an index that is an integer. *)
Definition getElementAt (i : Z) (s : State) : option MusicalElement :=
  let es := elements (currentFragment s) in
  if (0 <=? i) && (i <? len es) then es !! Z.to_nat i else None.

(** The calls a client can make, each with the instant at which it runs. *)
Inductive Call :=
| call_addElement (element : MusicalElement)
| call_deleteLastElement
| call_deleteElementAt (i : Z)
| call_clear
| call_undo
| call_redo
| call_commit
| call_setTimeSignature (n d : float)
| call_setKeySignature (k m : string)
| call_setTempo (bpm : float).

Definition step (now : Z) (c : Call) (s : State) : option State :=
  match c with
  | call_addElement e => Some (snd (addElement now e s))
  | call_deleteLastElement => Some (snd (deleteLastElement now s))
  | call_deleteElementAt i => Some (snd (deleteElementAt now i s))
  | call_clear => Some (clear now s)
  | call_undo => snd <$> undo s
  | call_redo => snd <$> redo s
  | call_commit => Some (snd (commit now s))
  | call_setTimeSignature n d => Some (setTimeSignature now n d s)
  | call_setKeySignature k m => Some (setKeySignature now k m s)
  | call_setTempo bpm => Some (setTempo now bpm s)
  end.

(** A sequence of calls; [None] when one of them throws. *)
Fixpoint run (calls : list (Z * Call)) (s : State) : option State :=
  match calls with
  | [] => Some s
  | (now, c) :: rest =>
      match step now c s with
      | Some s' => run rest s'
      | None => None
      end
  end.

End Methods.

End FragmentManager.

(** ** src/types/config.ts and src/types/events.ts *)

Module Config.

Record KeyMappings := {
  durations : gmap string string;
  pitches : gmap string string;
  modifiers : gmap string string;
  controls : gmap string string;
  articulations : gmap string string;
  dynamics : gmap string string
}.

Definition DEFAULT_KEY_MAPPINGS : KeyMappings :=
  {| durations := list_to_map
       [ ("1", "whole"); ("2", "half"); ("4", "quarter"); ("8", "eighth");
         ("6", "sixteenth"); ("3", "dotted-quarter"); ("7", "triplet-eighth") ];
     pitches := list_to_map
       [ ("c", "C"); ("d", "D"); ("e", "E"); ("f", "F"); ("g", "G");
         ("a", "A"); ("b", "B") ];
     modifiers := list_to_map
       [ ("shift", "sharp"); ("alt", "flat"); ("ctrl", "chord") ];
     controls := list_to_map
       [ ("Enter", "commit"); ("Space", "rest"); ("Backspace", "delete");
         ("Tab", "barline"); ("Escape", "clear"); ("ArrowUp", "octave-up");
         ("ArrowDown", "octave-down"); ("0", "octave-reset"); (".", "add-dot");
         ("t", "toggle-triplet"); ("r", "rest"); ("z", "undo"); ("y", "redo") ];
     articulations := list_to_map
       [ (">", "accent"); ("^", "marcato"); ("~", "trill"); ("-", "tenuto");
         ("'", "staccato") ];
     dynamics := list_to_map
       [ ("F1", "pp"); ("F2", "p"); ("F3", "mp"); ("F4", "mf"); ("F5", "f");
         ("F6", "ff"); ("F7", "fff"); ("F8", "ffff") ] |}.

Inductive InputMode := CAPTURE | PAUSED | STOPPED | CHORD_MODE | ERROR.

End Config.

(** ** src/core/ShortcutEngine.ts *)

Module ShortcutEngine.
Import JS Musical MusicalHelpers Config.

Record KeyboardInput := {
  key_of : string;
  shiftKey : bool;
  altKey : bool;
  ctrlKey : bool;
  metaKey : bool
}.

(** The [data] carried by a result of type ['modifier']. *)
Inductive ModifierData :=
| data_octave (octave : Z)
| data_dotted (dotted : bool)
| data_triplet (triplet : bool)
| data_duration (duration : Duration) (dotted triplet : bool)
| data_articulation (articulation : string)
| data_dynamic (dynamic : string)
| data_chordNotes (chordNotes : list string).

(** The [data] carried by a result of type ['control']. *)
Inductive ControlData :=
| data_action (action : string)
| data_element (element : MusicalElement).

Inductive ProcessedInput :=
| type_note (data : Note)
| type_rest (data : DurationSpec)
| type_chord (data : Chord)
| type_control (data : ControlData)
| type_modifier (data : ModifierData)
| type_invalid (error : string).

Record Engine := {
  keyMappings : KeyMappings;
  currentDuration : Duration;
  currentOctave : Z;
  isDotted : bool;
  isTriplet : bool;
  chordNotes : list string;
  lastNoteTime : Z
}.

Definition constructor (km : KeyMappings) : Engine :=
  {| keyMappings := km; currentDuration := "quarter"; currentOctave := 4;
     isDotted := false; isTriplet := false; chordNotes := []; lastNoteTime := 0 |}.

Definition updateKeyMappings (km : KeyMappings) (e : Engine) : Engine :=
  {| keyMappings := km; currentDuration := currentDuration e;
     currentOctave := currentOctave e; isDotted := isDotted e;
     isTriplet := isTriplet e; chordNotes := chordNotes e;
     lastNoteTime := lastNoteTime e |}.

Definition set_octave (o : Z) (e : Engine) : Engine :=
  {| keyMappings := keyMappings e; currentDuration := currentDuration e;
     currentOctave := o; isDotted := isDotted e;
     isTriplet := isTriplet e; chordNotes := chordNotes e;
     lastNoteTime := lastNoteTime e |}.

Definition set_duration (d : Duration) (dotted triplet : bool) (e : Engine) : Engine :=
  {| keyMappings := keyMappings e; currentDuration := d;
     currentOctave := currentOctave e; isDotted := dotted;
     isTriplet := triplet; chordNotes := chordNotes e;
     lastNoteTime := lastNoteTime e |}.

Definition set_dotted (b : bool) (e : Engine) : Engine :=
  set_duration (currentDuration e) b (isTriplet e) e.

Definition set_triplet (b : bool) (e : Engine) : Engine :=
  set_duration (currentDuration e) (isDotted e) b e.

Definition set_chordNotes (notes : list string) (e : Engine) : Engine :=
  {| keyMappings := keyMappings e; currentDuration := currentDuration e;
     currentOctave := currentOctave e; isDotted := isDotted e;
     isTriplet := isTriplet e; chordNotes := notes;
     lastNoteTime := lastNoteTime e |}.

Definition set_lastNoteTime (t : Z) (e : Engine) : Engine :=
  {| keyMappings := keyMappings e; currentDuration := currentDuration e;
     currentOctave := currentOctave e; isDotted := isDotted e;
     isTriplet := isTriplet e; chordNotes := chordNotes e;
     lastNoteTime := t |}.

Definition getDurationWithModifiers (e : Engine) : DurationSpec :=
  if isDotted e then Dotted (currentDuration e) 1 else Plain (currentDuration e).

Definition createNote (pitch : string) (accidental : option AccidentalMark)
    (e : Engine) : ProcessedInput :=
  type_note
    {| note_pitch := pitch;
       note_duration := getDurationWithModifiers e;
       note_accidental := accidental;
       note_tuplet := if isTriplet e then Some "triplet" else None |}.

Definition createRest (e : Engine) : ProcessedInput :=
  type_rest (getDurationWithModifiers e).

Definition createBarline : ProcessedInput :=
  type_control (data_element (EBarline (Some "single"))).

Definition completeChord (e : Engine) : ProcessedInput * Engine :=
  if Nat.eqb (length (chordNotes e)) 0
  then (type_invalid "No notes in chord", e)
  else
    (type_chord {| chord_pitches := chordNotes e;
                   chord_duration := getDurationWithModifiers e |},
     set_chordNotes [] e).

Definition changeOctave (delta : Z) (e : Engine) : ProcessedInput * Engine :=
  let newOctave := currentOctave e + delta in
  if (0 <=? newOctave) && (newOctave <=? 8)
  then (type_modifier (data_octave newOctave), set_octave newOctave e)
  else (type_invalid "Octave out of range", e).

(** [None] is the [null] a [process...] method returns when the key is not
    its own. *)
Definition processControlCommand (input : KeyboardInput) (e : Engine)
    : option ProcessedInput * Engine :=
  match truthy_lookup (controls (keyMappings e)) (key_of input) with
  | None => (None, e)
  | Some control =>
      if String.eqb control "commit" then
        (Some (type_control (data_action "commit")), e)
      else if String.eqb control "rest" then
        (Some (createRest e), e)
      else if String.eqb control "delete" then
        (Some (type_control (data_action "delete")), e)
      else if String.eqb control "barline" then
        (Some createBarline, e)
      else if String.eqb control "clear" then
        (Some (type_control (data_action "clear")), e)
      else if String.eqb control "octave-up" then
        let '(r, e') := changeOctave 1 e in (Some r, e')
      else if String.eqb control "octave-down" then
        let '(r, e') := changeOctave (-1) e in (Some r, e')
      else if String.eqb control "octave-reset" then
        (Some (type_modifier (data_octave 4)), set_octave 4 e)
      else if String.eqb control "add-dot" then
        let e' := set_dotted (negb (isDotted e)) e in
        (Some (type_modifier (data_dotted (isDotted e'))), e')
      else if String.eqb control "toggle-triplet" then
        let e' := set_triplet (negb (isTriplet e)) e in
        (Some (type_modifier (data_triplet (isTriplet e'))), e')
      else if String.eqb control "undo" then
        if ctrlKey input
        then (Some (type_control (data_action "undo")), e)
        else (None, e)
      else if String.eqb control "redo" then
        if ctrlKey input
        then (Some (type_control (data_action "redo")), e)
        else (None, e)
      else (None, e)
  end.

Definition processDurationChange (input : KeyboardInput) (e : Engine)
    : option ProcessedInput * Engine :=
  match truthy_lookup (durations (keyMappings e)) (key_of input) with
  | None => (None, e)
  | Some duration =>
      (* Handle special duration mappings *)
      let e' :=
        if String.eqb duration "dotted-quarter" then set_duration "quarter" true false e
        else if String.eqb duration "triplet-eighth" then set_duration "eighth" false true e
        else set_duration duration false false e in
      (Some (type_modifier
               (data_duration (currentDuration e') (isDotted e') (isTriplet e'))), e')
  end.

Definition processArticulation (input : KeyboardInput) (e : Engine)
    : option ProcessedInput :=
  match truthy_lookup (articulations (keyMappings e)) (key_of input) with
  | None => None
  | Some articulation => Some (type_modifier (data_articulation articulation))
  end.

Definition processDynamic (input : KeyboardInput) (e : Engine)
    : option ProcessedInput :=
  match truthy_lookup (dynamics (keyMappings e)) (key_of input) with
  | None => None
  | Some dynamic => Some (type_modifier (data_dynamic dynamic))
  end.

Definition accidental_of_input (input : KeyboardInput) : option AccidentalMark :=
  if shiftKey input then Some sharp
  else if altKey input then Some flat
  else None.

Definition processNoteInput (now : Z) (input : KeyboardInput) (e : Engine)
    : option ProcessedInput * Engine :=
  match truthy_lookup (pitches (keyMappings e)) (toLowerCase (key_of input)) with
  | None => (None, e)
  | Some note =>
      let accidental := accidental_of_input input in
      let pitch := formatPitch note accidental (currentOctave e) in
      (* Check for chord mode initiation *)
      if ctrlKey input
      then (Some (type_control (data_action "enter-chord-mode")),
            set_lastNoteTime now (set_chordNotes [pitch] e))
      else (Some (createNote pitch accidental e), e)
  end.

Definition processChordNote (now : Z) (input : KeyboardInput) (e : Engine)
    : ProcessedInput * Engine :=
  (* Check for chord completion *)
  if String.eqb (key_of input) "Enter" then completeChord e
  else
    (* Add note to chord *)
    match truthy_lookup (pitches (keyMappings e)) (toLowerCase (key_of input)) with
    | Some note =>
        let accidental := accidental_of_input input in
        let pitch := formatPitch note accidental (currentOctave e) in
        let e1 :=
          if includes (chordNotes e) pitch then e
          else set_chordNotes (chordNotes e ++ [pitch]) e in
        let e2 := set_lastNoteTime now e1 in
        (type_modifier (data_chordNotes (chordNotes e2)), e2)
    | None => (type_invalid "Invalid chord note input", e)
    end.

Definition is_stopped_or_error (mode : InputMode) : bool :=
  match mode with STOPPED | ERROR => true | _ => false end.

Definition is_chord_mode (mode : InputMode) : bool :=
  match mode with CHORD_MODE => true | _ => false end.

Definition processKeyInput (now : Z) (input : KeyboardInput) (mode : InputMode)
    (e : Engine) : ProcessedInput * Engine :=
  (* Don't process in stopped or error mode *)
  if is_stopped_or_error mode
  then (type_invalid "Input not accepted in current mode", e)
  else
    (* Check for control commands first *)
    match processControlCommand input e with
    | (Some controlResult, e1) => (controlResult, e1)
    | (None, e1) =>
        (* Check for chord mode *)
        if is_chord_mode mode && negb (ctrlKey input)
        then processChordNote now input e1
        else
          (* Check for duration change *)
          match processDurationChange input e1 with
          | (Some durationResult, e2) => (durationResult, e2)
          | (None, e2) =>
              match processArticulation input e2 with
              | Some articulationResult => (articulationResult, e2)
              | None =>
                  match processDynamic input e2 with
                  | Some dynamicResult => (dynamicResult, e2)
                  | None =>
                      (* Process note input *)
                      match processNoteInput now input e2 with
                      | (Some noteResult, e3) => (noteResult, e3)
                      | (None, e3) => (type_invalid "Unrecognized input", e3)
                      end
                  end
              end
          end
    end.

Record EngineSnapshot := {
  snap_duration : Duration;
  snap_octave : Z;
  snap_isDotted : bool;
  snap_isTriplet : bool;
  snap_chordNotes : list string
}.

Definition getCurrentState (e : Engine) : EngineSnapshot :=
  {| snap_duration := currentDuration e; snap_octave := currentOctave e;
     snap_isDotted := isDotted e; snap_isTriplet := isTriplet e;
     snap_chordNotes := chordNotes e |}.

Definition reset (e : Engine) : Engine :=
  {| keyMappings := keyMappings e; currentDuration := "quarter";
     currentOctave := 4; isDotted := false; isTriplet := false;
     chordNotes := []; lastNoteTime := lastNoteTime e |}.

Definition isChordModeActive (e : Engine) : bool :=
  (0 <? length (chordNotes e))%nat.

(** [checkChordModeTimeout(timeoutMs)], called at instant [now], for a
    timeout that is an integer. *)
Definition checkChordModeTimeout (now : Z) (timeoutMs : Z) (e : Engine) : bool :=
  if Nat.eqb (length (chordNotes e)) 0 then false
  else
    let elapsed := now - lastNoteTime e in
    if timeoutMs <? elapsed
    then (* Auto-complete chord due to timeout *) true
    else false.

(** Feeding a sequence of key events, each with its instant and the mode
    the caller passes; the results are returned in order. *)
Fixpoint processAll (events : list (Z * KeyboardInput * InputMode)) (e : Engine)
    : list ProcessedInput * Engine :=
  match events with
  | [] => ([], e)
  | (now, input, mode) :: rest =>
      let '(r, e1) := processKeyInput now input mode e in
      let '(rs, e2) := processAll rest e1 in
      (r :: rs, e2)
  end.

End ShortcutEngine.

(** ** The fragment manager with its objects

    The same class once more, this time with the objects it builds and
    hands out.  A heap holds the objects; a reference is an address in it.
    Element objects, the two signature objects, metadata objects, element
    arrays and fragment objects are cells of the heap, and a fragment object
    holds references to its parts.  A spread ([{ ...x }], [[...a]]) makes a
    new object whose fields hold the same references as the fields of [x].
    Reading through a reference that holds no object of the expected kind is
    the [TypeError] result [None]. *)

Module Objects.
Import JS Musical MusicalHelpers Validation.

Abbreviation ref := nat (only parsing).

Record FragmentObject := {
  o_id : string;
  o_timestamp : string;
  o_timeSignature : ref;
  o_keySignature : ref;
  o_tempo : float;
  o_elements : ref;
  o_metadata : ref
}.

Inductive cell :=
| cell_element (e : MusicalElement)
| cell_array (items : list ref)
| cell_metadata (m : FragmentMetadata)
| cell_timeSignature (ts : TimeSig)
| cell_keySignature (ks : KeySig)
| cell_fragment (f : FragmentObject).

Abbreviation heap := (list cell) (only parsing).

(** A new object goes to the first free address. *)
Definition alloc (c : cell) (h : heap) : ref * heap := (length h, h ++ [c]).

(** Assigning to the fields of the object at [a]. *)
Definition write (a : ref) (c : cell) (h : heap) : heap := <[a := c]> h.

Definition get_element (h : heap) (a : ref) : option MusicalElement :=
  match h !! a with Some (cell_element e) => Some e | _ => None end.

Definition get_array (h : heap) (a : ref) : option (list ref) :=
  match h !! a with Some (cell_array items) => Some items | _ => None end.

Definition get_metadata (h : heap) (a : ref) : option FragmentMetadata :=
  match h !! a with Some (cell_metadata m) => Some m | _ => None end.

Definition get_timeSignature (h : heap) (a : ref) : option TimeSig :=
  match h !! a with Some (cell_timeSignature ts) => Some ts | _ => None end.

Definition get_keySignature (h : heap) (a : ref) : option KeySig :=
  match h !! a with Some (cell_keySignature ks) => Some ks | _ => None end.

Definition get_fragment (h : heap) (a : ref) : option FragmentObject :=
  match h !! a with Some (cell_fragment f) => Some f | _ => None end.

Definition read_elements (h : heap) (items : list ref) : option (list MusicalElement) :=
  mapM (get_element h) items.

Definition with_parts (elements metadata : ref) (f : FragmentObject) : FragmentObject :=
  {| o_id := o_id f; o_timestamp := o_timestamp f;
     o_timeSignature := o_timeSignature f; o_keySignature := o_keySignature f;
     o_tempo := o_tempo f; o_elements := elements; o_metadata := metadata |}.

Definition with_header (ts ks : ref) (tempo : float) (f : FragmentObject) : FragmentObject :=
  {| o_id := o_id f; o_timestamp := o_timestamp f;
     o_timeSignature := ts; o_keySignature := ks;
     o_tempo := tempo; o_elements := o_elements f; o_metadata := o_metadata f |}.

Definition with_timestamp (t : string) (f : FragmentObject) : FragmentObject :=
  {| o_id := o_id f; o_timestamp := t;
     o_timeSignature := o_timeSignature f; o_keySignature := o_keySignature f;
     o_tempo := o_tempo f; o_elements := o_elements f; o_metadata := o_metadata f |}.

(** [{ ...x, elements: [...x.elements], metadata: { ...x.metadata } }] for
    the fragment object [x] at [src]: three new objects; the elements and
    the signatures are the ones of [x]. *)
Definition copy_fragment (src : ref) (h : heap) : option (ref * heap) :=
  f ← get_fragment h src;
  items ← get_array h (o_elements f);
  md ← get_metadata h (o_metadata f);
  let '(a, h1) := alloc (cell_array items) h in
  let '(b, h2) := alloc (cell_metadata md) h1 in
  Some (alloc (cell_fragment (with_parts a b f)) h2).

Record Entry := {
  e_fragment : ref;
  e_timestamp : Z;
  e_action : FragmentManager.Action
}.

Record Manager := {
  currentFragment : ref;
  history : list Entry;
  historyIndex : Z;
  maxHistorySize : Z;
  committedFragments : list ref
}.

Definition with_current (r : ref) (m : Manager) : Manager :=
  {| currentFragment := r; history := history m; historyIndex := historyIndex m;
     maxHistorySize := maxHistorySize m; committedFragments := committedFragments m |}.

Definition with_history (hs : list Entry) (i : Z) (m : Manager) : Manager :=
  {| currentFragment := currentFragment m; history := hs; historyIndex := i;
     maxHistorySize := maxHistorySize m; committedFragments := committedFragments m |}.

Section Methods.
Context `{Runtime}.

Definition createEmptyFragment (now : Z) (ts ks : ref) (tempo : float) (h : heap)
    : ref * heap :=
  let '(a, h1) := alloc (cell_array []) h in
  let '(b, h2) := alloc (cell_metadata {| measures := 0; totalDuration := "0" |}) h1 in
  alloc (cell_fragment
           {| o_id := ("fragment_" ++ string_of_Z now)%string;
              o_timestamp := Date_toISOString now;
              o_timeSignature := ts; o_keySignature := ks; o_tempo := tempo;
              o_elements := a; o_metadata := b |}) h2.

Definition getCurrentFragment (m : Manager) (h : heap) : option (ref * heap) :=
  copy_fragment (currentFragment m) h.

Definition saveToHistory (now : Z) (a : FragmentManager.Action) (m : Manager) (h : heap)
    : option (Manager * heap) :=
  let history1 :=
    if historyIndex m <? FragmentManager.len (history m) - 1
    then FragmentManager.slice0 (history m) (historyIndex m + 1)
    else history m in
  '(r, h1) ← copy_fragment (currentFragment m) h;
  let entry := {| e_fragment := r; e_timestamp := now; e_action := a |} in
  let history2 := history1 ++ [entry] in
  let index2 := historyIndex m + 1 in
  if maxHistorySize m <? FragmentManager.len history2
  then Some (with_history (tail history2) (index2 - 1) m, h1)
  else Some (with_history history2 index2 m, h1).

Definition updateMetadata (m : Manager) (h : heap) : option heap :=
  f ← get_fragment h (currentFragment m);
  items ← get_array h (o_elements f);
  es ← read_elements h items;
  ts ← get_timeSignature h (o_timeSignature f);
  let '(b, h1) :=
    alloc (cell_metadata {| measures := countMeasures es;
                            totalDuration := calculateFragmentDuration es ts |}) h in
  Some (write (currentFragment m) (cell_fragment (with_parts (o_elements f) b f)) h1).

(** The constructor receives, or builds by default, the two signature
    objects. *)
Definition constructor (now : Z) (maxHistorySize : Z) (ts : TimeSig) (ks : KeySig)
    (tempo : float) : option (Manager * heap) :=
  let '(t, h1) := alloc (cell_timeSignature ts) [] in
  let '(k, h2) := alloc (cell_keySignature ks) h1 in
  let '(r, h3) := createEmptyFragment now t k tempo h2 in
  saveToHistory now FragmentManager.act_clear
    {| currentFragment := r; history := []; historyIndex := -1;
       maxHistorySize := maxHistorySize; committedFragments := [] |} h3.

(** [addElement(element)], where [element] is the caller's object. *)
Definition addElement (now : Z) (element : ref) (m : Manager) (h : heap)
    : option (FragmentManager.AddResult * Manager * heap) :=
  e ← get_element h element;
  f ← get_fragment h (currentFragment m);
  items ← get_array h (o_elements f);
  es ← read_elements h items;
  let validationErrors := validateMusicalElement e in
  if (0 <? length validationErrors)%nat
  then Some (FragmentManager.success_false
               (Some (FragmentManager.join_errors validationErrors)), m, h)
  else
    match canAddElementToFragment e es with
    | Invalid reason => Some (FragmentManager.success_false (Some reason), m, h)
    | Valid =>
        let h1 := write (o_elements f) (cell_array (items ++ [element])) h in
        h2 ← updateMetadata m h1;
        '(m', h3) ← saveToHistory now FragmentManager.act_add m h2;
        Some (FragmentManager.success_true, m', h3)
    end.

Definition deleteLastElement (now : Z) (m : Manager) (h : heap)
    : option (option ref * Manager * heap) :=
  f ← get_fragment h (currentFragment m);
  items ← get_array h (o_elements f);
  match last items with
  | None => Some (None, m, h)
  | Some deleted =>
      let h1 := write (o_elements f) (cell_array (removelast items)) h in
      h2 ← updateMetadata m h1;
      '(m', h3) ← saveToHistory now FragmentManager.act_delete m h2;
      Some (Some deleted, m', h3)
  end.

Definition deleteElementAt (now : Z) (i : Z) (m : Manager) (h : heap)
    : option (option ref * Manager * heap) :=
  f ← get_fragment h (currentFragment m);
  items ← get_array h (o_elements f);
  if (i <? 0) || (FragmentManager.len items <=? i) then Some (None, m, h)
  else
    match items !! Z.to_nat i with
    | None => Some (None, m, h)
    | Some deleted =>
        let h1 := write (o_elements f)
                    (cell_array (take (Z.to_nat i) items ++ drop (S (Z.to_nat i)) items)) h in
        h2 ← updateMetadata m h1;
        '(m', h3) ← saveToHistory now FragmentManager.act_delete m h2;
        Some (Some deleted, m', h3)
    end.

Definition clear (now : Z) (m : Manager) (h : heap) : option (Manager * heap) :=
  f ← get_fragment h (currentFragment m);
  let '(r, h1) :=
    createEmptyFragment now (o_timeSignature f) (o_keySignature f) (o_tempo f) h in
  saveToHistory now FragmentManager.act_clear (with_current r m) h1.

Definition undo (m : Manager) (h : heap) : option (bool * Manager * heap) :=
  if historyIndex m <=? 0 then Some (false, m, h)
  else
    let i := historyIndex m - 1 in
    entry ← FragmentManager.index (history m) i;
    '(r, h1) ← copy_fragment (e_fragment entry) h;
    Some (true, with_current r (with_history (history m) i m), h1).

Definition redo (m : Manager) (h : heap) : option (bool * Manager * heap) :=
  if FragmentManager.len (history m) - 1 <=? historyIndex m then Some (false, m, h)
  else
    let i := historyIndex m + 1 in
    entry ← FragmentManager.index (history m) i;
    '(r, h1) ← copy_fragment (e_fragment entry) h;
    Some (true, with_current r (with_history (history m) i m), h1).

Definition commit (now : Z) (m : Manager) (h : heap) : option (ref * Manager * heap) :=
  '(committed, h1) ← getCurrentFragment m h;
  c ← get_fragment h1 committed;
  let h2 := write committed (cell_fragment (with_timestamp (Date_toISOString now) c)) h1 in
  f ← get_fragment h2 (currentFragment m);
  let '(r, h3) :=
    createEmptyFragment now (o_timeSignature f) (o_keySignature f) (o_tempo f) h2 in
  '(m', h4) ← saveToHistory now FragmentManager.act_clear
       {| currentFragment := r; history := []; historyIndex := -1;
          maxHistorySize := maxHistorySize m;
          committedFragments := committedFragments m ++ [committed] |} h3;
  Some (committed, m', h4).

Definition setTimeSignature (now : Z) (n d : float) (m : Manager) (h : heap)
    : option (Manager * heap) :=
  f ← get_fragment h (currentFragment m);
  let '(t, h1) := alloc (cell_timeSignature {| numerator := n; denominator := d |}) h in
  let h2 := write (currentFragment m)
              (cell_fragment (with_header t (o_keySignature f) (o_tempo f) f)) h1 in
  h3 ← updateMetadata m h2;
  saveToHistory now FragmentManager.act_modify m h3.

Definition setKeySignature (now : Z) (key mode : string) (m : Manager) (h : heap)
    : option (Manager * heap) :=
  f ← get_fragment h (currentFragment m);
  let '(k, h1) := alloc (cell_keySignature {| key := key; mode := mode |}) h in
  let h2 := write (currentFragment m)
              (cell_fragment (with_header (o_timeSignature f) k (o_tempo f) f)) h1 in
  saveToHistory now FragmentManager.act_modify m h2.

Definition setTempo (now : Z) (bpm : float) (m : Manager) (h : heap)
    : option (Manager * heap) :=
  f ← get_fragment h (currentFragment m);
  let h1 := write (currentFragment m)
              (cell_fragment (with_header (o_timeSignature f) (o_keySignature f) bpm f)) h in
  saveToHistory now FragmentManager.act_modify m h1.

End Methods.

(** The calls of a client.  The client builds the element objects it adds;
    [getCurrentFragment] leaves the manager as it is and allocates the
    copy.  The last three are what a client can do on its own to the objects
    it shares with the manager: assign to the fields of an element object or
    of a signature object it holds. *)
Inductive Call :=
| call_new_element (e : MusicalElement)
| call_addElement (element : ref)
| call_deleteLastElement
| call_clear
| call_undo
| call_redo
| call_commit
| call_setTimeSignature (n d : float)
| call_setKeySignature (key mode : string)
| call_setTempo (bpm : float)
| call_getCurrentFragment
| call_deleteElementAt (i : Z)
| client_assigns_element (a : ref) (e : MusicalElement)
| client_assigns_timeSignature (a : ref) (ts : TimeSig)
| client_assigns_keySignature (a : ref) (ks : KeySig).

Definition step `{Runtime} (now : Z) (c : Call) (m : Manager) (h : heap)
    : option (Manager * heap) :=
  match c with
  | call_new_element e => Some (m, snd (alloc (cell_element e) h))
  | call_addElement element =>
      (fun r => (snd (fst r), snd r)) <$> addElement now element m h
  | call_deleteLastElement =>
      (fun r => (snd (fst r), snd r)) <$> deleteLastElement now m h
  | call_clear => clear now m h
  | call_undo => (fun r => (snd (fst r), snd r)) <$> undo m h
  | call_redo => (fun r => (snd (fst r), snd r)) <$> redo m h
  | call_commit => (fun r => (snd (fst r), snd r)) <$> commit now m h
  | call_setTimeSignature n d => setTimeSignature now n d m h
  | call_setKeySignature key mode => setKeySignature now key mode m h
  | call_setTempo bpm => setTempo now bpm m h
  | call_getCurrentFragment => (fun r => (m, snd r)) <$> getCurrentFragment m h
  | call_deleteElementAt i =>
      (fun r => (snd (fst r), snd r)) <$> deleteElementAt now i m h
  | client_assigns_element a e =>
      _ ← get_element h a; Some (m, write a (cell_element e) h)
  | client_assigns_timeSignature a ts =>
      _ ← get_timeSignature h a; Some (m, write a (cell_timeSignature ts) h)
  | client_assigns_keySignature a ks =>
      _ ← get_keySignature h a; Some (m, write a (cell_keySignature ks) h)
  end.

Fixpoint run `{Runtime} (calls : list (Z * Call)) (m : Manager) (h : heap)
    : option (Manager * heap) :=
  match calls with
  | [] => Some (m, h)
  | (now, c) :: rest =>
      match step now c m h with
      | Some (m', h') => run rest m' h'
      | None => None
      end
  end.

(** *** What a reference stands for

    The fragment read through a reference, with the contents of all its
    parts, and the contents of the whole history. *)

Definition view_fragment (h : heap) (r : ref) : option MusicalFragment :=
  f ← get_fragment h r;
  items ← get_array h (o_elements f);
  es ← read_elements h items;
  md ← get_metadata h (o_metadata f);
  ts ← get_timeSignature h (o_timeSignature f);
  ks ← get_keySignature h (o_keySignature f);
  Some {| id := o_id f; timestamp := o_timestamp f; timeSignature := ts;
          keySignature := ks; tempo := o_tempo f; elements := es; metadata := md |}.

Definition view_history (h : heap) (m : Manager) : option (list MusicalFragment) :=
  mapM (fun entry => view_fragment h (e_fragment entry)) (history m).

(** The canonical state: the working fragment and the snapshots. *)
Definition view (h : heap) (m : Manager)
    : option (MusicalFragment * list MusicalFragment) :=
  cur ← view_fragment h (currentFragment m);
  snaps ← view_history h m;
  Some (cur, snaps).

(** *** Well-formed heaps *)

Inductive kind :=
| k_element | k_array | k_metadata | k_timeSignature | k_keySignature | k_fragment.

Definition kind_of (c : cell) : kind :=
  match c with
  | cell_element _ => k_element
  | cell_array _ => k_array
  | cell_metadata _ => k_metadata
  | cell_timeSignature _ => k_timeSignature
  | cell_keySignature _ => k_keySignature
  | cell_fragment _ => k_fragment
  end.

(** The address [a] holds an object of kind [k]. *)
Definition holds (h : heap) (a : ref) (k : kind) : Prop :=
  kind_of <$> h !! a = Some k.

(** The references inside an object lead to objects of the right kind. *)
Definition cell_ok (h : heap) (c : cell) : Prop :=
  match c with
  | cell_array items => Forall (fun r => holds h r k_element) items
  | cell_fragment f =>
      holds h (o_elements f) k_array /\ holds h (o_metadata f) k_metadata
      /\ holds h (o_timeSignature f) k_timeSignature
      /\ holds h (o_keySignature f) k_keySignature
  | _ => True
  end.

Definition heap_ok (h : heap) : Prop :=
  forall a c, h !! a = Some c -> cell_ok h c.

Definition manager_ok (h : heap) (m : Manager) : Prop :=
  holds h (currentFragment m) k_fragment
  /\ Forall (fun entry => holds h (e_fragment entry) k_fragment) (history m)
  /\ Forall (fun r => holds h r k_fragment) (committedFragments m).

Definition state_ok (h : heap) (m : Manager) : Prop :=
  heap_ok h /\ manager_ok h m.

(** [h'] has every object of [h], of the same kind. *)
Definition extends (h h' : heap) : Prop :=
  forall a k, holds h a k -> holds h' a k.

(** [h'] is [h] below the address [n]: what differs was allocated at [n] or
    after. *)
Definition agree_below (n : nat) (h h' : heap) : Prop :=
  forall a, (a < n)%nat -> h' !! a = h !! a.

(** A series of assignments to fields of objects. *)
Definition write_all (ws : list (ref * cell)) (h : heap) : heap :=
  fold_left (fun h w => write (fst w) (snd w) h) ws h.

End Objects.

(** ** src/core/EventEmitter.ts

    A listener is a function, kept and compared by identity: it is known
    here by a number.  The [Set] of the listeners of an event type is the
    list of its members in the order in which they were added, the order in
    which [forEach] visits them.  [emit] is given the type of the event and
    answers the listeners it calls, in the order of the calls: a listener
    that throws is caught and the next one is called all the same.
    Listeners that call [on], [off] or [removeAllListeners] while an event
    is being delivered are outside this model. *)

Module EventEmitter.

Definition Listener := nat.

(** The class has one field, a [Map<string, Set<EventListener>>]. *)
Record State := { listeners : gmap string (list Listener) }.

Definition new : State := {| listeners := ∅ |}.

(** [Set.prototype.add] and [Set.prototype.delete]. *)
Definition Set_add (x : Listener) (set : list Listener) : list Listener :=
  if decide (x ∈ set) then set else set ++ [x].

Definition Set_delete (x : Listener) (set : list Listener) : list Listener :=
  filter (fun y => y <> x) set.

Definition on (eventType : string) (listener : Listener) (s : State) : State :=
  match listeners s !! eventType with
  | None => {| listeners := <[eventType := Set_add listener []]> (listeners s) |}
  | Some set => {| listeners := <[eventType := Set_add listener set]> (listeners s) |}
  end.

Definition off (eventType : string) (listener : Listener) (s : State) : State :=
  match listeners s !! eventType with
  | Some set =>
      let set' := Set_delete listener set in
      if Nat.eqb (length set') 0
      then {| listeners := delete eventType (listeners s) |}
      else {| listeners := <[eventType := set']> (listeners s) |}
  | None => s
  end.

Definition emit (eventType : string) (s : State) : list Listener :=
  match listeners s !! eventType with
  | Some set => set
  | None => []
  end.

(** [removeAllListeners(eventType?)]: [None] is a call without argument;
    the empty string is falsy and clears every type as well. *)
Definition removeAllListeners (eventType : option string) (s : State) : State :=
  match eventType with
  | Some t =>
      if String.eqb t "" then {| listeners := ∅ |}
      else {| listeners := delete t (listeners s) |}
  | None => {| listeners := ∅ |}
  end.

Definition hasListeners (eventType : string) (s : State) : bool :=
  match listeners s !! eventType with
  | Some set => (0 <? length set)%nat
  | None => false
  end.

End EventEmitter.

(** ** src/core/NotationCapture.ts: the commit flow

    The orchestrator is modelled as far as [commit] goes: the fragment
    manager it owns, the notifications it has emitted, the fragments it has
    handed to the preview renderer and those it has handed to the injected
    [onFragmentCommit] handler.  The handler is a function that answers
    [None] when it completes and [Some error] when it throws or rejects;
    awaiting it is a call. *)

Module NotationCapture.
Import JS Musical.

Inductive NotationEvent :=
| event_error (code message : string)
| event_fragmentCommitted (fragment : MusicalFragment)
| event_previewUpdated (fragment : MusicalFragment).

Record State := {
  fragmentManager : FragmentManager.State;
  emitted : list NotationEvent;
  rendered : list MusicalFragment;
  delivered : list MusicalFragment
}.

Definition CommitHandler := MusicalFragment -> option string.

Definition emit (ev : NotationEvent) (nc : State) : State :=
  {| fragmentManager := fragmentManager nc;
     emitted := emitted nc ++ [ev];
     rendered := rendered nc;
     delivered := delivered nc |}.

Definition emitError (code message : string) (nc : State) : State :=
  emit (event_error code message) nc.

Definition updatePreview (nc : State) : State :=
  let fragment := FragmentManager.getCurrentFragment (fragmentManager nc) in
  emit (event_previewUpdated fragment)
    {| fragmentManager := fragmentManager nc;
       emitted := emitted nc;
       rendered := rendered nc ++ [fragment];
       delivered := delivered nc |}.

Definition call_handler (onFragmentCommit : option CommitHandler)
    (fragment : MusicalFragment) (nc : State) : State :=
  match onFragmentCommit with
  | None => nc
  | Some handler =>
      let nc1 := {| fragmentManager := fragmentManager nc;
                    emitted := emitted nc;
                    rendered := rendered nc;
                    delivered := delivered nc ++ [fragment] |} in
      match handler fragment with
      | None => nc1
      | Some error =>
          emitError "COMMIT_HANDLER_ERROR" ("Commit handler failed: " ++ error)%string nc1
      end
  end.

Definition commit `{Runtime} (now : Z) (onFragmentCommit : option CommitHandler)
    (nc : State) : State :=
  if FragmentManager.isEmpty (fragmentManager nc)
  then emitError "EMPTY_FRAGMENT" "Cannot commit empty fragment" nc
  else
    let '(fragment, fm) := FragmentManager.commit now (fragmentManager nc) in
    let nc1 := {| fragmentManager := fm;
                  emitted := emitted nc;
                  rendered := rendered nc;
                  delivered := delivered nc |} in
    let nc2 := emit (event_fragmentCommitted fragment) nc1 in
    (* Call user's commit handler *)
    let nc3 := call_handler onFragmentCommit fragment nc2 in
    updatePreview nc3.

End NotationCapture.

(** ** src/core/NotationCapture.ts: the class and what surrounds it

    The state of the object, with what it has attached to the page and what
    it has told the outside.  The class reads from its private configuration
    manager the key mappings, [behavior.undoHistorySize],
    [behavior.chordModeTimeout] and [rendering.highlightCurrentElement];
    nothing changes the last three after the construction, and they are
    the [Settings], taken to be integers where they are numbers.  Key
    mappings are the typed object of the options, ['default'] being [None].

    The page is seen through the number of [keydown] handlers the object
    has on [document] and through the timeouts that are pending, known by
    their handles.  The preview renderer is seen through the calls made to
    it.  Each function below runs as one task, at the instant [now]:
    awaiting the commit handler is a call that answers [None] when the
    handler completes and [Some error] when it throws or rejects.  The
    loading of the renderer adapter, which the constructor starts, and
    listeners that call back into the object while an event is delivered
    are outside this model. *)

Module CaptureSession.
Import JS Musical Config.

Record Settings := {
  undoHistorySize : Z;
  chordModeTimeout : Z;
  highlightCurrentElement : bool;
  onFragmentCommit : option (MusicalFragment -> option string)
}.

(** The events of [types/events.ts] the class emits; an error event carries
    the code and the message of its [NotationError], whose other fields are
    constant. *)
Inductive NotationEvent :=
| noteAdded (note : Note) (index : Z)
| elementDeleted (element : MusicalElement) (index : Z)
| fragmentCleared
| fragmentCommitted (fragment : MusicalFragment)
| modeChanged (previousMode newMode : InputMode)
| error (code message : string)
| previewUpdated (fragment : MusicalFragment)
| modifierChanged (modifier : ShortcutEngine.ModifierData).

Definition event_type (ev : NotationEvent) : string :=
  match ev with
  | noteAdded _ _ => "noteAdded"
  | elementDeleted _ _ => "elementDeleted"
  | fragmentCleared => "fragmentCleared"
  | fragmentCommitted _ => "fragmentCommitted"
  | modeChanged _ _ => "modeChanged"
  | error _ _ => "error"
  | previewUpdated _ => "previewUpdated"
  | modifierChanged _ => "modifierChanged"
  end.

(** The calls the class makes to its [PreviewRenderer]. *)
Inductive RendererCall :=
| preview_render (fragment : MusicalFragment)
| preview_highlight (index : Z)
| preview_clear
| preview_destroy.

(** What the [keydown] handler reads of a [KeyboardEvent]. *)
Record KeyboardEvent := {
  target_tagName : string;
  input_of : ShortcutEngine.KeyboardInput
}.

Record State := {
  mode : InputMode;
  shortcutEngine : ShortcutEngine.Engine;
  fragmentManager : FragmentManager.State;
  keyboardHandler : bool;  (* whether [this.keyboardHandler] holds a function *)
  chordModeTimer : option nat;  (* the handle [setTimeout] returned; [None] is [null] *)
  emitter : EventEmitter.State;  (* the inherited field [listeners] *)
  keydown_handlers : nat;  (* handlers of this object on [document] *)
  timeouts : list nat;  (* handles of the timeouts that are pending *)
  next_timeout : nat;  (* the handle the next [setTimeout] returns *)
  emitted : list NotationEvent;  (* the events passed to [emit], in order *)
  notified : list (EventEmitter.Listener * NotationEvent);  (* the calls made to listeners, in order *)
  preview : list RendererCall;  (* the calls made to the preview renderer *)
  delivered : list MusicalFragment  (* the fragments given to [onFragmentCommit] *)
}.

Definition set_mode (x : InputMode) (s : State) : State :=
  {| mode := x; shortcutEngine := shortcutEngine s;
     fragmentManager := fragmentManager s; keyboardHandler := keyboardHandler s;
     chordModeTimer := chordModeTimer s; emitter := emitter s;
     keydown_handlers := keydown_handlers s; timeouts := timeouts s;
     next_timeout := next_timeout s; emitted := emitted s; notified := notified s;
     preview := preview s; delivered := delivered s |}.

Definition set_shortcutEngine (x : ShortcutEngine.Engine) (s : State) : State :=
  {| mode := mode s; shortcutEngine := x; fragmentManager := fragmentManager s;
     keyboardHandler := keyboardHandler s; chordModeTimer := chordModeTimer s;
     emitter := emitter s; keydown_handlers := keydown_handlers s;
     timeouts := timeouts s; next_timeout := next_timeout s; emitted := emitted s;
     notified := notified s; preview := preview s; delivered := delivered s |}.

Definition set_fragmentManager (x : FragmentManager.State) (s : State) : State :=
  {| mode := mode s; shortcutEngine := shortcutEngine s; fragmentManager := x;
     keyboardHandler := keyboardHandler s; chordModeTimer := chordModeTimer s;
     emitter := emitter s; keydown_handlers := keydown_handlers s;
     timeouts := timeouts s; next_timeout := next_timeout s; emitted := emitted s;
     notified := notified s; preview := preview s; delivered := delivered s |}.

Definition set_keyboardHandler (x : bool) (s : State) : State :=
  {| mode := mode s; shortcutEngine := shortcutEngine s;
     fragmentManager := fragmentManager s; keyboardHandler := x;
     chordModeTimer := chordModeTimer s; emitter := emitter s;
     keydown_handlers := keydown_handlers s; timeouts := timeouts s;
     next_timeout := next_timeout s; emitted := emitted s; notified := notified s;
     preview := preview s; delivered := delivered s |}.

Definition set_chordModeTimer (x : option nat) (s : State) : State :=
  {| mode := mode s; shortcutEngine := shortcutEngine s;
     fragmentManager := fragmentManager s; keyboardHandler := keyboardHandler s;
     chordModeTimer := x; emitter := emitter s; keydown_handlers := keydown_handlers s;
     timeouts := timeouts s; next_timeout := next_timeout s; emitted := emitted s;
     notified := notified s; preview := preview s; delivered := delivered s |}.

Definition set_emitter (x : EventEmitter.State) (s : State) : State :=
  {| mode := mode s; shortcutEngine := shortcutEngine s;
     fragmentManager := fragmentManager s; keyboardHandler := keyboardHandler s;
     chordModeTimer := chordModeTimer s; emitter := x;
     keydown_handlers := keydown_handlers s; timeouts := timeouts s;
     next_timeout := next_timeout s; emitted := emitted s; notified := notified s;
     preview := preview s; delivered := delivered s |}.

Definition set_keydown_handlers (x : nat) (s : State) : State :=
  {| mode := mode s; shortcutEngine := shortcutEngine s;
     fragmentManager := fragmentManager s; keyboardHandler := keyboardHandler s;
     chordModeTimer := chordModeTimer s; emitter := emitter s; keydown_handlers := x;
     timeouts := timeouts s; next_timeout := next_timeout s; emitted := emitted s;
     notified := notified s; preview := preview s; delivered := delivered s |}.

Definition set_timeouts (x : list nat) (s : State) : State :=
  {| mode := mode s; shortcutEngine := shortcutEngine s;
     fragmentManager := fragmentManager s; keyboardHandler := keyboardHandler s;
     chordModeTimer := chordModeTimer s; emitter := emitter s;
     keydown_handlers := keydown_handlers s; timeouts := x;
     next_timeout := next_timeout s; emitted := emitted s; notified := notified s;
     preview := preview s; delivered := delivered s |}.

Definition set_next_timeout (x : nat) (s : State) : State :=
  {| mode := mode s; shortcutEngine := shortcutEngine s;
     fragmentManager := fragmentManager s; keyboardHandler := keyboardHandler s;
     chordModeTimer := chordModeTimer s; emitter := emitter s;
     keydown_handlers := keydown_handlers s; timeouts := timeouts s; next_timeout := x;
     emitted := emitted s; notified := notified s; preview := preview s;
     delivered := delivered s |}.

Definition set_emitted (x : list NotationEvent) (s : State) : State :=
  {| mode := mode s; shortcutEngine := shortcutEngine s;
     fragmentManager := fragmentManager s; keyboardHandler := keyboardHandler s;
     chordModeTimer := chordModeTimer s; emitter := emitter s;
     keydown_handlers := keydown_handlers s; timeouts := timeouts s;
     next_timeout := next_timeout s; emitted := x; notified := notified s;
     preview := preview s; delivered := delivered s |}.

Definition set_notified (x : list (EventEmitter.Listener * NotationEvent)) (s : State) : State :=
  {| mode := mode s; shortcutEngine := shortcutEngine s;
     fragmentManager := fragmentManager s; keyboardHandler := keyboardHandler s;
     chordModeTimer := chordModeTimer s; emitter := emitter s;
     keydown_handlers := keydown_handlers s; timeouts := timeouts s;
     next_timeout := next_timeout s; emitted := emitted s; notified := x;
     preview := preview s; delivered := delivered s |}.

Definition set_preview (x : list RendererCall) (s : State) : State :=
  {| mode := mode s; shortcutEngine := shortcutEngine s;
     fragmentManager := fragmentManager s; keyboardHandler := keyboardHandler s;
     chordModeTimer := chordModeTimer s; emitter := emitter s;
     keydown_handlers := keydown_handlers s; timeouts := timeouts s;
     next_timeout := next_timeout s; emitted := emitted s; notified := notified s;
     preview := x; delivered := delivered s |}.

Definition set_delivered (x : list MusicalFragment) (s : State) : State :=
  {| mode := mode s; shortcutEngine := shortcutEngine s;
     fragmentManager := fragmentManager s; keyboardHandler := keyboardHandler s;
     chordModeTimer := chordModeTimer s; emitter := emitter s;
     keydown_handlers := keydown_handlers s; timeouts := timeouts s;
     next_timeout := next_timeout s; emitted := emitted s; notified := notified s;
     preview := preview s; delivered := x |}.

(** [clearTimeout(handle)]. *)
Definition clearTimeout (handle : nat) (pending : list nat) : list nat :=
  filter (fun h => h <> handle) pending.

(** [value || fallback] for an optional string. *)
Definition or_else (value : option string) (fallback : string) : string :=
  match value with
  | Some v => if String.eqb v "" then fallback else v
  | None => fallback
  end.

Definition Enter_input : ShortcutEngine.KeyboardInput :=
  {| ShortcutEngine.key_of := "Enter"; ShortcutEngine.shiftKey := false;
     ShortcutEngine.altKey := false; ShortcutEngine.ctrlKey := false;
     ShortcutEngine.metaKey := false |}.

Section Methods.
Context `{Runtime}.
Variable settings : Settings.

(** [new NotationCapture(options)], for a container that exists. *)
Definition constructor (now : Z) (keyMappings : option KeyMappings) : State :=
  {| mode := STOPPED;
     shortcutEngine :=
       ShortcutEngine.constructor (default DEFAULT_KEY_MAPPINGS keyMappings);
     fragmentManager :=
       FragmentManager.constructor now (undoHistorySize settings)
         {| numerator := 4%float; denominator := 4%float |}
         {| key := "C"; Musical.mode := "major" |} 120%float;
     keyboardHandler := false;
     chordModeTimer := None;
     emitter := EventEmitter.new;
     keydown_handlers := 0;
     timeouts := [];
     next_timeout := 1;
     emitted := [];
     notified := [];
     preview := [];
     delivered := [] |}.

(** [emit] of the base class: the event is passed to the listeners of its
    type. *)
Definition emit (ev : NotationEvent) (s : State) : State :=
  set_notified
    (notified s ++ map (fun l => (l, ev)) (EventEmitter.emit (event_type ev) (emitter s)))
    (set_emitted (emitted s ++ [ev]) s).

Definition changeMode (newMode : InputMode) (s : State) : State :=
  let previousMode := mode s in
  emit (modeChanged previousMode newMode) (set_mode newMode s).

Definition updatePreview (s : State) : State :=
  let fragment := FragmentManager.getCurrentFragment (fragmentManager s) in
  emit (previewUpdated fragment)
    (set_preview (preview s ++ [preview_render fragment]) s).

Definition highlightElement (index : Z) (s : State) : State :=
  if highlightCurrentElement settings
  then set_preview (preview s ++ [preview_highlight index]) s
  else s.

Definition emitError (code message : string) (s : State) : State :=
  emit (error code message) s.

Definition attachKeyboardListener (s : State) : State :=
  set_keydown_handlers (S (keydown_handlers s)) (set_keyboardHandler true s).

Definition detachKeyboardListener (s : State) : State :=
  if keyboardHandler s
  then set_keyboardHandler false (set_keydown_handlers (pred (keydown_handlers s)) s)
  else s.

Definition startChordModeTimer (s : State) : State :=
  let handle := next_timeout s in
  set_chordModeTimer (Some handle)
    (set_next_timeout (S handle) (set_timeouts (timeouts s ++ [handle]) s)).

Definition clearChordMode (s : State) : State :=
  let s1 :=
    match chordModeTimer s with
    | Some handle =>
        set_chordModeTimer None (set_timeouts (clearTimeout handle (timeouts s)) s)
    | None => s
    end in
  set_shortcutEngine (ShortcutEngine.reset (shortcutEngine s1)) s1.

Definition enterChordMode (s : State) : State :=
  startChordModeTimer (changeMode CHORD_MODE s).

Definition exitChordMode (s : State) : State :=
  changeMode CAPTURE (clearChordMode s).

Definition start (s : State) : State :=
  match mode s with
  | STOPPED => updatePreview (attachKeyboardListener (changeMode CAPTURE s))
  | _ => s
  end.

Definition stop (s : State) : State :=
  match mode s with
  | STOPPED => s
  | _ =>
      let s1 := clearChordMode (detachKeyboardListener (changeMode STOPPED s)) in
      set_preview (preview s1 ++ [preview_clear]) s1
  end.

Definition pause (s : State) : State :=
  match mode s with
  | CAPTURE | CHORD_MODE => clearChordMode (changeMode PAUSED s)
  | _ => s
  end.

Definition resume (s : State) : State :=
  match mode s with
  | PAUSED => changeMode CAPTURE s
  | _ => s
  end.

Definition clear (now : Z) (s : State) : State :=
  let s1 := set_fragmentManager (FragmentManager.clear now (fragmentManager s)) s in
  let s2 := set_shortcutEngine (ShortcutEngine.reset (shortcutEngine s1)) s1 in
  emit fragmentCleared (updatePreview s2).

Definition commit (now : Z) (s : State) : State :=
  if FragmentManager.isEmpty (fragmentManager s)
  then emitError "EMPTY_FRAGMENT" "Cannot commit empty fragment" s
  else
    let '(fragment, fm) := FragmentManager.commit now (fragmentManager s) in
    let s1 := emit (fragmentCommitted fragment) (set_fragmentManager fm s) in
    (* Call user's commit handler *)
    let s2 :=
      match onFragmentCommit settings with
      | Some handler =>
          let s' := set_delivered (delivered s1 ++ [fragment]) s1 in
          match handler fragment with
          | None => s'
          | Some failure =>
              emitError "COMMIT_HANDLER_ERROR"
                ("Commit handler failed: " ++ failure)%string s'
          end
      | None => s1
      end in
    updatePreview s2.

(** [undo] and [redo] throw when the manager's method throws. *)
Definition undo (s : State) : option State :=
  match FragmentManager.undo (fragmentManager s) with
  | None => None
  | Some (success, fm) =>
      let s1 := set_fragmentManager fm s in
      Some (if success then updatePreview s1 else s1)
  end.

Definition redo (s : State) : option State :=
  match FragmentManager.redo (fragmentManager s) with
  | None => None
  | Some (success, fm) =>
      let s1 := set_fragmentManager fm s in
      Some (if success then updatePreview s1 else s1)
  end.

Definition setTimeSignature (now : Z) (n d : float) (s : State) : State :=
  updatePreview
    (set_fragmentManager
       (FragmentManager.setTimeSignature now n d (fragmentManager s)) s).

Definition setKeySignature (now : Z) (k m : string) (s : State) : State :=
  updatePreview
    (set_fragmentManager
       (FragmentManager.setKeySignature now k m (fragmentManager s)) s).

Definition setTempo (now : Z) (bpm : float) (s : State) : State :=
  updatePreview
    (set_fragmentManager (FragmentManager.setTempo now bpm (fragmentManager s)) s).

(** [setKeyMapping(mappings)]: the configuration manager stores the
    mappings and hands them back, the default ones for ['default']. *)
Definition setKeyMapping (mappings : option KeyMappings) (s : State) : State :=
  set_shortcutEngine
    (ShortcutEngine.updateKeyMappings (default DEFAULT_KEY_MAPPINGS mappings)
       (shortcutEngine s)) s.

Definition addNote (now : Z) (note : Note) (s : State) : State :=
  let '(result, fm) := FragmentManager.addElement now (ENote note) (fragmentManager s) in
  let s1 := set_fragmentManager fm s in
  match result with
  | FragmentManager.success_true =>
      let index := Z.of_nat (FragmentManager.getElementCount fm) - 1 in
      highlightElement index (updatePreview (emit (noteAdded note index) s1))
  | FragmentManager.success_false failure =>
      emitError "ADD_NOTE_FAILED" (or_else failure "Failed to add note") s1
  end.

Definition addRest (now : Z) (rest : DurationSpec) (s : State) : State :=
  let '(result, fm) := FragmentManager.addElement now (ERest rest) (fragmentManager s) in
  let s1 := set_fragmentManager fm s in
  match result with
  | FragmentManager.success_true => updatePreview s1
  | FragmentManager.success_false failure =>
      emitError "ADD_REST_FAILED" (or_else failure "Failed to add rest") s1
  end.

Definition addChord (now : Z) (chord : Chord) (s : State) : State :=
  let '(result, fm) := FragmentManager.addElement now (EChord chord) (fragmentManager s) in
  let s1 := set_fragmentManager fm s in
  match result with
  | FragmentManager.success_true => exitChordMode (updatePreview s1)
  | FragmentManager.success_false failure =>
      emitError "ADD_CHORD_FAILED" (or_else failure "Failed to add chord") s1
  end.

Definition addElement (now : Z) (element : MusicalElement) (s : State) : State :=
  let '(result, fm) := FragmentManager.addElement now element (fragmentManager s) in
  let s1 := set_fragmentManager fm s in
  match result with
  | FragmentManager.success_true => updatePreview s1
  | FragmentManager.success_false failure =>
      emitError "ADD_ELEMENT_FAILED" (or_else failure "Failed to add element") s1
  end.

Definition deleteLastElement (now : Z) (s : State) : State :=
  let '(deleted, fm) := FragmentManager.deleteLastElement now (fragmentManager s) in
  let s1 := set_fragmentManager fm s in
  match deleted with
  | Some element =>
      let index := Z.of_nat (FragmentManager.getElementCount fm) in
      updatePreview (emit (elementDeleted element index) s1)
  | None => s1
  end.

Definition handleControlAction (now : Z) (data : ShortcutEngine.ControlData) (s : State)
    : option State :=
  match data with
  | ShortcutEngine.data_action action =>
      if String.eqb action "commit" then Some (commit now s)
      else if String.eqb action "delete" then Some (deleteLastElement now s)
      else if String.eqb action "clear" then Some (clear now s)
      else if String.eqb action "undo" then undo s
      else if String.eqb action "redo" then redo s
      else if String.eqb action "enter-chord-mode" then Some (enterChordMode s)
      else Some s
  | ShortcutEngine.data_element element => Some (addElement now element s)
  end.

Definition handleProcessedInput (now : Z) (processed : ShortcutEngine.ProcessedInput)
    (s : State) : option State :=
  match processed with
  | ShortcutEngine.type_note data => Some (addNote now data s)
  | ShortcutEngine.type_rest data => Some (addRest now data s)
  | ShortcutEngine.type_chord data => Some (addChord now data s)
  | ShortcutEngine.type_control data => handleControlAction now data s
  | ShortcutEngine.type_modifier data =>
      (* Modifiers update internal state, emit event and update preview *)
      Some (updatePreview (emit (modifierChanged data) s))
  | ShortcutEngine.type_invalid failure =>
      Some (emitError "INVALID_INPUT"
              (if String.eqb failure "" then "Invalid input" else failure) s)
  end.

(** The handler [attachKeyboardListener] installs, called with an event;
    the boolean tells whether [preventDefault] was called. *)
Definition keyboardHandler_call (now : Z) (event : KeyboardEvent) (s : State)
    : option (bool * State) :=
  (* Don't capture if user is typing in an input field *)
  if String.eqb (target_tagName event) "INPUT"
     || String.eqb (target_tagName event) "TEXTAREA"
  then Some (false, s)
  else
    let '(processed, engine) :=
      ShortcutEngine.processKeyInput now (input_of event) (mode s) (shortcutEngine s) in
    let s1 := set_shortcutEngine engine s in
    match processed with
    | ShortcutEngine.type_invalid _ => Some (false, s1)
    | _ =>
        match handleProcessedInput now processed s1 with
        | Some s2 => Some (true, s2)
        | None => None
        end
    end.

(** The callback [startChordModeTimer] hands to [setTimeout]. *)
Definition chordModeTimer_call (now : Z) (s : State) : option State :=
  if ShortcutEngine.checkChordModeTimeout now (chordModeTimeout settings)
       (shortcutEngine s)
  then
    (* Force chord completion *)
    let '(processed, engine) :=
      ShortcutEngine.processKeyInput now Enter_input (mode s) (shortcutEngine s) in
    handleProcessedInput now processed (set_shortcutEngine engine s)
  else Some s.

Definition destroy (s : State) : State :=
  let s1 := stop s in
  let s2 := set_preview (preview s1 ++ [preview_destroy]) s1 in
  set_emitter (EventEmitter.removeAllListeners None (emitter s2)) s2.


Definition getCurrentFragment (s : State) : MusicalFragment :=
  FragmentManager.getCurrentFragment (fragmentManager s).

Definition getCommittedFragments (s : State) : list MusicalFragment :=
  FragmentManager.getCommittedFragments (fragmentManager s).

Definition getCurrentState (s : State) : ShortcutEngine.EngineSnapshot :=
  ShortcutEngine.getCurrentState (shortcutEngine s).

(** A [keydown] event on [document] calls every handler attached to it. *)
Fixpoint dispatch (handlers : nat) (now : Z) (event : KeyboardEvent) (s : State)
    : option State :=
  match handlers with
  | O => Some s
  | S rest =>
      match keyboardHandler_call now event s with
      | Some (_, s1) => dispatch rest now event s1
      | None => None
      end
  end.

(** What happens to the object in a session: a client calls one of its
    methods, a key is pressed on the page, or a timeout comes due. *)
Inductive Call :=
| call_start
| call_stop
| call_pause
| call_resume
| call_clear
| call_commit
| call_undo
| call_redo
| call_setTimeSignature (n d : float)
| call_setKeySignature (k m : string)
| call_setTempo (bpm : float)
| call_setKeyMapping (mappings : option KeyMappings)
| call_on (eventType : string) (listener : EventEmitter.Listener)
| call_off (eventType : string) (listener : EventEmitter.Listener)
| call_removeAllListeners (eventType : option string)
| call_destroy
| keydown (event : KeyboardEvent)
| timeout (handle : nat).

Definition step (now : Z) (c : Call) (s : State) : option State :=
  match c with
  | call_start => Some (start s)
  | call_stop => Some (stop s)
  | call_pause => Some (pause s)
  | call_resume => Some (resume s)
  | call_clear => Some (clear now s)
  | call_commit => Some (commit now s)
  | call_undo => undo s
  | call_redo => redo s
  | call_setTimeSignature n d => Some (setTimeSignature now n d s)
  | call_setKeySignature k m => Some (setKeySignature now k m s)
  | call_setTempo bpm => Some (setTempo now bpm s)
  | call_setKeyMapping mappings => Some (setKeyMapping mappings s)
  | call_on t l => Some (set_emitter (EventEmitter.on t l (emitter s)) s)
  | call_off t l => Some (set_emitter (EventEmitter.off t l (emitter s)) s)
  | call_removeAllListeners t =>
      Some (set_emitter (EventEmitter.removeAllListeners t (emitter s)) s)
  | call_destroy => Some (destroy s)
  | keydown event => dispatch (keydown_handlers s) now event s
  | timeout handle =>
      if decide (handle ∈ timeouts s)
      then chordModeTimer_call now (set_timeouts (clearTimeout handle (timeouts s)) s)
      else Some s
  end.

(** A session; [None] when a call throws. *)
Fixpoint run (calls : list (Z * Call)) (s : State) : option State :=
  match calls with
  | [] => Some s
  | (now, c) :: rest =>
      match step now c s with
      | Some s' => run rest s'
      | None => None
      end
  end.

End Methods.

End CaptureSession.

(** ** src/core/ConfigurationManager.ts

    [JSON.stringify] and [JSON.parse] belong to the runtime.  A JSON text is
    represented by the value it denotes, a [json] tree: [exportConfig]
    returns the tree [JSON.stringify] writes down and [importConfig] receives
    the tree [JSON.parse] reads, or nothing when the text is not JSON.  The
    runtime prints a finite number with the shortest decimal that reads back
    as the same number, so a finite number is its own image; negative zero
    is printed as [0], and [NaN] and the infinities as [null]; a property
    whose value is [undefined] is left out.

    The key mappings of a configuration are seen here as the object they are
    at run time, a dictionary from category names to dictionaries, because
    the validation asks which categories are there.  A number field holds
    [Some x], or [None] for [null], which is what an imported document may
    carry in its place. *)

Module ConfigurationManager.
Import JS Config.
Local Open Scope float_scope.

#[warnings="-register-all"]
Inductive json :=
| JNull
| JBool (b : bool)
| JNumber (x : float)
| JString (s : string)
| JArray (items : list json)
| JObject (fields : list (string * json)).

Definition KeyMappingsObject := gmap string (gmap string string).

Definition categories (km : KeyMappings) : KeyMappingsObject :=
  list_to_map
    [ ("durations", durations km); ("pitches", pitches km);
      ("modifiers", modifiers km); ("controls", controls km);
      ("articulations", articulations km); ("dynamics", dynamics km) ].

(** [KeyMappings | 'default']. *)
Inductive KeyMappingsSetting :=
| use_default
| custom (km : KeyMappingsObject).

Record RenderingConfig := {
  previewSize : string;
  showKeySignature : bool;
  showTimeSignature : bool;
  autoScroll : bool;
  highlightCurrentElement : bool;
  theme : option string
}.

Record BehaviorConfig := {
  autoCommitDelay : option float;
  undoHistorySize : option float;
  defaultDuration : string;
  defaultOctave : option float;
  chordModeTimeout : option float;
  errorRecoveryMode : string;
  debounceDelay : option float
}.

Record NotationConfig := {
  keyMappings : KeyMappingsSetting;
  rendering : RenderingConfig;
  behavior : BehaviorConfig
}.

Definition DEFAULT_RENDERING_CONFIG : RenderingConfig :=
  {| previewSize := "medium"; showKeySignature := true; showTimeSignature := true;
     autoScroll := true; highlightCurrentElement := true; theme := Some "light" |}.

Definition DEFAULT_BEHAVIOR_CONFIG : BehaviorConfig :=
  {| autoCommitDelay := None; undoHistorySize := Some 20;
     defaultDuration := "quarter"; defaultOctave := Some 4;
     chordModeTimeout := Some 2000; errorRecoveryMode := "lenient";
     debounceDelay := Some 50 |}.

(** [Partial<RenderingConfig>] and [Partial<BehaviorConfig>]: [None] is a
    property that is not there. *)
Record PartialRenderingConfig := {
  p_previewSize : option string;
  p_showKeySignature : option bool;
  p_showTimeSignature : option bool;
  p_autoScroll : option bool;
  p_highlightCurrentElement : option bool;
  p_theme : option string
}.

Record PartialBehaviorConfig := {
  p_autoCommitDelay : option (option float);
  p_undoHistorySize : option (option float);
  p_defaultDuration : option string;
  p_defaultOctave : option (option float);
  p_chordModeTimeout : option (option float);
  p_errorRecoveryMode : option string;
  p_debounceDelay : option (option float)
}.

Definition no_rendering_updates : PartialRenderingConfig :=
  {| p_previewSize := None; p_showKeySignature := None; p_showTimeSignature := None;
     p_autoScroll := None; p_highlightCurrentElement := None; p_theme := None |}.

Definition no_behavior_updates : PartialBehaviorConfig :=
  {| p_autoCommitDelay := None; p_undoHistorySize := None; p_defaultDuration := None;
     p_defaultOctave := None; p_chordModeTimeout := None; p_errorRecoveryMode := None;
     p_debounceDelay := None |}.

(** [{ ...base, ...updates }]. *)
Definition spread_rendering (base : RenderingConfig) (updates : PartialRenderingConfig)
    : RenderingConfig :=
  {| previewSize := default (previewSize base) (p_previewSize updates);
     showKeySignature := default (showKeySignature base) (p_showKeySignature updates);
     showTimeSignature := default (showTimeSignature base) (p_showTimeSignature updates);
     autoScroll := default (autoScroll base) (p_autoScroll updates);
     highlightCurrentElement :=
       default (highlightCurrentElement base) (p_highlightCurrentElement updates);
     theme := match p_theme updates with Some t => Some t | None => theme base end |}.

Definition spread_behavior (base : BehaviorConfig) (updates : PartialBehaviorConfig)
    : BehaviorConfig :=
  {| autoCommitDelay := default (autoCommitDelay base) (p_autoCommitDelay updates);
     undoHistorySize := default (undoHistorySize base) (p_undoHistorySize updates);
     defaultDuration := default (defaultDuration base) (p_defaultDuration updates);
     defaultOctave := default (defaultOctave base) (p_defaultOctave updates);
     chordModeTimeout := default (chordModeTimeout base) (p_chordModeTimeout updates);
     errorRecoveryMode := default (errorRecoveryMode base) (p_errorRecoveryMode updates);
     debounceDelay := default (debounceDelay base) (p_debounceDelay updates) |}.

Record State := {
  config : NotationConfig;
  customKeyMappings : gmap string KeyMappingsObject
}.

Definition set_config (c : NotationConfig) (s : State) : State :=
  {| config := c; customKeyMappings := customKeyMappings s |}.

Definition mergeWithDefaults (km : option KeyMappingsSetting)
    (r : PartialRenderingConfig) (b : PartialBehaviorConfig) : NotationConfig :=
  {| keyMappings :=
       match km with
       | Some (custom m) => custom m
       | Some use_default | None => custom (categories DEFAULT_KEY_MAPPINGS)
       end;
     rendering := spread_rendering DEFAULT_RENDERING_CONFIG r;
     behavior := spread_behavior DEFAULT_BEHAVIOR_CONFIG b |}.

Definition constructor (km : option KeyMappingsSetting)
    (r : PartialRenderingConfig) (b : PartialBehaviorConfig) : State :=
  {| config := mergeWithDefaults km r b; customKeyMappings := ∅ |}.

Definition getKeyMappings (s : State) : KeyMappingsObject :=
  match keyMappings (config s) with
  | use_default => categories DEFAULT_KEY_MAPPINGS
  | custom km => km
  end.



Definition updateRenderingConfig (updates : PartialRenderingConfig) (s : State) : State :=
  set_config {| keyMappings := keyMappings (config s);
                rendering := spread_rendering (rendering (config s)) updates;
                behavior := behavior (config s) |} s.

Definition updateBehaviorConfig (updates : PartialBehaviorConfig) (s : State) : State :=
  set_config {| keyMappings := keyMappings (config s);
                rendering := rendering (config s);
                behavior := spread_behavior (behavior (config s)) updates |} s.

(** What [getFullConfig] returns: the key mappings resolved, and copies of
    the two other sections. *)
Record FullConfig := {
  full_keyMappings : KeyMappingsObject;
  full_rendering : RenderingConfig;
  full_behavior : BehaviorConfig
}.

Definition getFullConfig (s : State) : FullConfig :=
  {| full_keyMappings := getKeyMappings s;
     full_rendering := rendering (config s);
     full_behavior := behavior (config s) |}.

(** *** What [JSON.stringify] writes *)

Definition is_negative_zero (x : float) : bool :=
  PrimFloat.Leibniz.eqb x (-0).

Definition json_of_number (v : option float) : json :=
  match v with
  | None => JNull
  | Some x =>
      if is_finite x then JNumber (if is_negative_zero x then 0 else x)
      else JNull
  end.

Definition json_of_dictionary (d : gmap string string) : json :=
  JObject ((fun '(k, v) => (k, JString v)) <$> map_to_list d).

Definition json_of_keyMappings (km : KeyMappingsObject) : json :=
  JObject ((fun '(k, d) => (k, json_of_dictionary d)) <$> map_to_list km).

Definition json_of_rendering (r : RenderingConfig) : json :=
  JObject
    ([ ("previewSize", JString (previewSize r));
       ("showKeySignature", JBool (showKeySignature r));
       ("showTimeSignature", JBool (showTimeSignature r));
       ("autoScroll", JBool (autoScroll r));
       ("highlightCurrentElement", JBool (highlightCurrentElement r)) ]
     ++ match theme r with Some t => [("theme", JString t)] | None => [] end).

Definition json_of_behavior (b : BehaviorConfig) : json :=
  JObject
    [ ("autoCommitDelay", json_of_number (autoCommitDelay b));
      ("undoHistorySize", json_of_number (undoHistorySize b));
      ("defaultDuration", JString (defaultDuration b));
      ("defaultOctave", json_of_number (defaultOctave b));
      ("chordModeTimeout", json_of_number (chordModeTimeout b));
      ("errorRecoveryMode", JString (errorRecoveryMode b));
      ("debounceDelay", json_of_number (debounceDelay b)) ].

Definition json_of_config (c : FullConfig) : json :=
  JObject
    [ ("keyMappings", json_of_keyMappings (full_keyMappings c));
      ("rendering", json_of_rendering (full_rendering c));
      ("behavior", json_of_behavior (full_behavior c)) ].

Definition exportConfig (s : State) : json :=
  json_of_config (getFullConfig s).

(** *** Reading a parsed document at the type [NotationConfig]

    A repeated name keeps its last value, as [JSON.parse] does.  A document
    that does not have the shape of a [NotationConfig] is outside the model
    ([None]). *)

Fixpoint get_field (name : string) (fields : list (string * json)) : option json :=
  match fields with
  | [] => None
  | (k, v) :: rest =>
      match get_field name rest with
      | Some x => Some x
      | None => if String.eqb k name then Some v else None
      end
  end.

Definition read_string (j : json) : option string :=
  match j with JString s => Some s | _ => None end.

Definition read_bool (j : json) : option bool :=
  match j with JBool b => Some b | _ => None end.

Definition read_number (j : json) : option (option float) :=
  match j with
  | JNumber x => Some (Some x)
  | JNull => Some None
  | _ => None
  end.

Definition read_entries {A} (read : json -> option A) (fields : list (string * json))
    : option (list (string * A)) :=
  mapM (fun '(k, j) => (fun a => (k, a)) <$> read j) fields.

Definition read_object {A} (read : json -> option A) (j : json) : option (gmap string A) :=
  match j with
  | JObject fields => (fun l => list_to_map (reverse l)) <$> read_entries read fields
  | _ => None
  end.

Definition read_dictionary : json -> option (gmap string string) :=
  read_object read_string.

Definition read_keyMappings (j : json) : option KeyMappingsSetting :=
  match j with
  | JString s => if String.eqb s "default" then Some use_default else None
  | _ => custom <$> read_object read_dictionary j
  end.

Definition read_rendering (j : json) : option RenderingConfig :=
  match j with
  | JObject fields =>
      size ← get_field "previewSize" fields ≫= read_string;
      ks ← get_field "showKeySignature" fields ≫= read_bool;
      ts ← get_field "showTimeSignature" fields ≫= read_bool;
      scroll ← get_field "autoScroll" fields ≫= read_bool;
      hl ← get_field "highlightCurrentElement" fields ≫= read_bool;
      th ← match get_field "theme" fields with
            | None => Some None
            | Some t => Some <$> read_string t
            end;
      Some {| previewSize := size; showKeySignature := ks; showTimeSignature := ts;
              autoScroll := scroll; highlightCurrentElement := hl; theme := th |}
  | _ => None
  end.

Definition read_behavior (j : json) : option BehaviorConfig :=
  match j with
  | JObject fields =>
      acd ← get_field "autoCommitDelay" fields ≫= read_number;
      uhs ← get_field "undoHistorySize" fields ≫= read_number;
      dd ← get_field "defaultDuration" fields ≫= read_string;
      oct ← get_field "defaultOctave" fields ≫= read_number;
      cmt ← get_field "chordModeTimeout" fields ≫= read_number;
      erm ← get_field "errorRecoveryMode" fields ≫= read_string;
      deb ← get_field "debounceDelay" fields ≫= read_number;
      Some {| autoCommitDelay := acd; undoHistorySize := uhs; defaultDuration := dd;
              defaultOctave := oct; chordModeTimeout := cmt; errorRecoveryMode := erm;
              debounceDelay := deb |}
  | _ => None
  end.

Definition read_config (j : json) : option NotationConfig :=
  match j with
  | JObject fields =>
      km ← get_field "keyMappings" fields ≫= read_keyMappings;
      r ← get_field "rendering" fields ≫= read_rendering;
      b ← get_field "behavior" fields ≫= read_behavior;
      Some {| keyMappings := km; rendering := r; behavior := b |}
  | _ => None
  end.

(** *** Validation and import *)

(** A number or [null] as an operand of [<] or [>]: [null] counts as [0]. *)
Definition operand (v : option float) : float :=
  match v with Some x => x | None => 0 end.

Definition missing_category (km : KeyMappingsObject) : option string :=
  List.find (fun key => negb (bool_decide (is_Some (km !! key))))
            ["durations"; "pitches"; "modifiers"; "controls"].

(** [validateConfig]: [Some message] is the [Error] thrown. *)
Definition validateConfig (c : NotationConfig) : option string :=
  match match keyMappings c with
        | use_default => None
        | custom km => missing_category km
        end with
  | Some key => Some ("Missing required key mapping category: " ++ key)%string
  | None =>
      if negb (includes ["small"; "medium"; "large"] (previewSize (rendering c)))
      then Some "Invalid preview size"
      else if operand (undoHistorySize (behavior c)) <? 1
      then Some "Undo history size must be at least 1"
      else if (operand (defaultOctave (behavior c)) <? 0)
              || (8 <? operand (defaultOctave (behavior c)))
      then Some "Default octave must be between 0 and 8"
      else None
  end.

Inductive ImportResult :=
| imported
| threw (message : string)
| outside_the_model.

(** [importConfig].  [None] is a text [JSON.parse] rejects; the message of
    its [SyntaxError] is the runtime's. *)
Definition importConfig (syntax_error : string) (configJson : option json) (s : State)
    : ImportResult * State :=
  match configJson with
  | None => (threw ("Failed to import configuration: " ++ syntax_error)%string, s)
  | Some j =>
      match read_config j with
      | None => (outside_the_model, s)
      | Some c =>
          match validateConfig c with
          | Some message =>
              (threw ("Failed to import configuration: Error: " ++ message)%string, s)
          | None => (imported, set_config c s)
          end
      end
  end.

Definition reset (s : State) : State :=
  constructor None no_rendering_updates no_behavior_updates.

(** [saveCustomMapping] and [loadCustomMapping]: the mappings are kept in a
    [Map] by name; an object is truthy, so [get(name) || null] is [null]
    exactly when the name is not there. *)
Definition saveCustomMapping (name : string) (mappings : KeyMappingsObject) (s : State)
    : State :=
  {| config := config s;
     customKeyMappings := <[name := mappings]> (customKeyMappings s) |}.

Definition loadCustomMapping (name : string) (s : State) : option KeyMappingsObject :=
  customKeyMappings s !! name.



End ConfigurationManager.

(** ** A runtime to evaluate examples with

    Every statement below that involves [Runtime] holds for all of its
    instances.  This one serves to run the model on concrete inputs.
    [Math_floor] and [Number_rem] are exact.  [Number_toString] prints the
    exact decimal expansion of a finite number, which is what JavaScript
    prints for integers below [1e21] and for fractions with few digits such
    as [0.375]; [Date_toISOString] covers the years 0000 to 9999. *)

Module Eval.
Import JS.

(** The binary64 value of an integer of magnitude below [2^63]. *)
Definition float_of_Z (z : Z) : float :=
  if z <? 0 then PrimFloat.opp (PrimFloat.of_uint63 (Uint63.of_Z (- z)))
  else PrimFloat.of_uint63 (Uint63.of_Z z).

Definition signed (s : bool) (m : positive) : Z :=
  if s then Z.neg m else Z.pos m.

Definition floor (x : float) : float :=
  match Prim2SF x with
  | S754_finite s m e =>
      if 0 <=? e then x else float_of_Z (signed s m / 2 ^ (- e))
  | _ => x
  end.

Definition rem (x y : float) : float :=
  match Prim2SF x, Prim2SF y with
  | S754_nan, _ | _, S754_nan => nan
  | S754_infinity _, _ => nan
  | _, S754_zero _ => nan
  | S754_zero _, _ => x
  | _, S754_infinity _ => x
  | S754_finite sx mx ex, S754_finite _ my ey =>
      let e0 := Z.min ex ey in
      let r := (Z.pos mx * 2 ^ (ex - e0)) mod (Z.pos my * 2 ^ (ey - e0)) in
      let v := Z.ldexp (float_of_Z r) e0 in
      if sx then PrimFloat.opp v else v
  end.

Fixpoint zeros (n : nat) (s : string) : string :=
  match n with
  | O => s
  | S k => String "0" (zeros k s)
  end.

Definition pad_left (width : nat) (s : string) : string :=
  zeros (width - String.length s) s.

Fixpoint strip_zeros (digits : list ascii) : list ascii :=
  match digits with
  | [] => []
  | c :: r =>
      match strip_zeros r with
      | [] => if Ascii.eqb c "0" then [] else [c]
      | r' => c :: r'
      end
  end.

Definition toString (x : float) : string :=
  match Prim2SF x with
  | S754_nan => "NaN"
  | S754_infinity s => if s then "-Infinity" else "Infinity"
  | S754_zero _ => "0"
  | S754_finite s m e =>
      let sign := if s then "-" else "" in
      if 0 <=? e then (sign ++ string_of_Z (Z.pos m * 2 ^ e))%string
      else
        let k := - e in
        let whole := Z.pos m / 2 ^ k in
        let frac := (Z.pos m mod 2 ^ k) * 5 ^ k in
        let digits :=
          strip_zeros (list_ascii_of_string (pad_left (Z.to_nat k) (string_of_Z frac))) in
        match digits with
        | [] => (sign ++ string_of_Z whole)%string
        | _ => (sign ++ string_of_Z whole ++ "." ++ string_of_list_ascii digits)%string
        end
  end.

(** Year, month and day of a count of days since 1970-01-01. *)
Definition civil_from_days (days : Z) : Z * Z * Z :=
  let z := days + 719468 in
  let era := z / 146097 in
  let doe := z - era * 146097 in
  let yoe := (doe - doe / 1460 + doe / 36524 - doe / 146096) / 365 in
  let doy := doe - (365 * yoe + yoe / 4 - yoe / 100) in
  let mp := (5 * doy + 2) / 153 in
  let d := doy - (153 * mp + 2) / 5 + 1 in
  let m := if mp <? 10 then mp + 3 else mp - 9 in
  let y := yoe + era * 400 + (if m <=? 2 then 1 else 0) in
  (y, m, d).

Definition two_digits (n : Z) : string := pad_left 2 (string_of_Z n).

Definition toISOString (now : Z) : string :=
  let '(y, m, d) := civil_from_days (now / 86400000) in
  let ms := now mod 86400000 in
  (pad_left 4 (string_of_Z y) ++ "-" ++ two_digits m ++ "-" ++ two_digits d
   ++ "T" ++ two_digits (ms / 3600000) ++ ":" ++ two_digits (ms / 60000 mod 60)
   ++ ":" ++ two_digits (ms / 1000 mod 60) ++ "."
   ++ pad_left 3 (string_of_Z (ms mod 1000)) ++ "Z")%string.

Definition runtime : Runtime :=
  {| Math_floor := floor;
     Number_rem := rem;
     Number_toString := toString;
     Date_toISOString := toISOString |}.

End Eval.

(** ** Predicates of the specification *)

Module Spec.
Import JS Musical MusicalHelpers Config.

Definition letters_A_to_G : list ascii :=
  ["A"; "B"; "C"; "D"; "E"; "F"; "G"]%char.

Definition accidental_signs : list string := [""; "#"; "b"].

Definition digits_0_to_8 : list ascii :=
  ["0"; "1"; "2"; "3"; "4"; "5"; "6"; "7"; "8"]%char.

(** The strings matching [[A-G][#b]?[0-8]]. *)
Definition pitch_pattern (p : string) : Prop :=
  exists L acc d,
    In L letters_A_to_G /\ In acc accidental_signs /\ In d digits_0_to_8 /\
    p = String L (acc ++ String d "")%string.

(** The seven enumerated base durations. *)
Definition enumerated_durations : list Duration :=
  ["whole"; "half"; "quarter"; "eighth"; "sixteenth"; "thirty-second";
   "sixty-fourth"].

(** [2^-n] as a binary64 number: exact down to [2^-1074], zero below. *)
Fixpoint two_pow_neg (n : nat) : float :=
  match n with
  | O => 1%float
  | S k => (two_pow_neg k / 2)%float
  end.

(** The rational number a finite binary64 value stands for. *)
Definition exact_value (x : float) : option (Z * Z) :=
  match Prim2SF x with
  | S754_zero _ => Some (0, 0)
  | S754_finite s m e => Some (if s then Z.neg m else Z.pos m, e)
  | _ => None
  end.

(** The value of the loop after [i] rounds, from the base value [b]. *)
Definition dotted_value (b : float) (i : nat) : float :=
  fst (dots_loop i b b).

Definition base_values : list float :=
  [1; 0.5; 0.25; 0.125; 0.0625; 0.03125; 0.015625]%float.

Definition agrees (b : float) (n : nat) : bool :=
  PrimFloat.Leibniz.eqb (dotted_value b n) (b * (2 - two_pow_neg n))%float.

(** Up to 52 dots every sum of the loop is exact: the value is the rational
    number [b * (2 - 2^-n)], that is [(2^(n+1) - 1) * 2^(e - n)] for
    [b = 2^e]. *)
Definition exact_dotted (e : Z) (n : nat) : bool :=
  match exact_value (dotted_value (Z.ldexp 1%float e) n) with
  | Some (m, x) => Z.eqb (m * 2 ^ (x - (e - Z.of_nat n - 52)))
                         ((2 ^ (Z.of_nat n + 1) - 1) * 2 ^ 52)
  | None => false
  end.

Definition quarter_note (pitch : string) : MusicalElement :=
  ENote {| note_pitch := pitch; note_duration := Plain "quarter";
           note_accidental := None; note_tuplet := None |}.

Definition four_four : TimeSig := {| numerator := 4%float; denominator := 4%float |}.

Definition c_major : KeySig := {| key := "C"; mode := "major" |}.

Definition commit_calls : list (Z * FragmentManager.Call) :=
  [ (1, FragmentManager.call_addElement (quarter_note "C4"));
    (2, FragmentManager.call_addElement (quarter_note "D4"));
    (3, FragmentManager.call_undo);
    (4, FragmentManager.call_addElement (quarter_note "E4"));
    (5, FragmentManager.call_setTempo 90%float);
    (6, FragmentManager.call_commit);
    (7, FragmentManager.call_redo) ].

(** A key event without Shift, Alt or Meta. *)
Definition press (k : string) (ctrl : bool) : ShortcutEngine.KeyboardInput :=
  {| ShortcutEngine.key_of := k; ShortcutEngine.shiftKey := false;
     ShortcutEngine.altKey := false; ShortcutEngine.ctrlKey := ctrl;
     ShortcutEngine.metaKey := false |}.

(** A key event with Shift or Alt. *)
Definition press_with (k : string) (shift alt : bool) : ShortcutEngine.KeyboardInput :=
  {| ShortcutEngine.key_of := k; ShortcutEngine.shiftKey := shift;
     ShortcutEngine.altKey := alt; ShortcutEngine.ctrlKey := false;
     ShortcutEngine.metaKey := false |}.

(** Ctrl+C in CAPTURE mode, then E, G and Enter in CHORD_MODE. *)
Definition chord_flow : list (Z * ShortcutEngine.KeyboardInput * InputMode) :=
  [ (1, press "c" true, CAPTURE); (2, press "e" false, CHORD_MODE);
    (3, press "g" false, CHORD_MODE); (4, press "Enter" false, CHORD_MODE) ].

(** The same with E pressed twice. *)
Definition chord_flow_repeated : list (Z * ShortcutEngine.KeyboardInput * InputMode) :=
  [ (1, press "c" true, CAPTURE); (2, press "e" false, CHORD_MODE);
    (3, press "e" false, CHORD_MODE); (4, press "g" false, CHORD_MODE);
    (5, press "Enter" false, CHORD_MODE) ].

(** The default mappings with the control entry of [Enter] taken out. *)
Definition mappings_without_Enter_control : KeyMappings :=
  {| durations := durations DEFAULT_KEY_MAPPINGS;
     pitches := pitches DEFAULT_KEY_MAPPINGS;
     modifiers := modifiers DEFAULT_KEY_MAPPINGS;
     controls := delete "Enter" (controls DEFAULT_KEY_MAPPINGS);
     articulations := articulations DEFAULT_KEY_MAPPINGS;
     dynamics := dynamics DEFAULT_KEY_MAPPINGS |}.

Definition C_major_triad : Chord :=
  {| chord_pitches := ["C4"; "E4"; "G4"]; chord_duration := Plain "quarter" |}.

Definition is_chord_result (r : ShortcutEngine.ProcessedInput) : bool :=
  match r with ShortcutEngine.type_chord _ => true | _ => false end.

(** A pristine orchestrator around a fragment manager. *)
Definition orchestrator (fm : FragmentManager.State) : NotationCapture.State :=
  {| NotationCapture.fragmentManager := fm;
     NotationCapture.emitted := [];
     NotationCapture.rendered := [];
     NotationCapture.delivered := [] |}.

(** A number field that a JSON text carries as it is: [null], or a finite
    number other than negative zero. *)
Definition representable (v : option float) : bool :=
  match v with
  | None => true
  | Some x => is_finite x && negb (ConfigurationManager.is_negative_zero x)
  end.

Definition representable_config (c : ConfigurationManager.NotationConfig) : bool :=
  let b := ConfigurationManager.behavior c in
  representable (ConfigurationManager.autoCommitDelay b)
  && representable (ConfigurationManager.undoHistorySize b)
  && representable (ConfigurationManager.defaultOctave b)
  && representable (ConfigurationManager.chordModeTimeout b)
  && representable (ConfigurationManager.debounceDelay b).

Definition default_configuration : ConfigurationManager.State :=
  ConfigurationManager.constructor None
    ConfigurationManager.no_rendering_updates ConfigurationManager.no_behavior_updates.

(** [updateBehaviorConfig({ chordModeTimeout: Infinity })] on a new manager. *)
Definition never_time_out : ConfigurationManager.State :=
  ConfigurationManager.updateBehaviorConfig
    {| ConfigurationManager.p_autoCommitDelay := None;
       ConfigurationManager.p_undoHistorySize := None;
       ConfigurationManager.p_defaultDuration := None;
       ConfigurationManager.p_defaultOctave := None;
       ConfigurationManager.p_chordModeTimeout := Some (Some infinity);
       ConfigurationManager.p_errorRecoveryMode := None;
       ConfigurationManager.p_debounceDelay := None |}
    default_configuration.

(** [updateBehaviorConfig({ undoHistorySize: NaN })] on a new manager. *)
Definition history_size_nan : ConfigurationManager.State :=
  ConfigurationManager.updateBehaviorConfig
    {| ConfigurationManager.p_autoCommitDelay := None;
       ConfigurationManager.p_undoHistorySize := Some (Some nan);
       ConfigurationManager.p_defaultDuration := None;
       ConfigurationManager.p_defaultOctave := None;
       ConfigurationManager.p_chordModeTimeout := None;
       ConfigurationManager.p_errorRecoveryMode := None;
       ConfigurationManager.p_debounceDelay := None |}
    default_configuration.

(** A manager with one note, added through the caller's own element object,
    and the fragment [getCurrentFragment] then returns: the manager, the
    reference returned and the heap. *)
Definition shared_note_scenario `{JS.Runtime}
    : option (Objects.Manager * nat * list Objects.cell) :=
  '(m0, h0) ← Objects.constructor 0 20 four_four c_major 120%float;
  let '(e, h1) := Objects.alloc (Objects.cell_element (quarter_note "C4")) h0 in
  '(_, m1, h2) ← Objects.addElement 1 e m0 h1;
  '(r, h3) ← Objects.getCurrentFragment m1 h2;
  Some (m1, r, h3).

(** [fragment.elements[0].pitch = 'D4'] on the fragment at [r]. *)
Definition retune_first_element (r : nat) (h : list Objects.cell)
    : option (list Objects.cell) :=
  f ← Objects.get_fragment h r;
  items ← Objects.get_array h (Objects.o_elements f);
  a ← head items;
  _ ← Objects.get_element h a;
  Some (Objects.write a (Objects.cell_element (quarter_note "D4")) h).

(** [fragment.timeSignature.numerator = 3] on the fragment at [r]. *)
Definition set_numerator_in_place (r : nat) (h : list Objects.cell)
    : option (list Objects.cell) :=
  f ← Objects.get_fragment h r;
  ts ← Objects.get_timeSignature h (Objects.o_timeSignature f);
  Some (Objects.write (Objects.o_timeSignature f)
          (Objects.cell_timeSignature
             {| numerator := 3%float; denominator := denominator ts |}) h).

(** The element sequences of the working fragment and of the snapshots. *)
Definition element_sequences (v : option (MusicalFragment * list MusicalFragment))
    : option (list MusicalElement * list (list MusicalElement)) :=
  (fun p => (elements (fst p), map elements (snd p))) <$> v.

(** The calls of [commit_calls] on the manager with its objects; the client
    builds each note before adding it (the constructor leaves eight objects,
    so the first note is object 8). *)
Definition commit_calls_with_objects : list (Z * Objects.Call) :=
  [ (1, Objects.call_new_element (quarter_note "C4"));
    (1, Objects.call_addElement 8%nat);
    (2, Objects.call_new_element (quarter_note "D4"));
    (2, Objects.call_addElement 13%nat);
    (3, Objects.call_undo);
    (4, Objects.call_new_element (quarter_note "E4"));
    (4, Objects.call_addElement 21%nat);
    (5, Objects.call_setTempo 90%float);
    (6, Objects.call_commit);
    (7, Objects.call_redo) ].

(** The value-level state seen through the references: the working fragment
    and the fragments of the history entries. *)
Definition canonical (s : FragmentManager.State)
    : MusicalFragment * list MusicalFragment :=
  (FragmentManager.currentFragment s,
   map FragmentManager.fragment (FragmentManager.history s)).

(** The history buffer is well formed: the cursor indexes an entry and the
    length is within the bound. *)
Definition history_ok (s : FragmentManager.State) : Prop :=
  0 <= FragmentManager.historyIndex s
  /\ FragmentManager.historyIndex s < FragmentManager.len (FragmentManager.history s)
  /\ FragmentManager.len (FragmentManager.history s) <= FragmentManager.maxHistorySize s.

(** The working fragment is the snapshot under the cursor. *)
Definition in_sync (s : FragmentManager.State) : Prop :=
  FragmentManager.fragment
    <$> FragmentManager.index (FragmentManager.history s) (FragmentManager.historyIndex s)
  = Some (FragmentManager.currentFragment s).

(** The states a client can bring a manager built with bound [max] into. *)
Definition reachable `{JS.Runtime} (max : Z) (s : FragmentManager.State) : Prop :=
  exists now ts ks tempo calls,
    FragmentManager.run calls (FragmentManager.constructor now max ts ks tempo) = Some s.

(** The history kept by [saveToHistory] before the new entry is pushed. *)
Definition kept (s : FragmentManager.State) : list FragmentManager.FragmentHistoryEntry :=
  if FragmentManager.historyIndex s <? FragmentManager.len (FragmentManager.history s) - 1
  then FragmentManager.slice0 (FragmentManager.history s) (FragmentManager.historyIndex s + 1)
  else FragmentManager.history s.

(** The entry [saveToHistory] pushes. *)
Definition entry_of (now : Z) (a : FragmentManager.Action) (s : FragmentManager.State)
    : FragmentManager.FragmentHistoryEntry :=
  {| FragmentManager.fragment := FragmentManager.currentFragment s;
     FragmentManager.entry_timestamp := now;
     FragmentManager.action := a |}.

(** What every reachable state of a manager satisfies. *)
Definition invariant (s : FragmentManager.State) : Prop :=
  1 <= FragmentManager.maxHistorySize s /\ history_ok s /\ in_sync s.

(** Two states with the same history buffer. *)
Definition same_history (s1 s : FragmentManager.State) : Prop :=
  FragmentManager.history s1 = FragmentManager.history s
  /\ FragmentManager.historyIndex s1 = FragmentManager.historyIndex s
  /\ FragmentManager.maxHistorySize s1 = FragmentManager.maxHistorySize s.

(** *** The manager with its objects against the manager on values

    A state of the manager on values describes a heap and a manager made of
    references when every reference of the second stands for the
    corresponding fragment of the first. *)

Definition entry_rep (h : list Objects.cell) (e : Objects.Entry)
    (entry : FragmentManager.FragmentHistoryEntry) : Prop :=
  Objects.view_fragment h (Objects.e_fragment e) = Some (FragmentManager.fragment entry)
  /\ Objects.e_timestamp e = FragmentManager.entry_timestamp entry
  /\ Objects.e_action e = FragmentManager.action entry.

Definition represents (h : list Objects.cell) (m : Objects.Manager)
    (s : FragmentManager.State) : Prop :=
  Objects.view_fragment h (Objects.currentFragment m)
    = Some (FragmentManager.currentFragment s)
  /\ Forall2 (entry_rep h) (Objects.history m) (FragmentManager.history s)
  /\ Objects.historyIndex m = FragmentManager.historyIndex s
  /\ Objects.maxHistorySize m = FragmentManager.maxHistorySize s
  /\ Forall2 (fun r f => Objects.view_fragment h r = Some f)
       (Objects.committedFragments m) (FragmentManager.committedFragments s).

(** The fragment object at [r] is not the one at [c] and does not use its
    elements array. *)
Definition apart (h : list Objects.cell) (c r : nat) : Prop :=
  r <> c
  /\ forall f g, Objects.get_fragment h c = Some f -> Objects.get_fragment h r = Some g ->
                 Objects.o_elements g <> Objects.o_elements f.

(** The working fragment object and its elements array, the two objects the
    manager assigns to, belong to no snapshot and to no committed
    fragment. *)
Definition separate (h : list Objects.cell) (m : Objects.Manager) : Prop :=
  Forall (fun e => apart h (Objects.currentFragment m) (Objects.e_fragment e))
         (Objects.history m)
  /\ Forall (apart h (Objects.currentFragment m)) (Objects.committedFragments m).

Definition simulates (h : list Objects.cell) (m : Objects.Manager)
    (s : FragmentManager.State) : Prop :=
  Objects.state_ok h m /\ represents h m s /\ separate h m.

(** A fragment object in place below [n], with its elements array. *)
Definition settled (n : nat) (h : list Objects.cell) (r : nat) : Prop :=
  (r < n)%nat
  /\ forall g, Objects.get_fragment h r = Some g -> (Objects.o_elements g < n)%nat.

(** What is known of a snapshot or a committed fragment at [r] while the
    working fragment is at [c]. *)
Definition kept_apart (h : list Objects.cell) (c r : nat) : Prop :=
  Objects.holds h r Objects.k_fragment /\ apart h c r.

(** The call on values that corresponds to a call on objects; the element
    added is the one the reference holds.  A client assigning to a shared
    object has no counterpart. *)
Definition call_on_values (h : list Objects.cell) (c : Objects.Call)
    : option (option FragmentManager.Call) :=
  match c with
  | Objects.call_new_element _ => Some None
  | Objects.call_getCurrentFragment => Some None
  | Objects.call_addElement element =>
      (fun e => Some (FragmentManager.call_addElement e)) <$> Objects.get_element h element
  | Objects.call_deleteLastElement => Some (Some FragmentManager.call_deleteLastElement)
  | Objects.call_deleteElementAt i => Some (Some (FragmentManager.call_deleteElementAt i))
  | Objects.call_clear => Some (Some FragmentManager.call_clear)
  | Objects.call_undo => Some (Some FragmentManager.call_undo)
  | Objects.call_redo => Some (Some FragmentManager.call_redo)
  | Objects.call_commit => Some (Some FragmentManager.call_commit)
  | Objects.call_setTimeSignature n d => Some (Some (FragmentManager.call_setTimeSignature n d))
  | Objects.call_setKeySignature k md => Some (Some (FragmentManager.call_setKeySignature k md))
  | Objects.call_setTempo bpm => Some (Some (FragmentManager.call_setTempo bpm))
  | Objects.client_assigns_element _ _ => None
  | Objects.client_assigns_timeSignature _ _ => None
  | Objects.client_assigns_keySignature _ _ => None
  end.

Definition step_on_values `{JS.Runtime} (now : Z) (c : option FragmentManager.Call)
    (s : FragmentManager.State) : option FragmentManager.State :=
  match c with
  | None => Some s
  | Some c => FragmentManager.step now c s
  end.

Definition is_manager_call (c : Objects.Call) : bool :=
  match c with
  | Objects.client_assigns_element _ _ | Objects.client_assigns_timeSignature _ _
  | Objects.client_assigns_keySignature _ _ => false
  | _ => true
  end.

(** *** Pitches as heights *)

(** The semitones of the seven natural notes above C. *)
Definition natural_semitones (n : string) : option Z :=
  match n with
  | "C" => Some 0 | "D" => Some 2 | "E" => Some 4 | "F" => Some 5
  | "G" => Some 7 | "A" => Some 9 | "B" => Some 11
  | _ => None
  end.

Definition accidental_shift (a : option AccidentalMark) : Z :=
  match a with Some sharp => 1 | Some flat => -1 | None => 0 end.

(** The height of a pitch string: its number of semitones above C0. *)
Definition semitones_above_C0 (p : string) : option Z :=
  r ← parsePitchString p;
  base ← natural_semitones (note r);
  Some (12 * octave r + base + accidental_shift (accidental r)).

(** The twelve names [transposeNote] spells the notes of an octave with. *)
Definition transposed_names : list string :=
  ["C"; "C#"; "D"; "D#"; "E"; "E#"; "F#"; "G"; "G#"; "A"; "A#"; "B"].

(** The names every JavaScript object inherits from [Object.prototype]:
    looking one of them up in an object literal used as a table finds the
    inherited property, not an entry of the table. *)
Definition inherited_property_names : list string :=
  ["constructor"; "__proto__"; "hasOwnProperty"; "isPrototypeOf";
   "propertyIsEnumerable"; "toLocaleString"; "toString"; "valueOf";
   "__defineGetter__"; "__defineSetter__"; "__lookupGetter__"; "__lookupSetter__"].

(** A key that names no inherited property, in either of the two forms in
    which the sources look a key up. *)
Definition table_key (k : string) : Prop :=
  ~ In k inherited_property_names /\ ~ In (toLowerCase k) inherited_property_names.

(** The spelling of the note at height [n], octave included. *)
Definition spelled (n : Z) : string :=
  (nth (Z.to_nat (n mod 12)) transposed_names "" ++ string_of_Z (n / 12))%string.

(** *** More on the fragment manager *)

(** From [s1], [undo] brings back the working fragment of [s] and [redo]
    then brings back the one of [s1]. *)
Definition undoable (s s1 : FragmentManager.State) : Prop :=
  exists s2 s3,
    FragmentManager.undo s1 = Some (true, s2)
    /\ FragmentManager.currentFragment s2 = FragmentManager.currentFragment s
    /\ FragmentManager.redo s2 = Some (true, s3)
    /\ FragmentManager.currentFragment s3 = FragmentManager.currentFragment s1.

Definition is_commit (c : FragmentManager.Call) : bool :=
  match c with FragmentManager.call_commit => true | _ => false end.

(** The number of commits in a sequence of calls. *)
Definition commits (calls : list (Z * FragmentManager.Call)) : nat :=
  length (List.filter (fun c => is_commit (snd c)) calls).

(** The [measures] field of the metadata is the number of barlines. *)
Definition measures_counted (f : MusicalFragment) : Prop :=
  measures (metadata f) = countMeasures (elements f).

Definition measures_kept (s : FragmentManager.State) : Prop :=
  measures_counted (FragmentManager.currentFragment s)
  /\ Forall (fun entry => measures_counted (FragmentManager.fragment entry))
            (FragmentManager.history s)
  /\ Forall measures_counted (FragmentManager.committedFragments s).

(** *** Sessions of the shortcut engine *)

(** What the owner of an engine does with it: it feeds it a key event, it
    resets it, or it gives it new key mappings. *)
Inductive engine_call :=
| engine_key (now : Z) (input : ShortcutEngine.KeyboardInput) (mode : InputMode)
| engine_reset
| engine_updateKeyMappings (km : KeyMappings).

Definition engine_step (c : engine_call) (e : ShortcutEngine.Engine)
    : list ShortcutEngine.ProcessedInput * ShortcutEngine.Engine :=
  match c with
  | engine_key now input mode =>
      let '(r, e') := ShortcutEngine.processKeyInput now input mode e in ([r], e')
  | engine_reset => ([], ShortcutEngine.reset e)
  | engine_updateKeyMappings km => ([], ShortcutEngine.updateKeyMappings km e)
  end.

(** A session, with the results of its key events in order. *)
Fixpoint engine_run (calls : list engine_call) (e : ShortcutEngine.Engine)
    : list ShortcutEngine.ProcessedInput * ShortcutEngine.Engine :=
  match calls with
  | [] => ([], e)
  | c :: rest =>
      let '(rs, e1) := engine_step c e in
      let '(rs', e2) := engine_run rest e1 in
      (rs ++ rs', e2)
  end.

(** Key mappings whose pitch entries name the seven natural notes and whose
    duration entries name the seven durations or one of the two combined
    entries the engine knows. *)
Definition musical_mappings (km : KeyMappings) : Prop :=
  (forall k v, truthy_lookup (pitches km) k = Some v ->
               In v ["C"; "D"; "E"; "F"; "G"; "A"; "B"])
  /\ (forall k v, truthy_lookup (durations km) k = Some v ->
                  Validation.isValidDuration v = true
                  \/ v = "dotted-quarter" \/ v = "triplet-eighth").

(** The calls of a session with musical mappings and keys that name no
    inherited property. *)
Definition musical_call (c : engine_call) : Prop :=
  match c with
  | engine_key _ input _ => table_key (ShortcutEngine.key_of input)
  | engine_reset => True
  | engine_updateKeyMappings km => musical_mappings km
  end.

(** The element a result of the engine asks the orchestrator to add. *)
Definition element_of_result (r : ShortcutEngine.ProcessedInput) : option MusicalElement :=
  match r with
  | ShortcutEngine.type_note n => Some (ENote n)
  | ShortcutEngine.type_rest d => Some (ERest d)
  | ShortcutEngine.type_chord c => Some (EChord c)
  | ShortcutEngine.type_control (ShortcutEngine.data_element el) => Some el
  | _ => None
  end.



(** The engine holds musical mappings, a duration of the enumeration, an
    octave on the keyboard and valid pitches for the chord in the making. *)
Definition tuned (e : ShortcutEngine.Engine) : Prop :=
  0 <= ShortcutEngine.currentOctave e <= 8
  /\ Validation.isValidDuration (ShortcutEngine.currentDuration e) = true
  /\ Forall (fun p => Validation.isValidPitch p = true) (ShortcutEngine.chordNotes e)
  /\ musical_mappings (ShortcutEngine.keyMappings e).

(** The element of a result, if it has one, passes the validation and is
    added by [addElement] to any fragment. *)
Definition accepted `{JS.Runtime} (r : ShortcutEngine.ProcessedInput) : Prop :=
  forall el, element_of_result r = Some el ->
    Validation.validateMusicalElement el = []
    /\ forall now s, fst (FragmentManager.addElement now el s) = FragmentManager.success_true.

(** *** Exported configurations *)

(** The number field an exported document carries for a number field:
    [null] for [NaN] and the infinities, zero for negative zero. *)
Definition as_exported (v : option float) : option float :=
  match v with
  | None => None
  | Some x =>
      if is_finite x
      then Some (if ConfigurationManager.is_negative_zero x then 0%float else x)
      else None
  end.


(** *** What the fragments hold *)

(** Every element has passed [validateMusicalElement]. *)
Definition validated (es : list MusicalElement) : Prop :=
  Forall (fun e => Validation.validateMusicalElement e = []) es.

(** No time signature and no key signature comes after a note or a rest:
    [[e1; e2]] is a sublist of [es] when [e1] comes before [e2] in [es]. *)
Definition signatures_first (es : list MusicalElement) : Prop :=
  forall e1 e2,
    sublist [e1; e2] es ->
    Validation.is_note_or_rest e1 = true -> Validation.is_signature e2 = false.

Definition sound_elements (f : MusicalFragment) : Prop :=
  validated (elements f) /\ signatures_first (elements f).

Definition elements_kept (s : FragmentManager.State) : Prop :=
  sound_elements (FragmentManager.currentFragment s)
  /\ Forall (fun entry => sound_elements (FragmentManager.fragment entry))
            (FragmentManager.history s)
  /\ Forall sound_elements (FragmentManager.committedFragments s).

(** *** Sessions of an event emitter *)

Inductive emitter_call :=
| emitter_on (eventType : string) (listener : EventEmitter.Listener)
| emitter_off (eventType : string) (listener : EventEmitter.Listener)
| emitter_removeAllListeners (eventType : option string).

Definition emitter_step (c : emitter_call) (s : EventEmitter.State) : EventEmitter.State :=
  match c with
  | emitter_on t l => EventEmitter.on t l s
  | emitter_off t l => EventEmitter.off t l s
  | emitter_removeAllListeners t => EventEmitter.removeAllListeners t s
  end.

Definition emitter_run (calls : list emitter_call) (s : EventEmitter.State)
    : EventEmitter.State :=
  fold_left (fun s c => emitter_step c s) calls s.

(** What the call number [i] does to the registration of the listener [l]
    for the type [t]: [Some k] says that the listener is registered, since
    the call number [k]. *)
Definition registration_step (i : nat) (c : emitter_call) (t : string)
    (l : EventEmitter.Listener) (r : option nat) : option nat :=
  match c with
  | emitter_on t' l' =>
      if decide (t' = t /\ l' = l)
      then match r with Some k => Some k | None => Some i end
      else r
  | emitter_off t' l' => if decide (t' = t /\ l' = l) then None else r
  | emitter_removeAllListeners (Some t') => if decide (t' = "" \/ t' = t) then None else r
  | emitter_removeAllListeners None => None
  end.

Fixpoint registration_from (i : nat) (calls : list emitter_call) (t : string)
    (l : EventEmitter.Listener) (r : option nat) : option nat :=
  match calls with
  | [] => r
  | c :: rest => registration_from (S i) rest t l (registration_step i c t l r)
  end.

(** The call that registered [l] for [t] and that no later call has undone,
    if there is one. *)
Definition registration (calls : list emitter_call) (t : string)
    (l : EventEmitter.Listener) : option nat :=
  registration_from 0 calls t l None.

(** The state [s], reached by the calls before number [i], agrees with the
    registrations [r]. *)
Definition emitter_agrees (i : nat) (s : EventEmitter.State)
    (r : string -> EventEmitter.Listener -> option nat) : Prop :=
  forall t,
    (forall l, l ∈ EventEmitter.emit t s <-> is_Some (r t l))
    /\ (forall l k, r t l = Some k -> (k < i)%nat)
    /\ StronglySorted (fun l1 l2 => exists k1 k2,
                         r t l1 = Some k1 /\ r t l2 = Some k2 /\ (k1 < k2)%nat)
                      (EventEmitter.emit t s).

(** *** Sessions of the capture object *)

Definition is_stopped (m : InputMode) : bool :=
  match m with STOPPED => true | _ => false end.

(** The mode a trace of events announces when the mode was [m] before it:
    the new mode of its last [modeChanged] event. *)
Definition announced_from (m : InputMode) (evs : list CaptureSession.NotationEvent)
    : InputMode :=
  fold_left
    (fun m ev => match ev with CaptureSession.modeChanged _ n => n | _ => m end) evs m.

Definition announced_mode (evs : list CaptureSession.NotationEvent) : InputMode :=
  announced_from STOPPED evs.

(** The fragment of the last [previewUpdated] event of a trace. *)
Definition shown_from (f : option MusicalFragment)
    (evs : list CaptureSession.NotationEvent) : option MusicalFragment :=
  fold_left
    (fun f ev => match ev with CaptureSession.previewUpdated g => Some g | _ => f end)
    evs f.

Definition shown_fragment (evs : list CaptureSession.NotationEvent)
    : option MusicalFragment :=
  shown_from None evs.

(** The fragments of the [fragmentCommitted] events and of the
    [previewUpdated] events of a trace, and those the renderer was asked to
    render. *)
Definition committed_events (evs : list CaptureSession.NotationEvent)
    : list MusicalFragment :=
  omap (fun ev => match ev with CaptureSession.fragmentCommitted f => Some f | _ => None end)
       evs.

Definition previews (evs : list CaptureSession.NotationEvent) : list MusicalFragment :=
  omap (fun ev => match ev with CaptureSession.previewUpdated f => Some f | _ => None end)
       evs.

Definition rendered (calls : list CaptureSession.RendererCall) : list MusicalFragment :=
  omap (fun c => match c with CaptureSession.preview_render f => Some f | _ => None end)
       calls.

(** What an event says is right, given the events before it and the event
    that follows it.  A [modeChanged] event names as previous mode the mode
    announced before it.  A [noteAdded] event is followed by a
    [previewUpdated] event whose fragment has the note at the index of the
    event, as its last element, and is the fragment shown before with the
    note appended.  An [elementDeleted] event is followed by a
    [previewUpdated] event whose fragment has as many elements as the index
    says, and which, with the element appended, is the fragment shown
    before. *)
Definition told_right (before : list CaptureSession.NotationEvent)
    (ev : CaptureSession.NotationEvent) (next : option CaptureSession.NotationEvent)
    : Prop :=
  match ev with
  | CaptureSession.modeChanged p _ => p = announced_mode before
  | CaptureSession.noteAdded note i =>
      exists f,
        next = Some (CaptureSession.previewUpdated f)
        /\ FragmentManager.index (elements f) i = Some (ENote note)
        /\ FragmentManager.len (elements f) = i + 1
        /\ forall g, shown_fragment before = Some g ->
                     elements f = elements g ++ [ENote note]
  | CaptureSession.elementDeleted e i =>
      exists f,
        next = Some (CaptureSession.previewUpdated f)
        /\ FragmentManager.len (elements f) = i
        /\ forall g, shown_fragment before = Some g ->
                     elements g = elements f ++ [e]
  | _ => True
  end.

Fixpoint told_right_from (before block : list CaptureSession.NotationEvent) : Prop :=
  match block with
  | [] => True
  | ev :: rest =>
      told_right before ev (head rest) /\ told_right_from (before ++ [ev]) rest
  end.

(** What holds of the object between two calls of a session. *)
Definition capture_invariant `{JS.Runtime} (settings : CaptureSession.Settings)
    (s : CaptureSession.State) : Prop :=
  let fm := CaptureSession.fragmentManager s in
  let evs := CaptureSession.emitted s in
  reachable (CaptureSession.undoHistorySize settings) fm
  /\ (CaptureSession.mode s <> ERROR
      /\ CaptureSession.keyboardHandler s = negb (is_stopped (CaptureSession.mode s))
      /\ CaptureSession.keydown_handlers s
         = if is_stopped (CaptureSession.mode s) then 0%nat else 1%nat)
  /\ announced_mode evs = CaptureSession.mode s
  /\ (forall f, shown_fragment evs = Some f -> f = FragmentManager.currentFragment fm)
  /\ told_right_from [] evs
  /\ previews evs = rendered (CaptureSession.preview s)
  /\ committed_events evs = FragmentManager.committedFragments fm
  /\ Forall (fun f => elements f <> []) (FragmentManager.committedFragments fm)
  /\ CaptureSession.delivered s
     = match CaptureSession.onFragmentCommit settings with
       | Some _ => FragmentManager.committedFragments fm
       | None => []
       end.



(** A session to run: the settings of the default configuration with a
    commit handler that completes, keys pressed on the page body. *)
Definition default_settings : CaptureSession.Settings :=
  {| CaptureSession.undoHistorySize := 20;
     CaptureSession.chordModeTimeout := 2000;
     CaptureSession.highlightCurrentElement := true;
     CaptureSession.onFragmentCommit := Some (fun _ => None) |}.

Definition key_on_body (k : string) : CaptureSession.Call :=
  CaptureSession.keydown
    {| CaptureSession.target_tagName := "BODY"; CaptureSession.input_of := press k false |}.

Definition example_session : list (Z * CaptureSession.Call) :=
  [ (1, CaptureSession.call_start);
    (2, key_on_body "c");
    (3, key_on_body "d");
    (4, key_on_body "Backspace");
    (5, CaptureSession.call_pause);
    (6, key_on_body "e");
    (7, key_on_body "Enter") ].

(** The error events with which the class reports that the fragment
    manager has refused an element. *)
Definition add_failure (ev : CaptureSession.NotationEvent) : Prop :=
  match ev with
  | CaptureSession.error code _ =>
      In code ["ADD_NOTE_FAILED"; "ADD_REST_FAILED"; "ADD_CHORD_FAILED";
               "ADD_ELEMENT_FAILED"]
  | _ => False
  end.

(** The calls of a session with musical mappings and keys that name no
    inherited property. *)
Definition musical_capture_call (c : CaptureSession.Call) : Prop :=
  match c with
  | CaptureSession.keydown event =>
      table_key (ShortcutEngine.key_of (CaptureSession.input_of event))
  | CaptureSession.call_setKeyMapping mappings =>
      musical_mappings (default DEFAULT_KEY_MAPPINGS mappings)
  | _ => True
  end.

(** The engine is tuned and no element was refused so far. *)
Definition in_tune `{JS.Runtime} (s : CaptureSession.State) : Prop :=
  tuned (CaptureSession.shortcutEngine s)
  /\ Forall (fun ev => ~ add_failure ev) (CaptureSession.emitted s).

End Spec.

(** * Properties *)

Import JS Musical MusicalHelpers Validation Config.

(** ** Pitch strings *)

Section Pitch.
Import Spec.

Example parse_C4 :
  parsePitchString "C4" = Some {| note := "C"; accidental := None; octave := 4 |}.
Proof. reflexivity. Qed.

Example parse_Fsharp5 :
  parsePitchString "F#5" = Some {| note := "F"; accidental := Some sharp; octave := 5 |}.
Proof. reflexivity. Qed.

Example parse_rejects :
  parsePitchString "H4" = None /\ parsePitchString "C" = None /\
  parsePitchString "C#" = None /\ parsePitchString "C44" = None /\
  parsePitchString "c4" = None.
Proof. repeat split; reflexivity. Qed.

Example format_Bflat3 : formatPitch "B" (Some flat) 3 = "Bb3".
Proof. reflexivity. Qed.

Ltac split_In :=
  repeat match goal with
         | H : In _ (_ :: _) |- _ => destruct H as [<- | H]
         | H : In _ [] |- _ => destruct H
         end.

(** C4. Every pitch string [p] that matches [[A-G][#b]?[0-8]] is parsed by
    [parsePitchString], and [formatPitch] applied to the note, accidental and
    octave of the result gives [p] back. *)
Theorem C4_format_parse_roundtrip :
  forall p : string,
    pitch_pattern p ->
    exists r, parsePitchString p = Some r /\
              formatPitch (note r) (accidental r) (octave r) = p.
Proof.
  intros p (L & acc & d & HL & Hacc & Hd & ->).
  unfold letters_A_to_G, accidental_signs, digits_0_to_8 in *.
  split_In; (eexists; split; [reflexivity | reflexivity]).
Qed.

Lemma C4_format_parse_roundtrip_witness :
  pitch_pattern "F#5" /\
  exists r, parsePitchString "F#5" = Some r /\
            formatPitch (note r) (accidental r) (octave r) = "F#5".
Proof.
  assert (Hp : pitch_pattern "F#5").
  { exists "F"%char, "#", "5"%char. simpl. tauto. }
  split; [exact Hp | exact (C4_format_parse_roundtrip "F#5" Hp)].
Defined.

(** C10. [parsePitchString] accepts any decimal digit as the octave: for
    every letter of A-G, followed or not by [#] or [b], the string ending in
    [9] is parsed with octave 9, which is outside [0,8], and [isValidPitch]
    rejects the same string. *)
Theorem C10_parse_accepts_octave_9 :
  forall (L : ascii) (acc : string),
    In L letters_A_to_G -> In acc accidental_signs ->
    let p := String L (acc ++ "9")%string in
    (exists r, parsePitchString p = Some r /\ octave r = 9) /\
    isValidOctave 9 = false /\
    isValidPitch p = false.
Proof.
  intros L acc HL Hacc.
  unfold letters_A_to_G, accidental_signs in *.
  split_In; (split; [eexists; split; reflexivity | split; reflexivity]).
Qed.

Lemma C10_parse_accepts_octave_9_witness :
  (exists r, parsePitchString "Gb9" = Some r /\ octave r = 9) /\
  isValidOctave 9 = false /\
  isValidPitch "Gb9" = false.
Proof.
  apply (C10_parse_accepts_octave_9 "G"%char "b"); simpl; tauto.
Defined.

End Pitch.

(** ** Duration values *)

Section DurationValues.
Import Spec.
Local Open Scope float_scope.

Example quarter_one_dot : getDurationValue (Dotted "quarter" 1) = Some 0.375.
Proof. reflexivity. Qed.

Example half_two_dots : getDurationValue (Dotted "half" 2) = Some 0.875.
Proof. reflexivity. Qed.

Example whole_one_dot : getDurationValue (Dotted "whole" 1) = Some 1.5.
Proof. reflexivity. Qed.

Example eighth_no_dot : getDurationValue (Dotted "eighth" 0) = Some 0.125.
Proof. reflexivity. Qed.

Example unknown_duration :
  getDurationValue (Plain "breve") = None /\
  getDurationValue (Dotted "breve" 1) = Some nan.
Proof. split; reflexivity. Qed.

Lemma dots_loop_app (i j : nat) (v dv : float) :
  dots_loop (i + j) v dv = dots_loop j (fst (dots_loop i v dv)) (snd (dots_loop i v dv)).
Proof.
  revert v dv. induction i as [|i IH]; intros v dv; simpl.
  - reflexivity.
  - apply IH.
Qed.

(** Once the increment has underflowed to zero the loop no longer moves. *)
Lemma dots_loop_stationary (j : nat) (v : float) :
  v + 0 = v -> dots_loop j v 0 = (v, 0).
Proof.
  intros Hv. induction j as [|j IH]; simpl.
  - reflexivity.
  - change (0 / 2) with 0. rewrite Hv. exact IH.
Qed.

Lemma two_pow_neg_underflow (j : nat) : two_pow_neg (1100 + j) = 0.
Proof.
  induction j as [|j IH].
  - vm_compute. reflexivity.
  - replace (1100 + S j)%nat with (S (1100 + j)) by lia.
    change (two_pow_neg (S (1100 + j))) with (two_pow_neg (1100 + j) / 2).
    rewrite IH. reflexivity.
Qed.

Lemma agrees_below_1100 :
  forallb (fun b => forallb (agrees b) (seq 0 1100)) base_values = true.
Proof. vm_compute. reflexivity. Qed.

Lemma settled_at_1100 :
  forallb (fun b =>
             PrimFloat.Leibniz.eqb (fst (dots_loop 1100 b b)) (b * 2)
             && PrimFloat.Leibniz.eqb (snd (dots_loop 1100 b b)) 0
             && PrimFloat.Leibniz.eqb (b * 2 + 0) (b * 2)
             && PrimFloat.Leibniz.eqb (b * (2 - 0)) (b * 2))
          base_values = true.
Proof. vm_compute. reflexivity. Qed.

Lemma dotted_value_closed_form (b : float) (n : nat) :
  In b base_values -> dotted_value b n = b * (2 - two_pow_neg n).
Proof.
  intros Hb.
  destruct (Nat.lt_ge_cases n 1100) as [Hlt | Hge].
  - pose proof agrees_below_1100 as H.
    rewrite forallb_forall in H. specialize (H b Hb).
    rewrite forallb_forall in H. specialize (H n).
    apply FloatAxioms.Leibniz.eqb_spec, H, in_seq. lia.
  - pose proof settled_at_1100 as H.
    rewrite forallb_forall in H. specialize (H b Hb).
    repeat (apply andb_prop in H; destruct H as [H ?]).
    repeat match goal with
           | E : PrimFloat.Leibniz.eqb _ _ = true |- _ =>
               apply FloatAxioms.Leibniz.eqb_spec in E
           end.
    replace n with (1100 + (n - 1100))%nat by lia.
    rewrite two_pow_neg_underflow.
    unfold dotted_value. rewrite dots_loop_app.
    match goal with E1 : fst _ = _, E2 : snd _ = _ |- _ => rewrite E1, E2 end.
    rewrite dots_loop_stationary by assumption.
    simpl. congruence.
Qed.

Lemma base_value_of (d : Duration) :
  In d enumerated_durations ->
  exists b, baseValues !! d = Some b /\ In b base_values.
Proof.
  unfold enumerated_durations. intros Hd.
  repeat (destruct Hd as [<- | Hd];
          [eexists; split; [reflexivity | simpl; tauto] | ]).
  destruct Hd.
Qed.

(** C8. For each of the seven enumerated base durations [d] and every dot
    count [n >= 0], [getDurationValue] of [d] with [n] dots is the value of
    the bare [d] multiplied by [2 - 2^-n], both sides being computed in the
    binary64 arithmetic of JavaScript numbers; with no dot it is the bare
    base value. *)
Theorem C8_dotted_duration_value :
  forall (d : Duration) (n : Z),
    In d enumerated_durations -> (0 <= n)%Z ->
    exists b,
      getDurationValue (Plain d) = Some b /\
      getDurationValue (Dotted d n) = Some (b * (2 - two_pow_neg (Z.to_nat n))) /\
      getDurationValue (Dotted d 0) = Some b.
Proof.
  intros d n Hd Hn.
  destruct (base_value_of d Hd) as (b & Hb & Hin).
  exists b. unfold getDurationValue. simpl. rewrite Hb.
  repeat split.
  f_equal. apply (dotted_value_closed_form b (Z.to_nat n) Hin).
Qed.

Lemma C8_dotted_duration_value_witness :
  exists b,
    getDurationValue (Plain "quarter") = Some b /\
    getDurationValue (Dotted "quarter" 2) = Some (b * (2 - two_pow_neg (Z.to_nat 2))) /\
    getDurationValue (Dotted "quarter" 0) = Some b.
Proof.
  apply (C8_dotted_duration_value "quarter" 2).
  - unfold enumerated_durations. simpl. tauto.
  - lia.
Defined.

(** Up to 52 dots, for each of the seven base values, the sum computed by
    the loop is the exact rational value. *)
Lemma dotted_value_exact_to_52 :
  forallb (fun e => forallb (exact_dotted e) (seq 0 53))
          [0; -1; -2; -3; -4; -5; -6]%Z = true.
Proof. vm_compute. reflexivity. Qed.

(** From 53 dots on the sum has rounded up to twice the base value. *)
Example quarter_53_dots : getDurationValue (Dotted "quarter" 53) = Some 0.5.
Proof. vm_compute. reflexivity. Qed.

End DurationValues.

(** ** The evaluation runtime on the library's own test vectors *)

Section EvalExamples.
Import Spec.
Local Open Scope float_scope.

Example floor_examples :
  Eval.floor 0.75 = 0 /\ Eval.floor 3 = 3 /\ Eval.floor (-0.25) = (-1) /\
  Eval.floor 2.5 = 2.
Proof. repeat split; reflexivity. Qed.

Example rem_examples :
  Eval.rem 3 4 = 3 /\ Eval.rem 4 4 = 0 /\ Eval.rem 5.5 2 = 1.5 /\
  Eval.rem 0.75 0.5 = 0.25.
Proof. repeat split; reflexivity. Qed.

Example toString_examples :
  Eval.toString 0 = "0" /\ Eval.toString 3 = "3" /\ Eval.toString 120 = "120" /\
  Eval.toString 0.375 = "0.375" /\ Eval.toString 1.5 = "1.5" /\
  Eval.toString (-2) = "-2".
Proof. repeat split; reflexivity. Qed.

Example toISOString_examples :
  Eval.toISOString 0 = "1970-01-01T00:00:00.000Z" /\
  Eval.toISOString 1700000000123 = "2023-11-14T22:13:20.123Z" /\
  Eval.toISOString 951782400000 = "2000-02-29T00:00:00.000Z".
Proof. repeat split; vm_compute; reflexivity. Qed.

Example duration_of_empty :
  @calculateFragmentDuration Eval.runtime [] four_four = "0".
Proof. reflexivity. Qed.

Example duration_of_four_quarters :
  @calculateFragmentDuration Eval.runtime
    [quarter_note "C4"; quarter_note "D4"; quarter_note "E4"; quarter_note "F4"]
    four_four = "1".
Proof. vm_compute. reflexivity. Qed.

Example duration_of_partial_measure :
  @calculateFragmentDuration Eval.runtime
    [quarter_note "C4"; quarter_note "D4"; ERest (Plain "quarter")]
    four_four = "0.3/4".
Proof. vm_compute. reflexivity. Qed.

Example countMeasures_counts_barlines :
  countMeasures [quarter_note "C4"; EBarline None; quarter_note "D4"; EBarline None] = 2%nat /\
  countMeasures [quarter_note "C4"; quarter_note "D4"] = 0%nat.
Proof. split; reflexivity. Qed.

End EvalExamples.

(** ** The history buffer of the fragment manager *)

Section History.
Import FragmentManager Spec.
Context `{Runtime}.

Lemma len_app {A} (l : list A) (x : A) : len (l ++ [x]) = len l + 1.
Proof. unfold len. rewrite length_app. simpl. lia. Qed.

Lemma len_tail {A} (l : list A) : l <> [] -> len (tail l) = len l - 1.
Proof. destruct l; [congruence | unfold len; simpl; lia]. Qed.

Lemma len_slice0 {A} (l : list A) (e : Z) :
  0 <= e <= len l -> len (slice0 l e) = e.
Proof.
  intros He. unfold slice0, len in *.
  destruct (Z.ltb_spec e 0); [lia|].
  rewrite length_take. lia.
Qed.

Lemma index_app_last {A} (l : list A) (x : A) : index (l ++ [x]) (len l) = Some x.
Proof.
  unfold index, len. destruct (Z.ltb_spec (Z.of_nat (length l)) 0); [lia|].
  rewrite Nat2Z.id. rewrite lookup_app_r by lia.
  rewrite Nat.sub_diag. reflexivity.
Qed.

Lemma index_app_lt {A} (l : list A) (x : A) (i : Z) :
  i < len l -> index (l ++ [x]) i = index l i.
Proof.
  unfold index, len. intros Hi.
  destruct (Z.ltb_spec i 0); [reflexivity|].
  apply lookup_app_l. lia.
Qed.

Lemma index_slice0 {A} (l : list A) (e i : Z) :
  0 <= e -> i < e -> index (slice0 l e) i = index l i.
Proof.
  unfold index, slice0. intros He Hi.
  destruct (Z.ltb_spec e 0); [lia|].
  destruct (Z.ltb_spec i 0); [reflexivity|].
  apply lookup_take_lt. lia.
Qed.

Lemma index_tail {A} (l : list A) (i : Z) :
  0 <= i -> index (tail l) i = index l (i + 1).
Proof.
  unfold index. intros Hi.
  destruct (Z.ltb_spec i 0); [lia|].
  destruct (Z.ltb_spec (i + 1) 0); [lia|].
  replace (Z.to_nat (i + 1)) with (S (Z.to_nat i)) by lia.
  destruct l; reflexivity.
Qed.

Lemma len_kept (s : State) :
  -1 <= historyIndex s < len (history s) -> len (kept s) = historyIndex s + 1.
Proof.
  intros Hi. unfold kept.
  destruct (Z.ltb_spec (historyIndex s) (len (history s) - 1)).
  - apply len_slice0. lia.
  - lia.
Qed.

Lemma index_kept (s : State) (i : Z) :
  -1 <= historyIndex s -> i <= historyIndex s ->
  index (kept s) i = index (history s) i.
Proof.
  intros Hi Hle. unfold kept.
  destruct (Z.ltb_spec (historyIndex s) (len (history s) - 1)).
  - apply index_slice0; lia.
  - reflexivity.
Qed.

Lemma saveToHistory_unfold (now : Z) (a : Action) (s : State) :
  -1 <= historyIndex s < len (history s) ->
  saveToHistory now a s =
    if maxHistorySize s <? historyIndex s + 2
    then with_history (tail (kept s ++ [entry_of now a s])) (historyIndex s) s
    else with_history (kept s ++ [entry_of now a s]) (historyIndex s + 1) s.
Proof.
  intros Hi. unfold saveToHistory. fold (kept s). fold (entry_of now a s).
  rewrite len_app, (len_kept s Hi).
  replace (historyIndex s + 1 + 1) with (historyIndex s + 2) by lia.
  replace (historyIndex s + 1 - 1) with (historyIndex s) by lia.
  reflexivity.
Qed.

Lemma saveToHistory_frame (now : Z) (a : Action) (s : State) :
  currentFragment (saveToHistory now a s) = currentFragment s
  /\ maxHistorySize (saveToHistory now a s) = maxHistorySize s
  /\ committedFragments (saveToHistory now a s) = committedFragments s.
Proof.
  unfold saveToHistory.
  destruct (_ <? _); simpl; auto.
Qed.

(** After [saveToHistory] the cursor is on the last entry, which is the
    snapshot just taken; the buffer is within its bound. *)
Lemma saveToHistory_ok (now : Z) (a : Action) (s : State) :
  1 <= maxHistorySize s ->
  -1 <= historyIndex s < len (history s) ->
  len (history s) <= maxHistorySize s ->
  let s' := saveToHistory now a s in
  history_ok s' /\ in_sync s' /\ historyIndex s' = len (history s') - 1.
Proof.
  intros Hmax Hi Hlen s'. subst s'.
  rewrite (saveToHistory_unfold now a s Hi).
  pose proof (len_kept s Hi) as Hk.
  pose proof (len_app (kept s) (entry_of now a s)) as Happ.
  assert (Hlast : index (kept s ++ [entry_of now a s]) (historyIndex s + 1)
                  = Some (entry_of now a s)).
  { rewrite <- Hk. apply index_app_last. }
  unfold history_ok, in_sync.
  destruct (Z.ltb_spec (maxHistorySize s) (historyIndex s + 2)); simpl.
  - assert (Hne : kept s ++ [entry_of now a s] <> []) by (destruct (kept s); discriminate).
    rewrite (len_tail _ Hne), Happ, Hk.
    rewrite index_tail by lia.
    rewrite Hlast. simpl.
    repeat split; lia || reflexivity.
  - rewrite Happ, Hk, Hlast. simpl.
    repeat split; lia || reflexivity.
Qed.

(** The snapshot that was under the cursor sits just before the new one. *)
Lemma saveToHistory_previous (now : Z) (a : Action) (s : State) :
  2 <= maxHistorySize s ->
  history_ok s ->
  let s' := saveToHistory now a s in
  1 <= historyIndex s'
  /\ index (history s') (historyIndex s' - 1) = index (history s) (historyIndex s).
Proof.
  intros Hmax (Hi0 & Hi1 & Hlen) s'. subst s'.
  rewrite (saveToHistory_unfold now a s) by lia.
  pose proof (len_kept s ltac:(lia)) as Hk.
  destruct (Z.ltb_spec (maxHistorySize s) (historyIndex s + 2)); simpl.
  - split; [lia|].
    rewrite index_tail by lia.
    replace (historyIndex s - 1 + 1) with (historyIndex s) by lia.
    rewrite index_app_lt by lia.
    apply index_kept; lia.
  - split; [lia|].
    replace (historyIndex s + 1 - 1) with (historyIndex s) by lia.
    rewrite index_app_lt by lia.
    apply index_kept; lia.
Qed.

Lemma save_invariant (now : Z) (a : Action) (s1 s : State) :
  invariant s -> same_history s1 s -> invariant (saveToHistory now a s1).
Proof.
  intros (Hmax & (Hi0 & Hi1 & Hlen) & _) (Eh & Ei & Em).
  destruct (saveToHistory_ok now a s1) as (Hok & Hsync & _).
  - lia.
  - rewrite Eh, Ei. lia.
  - rewrite Eh, Em. lia.
  - split; [|split; assumption].
    destruct (saveToHistory_frame now a s1) as (_ & -> & _). lia.
Qed.

Lemma same_history_with_fragment (f : MusicalFragment) (s : State) :
  same_history (with_fragment f s) s.
Proof. repeat split. Qed.

Lemma same_history_updateMetadata (s1 s : State) :
  same_history s1 s -> same_history (updateMetadata s1) s.
Proof. intros (? & ? & ?). repeat split; simpl; assumption. Qed.

Create HintDb history.

#[local] Hint Resolve same_history_with_fragment same_history_updateMetadata : history.

Lemma constructor_invariant (now max : Z) (ts : TimeSig) (ks : KeySig) (tempo : float) :
  1 <= max -> invariant (constructor now max ts ks tempo).
Proof.
  intros Hmax. unfold constructor.
  match goal with |- invariant (saveToHistory _ _ ?s0) =>
    destruct (saveToHistory_ok now act_clear s0) as (Hok & Hsync & _);
    [ simpl; lia | simpl; unfold len; simpl; lia | simpl; unfold len; simpl; lia | ];
    split; [|split; assumption];
    destruct (saveToHistory_frame now act_clear s0) as (_ & -> & _); simpl; lia
  end.
Qed.

Lemma addElement_invariant (now : Z) (e : MusicalElement) (s : State) :
  invariant s -> invariant (snd (addElement now e s)).
Proof.
  intros Hs. unfold addElement.
  destruct (_ <? _)%nat; [exact Hs|].
  destruct (canAddElementToFragment _ _); [|exact Hs].
  simpl. eapply save_invariant; eauto with history.
Qed.

Lemma deleteLastElement_invariant (now : Z) (s : State) :
  invariant s -> invariant (snd (deleteLastElement now s)).
Proof.
  intros Hs. unfold deleteLastElement.
  destruct (last _); [|exact Hs].
  simpl. eapply save_invariant; eauto with history.
Qed.

Lemma deleteElementAt_invariant (now i : Z) (s : State) :
  invariant s -> invariant (snd (deleteElementAt now i s)).
Proof.
  intros Hs. unfold deleteElementAt.
  destruct (_ || _); [exact Hs|].
  destruct (_ !! _); [|exact Hs].
  simpl. eapply save_invariant; eauto with history.
Qed.

Lemma commit_invariant (now : Z) (s : State) :
  invariant s -> invariant (snd (commit now s)).
Proof.
  intros (Hmax & _). unfold commit. simpl.
  match goal with |- invariant (saveToHistory _ _ ?s0) =>
    destruct (saveToHistory_ok now act_clear s0) as (Hok & Hsync & _);
    [ simpl; lia | simpl; unfold len; simpl; lia | simpl; unfold len; simpl; lia | ];
    split; [|split; assumption];
    destruct (saveToHistory_frame now act_clear s0) as (_ & -> & _); simpl; lia
  end.
Qed.

(** Inside the buffer a cursor always finds an entry. *)
Lemma index_in_range {A} (l : list A) (i : Z) :
  0 <= i < len l -> exists x, index l i = Some x.
Proof.
  unfold index, len. intros Hi.
  destruct (Z.ltb_spec i 0); [lia|].
  apply lookup_lt_is_Some_2. lia.
Qed.

Lemma moved_cursor_invariant (s : State) (i : Z) (entry : FragmentHistoryEntry) :
  invariant s -> 0 <= i < len (history s) ->
  index (history s) i = Some entry ->
  invariant (with_fragment (fragment entry) (with_history (history s) i s)).
Proof.
  intros (Hmax & (Hi0 & Hi1 & Hlen) & _) Hi Hentry.
  unfold invariant, history_ok, in_sync. simpl.
  rewrite Hentry. simpl. repeat split; lia || reflexivity.
Qed.

Lemma undo_invariant (s : State) :
  invariant s -> exists r s', undo s = Some (r, s') /\ invariant s'.
Proof.
  intros Hs. pose proof Hs as (Hmax & (Hi0 & Hi1 & Hlen) & _).
  unfold undo. destruct (Z.leb_spec (historyIndex s) 0).
  - eauto.
  - destruct (index_in_range (history s) (historyIndex s - 1)) as (entry & He); [lia|].
    rewrite He. do 2 eexists. split; [reflexivity|].
    apply moved_cursor_invariant; [assumption | lia | assumption].
Qed.

Lemma redo_invariant (s : State) :
  invariant s -> exists r s', redo s = Some (r, s') /\ invariant s'.
Proof.
  intros Hs. pose proof Hs as (Hmax & (Hi0 & Hi1 & Hlen) & _).
  unfold redo. destruct (Z.leb_spec (len (history s) - 1) (historyIndex s)).
  - eauto.
  - destruct (index_in_range (history s) (historyIndex s + 1)) as (entry & He); [lia|].
    rewrite He. do 2 eexists. split; [reflexivity|].
    apply moved_cursor_invariant; [assumption | lia | assumption].
Qed.

Lemma step_invariant (now : Z) (c : Call) (s : State) :
  invariant s -> exists s', step now c s = Some s' /\ invariant s'.
Proof.
  intros Hs. destruct c; simpl.
  - eexists; split; [reflexivity | apply addElement_invariant, Hs].
  - eexists; split; [reflexivity | apply deleteLastElement_invariant, Hs].
  - eexists; split; [reflexivity | apply deleteElementAt_invariant, Hs].
  - eexists; split; [reflexivity |].
    unfold clear. eapply save_invariant; eauto with history.
  - destruct (undo_invariant s Hs) as (r & s' & -> & Hs'). simpl. eauto.
  - destruct (redo_invariant s Hs) as (r & s' & -> & Hs'). simpl. eauto.
  - eexists; split; [reflexivity | apply commit_invariant, Hs].
  - eexists; split; [reflexivity |].
    unfold setTimeSignature. eapply save_invariant; eauto with history.
  - eexists; split; [reflexivity |].
    unfold setKeySignature. eapply save_invariant; eauto with history.
  - eexists; split; [reflexivity |].
    unfold setTempo. eapply save_invariant; eauto with history.
Qed.

Lemma run_invariant (calls : list (Z * Call)) (s : State) :
  invariant s -> exists s', run calls s = Some s' /\ invariant s'.
Proof.
  revert s. induction calls as [|[now c] calls IH]; intros s Hs; simpl.
  - eauto.
  - destruct (step_invariant now c s Hs) as (s1 & -> & Hs1).
    apply IH, Hs1.
Qed.

Lemma step_maxHistorySize (now : Z) (c : Call) (s s' : State) :
  step now c s = Some s' -> maxHistorySize s' = maxHistorySize s.
Proof.
  destruct c; simpl; intros E;
    try (injection E as <-);
    unfold addElement, deleteLastElement, deleteElementAt, clear, commit,
      setTimeSignature, setKeySignature, setTempo, undo, redo in *;
    repeat match goal with
           | |- context [saveToHistory ?n ?a ?x] =>
               destruct (saveToHistory_frame n a x) as (_ & -> & _)
           | |- context [if ?b then _ else _] => destruct b
           | |- context [match ?x with _ => _ end] => destruct x
           | E : context [if ?b then _ else _] |- _ => destruct b
           | E : context [match ?x with _ => _ end] |- _ => destruct x
           | E : _ <$> _ = Some _ |- _ => simpl in E
           | E : Some _ = Some _ |- _ => injection E as <-
           | E : None = Some _ |- _ => discriminate E
           end;
    repeat first
      [ progress simpl
      | match goal with
        | |- context [saveToHistory ?n ?a ?x] =>
            destruct (saveToHistory_frame n a x) as (_ & -> & _)
        end ];
    reflexivity.
Qed.

Lemma run_maxHistorySize (calls : list (Z * Call)) (s s' : State) :
  run calls s = Some s' -> maxHistorySize s' = maxHistorySize s.
Proof.
  revert s. induction calls as [|[now c] calls IH]; intros s; simpl.
  - intros [= <-]. reflexivity.
  - destruct (step now c s) as [s1|] eqn:E; [|discriminate].
    intros Hrun. rewrite (IH _ Hrun). eapply step_maxHistorySize, E.
Qed.

Lemma reachable_invariant (max : Z) (s : State) :
  1 <= max -> reachable max s -> invariant s /\ maxHistorySize s = max.
Proof.
  intros Hmax (now & ts & ks & tempo & calls & Hrun).
  pose proof (constructor_invariant now max ts ks tempo Hmax) as H0.
  destruct (run_invariant calls _ H0) as (s' & Hrun' & Hs').
  rewrite Hrun in Hrun'. injection Hrun' as <-.
  split; [assumption|].
  rewrite (run_maxHistorySize _ _ _ Hrun).
  unfold constructor.
  match goal with |- maxHistorySize (saveToHistory ?n ?a ?x) = _ =>
    destruct (saveToHistory_frame n a x) as (_ & -> & _) end.
  reflexivity.
Qed.

Lemma in_sync_entry (s : State) :
  in_sync s ->
  exists entry, index (history s) (historyIndex s) = Some entry
                /\ fragment entry = currentFragment s.
Proof.
  unfold in_sync. destruct (index _ _) as [entry|]; simpl; [|discriminate].
  intros [= E]. eauto.
Qed.

(** After a snapshot has been taken there is nothing to redo. *)
Lemma redo_after_save (now : Z) (a : Action) (s1 s : State) :
  invariant s -> same_history s1 s ->
  redo (saveToHistory now a s1) = Some (false, saveToHistory now a s1).
Proof.
  intros (Hmax & (Hi0 & Hi1 & Hlen) & _) (Eh & Ei & Em).
  destruct (saveToHistory_ok now a s1) as (_ & _ & Hlast).
  - lia.
  - rewrite Eh, Ei. lia.
  - rewrite Eh, Em. lia.
  - unfold redo. rewrite Hlast.
    destruct (Z.leb_spec (len (history (saveToHistory now a s1)) - 1)
                         (len (history (saveToHistory now a s1)) - 1)); [reflexivity | lia].
Qed.

(** A successful [addElement] is a push followed by a snapshot. *)
Lemma addElement_success (now : Z) (e : MusicalElement) (s s1 : State) :
  addElement now e s = (success_true, s1) ->
  exists sp, same_history sp s /\ s1 = saveToHistory now act_add sp
             /\ elements (currentFragment sp) = elements (currentFragment s) ++ [e].
Proof.
  unfold addElement.
  destruct (_ <? _)%nat; [discriminate|].
  destruct (canAddElementToFragment _ _); [|discriminate].
  intros [= <-]. eexists. split; [|split; reflexivity].
  auto with history.
Qed.

(** C5. When [addElement] answers [success: false] the state of the manager
    is the state before the call: the element sequence and the metadata of
    the working fragment, the history and its cursor are unchanged, so no
    history entry is written.  The answer is [false] exactly for an element
    that fails validation or a time or key signature placed after a note or
    a rest. *)
Theorem C5_failed_add_leaves_state :
  forall (now : Z) (e : MusicalElement) (s : State) (err : option string),
    fst (addElement now e s) = success_false err ->
    snd (addElement now e s) = s
    /\ elements (currentFragment (snd (addElement now e s))) = elements (currentFragment s)
    /\ metadata (currentFragment (snd (addElement now e s))) = metadata (currentFragment s)
    /\ history (snd (addElement now e s)) = history s
    /\ historyIndex (snd (addElement now e s)) = historyIndex s
    /\ (validateMusicalElement e <> []
        \/ canAddElementToFragment e (elements (currentFragment s)) <> Valid).
Proof.
  intros now e s err. unfold addElement.
  destruct (validateMusicalElement e) as [|msg msgs] eqn:Ev; simpl.
  - destruct (canAddElementToFragment e (elements (currentFragment s))) eqn:Ec; simpl.
    + discriminate.
    + intros _. repeat split; try reflexivity. right. discriminate.
  - intros _. repeat split; try reflexivity. left. discriminate.
Qed.

(** C7. For every bound [max >= 1] and every sequence of calls made on a
    manager built with that bound (addElement, deleteLastElement,
    deleteElementAt, clear, undo, redo, commit, the header setters), no call
    throws, the history never holds more than [max] entries and the cursor
    indexes one of them.  When pushing a snapshot makes the history longer
    than [max], the oldest entry is dropped and the cursor, which was
    advanced by the push, is moved back by one. *)
Theorem C7_history_bounded :
  forall (max now : Z) (ts : TimeSig) (ks : KeySig) (tempo : float)
         (calls : list (Z * Call)),
    1 <= max ->
    exists s,
      run calls (constructor now max ts ks tempo) = Some s
      /\ len (history s) <= max
      /\ 0 <= historyIndex s < len (history s)
      /\ forall now' a,
           max < len (kept s ++ [entry_of now' a s]) ->
           history (saveToHistory now' a s) = tail (kept s ++ [entry_of now' a s])
           /\ historyIndex (saveToHistory now' a s) = historyIndex s + 1 - 1
           /\ len (history (saveToHistory now' a s)) = max.
Proof.
  intros max now ts ks tempo calls Hmax.
  pose proof (constructor_invariant now max ts ks tempo Hmax) as H0.
  destruct (run_invariant calls _ H0) as (s & Hrun & Hs).
  assert (Hr : reachable max s) by (exists now, ts, ks, tempo, calls; exact Hrun).
  destruct (reachable_invariant max s Hmax Hr) as ((_ & (Hi0 & Hi1 & Hlen) & _) & Em).
  exists s. rewrite Em in Hlen. repeat split; try assumption.
  - unfold saveToHistory. fold (kept s). fold (entry_of now' a s).
    rewrite Em. destruct (Z.ltb_spec max (len (kept s ++ [entry_of now' a s]))); [reflexivity | lia].
  - unfold saveToHistory. fold (kept s). fold (entry_of now' a s).
    rewrite Em. destruct (Z.ltb_spec max (len (kept s ++ [entry_of now' a s]))); [reflexivity | lia].
  - unfold saveToHistory. fold (kept s). fold (entry_of now' a s).
    rewrite Em. destruct (Z.ltb_spec max (len (kept s ++ [entry_of now' a s]))); [simpl | lia].
    rewrite len_tail by (destruct (kept s); discriminate).
    rewrite len_app in *. rewrite len_kept in * by lia. lia.
Qed.

(** C6, as the code has it.  On a manager built with a bound of at least 1:
    at a history boundary [undo] and [redo] answer [false] and change
    nothing; after a successful [addElement], [redo] answers [false], in
    particular when the add follows an [undo].  When the bound is at least 2,
    [undo] after a successful [addElement] brings back the working fragment
    of before the add, hence its element count, and [redo] then brings back
    the fragment with the added element. *)
Theorem C6_undo_redo :
  forall (max : Z) (s : State),
    1 <= max -> reachable max s ->
    (historyIndex s <= 0 -> undo s = Some (false, s))
    /\ (len (history s) - 1 <= historyIndex s -> redo s = Some (false, s))
    /\ (forall now e s1,
          addElement now e s = (success_true, s1) ->
          redo s1 = Some (false, s1)
          /\ getElementCount s1 = S (getElementCount s))
    /\ (forall su now e s1,
          undo s = Some (true, su) ->
          addElement now e su = (success_true, s1) ->
          redo s1 = Some (false, s1))
    /\ (2 <= max ->
        forall now e s1,
          addElement now e s = (success_true, s1) ->
          exists s2 s3,
            undo s1 = Some (true, s2)
            /\ currentFragment s2 = currentFragment s
            /\ getElementCount s2 = getElementCount s
            /\ redo s2 = Some (true, s3)
            /\ currentFragment s3 = currentFragment s1
            /\ getElementCount s3 = S (getElementCount s)).
Proof.
  intros max s Hmax Hr.
  destruct (reachable_invariant max s Hmax Hr) as (Hs & Em).
  assert (Hadd : forall now e s1,
             addElement now e s = (success_true, s1) ->
             redo s1 = Some (false, s1) /\ getElementCount s1 = S (getElementCount s)).
  { intros now e s1 Ha.
    destruct (addElement_success now e s s1 Ha) as (sp & Hsame & -> & Hel).
    split; [eapply redo_after_save; eassumption|].
    unfold getElementCount.
    destruct (saveToHistory_frame now act_add sp) as (-> & _).
    rewrite Hel, length_app. simpl. lia. }
  split; [|split; [|split; [exact Hadd|split]]].
  - intros Hb. unfold undo.
    destruct (Z.leb_spec (historyIndex s) 0); [reflexivity | lia].
  - intros Hb. unfold redo.
    destruct (Z.leb_spec (len (history s) - 1) (historyIndex s)); [reflexivity | lia].
  - intros su now e s1 Hu Ha.
    destruct (undo_invariant s Hs) as (r & su' & Hu' & Hsu).
    rewrite Hu in Hu'. injection Hu' as <- <-.
    destruct (addElement_success now e su s1 Ha) as (sp & Hsame & -> & _).
    eapply redo_after_save; eassumption.
  - intros Hmax2 now e s1 Ha.
    destruct (Hadd now e s1 Ha) as (_ & Hcount).
    destruct (addElement_success now e s s1 Ha) as (sp & Hsame & -> & Hel).
    pose proof Hs as (_ & (Hi0 & Hi1 & Hlen) & Hsync).
    destruct Hsame as (Eh & Ei & Emx).
    assert (Hsp : history_ok sp) by (unfold history_ok; rewrite Eh, Ei, Emx; lia).
    destruct (saveToHistory_previous now act_add sp) as (Hpos & Hprev);
      [lia | exact Hsp |].
    destruct (saveToHistory_ok now act_add sp) as (_ & Hsync1 & Hlast);
      [lia | destruct Hsp; lia | destruct Hsp as (_ & _ & ?); lia |].
    rewrite Eh, Ei in Hprev.
    destruct (in_sync_entry s Hsync) as (entry & He & Hf).
    destruct (in_sync_entry _ Hsync1) as (entry1 & He1 & Hf1).
    set (s1 := saveToHistory now act_add sp) in *.
    exists (with_fragment (fragment entry)
              (with_history (history s1) (historyIndex s1 - 1) s1)).
    exists (with_fragment (fragment entry1)
              (with_history (history s1) (historyIndex s1) s1)).
    split; [|split; [|split; [|split; [|split]]]].
    + unfold undo. destruct (Z.leb_spec (historyIndex s1) 0); [lia|].
      rewrite Hprev, He. reflexivity.
    + simpl. exact Hf.
    + unfold getElementCount. simpl. rewrite Hf. reflexivity.
    + unfold redo. simpl.
      destruct (Z.leb_spec (len (history s1) - 1) (historyIndex s1 - 1)); [lia|].
      replace (historyIndex s1 - 1 + 1) with (historyIndex s1) by lia.
      rewrite He1. reflexivity.
    + simpl. exact Hf1.
    + unfold getElementCount in *. simpl. rewrite Hf1. exact Hcount.
Qed.

End History.

(** ** The fragment manager on concrete inputs *)

Section ManagerExamples.
Import FragmentManager Spec.
#[local] Existing Instance Eval.runtime.

Example add_then_commit :
  let s0 := default_constructor 0 in
  let s1 := snd (addElement 1 (quarter_note "C4") s0) in
  getElementCount s1 = 1%nat
  /\ length (elements (fst (commit 2 s1))) = 1%nat
  /\ isEmpty (snd (commit 2 s1)) = true
  /\ length (getCommittedFragments (snd (commit 2 s1))) = 1%nat
  /\ tempo (currentFragment (snd (commit 2 s1))) = 120%float.
Proof. vm_compute. repeat split. Qed.

Example barline_counts_a_measure :
  run [ (1, call_addElement (quarter_note "C4"));
        (2, call_addElement (quarter_note "D4"));
        (3, call_addElement (EBarline None)) ] (default_constructor 0)
  = Some (snd (addElement 3 (EBarline None)
            (snd (addElement 2 (quarter_note "D4")
               (snd (addElement 1 (quarter_note "C4") (default_constructor 0)))))))
  /\ measures (metadata (currentFragment
       (snd (addElement 3 (EBarline None)
          (snd (addElement 2 (quarter_note "D4")
             (snd (addElement 1 (quarter_note "C4") (default_constructor 0))))))))) = 1%nat.
Proof. vm_compute. split; reflexivity. Qed.

Lemma C5_failed_add_leaves_state_witness :
  let s := default_constructor 0 in
  let e := quarter_note "X9" in
  fst (addElement 1 e s) = success_false (Some "Invalid pitch: X9")
  /\ snd (addElement 1 e s) = s
  /\ elements (currentFragment (snd (addElement 1 e s))) = elements (currentFragment s)
  /\ metadata (currentFragment (snd (addElement 1 e s))) = metadata (currentFragment s)
  /\ history (snd (addElement 1 e s)) = history s
  /\ historyIndex (snd (addElement 1 e s)) = historyIndex s
  /\ (validateMusicalElement e <> []
      \/ canAddElementToFragment e (elements (currentFragment s)) <> Valid).
Proof.
  intros s e.
  assert (Hfail : fst (addElement 1 e s) = success_false (Some "Invalid pitch: X9")).
  { vm_compute. reflexivity. }
  split; [exact Hfail|].
  exact (C5_failed_add_leaves_state 1 e s _ Hfail).
Defined.

Lemma C7_history_bounded_witness :
  1 <= 2
  /\ exists s,
      run commit_calls (constructor 0 2 four_four c_major 120%float) = Some s
      /\ len (history s) <= 2
      /\ 0 <= historyIndex s < len (history s)
      /\ forall now' a,
           2 < len (kept s ++ [entry_of now' a s]) ->
           history (saveToHistory now' a s) = tail (kept s ++ [entry_of now' a s])
           /\ historyIndex (saveToHistory now' a s) = historyIndex s + 1 - 1
           /\ len (history (saveToHistory now' a s)) = 2.
Proof.
  split; [lia|].
  apply (C7_history_bounded 2 0 four_four c_major 120%float commit_calls). lia.
Defined.

(** With a history of one entry the snapshot of before the add is evicted
    by the add itself: [undo] answers [false] and the element stays. *)
Lemma C6_counterexample :
  let s := constructor 0 1 four_four c_major 120%float in
  exists s1,
    reachable 1 s
    /\ addElement 1 (quarter_note "C4") s = (success_true, s1)
    /\ undo s1 = Some (false, s1)
    /\ getElementCount s = 0%nat
    /\ getElementCount s1 = 1%nat.
Proof.
  intros s. eexists. split; [|split; [vm_compute; reflexivity|]].
  - exists 0, four_four, c_major, 120%float, []. reflexivity.
  - vm_compute. repeat split.
Qed.

Lemma C6_undo_redo_witness :
  let s := default_constructor 0 in
  exists s1 s2 s3,
    addElement 1 (quarter_note "C4") s = (success_true, s1)
    /\ undo s1 = Some (true, s2)
    /\ getElementCount s2 = getElementCount s
    /\ redo s2 = Some (true, s3)
    /\ getElementCount s3 = S (getElementCount s)
    /\ redo s1 = Some (false, s1).
Proof.
  intros s.
  assert (Hr : reachable 20 s).
  { exists 0, four_four, c_major, 120%float, []. reflexivity. }
  destruct (C6_undo_redo 20 s ltac:(lia) Hr) as (_ & _ & Hadd & _ & Hundo).
  pose (s1 := snd (addElement 1 (quarter_note "C4") s)).
  assert (Ha : addElement 1 (quarter_note "C4") s = (success_true, s1)).
  { vm_compute. reflexivity. }
  destruct (Hundo ltac:(lia) 1 (quarter_note "C4") s1 Ha)
    as (s2 & s3 & Hu & _ & Hc2 & Hre & _ & Hc3).
  destruct (Hadd 1 (quarter_note "C4") s1 Ha) as (Hredo & _).
  exists s1, s2, s3. tauto.
Defined.

End ManagerExamples.

(** ** Committing an empty fragment *)

Section EmptyCommit.
Import Spec.

(** [FragmentManager.commit] has no emptiness test: on a new manager it
    archives the empty working fragment with a fresh timestamp and returns
    it. *)
Lemma C2_counterexample :
  let s := @FragmentManager.default_constructor Eval.runtime 0 in
  FragmentManager.isEmpty s = true
  /\ FragmentManager.committedFragments s = []
  /\ FragmentManager.committedFragments (snd (@FragmentManager.commit Eval.runtime 5 s))
     = [fst (@FragmentManager.commit Eval.runtime 5 s)]
  /\ elements (fst (@FragmentManager.commit Eval.runtime 5 s)) = []
  /\ timestamp (fst (@FragmentManager.commit Eval.runtime 5 s)) = "1970-01-01T00:00:00.005Z".
Proof. vm_compute. repeat split. Qed.

(** C2, as the code has it.  The emptiness test is the orchestrator's: when
    [NotationCapture.commit] is called while the working fragment has no
    element, it emits the error notification [EMPTY_FRAGMENT] and does
    nothing else.  The fragment manager is untouched, so no fragment is
    appended to the committed list and no timestamp is stamped, and the
    commit handler is not called. *)
Theorem C2_empty_commit_rejected_by_orchestrator :
  forall `{Runtime} (now : Z) (onFragmentCommit : option NotationCapture.CommitHandler)
         (nc : NotationCapture.State),
    FragmentManager.isEmpty (NotationCapture.fragmentManager nc) = true ->
    let nc' := NotationCapture.commit now onFragmentCommit nc in
    NotationCapture.fragmentManager nc' = NotationCapture.fragmentManager nc
    /\ FragmentManager.getCommittedFragments (NotationCapture.fragmentManager nc')
       = FragmentManager.getCommittedFragments (NotationCapture.fragmentManager nc)
    /\ NotationCapture.emitted nc'
       = NotationCapture.emitted nc
         ++ [NotationCapture.event_error "EMPTY_FRAGMENT" "Cannot commit empty fragment"]
    /\ NotationCapture.delivered nc' = NotationCapture.delivered nc
    /\ NotationCapture.rendered nc' = NotationCapture.rendered nc.
Proof.
  intros rt now handler nc Hempty nc'. subst nc'.
  unfold NotationCapture.commit. rewrite Hempty. simpl.
  repeat split.
Qed.

Lemma C2_empty_commit_rejected_by_orchestrator_witness :
  let nc := orchestrator (@FragmentManager.default_constructor Eval.runtime 0) in
  let nc' := @NotationCapture.commit Eval.runtime 5 (Some (fun _ => None)) nc in
  FragmentManager.isEmpty (NotationCapture.fragmentManager nc) = true
  /\ NotationCapture.fragmentManager nc' = NotationCapture.fragmentManager nc
  /\ FragmentManager.getCommittedFragments (NotationCapture.fragmentManager nc')
     = FragmentManager.getCommittedFragments (NotationCapture.fragmentManager nc)
  /\ NotationCapture.emitted nc'
     = NotationCapture.emitted nc
       ++ [NotationCapture.event_error "EMPTY_FRAGMENT" "Cannot commit empty fragment"]
  /\ NotationCapture.delivered nc' = NotationCapture.delivered nc
  /\ NotationCapture.rendered nc' = NotationCapture.rendered nc.
Proof.
  intros nc nc'.
  assert (Hempty : FragmentManager.isEmpty (NotationCapture.fragmentManager nc) = true).
  { vm_compute. reflexivity. }
  split; [exact Hempty|].
  exact (@C2_empty_commit_rejected_by_orchestrator Eval.runtime 5 (Some (fun _ => None)) nc Hempty).
Defined.

(** A fragment with an element is committed, handed to the handler, and a
    failing handler does not undo the commit. *)
Example commit_with_failing_handler :
  let fm := snd (@FragmentManager.addElement Eval.runtime 1 (quarter_note "C4")
                   (@FragmentManager.default_constructor Eval.runtime 0)) in
  let nc' := @NotationCapture.commit Eval.runtime 5 (Some (fun _ => Some "offline"))
               (orchestrator fm) in
  length (FragmentManager.getCommittedFragments (NotationCapture.fragmentManager nc')) = 1%nat
  /\ length (NotationCapture.delivered nc') = 1%nat
  /\ FragmentManager.isEmpty (NotationCapture.fragmentManager nc') = true
  /\ nth_error (NotationCapture.emitted nc') 1
     = Some (NotationCapture.event_error "COMMIT_HANDLER_ERROR" "Commit handler failed: offline").
Proof. vm_compute. repeat split. Qed.

End EmptyCommit.

(** ** The shortcut engine *)

Section Engine.
Import ShortcutEngine Spec.

Example plain_note :
  fst (processKeyInput 1 (press "c" false) CAPTURE (constructor DEFAULT_KEY_MAPPINGS))
  = type_note {| note_pitch := "C4"; note_duration := Plain "quarter";
                 note_accidental := None; note_tuplet := None |}.
Proof. vm_compute. reflexivity. Qed.

Example stopped_mode_rejects :
  fst (processKeyInput 1 (press "c" false) STOPPED (constructor DEFAULT_KEY_MAPPINGS))
  = type_invalid "Input not accepted in current mode".
Proof. reflexivity. Qed.

Example five_steps_down :
  let down := (1, press "ArrowDown" false, CAPTURE) in
  let '(rs, e) := processAll [down; down; down; down; down] (constructor DEFAULT_KEY_MAPPINGS) in
  nth_error rs 3 = Some (type_modifier (data_octave 0))
  /\ nth_error rs 4 = Some (type_invalid "Octave out of range")
  /\ snap_octave (getCurrentState e) = 0.
Proof. vm_compute. repeat split. Qed.

Example sharp_and_flat :
  fst (processKeyInput 1 (press_with "d" true false) CAPTURE (constructor DEFAULT_KEY_MAPPINGS))
  = type_note {| note_pitch := "D#4"; note_duration := Plain "quarter";
                 note_accidental := Some sharp; note_tuplet := None |}
  /\ fst (processKeyInput 1 (press_with "e" false true) CAPTURE (constructor DEFAULT_KEY_MAPPINGS))
     = type_note {| note_pitch := "Eb4"; note_duration := Plain "quarter";
                    note_accidental := Some flat; note_tuplet := None |}
  /\ fst (processKeyInput 1 (press_with "E" true true) CAPTURE (constructor DEFAULT_KEY_MAPPINGS))
     = type_note {| note_pitch := "E#4"; note_duration := Plain "quarter";
                    note_accidental := Some sharp; note_tuplet := None |}.
Proof. vm_compute. repeat split. Qed.

Example octave_up_then_note :
  fst (processAll [ (1, press "ArrowUp" false, CAPTURE); (2, press "g" false, CAPTURE) ]
         (constructor DEFAULT_KEY_MAPPINGS))
  = [ type_modifier (data_octave 5);
      type_note {| note_pitch := "G5"; note_duration := Plain "quarter";
                   note_accidental := None; note_tuplet := None |} ].
Proof. vm_compute. reflexivity. Qed.

Example duration_keys :
  fst (processAll [ (1, press "3" false, CAPTURE); (2, press "a" false, CAPTURE);
                    (3, press "7" false, CAPTURE); (4, press "a" false, CAPTURE);
                    (5, press "2" false, CAPTURE); (6, press "Space" false, CAPTURE) ]
         (constructor DEFAULT_KEY_MAPPINGS))
  = [ type_modifier (data_duration "quarter" true false);
      type_note {| note_pitch := "A4"; note_duration := Dotted "quarter" 1;
                   note_accidental := None; note_tuplet := None |};
      type_modifier (data_duration "eighth" false true);
      type_note {| note_pitch := "A4"; note_duration := Plain "eighth";
                   note_accidental := None; note_tuplet := Some "triplet" |};
      type_modifier (data_duration "half" false false);
      type_rest (Plain "half") ].
Proof. vm_compute. reflexivity. Qed.

Example control_keys :
  fst (processAll [ (1, press "Tab" false, CAPTURE); (2, press "z" true, CAPTURE);
                    (3, press "z" false, CAPTURE); (4, press "." false, CAPTURE);
                    (5, press "." false, CAPTURE); (6, press "'" false, CAPTURE);
                    (7, press "Enter" false, CAPTURE) ]
         (constructor DEFAULT_KEY_MAPPINGS))
  = [ type_control (data_element (EBarline (Some "single")));
      type_control (data_action "undo");
      type_invalid "Unrecognized input";
      type_modifier (data_dotted true);
      type_modifier (data_dotted false);
      type_modifier (data_articulation "staccato");
      type_control (data_action "commit") ].
Proof. vm_compute. reflexivity. Qed.

(** C1. With the default key mappings and a new engine, Ctrl+C in CAPTURE
    mode followed by E, G and Enter in CHORD_MODE does not yield a Chord
    instruction: the first three keys collect C4, E4 and G4 in that order,
    but Enter is looked up among the control commands first, where the
    default mappings bind it to [commit], so the last result is the control
    instruction [commit] and the three collected pitches stay pending in the
    engine. *)
Theorem C1_enter_is_taken_as_commit :
  processAll chord_flow (constructor DEFAULT_KEY_MAPPINGS)
  = ( [ type_control (data_action "enter-chord-mode");
        type_modifier (data_chordNotes ["C4"; "E4"]);
        type_modifier (data_chordNotes ["C4"; "E4"; "G4"]);
        type_control (data_action "commit") ],
      set_lastNoteTime 3
        (set_chordNotes ["C4"; "E4"; "G4"] (constructor DEFAULT_KEY_MAPPINGS)) ).
Proof. vm_compute. reflexivity. Qed.

(** Whatever the state of the engine, under the default mappings the key
    Enter never completes a chord. *)
Lemma default_Enter_never_completes (now : Z) (input : KeyboardInput)
    (mode : InputMode) (e : Engine) :
  keyMappings e = DEFAULT_KEY_MAPPINGS -> key_of input = "Enter" ->
  is_chord_result (fst (processKeyInput now input mode e)) = false.
Proof.
  intros Hk Hkey. unfold processKeyInput.
  destruct (is_stopped_or_error mode); [reflexivity|].
  unfold processControlCommand. rewrite Hk, Hkey. reflexivity.
Qed.

(** The accumulation path itself does what is expected of it: once Enter is
    not bound to a control command, the same keys yield the chord C4, E4, G4
    in insertion order, and a repeated pitch is entered once. *)
Lemma chord_flow_without_Enter_control :
  fst (processAll chord_flow (constructor mappings_without_Enter_control))
  = [ type_control (data_action "enter-chord-mode");
      type_modifier (data_chordNotes ["C4"; "E4"]);
      type_modifier (data_chordNotes ["C4"; "E4"; "G4"]);
      type_chord C_major_triad ]
  /\ last (fst (processAll chord_flow_repeated (constructor mappings_without_Enter_control)))
     = Some (type_chord C_major_triad)
  /\ chordNotes (snd (processAll chord_flow (constructor mappings_without_Enter_control))) = [].
Proof. vm_compute. repeat split. Qed.

End Engine.

(** ** Exporting and importing a configuration *)

Section ConfigRoundTrip.
Import ConfigurationManager Spec.

Lemma read_entries_encoded {A} (read : json -> option A) (enc : A -> json)
    (l : list (string * A)) :
  (forall a, read (enc a) = Some a) ->
  read_entries read ((fun '(k, a) => (k, enc a)) <$> l) = Some l.
Proof.
  unfold read_entries. intros Hall. induction l as [|[k a] l IH].
  - reflexivity.
  - cbn. rewrite Hall. cbn. rewrite IH. reflexivity.
Qed.

Lemma list_to_map_reverse_to_list {A} (m : gmap string A) :
  list_to_map (reverse (map_to_list m)) = m.
Proof.
  rewrite <- (list_to_map_to_list m) at 2.
  apply list_to_map_proper.
  - rewrite fmap_reverse, reverse_Permutation. apply NoDup_fst_map_to_list.
  - apply reverse_Permutation.
Qed.

Lemma read_object_encoded {A} (read : json -> option A) (enc : A -> json)
    (m : gmap string A) :
  (forall a, read (enc a) = Some a) ->
  read_object read (JObject ((fun '(k, a) => (k, enc a)) <$> map_to_list m)) = Some m.
Proof.
  intros Hall. unfold read_object.
  rewrite (read_entries_encoded read enc _ Hall).
  cbn. rewrite list_to_map_reverse_to_list. reflexivity.
Qed.

Lemma read_dictionary_encoded (d : gmap string string) :
  read_dictionary (json_of_dictionary d) = Some d.
Proof. apply (read_object_encoded read_string JString). reflexivity. Qed.

Lemma read_keyMappings_encoded (km : KeyMappingsObject) :
  read_keyMappings (json_of_keyMappings km) = Some (custom km).
Proof.
  unfold read_keyMappings, json_of_keyMappings.
  rewrite (read_object_encoded read_dictionary json_of_dictionary)
    by apply read_dictionary_encoded.
  reflexivity.
Qed.

Lemma read_number_encoded (v : option float) :
  representable v = true -> read_number (json_of_number v) = Some v.
Proof.
  destruct v as [x|]; [|reflexivity]. simpl.
  intros [Hfin Hz]%andb_prop. rewrite Hfin.
  apply negb_true_iff in Hz. rewrite Hz. reflexivity.
Qed.

Lemma read_rendering_encoded (r : RenderingConfig) :
  read_rendering (json_of_rendering r) = Some r.
Proof. destruct r as [? ? ? ? ? [t|]]; reflexivity. Qed.

Lemma read_behavior_encoded (b : BehaviorConfig) :
  representable (autoCommitDelay b) = true ->
  representable (undoHistorySize b) = true ->
  representable (defaultOctave b) = true ->
  representable (chordModeTimeout b) = true ->
  representable (debounceDelay b) = true ->
  read_behavior (json_of_behavior b) = Some b.
Proof.
  intros H1 H2 H3 H4 H5. destruct b; simpl in *.
  rewrite (read_number_encoded _ H1), (read_number_encoded _ H2),
    (read_number_encoded _ H3), (read_number_encoded _ H4),
    (read_number_encoded _ H5).
  reflexivity.
Qed.

#[local] Arguments read_keyMappings : simpl never.
#[local] Arguments json_of_keyMappings : simpl never.
#[local] Arguments read_rendering : simpl never.
#[local] Arguments json_of_rendering : simpl never.
#[local] Arguments read_behavior : simpl never.
#[local] Arguments json_of_behavior : simpl never.

Lemma read_config_exported (s : State) :
  representable_config (config s) = true ->
  read_config (exportConfig s)
  = Some {| keyMappings := custom (getKeyMappings s);
            rendering := rendering (config s);
            behavior := behavior (config s) |}.
Proof.
  unfold representable_config. intros H.
  repeat (apply andb_prop in H; destruct H as [H ?]).
  unfold exportConfig, json_of_config, read_config. simpl.
  rewrite read_keyMappings_encoded. simpl.
  rewrite read_rendering_encoded. simpl.
  rewrite read_behavior_encoded by assumption.
  reflexivity.
Qed.

Lemma default_categories_complete :
  missing_category (categories DEFAULT_KEY_MAPPINGS) = None.
Proof. vm_compute. reflexivity. Qed.

(** Resolving the key mappings does not change the verdict of the
    validation. *)
Lemma validateConfig_resolved (s : State) :
  validateConfig (config s) = None ->
  validateConfig {| keyMappings := custom (getKeyMappings s);
                    rendering := rendering (config s);
                    behavior := behavior (config s) |} = None.
Proof.
  unfold validateConfig, getKeyMappings. simpl.
  destruct (keyMappings (config s)) as [|km].
  - rewrite default_categories_complete. auto.
  - auto.
Qed.

(** C9, as the code has it.  For every configuration state that passes
    validation and whose number fields are [null] or finite numbers other
    than negative zero, importing the document produced by [exportConfig]
    succeeds and leaves the value of [getFullConfig], and the stored custom
    mappings, as they were. *)
Theorem C9_export_import_roundtrip :
  forall (syntax_error : string) (s : State),
    validateConfig (config s) = None ->
    representable_config (config s) = true ->
    exists s',
      importConfig syntax_error (Some (exportConfig s)) s = (imported, s')
      /\ getFullConfig s' = getFullConfig s
      /\ customKeyMappings s' = customKeyMappings s.
Proof.
  intros syntax_error s Hvalid Hrep.
  unfold importConfig.
  rewrite (read_config_exported s Hrep), (validateConfig_resolved s Hvalid).
  eexists. split; [reflexivity|].
  split; reflexivity.
Qed.

Lemma C9_export_import_roundtrip_witness :
  validateConfig (config default_configuration) = None
  /\ representable_config (config default_configuration) = true
  /\ exists s',
      importConfig "" (Some (exportConfig default_configuration)) default_configuration
      = (imported, s')
      /\ getFullConfig s' = getFullConfig default_configuration
      /\ customKeyMappings s' = customKeyMappings default_configuration.
Proof.
  assert (Hv : validateConfig (config default_configuration) = None)
    by (vm_compute; reflexivity).
  assert (Hr : representable_config (config default_configuration) = true)
    by (vm_compute; reflexivity).
  split; [exact Hv|]. split; [exact Hr|].
  exact (C9_export_import_roundtrip "" default_configuration Hv Hr).
Defined.

(** A chord timeout of [Infinity] passes validation, is exported as [null],
    and comes back as [null]: the import succeeds and [getFullConfig] has
    changed. *)
Lemma C9_counterexample :
  validateConfig (config never_time_out) = None
  /\ chordModeTimeout (full_behavior (getFullConfig never_time_out)) = Some infinity
  /\ exists s',
      importConfig "" (Some (exportConfig never_time_out)) never_time_out = (imported, s')
      /\ chordModeTimeout (full_behavior (getFullConfig s')) = None
      /\ getFullConfig s' <> getFullConfig never_time_out.
Proof.
  split; [vm_compute; reflexivity|]. split; [reflexivity|].
  eexists. split; [vm_compute; reflexivity|].
  split; [reflexivity|].
  intros E. apply (f_equal (fun c => chordModeTimeout (full_behavior c))) in E.
  discriminate E.
Qed.

(** A history size of [NaN] passes validation, since [NaN < 1] is false; it
    is exported as [null], which the validation of the import refuses. *)
Example history_size_nan_import_throws :
  validateConfig (config history_size_nan) = None
  /\ importConfig "" (Some (exportConfig history_size_nan)) history_size_nan
     = (threw "Failed to import configuration: Error: Undo history size must be at least 1",
        history_size_nan).
Proof. split; vm_compute; reflexivity. Qed.

Example import_rejects_bad_preview_size :
  fst (importConfig ""
         (Some (exportConfig
                  (updateRenderingConfig
                     {| p_previewSize := Some "huge"; p_showKeySignature := None;
                        p_showTimeSignature := None; p_autoScroll := None;
                        p_highlightCurrentElement := None; p_theme := None |}
                     default_configuration)))
         default_configuration)
  = threw "Failed to import configuration: Error: Invalid preview size".
Proof. vm_compute. reflexivity. Qed.

End ConfigRoundTrip.

(** ** Who shares what with the fragment manager *)

Section Sharing.
Import Objects.
Context `{Runtime}.

Lemma lookup_agree (n : nat) (h h' : heap) (a : ref) (c : cell) :
  agree_below n h h' -> (length h <= n)%nat -> h !! a = Some c -> h' !! a = Some c.
Proof.
  intros Hag Hn Ha. rewrite Hag; [assumption|].
  apply lookup_lt_Some in Ha. lia.
Qed.

Lemma agree_below_alloc (h : heap) (c : cell) :
  agree_below (length h) h (h ++ [c]).
Proof. intros a Ha. apply lookup_app_l. assumption. Qed.

Lemma agree_below_trans (n : nat) (h1 h2 h3 : heap) :
  agree_below n h1 h2 -> agree_below n h2 h3 -> agree_below n h1 h3.
Proof. intros H12 H23 a Ha. rewrite H23, H12 by assumption. reflexivity. Qed.

Lemma agree_below_le (n n' : nat) (h h' : heap) :
  (n <= n')%nat -> agree_below n' h h' -> agree_below n h h'.
Proof. intros Hle Hag a Ha. apply Hag. lia. Qed.

(** A write at or above [n] keeps the heap as it is below [n]. *)
Lemma agree_below_write (n : nat) (a : ref) (c : cell) (h : heap) :
  (n <= a)%nat -> agree_below n h (write a c h).
Proof.
  intros Hle b Hb. unfold write. apply list_lookup_insert_ne. lia.
Qed.

Lemma agree_below_write_all (n : nat) (ws : list (ref * cell)) (h : heap) :
  Forall (fun w => (n <= fst w)%nat) ws -> agree_below n h (write_all ws h).
Proof.
  revert h. induction ws as [|w ws IH]; intros h Hws; simpl.
  - intros a _. reflexivity.
  - inversion Hws as [|? ? Hw Hrest]; subst.
    eapply agree_below_trans; [apply agree_below_write, Hw | apply IH, Hrest].
Qed.

Ltac getter_agree h h' a :=
  let Hag := fresh in let Hn := fresh in let E := fresh in let Ea := fresh in
  intros Hag Hn E;
  destruct (h !! a) as [?c|] eqn:Ea; [|discriminate];
  rewrite (lookup_agree _ h h' a _ Hag Hn Ea); exact E.

Lemma get_fragment_agree (n : nat) (h h' : heap) (a : ref) (f : FragmentObject) :
  agree_below n h h' -> (length h <= n)%nat ->
  get_fragment h a = Some f -> get_fragment h' a = Some f.
Proof. unfold get_fragment. getter_agree h h' a. Qed.

Lemma get_array_agree (n : nat) (h h' : heap) (a : ref) (items : list ref) :
  agree_below n h h' -> (length h <= n)%nat ->
  get_array h a = Some items -> get_array h' a = Some items.
Proof. unfold get_array. getter_agree h h' a. Qed.

Lemma get_metadata_agree (n : nat) (h h' : heap) (a : ref) (md : FragmentMetadata) :
  agree_below n h h' -> (length h <= n)%nat ->
  get_metadata h a = Some md -> get_metadata h' a = Some md.
Proof. unfold get_metadata. getter_agree h h' a. Qed.

Lemma get_timeSignature_agree (n : nat) (h h' : heap) (a : ref) (ts : TimeSig) :
  agree_below n h h' -> (length h <= n)%nat ->
  get_timeSignature h a = Some ts -> get_timeSignature h' a = Some ts.
Proof. unfold get_timeSignature. getter_agree h h' a. Qed.

Lemma get_keySignature_agree (n : nat) (h h' : heap) (a : ref) (ks : KeySig) :
  agree_below n h h' -> (length h <= n)%nat ->
  get_keySignature h a = Some ks -> get_keySignature h' a = Some ks.
Proof. unfold get_keySignature. getter_agree h h' a. Qed.

Lemma get_element_agree (n : nat) (h h' : heap) (a : ref) (e : MusicalElement) :
  agree_below n h h' -> (length h <= n)%nat ->
  get_element h a = Some e -> get_element h' a = Some e.
Proof. unfold get_element. getter_agree h h' a. Qed.

Lemma read_elements_agree (n : nat) (h h' : heap) (items : list ref)
    (es : list MusicalElement) :
  agree_below n h h' -> (length h <= n)%nat ->
  read_elements h items = Some es -> read_elements h' items = Some es.
Proof.
  intros Hag Hn. unfold read_elements. rewrite !mapM_Some.
  induction 1 as [|a e items es Ha _ IH]; constructor.
  - eapply get_element_agree; eassumption.
  - exact IH.
Qed.

(** What a reference stands for depends only on the objects that were there
    when it was read. *)
Lemma view_fragment_agree (n : nat) (h h' : heap) (r : ref) (v : MusicalFragment) :
  agree_below n h h' -> (length h <= n)%nat ->
  view_fragment h r = Some v -> view_fragment h' r = Some v.
Proof.
  intros Hag Hn Hv. unfold view_fragment in *.
  destruct (get_fragment h r) as [f|] eqn:Ef; [|discriminate]. simpl in Hv.
  destruct (get_array h (o_elements f)) as [items|] eqn:Ea; [|discriminate]. simpl in Hv.
  destruct (read_elements h items) as [es|] eqn:Ee; [|discriminate]. simpl in Hv.
  destruct (get_metadata h (o_metadata f)) as [md|] eqn:Em; [|discriminate]. simpl in Hv.
  destruct (get_timeSignature h (o_timeSignature f)) as [ts|] eqn:Et; [|discriminate].
  simpl in Hv.
  destruct (get_keySignature h (o_keySignature f)) as [ks|] eqn:Ek; [|discriminate].
  simpl in Hv.
  rewrite (get_fragment_agree n h h' _ _ Hag Hn Ef). simpl.
  rewrite (get_array_agree n h h' _ _ Hag Hn Ea). simpl.
  rewrite (read_elements_agree n h h' _ _ Hag Hn Ee). simpl.
  rewrite (get_metadata_agree n h h' _ _ Hag Hn Em). simpl.
  rewrite (get_timeSignature_agree n h h' _ _ Hag Hn Et). simpl.
  rewrite (get_keySignature_agree n h h' _ _ Hag Hn Ek). simpl.
  exact Hv.
Qed.

Lemma view_history_agree (n : nat) (h h' : heap) (m : Manager)
    (snaps : list MusicalFragment) :
  agree_below n h h' -> (length h <= n)%nat ->
  view_history h m = Some snaps -> view_history h' m = Some snaps.
Proof.
  intros Hag Hn. unfold view_history. rewrite !mapM_Some.
  induction 1 as [|entry v entries vs Hv _ IH]; constructor.
  - eapply view_fragment_agree; eassumption.
  - exact IH.
Qed.

Lemma view_agree (n : nat) (h h' : heap) (m : Manager)
    (v : MusicalFragment * list MusicalFragment) :
  agree_below n h h' -> (length h <= n)%nat ->
  view h m = Some v -> view h' m = Some v.
Proof.
  intros Hag Hn Hv. unfold view in *.
  destruct (view_fragment h (currentFragment m)) as [cur|] eqn:Ec; [|discriminate].
  simpl in Hv.
  destruct (view_history h m) as [snaps|] eqn:Es; [|discriminate]. simpl in Hv.
  rewrite (view_fragment_agree n h h' _ _ Hag Hn Ec). simpl.
  rewrite (view_history_agree n h h' _ _ Hag Hn Es). simpl.
  exact Hv.
Qed.

Lemma extends_refl (h : heap) : extends h h.
Proof. intros a k Ha. exact Ha. Qed.

Lemma extends_trans (h1 h2 h3 : heap) :
  extends h1 h2 -> extends h2 h3 -> extends h1 h3.
Proof. intros H12 H23 a k Ha. apply H23, H12, Ha. Qed.

Lemma extends_alloc (h : heap) (c : cell) : extends h (h ++ [c]).
Proof.
  intros a k. unfold holds.
  destruct (h !! a) as [c'|] eqn:Ea; simpl; [|discriminate].
  rewrite (lookup_app_l_Some _ _ _ _ Ea). auto.
Qed.

Lemma holds_alloc_new (h : heap) (c : cell) :
  holds (h ++ [c]) (length h) (kind_of c).
Proof.
  unfold holds. rewrite lookup_app_r by lia.
  rewrite Nat.sub_diag. reflexivity.
Qed.

(** Assigning to an object keeps it an object of its kind. *)
Lemma extends_write (h : heap) (a : ref) (c : cell) :
  holds h a (kind_of c) -> extends h (write a c h).
Proof.
  intros Ha b k Hb. unfold holds, write in *.
  destruct (decide (a = b)) as [<-|Hne].
  - destruct (h !! a) as [c'|] eqn:Ea; simpl in *; [|discriminate].
    rewrite list_lookup_insert_eq by (eapply lookup_lt_Some; eassumption).
    simpl. congruence.
  - rewrite list_lookup_insert_ne by assumption. exact Hb.
Qed.

Lemma cell_ok_extends (h h' : heap) (c : cell) :
  extends h h' -> cell_ok h c -> cell_ok h' c.
Proof.
  intros Hext. destruct c; simpl; auto.
  - intros HF. eapply Forall_impl; [exact HF|]. intros r. apply Hext.
  - intros (? & ? & ? & ?). repeat split; apply Hext; assumption.
Qed.

Lemma manager_ok_extends (h h' : heap) (m : Manager) :
  extends h h' -> manager_ok h m -> manager_ok h' m.
Proof.
  intros Hext (Hc & Hh & Hk). repeat split.
  - apply Hext, Hc.
  - eapply Forall_impl; [exact Hh|]. intros e. apply Hext.
  - eapply Forall_impl; [exact Hk|]. intros r. apply Hext.
Qed.

Lemma heap_ok_alloc (h : heap) (c : cell) :
  heap_ok h -> cell_ok h c -> heap_ok (h ++ [c]).
Proof.
  intros Hh Hc a c' Ha.
  apply cell_ok_extends with h; [apply extends_alloc|].
  apply lookup_app_Some in Ha as [Ha | [_ Ha]].
  - eapply Hh, Ha.
  - destruct (a - length h)%nat; simpl in Ha; [|discriminate].
    injection Ha as <-. exact Hc.
Qed.

Lemma heap_ok_write (h : heap) (a : ref) (c : cell) :
  heap_ok h -> cell_ok h c -> holds h a (kind_of c) -> heap_ok (write a c h).
Proof.
  intros Hh Hc Ha b c' Hb.
  apply cell_ok_extends with h; [apply extends_write, Ha|].
  unfold write in Hb. apply list_lookup_insert_Some in Hb as [(-> & -> & _) | (_ & Hb)].
  - exact Hc.
  - eapply Hh, Hb.
Qed.

Lemma holds_fragment (h : heap) (a : ref) :
  holds h a k_fragment ->
  exists f, h !! a = Some (cell_fragment f) /\ get_fragment h a = Some f.
Proof.
  unfold holds, get_fragment. destruct (h !! a) as [[]|]; simpl; intros [=]. eauto.
Qed.

Lemma holds_array (h : heap) (a : ref) :
  holds h a k_array ->
  exists items, h !! a = Some (cell_array items) /\ get_array h a = Some items.
Proof.
  unfold holds, get_array. destruct (h !! a) as [[]|]; simpl; intros [=]. eauto.
Qed.

Lemma holds_metadata (h : heap) (a : ref) :
  holds h a k_metadata -> exists md, get_metadata h a = Some md.
Proof.
  unfold holds, get_metadata. destruct (h !! a) as [[]|]; simpl; intros [=]. eauto.
Qed.

Lemma holds_timeSignature (h : heap) (a : ref) :
  holds h a k_timeSignature -> exists ts, get_timeSignature h a = Some ts.
Proof.
  unfold holds, get_timeSignature. destruct (h !! a) as [[]|]; simpl; intros [=]. eauto.
Qed.

Lemma holds_keySignature (h : heap) (a : ref) :
  holds h a k_keySignature -> exists ks, get_keySignature h a = Some ks.
Proof.
  unfold holds, get_keySignature. destruct (h !! a) as [[]|]; simpl; intros [=]. eauto.
Qed.

Lemma holds_element (h : heap) (a : ref) :
  holds h a k_element -> exists e, get_element h a = Some e.
Proof.
  unfold holds, get_element. destruct (h !! a) as [[]|]; simpl; intros [=]. eauto.
Qed.

Lemma get_element_holds (h : heap) (a : ref) (e : MusicalElement) :
  get_element h a = Some e -> holds h a k_element.
Proof.
  unfold holds, get_element. destruct (h !! a) as [[]|]; simpl; intros [=]. reflexivity.
Qed.

Lemma read_elements_defined (h : heap) (items : list ref) :
  Forall (fun r => holds h r k_element) items ->
  exists es, read_elements h items = Some es.
Proof.
  intros Hall. apply (mapM_is_Some (get_element h) items).
  eapply Forall_impl; [exact Hall|]. intros r Hr.
  destruct (holds_element h r Hr) as (e & He). unfold compose. rewrite He. eauto.
Qed.

(** The parts of a fragment object of a well-formed heap. *)
Lemma fragment_parts (h : heap) (r : ref) :
  heap_ok h -> holds h r k_fragment ->
  exists f items es md ts ks,
    get_fragment h r = Some f
    /\ get_array h (o_elements f) = Some items
    /\ read_elements h items = Some es
    /\ get_metadata h (o_metadata f) = Some md
    /\ get_timeSignature h (o_timeSignature f) = Some ts
    /\ get_keySignature h (o_keySignature f) = Some ks
    /\ cell_ok h (cell_fragment f)
    /\ Forall (fun a => holds h a k_element) items.
Proof.
  intros Hh Hr.
  destruct (holds_fragment h r Hr) as (f & Hf & Ef).
  pose proof (Hh _ _ Hf) as Hok. pose proof Hok as (Ha & Hm & Ht & Hk).
  destruct (holds_array h _ Ha) as (items & Hitems & Ea).
  pose proof (Hh _ _ Hitems) as Hall. simpl in Hall.
  destruct (read_elements_defined h items Hall) as (es & Ee).
  destruct (holds_metadata h _ Hm) as (md & Em).
  destruct (holds_timeSignature h _ Ht) as (ts & Et).
  destruct (holds_keySignature h _ Hk) as (ks & Ek).
  exists f, items, es, md, ts, ks. repeat split; assumption.
Qed.

Lemma view_fragment_defined (h : heap) (r : ref) :
  heap_ok h -> holds h r k_fragment -> exists v, view_fragment h r = Some v.
Proof.
  intros Hh Hr.
  destruct (fragment_parts h r Hh Hr)
    as (f & items & es & md & ts & ks & Ef & Ea & Ee & Em & Et & Ek & _).
  unfold view_fragment. rewrite Ef. simpl. rewrite Ea. simpl. rewrite Ee. simpl.
  rewrite Em. simpl. rewrite Et. simpl. rewrite Ek. simpl. eauto.
Qed.

Lemma view_defined (h : heap) (m : Manager) :
  heap_ok h -> manager_ok h m -> exists v, view h m = Some v.
Proof.
  intros Hh (Hc & Hhist & _).
  destruct (view_fragment_defined h _ Hh Hc) as (cur & Ec).
  assert (Hs : is_Some (view_history h m)).
  { apply mapM_is_Some. eapply Forall_impl; [exact Hhist|]. intros e He.
    destruct (view_fragment_defined h _ Hh He) as (v & Hv). unfold compose. rewrite Hv. eauto. }
  destruct Hs as (snaps & Es).
  unfold view. rewrite Ec, Es. simpl. eauto.
Qed.

(** The spread copy: three new objects above everything that was there, a
    well-formed heap again, and a fragment with the same contents. *)
Lemma copy_fragment_ok (src : ref) (h : heap) :
  heap_ok h -> holds h src k_fragment ->
  exists r h' f f',
    copy_fragment src h = Some (r, h')
    /\ heap_ok h' /\ extends h h' /\ holds h' r k_fragment
    /\ agree_below (length h) h h'
    /\ get_fragment h src = Some f
    /\ get_fragment h' r = Some f'
    /\ (length h <= r)%nat
    /\ (length h <= o_elements f')%nat
    /\ (length h <= o_metadata f')%nat
    /\ o_timeSignature f' = o_timeSignature f
    /\ o_keySignature f' = o_keySignature f
    /\ get_array h' (o_elements f') = get_array h (o_elements f)
    /\ view_fragment h' r = view_fragment h src.
Proof.
  intros Hh Hsrc.
  destruct (fragment_parts h src Hh Hsrc)
    as (f & items & es & md & ts & ks & Ef & Ea & Ee & Em & Et & Ek & Hok & Hall).
  set (h1 := h ++ [cell_array items]).
  set (h2 := h1 ++ [cell_metadata md]).
  set (c := cell_fragment (with_parts (length h) (length h1) f)).
  set (h3 := h2 ++ [c]).
  assert (E1 : extends h h1) by apply extends_alloc.
  assert (E2 : extends h1 h2) by apply extends_alloc.
  assert (E3 : extends h2 h3) by apply extends_alloc.
  assert (Hlen1 : length h1 = S (length h)) by (unfold h1; rewrite length_app; simpl; lia).
  assert (Hlen2 : length h2 = S (S (length h))) by (unfold h2; rewrite length_app; simpl; lia).
  assert (Hh1 : heap_ok h1) by (apply heap_ok_alloc; assumption).
  assert (Hh2 : heap_ok h2) by (apply heap_ok_alloc; [assumption | exact I]).
  assert (Hc : cell_ok h2 c).
  { destruct Hok as (_ & _ & Ht & Hk). simpl. repeat split.
    - apply E2. apply (holds_alloc_new h (cell_array items)).
    - apply (holds_alloc_new h1 (cell_metadata md)).
    - apply E2, E1, Ht.
    - apply E2, E1, Hk. }
  assert (Hag : agree_below (length h) h h3).
  { intros a Ha. unfold h3, h2, h1. rewrite !lookup_app_l; try reflexivity;
      rewrite ?length_app; simpl; lia. }
  assert (Hr : h3 !! length h2 = Some c).
  { unfold h3. rewrite lookup_app_r by lia. rewrite Nat.sub_diag. reflexivity. }
  assert (Harr : h3 !! length h = Some (cell_array items)).
  { unfold h3, h2. rewrite !lookup_app_l by (rewrite ?length_app; simpl; lia).
    unfold h1. rewrite lookup_app_r by lia. rewrite Nat.sub_diag. reflexivity. }
  assert (Hmd : h3 !! length h1 = Some (cell_metadata md)).
  { unfold h3. rewrite lookup_app_l by lia.
    unfold h2. rewrite lookup_app_r by lia. rewrite Nat.sub_diag. reflexivity. }
  exists (length h2), h3, f, (with_parts (length h) (length h1) f).
  split; [|split; [|split; [|split; [|split; [|split; [|split]]]]]].
  - unfold copy_fragment. rewrite Ef. simpl. rewrite Ea. simpl. rewrite Em. reflexivity.
  - apply heap_ok_alloc; assumption.
  - eapply extends_trans; [|exact E3]. eapply extends_trans; eassumption.
  - apply (holds_alloc_new h2 c).
  - exact Hag.
  - exact Ef.
  - unfold get_fragment. rewrite Hr. reflexivity.
  - simpl. repeat split; try lia.
    + unfold get_array at 1. rewrite Harr. symmetry. exact Ea.
    + unfold view_fragment at 1. unfold get_fragment. rewrite Hr. simpl.
      unfold get_array. rewrite Harr. simpl.
      rewrite (read_elements_agree _ h h3 _ _ Hag (Nat.le_refl _) Ee). simpl.
      unfold get_metadata at 1. rewrite Hmd. simpl.
      rewrite (get_timeSignature_agree _ h h3 _ _ Hag (Nat.le_refl _) Et). simpl.
      rewrite (get_keySignature_agree _ h h3 _ _ Hag (Nat.le_refl _) Ek). simpl.
      unfold view_fragment. rewrite Ef. simpl. rewrite Ea. simpl. rewrite Ee. simpl.
      rewrite Em. simpl. rewrite Et. simpl. rewrite Ek. reflexivity.
Qed.

(** C3, as the code has it.  For every state of the manager,
    [getCurrentFragment] returns a new fragment object with a new elements
    array and a new metadata object, whose contents are those of the working
    fragment.  Assignments to these three objects, and anything else that
    leaves the objects that existed before the call as they were, change
    neither the working fragment nor a history snapshot.  The element
    objects in the array and the two signature objects are not copied: they
    are the ones the working fragment refers to. *)
Theorem C3_returned_copy_is_one_level_deep :
  forall (m : Manager) (h : heap),
    heap_ok h -> manager_ok h m ->
    exists r h1 f f0 v,
      getCurrentFragment m h = Some (r, h1)
      /\ get_fragment h1 r = Some f
      /\ get_fragment h (currentFragment m) = Some f0
      /\ view h m = Some v
      /\ view_fragment h1 r = Some (fst v)
      /\ (length h <= r)%nat
      /\ (length h <= o_elements f)%nat
      /\ (length h <= o_metadata f)%nat
      /\ (forall ws,
            Forall (fun w => fst w = r \/ fst w = o_elements f \/ fst w = o_metadata f) ws ->
            view (write_all ws h1) m = Some v)
      /\ (forall h2, agree_below (length h) h1 h2 -> view h2 m = Some v)
      /\ o_timeSignature f = o_timeSignature f0
      /\ o_keySignature f = o_keySignature f0
      /\ get_array h1 (o_elements f) = get_array h (o_elements f0).
Proof.
  intros m h Hh Hm.
  destruct (view_defined h m Hh Hm) as (v & Hv).
  pose proof Hm as (Hc & _).
  destruct (copy_fragment_ok (currentFragment m) h Hh Hc)
    as (r & h1 & f0 & f & Hcopy & _ & _ & _ & Hag & Ef0 & Ef & Hr & Ha & Hb
        & Ets & Eks & Earr & Hview).
  assert (Hgen : forall h2, agree_below (length h) h1 h2 -> view h2 m = Some v).
  { intros h2 Hag2. eapply view_agree; [|apply Nat.le_refl|exact Hv].
    eapply agree_below_trans; eassumption. }
  exists r, h1, f, f0, v.
  repeat split; try assumption.
  - rewrite Hview. unfold view in Hv.
    destruct (view_fragment h (currentFragment m)); [|discriminate]. simpl in Hv.
    destruct (view_history h m); [|discriminate]. simpl in Hv.
    injection Hv as <-. reflexivity.
  - intros ws Hws. apply Hgen. apply agree_below_write_all.
    eapply Forall_impl; [exact Hws|]. intros w [-> | [-> | ->]]; assumption.
Qed.

(** *** Every method keeps the heap well formed *)

Lemma createEmptyFragment_ok (now : Z) (ts ks : ref) (tempo : float) (h : heap) :
  heap_ok h -> holds h ts k_timeSignature -> holds h ks k_keySignature ->
  heap_ok (snd (createEmptyFragment now ts ks tempo h))
  /\ extends h (snd (createEmptyFragment now ts ks tempo h))
  /\ holds (snd (createEmptyFragment now ts ks tempo h))
           (fst (createEmptyFragment now ts ks tempo h)) k_fragment.
Proof.
  intros Hh Hts Hks. unfold createEmptyFragment, alloc. simpl.
  set (h1 := h ++ [cell_array []]).
  set (h2 := h1 ++ [cell_metadata {| measures := 0; totalDuration := "0" |}]).
  match goal with |- heap_ok (h2 ++ [?c]) /\ _ => set (cf := c) end.
  assert (E1 : extends h h1) by apply extends_alloc.
  assert (E2 : extends h1 h2) by apply extends_alloc.
  assert (Hh1 : heap_ok h1) by (apply heap_ok_alloc; [assumption | constructor]).
  assert (Hh2 : heap_ok h2) by (apply heap_ok_alloc; [assumption | exact I]).
  assert (Hc : cell_ok h2 cf).
  { simpl. repeat split.
    - apply E2. apply (holds_alloc_new h (cell_array [])).
    - apply (holds_alloc_new h1 (cell_metadata _)).
    - apply E2, E1, Hts.
    - apply E2, E1, Hks. }
  repeat split.
  - apply heap_ok_alloc; assumption.
  - eapply extends_trans; [|apply extends_alloc]. eapply extends_trans; eassumption.
  - apply (holds_alloc_new h2 cf).
Qed.

Lemma Forall_slice0 {A} (P : A -> Prop) (l : list A) (e : Z) :
  Forall P l -> Forall P (FragmentManager.slice0 l e).
Proof. intros Hl. unfold FragmentManager.slice0. destruct (_ <? _); apply Forall_take, Hl. Qed.

Lemma Forall_tail {A} (P : A -> Prop) (l : list A) : Forall P l -> Forall P (tail l).
Proof. destruct 1; simpl; [constructor | assumption]. Qed.

Lemma Forall_removelast {A} (P : A -> Prop) (l : list A) :
  Forall P l -> Forall P (removelast l).
Proof.
  induction 1 as [|x l Hx Hl IH]; simpl; [constructor|].
  destruct l; [constructor | constructor; assumption].
Qed.

Lemma saveToHistory_state_ok (now : Z) (a : FragmentManager.Action) (m : Manager) (h : heap) :
  state_ok h m ->
  exists m' h',
    saveToHistory now a m h = Some (m', h')
    /\ state_ok h' m' /\ extends h h'
    /\ currentFragment m' = currentFragment m
    /\ committedFragments m' = committedFragments m.
Proof.
  intros (Hh & Hm). pose proof Hm as (Hc & Hhist & Hk).
  destruct (copy_fragment_ok (currentFragment m) h Hh Hc)
    as (r & h1 & f & f' & Hcopy & Hh1 & Hext & Hr & _).
  unfold saveToHistory. rewrite Hcopy. simpl.
  set (history1 := if historyIndex m <? FragmentManager.len (history m) - 1
                   then FragmentManager.slice0 (history m) (historyIndex m + 1)
                   else history m).
  set (entry := {| e_fragment := r; e_timestamp := now; e_action := a |}).
  assert (H1 : Forall (fun e => holds h1 (e_fragment e) k_fragment) (history1 ++ [entry])).
  { apply Forall_app. split.
    - apply Forall_impl with (P := fun e => holds h (e_fragment e) k_fragment).
      + unfold history1. destruct (_ <? _); [apply Forall_slice0|]; exact Hhist.
      + intros e. apply Hext.
    - repeat constructor. exact Hr. }
  assert (Hcur : holds h1 (currentFragment m) k_fragment) by (apply Hext, Hc).
  assert (Hcom : Forall (fun r => holds h1 r k_fragment) (committedFragments m)).
  { eapply Forall_impl; [exact Hk|]. intros x. apply Hext. }
  destruct (maxHistorySize m <? _); do 2 eexists; (split; [reflexivity|]);
    repeat split; simpl; try assumption.
  apply Forall_tail, H1.
Qed.

Lemma updateMetadata_ok (m : Manager) (h : heap) :
  state_ok h m ->
  exists h', updateMetadata m h = Some h' /\ heap_ok h' /\ extends h h'.
Proof.
  intros (Hh & Hm). pose proof Hm as (Hc & _).
  destruct (fragment_parts h _ Hh Hc)
    as (f & items & es & md & ts & ks & Ef & Ea & Ee & Em & Et & Ek & Hok & _).
  unfold updateMetadata. rewrite Ef. simpl. rewrite Ea. simpl. rewrite Ee. simpl.
  rewrite Et. simpl. unfold alloc.
  match goal with |- context [h ++ [?c]] => set (cm := c) end.
  set (h1 := h ++ [cm]).
  assert (E1 : extends h h1) by apply extends_alloc.
  assert (Hh1 : heap_ok h1) by (apply heap_ok_alloc; [assumption | exact I]).
  set (cf := cell_fragment (with_parts (o_elements f) (length h) f)).
  assert (Hcf : cell_ok h1 cf).
  { destruct Hok as (Ha & _ & Ht & Hk). simpl. repeat split.
    - apply E1, Ha.
    - apply (holds_alloc_new h cm).
    - apply E1, Ht.
    - apply E1, Hk. }
  assert (Hcur : holds h1 (currentFragment m) (kind_of cf)) by (apply E1, Hc).
  eexists. split; [reflexivity|]. split.
  - apply heap_ok_write; assumption.
  - eapply extends_trans; [exact E1 | apply extends_write, Hcur].
Qed.

(** A write to the working fragment followed by a snapshot. *)
Lemma write_then_save (now : Z) (a : FragmentManager.Action) (m : Manager)
    (h h1 : heap) :
  manager_ok h m -> heap_ok h1 -> extends h h1 ->
  exists m' h',
    saveToHistory now a m h1 = Some (m', h') /\ state_ok h' m' /\ extends h h'.
Proof.
  intros Hm Hh1 Hext.
  destruct (saveToHistory_state_ok now a m h1) as (m' & h' & Hs & Hok & Hext' & _).
  { split; [assumption | eapply manager_ok_extends; eassumption]. }
  exists m', h'. repeat split; try assumption; try apply Hok.
  eapply extends_trans; eassumption.
Qed.

Lemma constructor_state_ok (now max : Z) (ts : TimeSig) (ks : KeySig) (tempo : float) :
  exists m h, constructor now max ts ks tempo = Some (m, h) /\ state_ok h m.
Proof.
  unfold constructor, alloc. simpl.
  set (h2 := [cell_timeSignature ts; cell_keySignature ks]).
  assert (Hh2 : heap_ok h2).
  { intros a c Ha. destruct a as [|[|a]]; simpl in Ha; try discriminate;
      injection Ha as <-; exact I. }
  destruct (createEmptyFragment_ok now 0%nat 1%nat tempo h2 Hh2)
    as (Hh3 & Hext & Hr); [reflexivity | reflexivity |].
  destruct (createEmptyFragment now 0%nat 1%nat tempo h2) as [r h3] eqn:Ec.
  simpl in *.
  destruct (saveToHistory_state_ok now FragmentManager.act_clear
              {| currentFragment := r; history := []; historyIndex := -1;
                 maxHistorySize := max; committedFragments := [] |} h3)
    as (m' & h' & Hs & Hok & _).
  { split; [assumption|]. repeat split; simpl; [assumption | constructor | constructor]. }
  unfold createEmptyFragment, alloc in Ec. simpl in Ec. injection Ec as <- <-.
  eauto.
Qed.

Lemma addElement_state_ok (now : Z) (element : ref) (m : Manager) (h : heap) :
  state_ok h m -> holds h element k_element ->
  exists r m' h',
    addElement now element m h = Some (r, m', h') /\ state_ok h' m' /\ extends h h'.
Proof.
  intros (Hh & Hm) He. pose proof Hm as (Hc & _).
  destruct (holds_element h element He) as (e & Ee).
  destruct (fragment_parts h _ Hh Hc)
    as (f & items & es & md & ts & ks & Ef & Ea & Ees & _ & _ & _ & Hok & Hall).
  unfold addElement. rewrite Ee. simpl. rewrite Ef. simpl. rewrite Ea. simpl.
  rewrite Ees. simpl.
  destruct (_ <? _)%nat.
  { do 3 eexists. split; [reflexivity|]. split; [split; assumption | apply extends_refl]. }
  destruct (canAddElementToFragment e es).
  2: { do 3 eexists. split; [reflexivity|].
       split; [split; assumption | apply extends_refl]. }
  set (c := cell_array (items ++ [element])).
  set (h1 := write (o_elements f) c h).
  assert (Harr : holds h (o_elements f) (kind_of c)) by apply Hok.
  assert (E1 : extends h h1) by (apply extends_write, Harr).
  assert (Hh1 : heap_ok h1).
  { apply heap_ok_write; [assumption | | assumption].
    simpl. apply Forall_app. split; [assumption | repeat constructor; assumption]. }
  destruct (updateMetadata_ok m h1) as (h2 & Hu & Hh2 & E2).
  { split; [assumption | eapply manager_ok_extends; eassumption]. }
  rewrite Hu. simpl.
  destruct (write_then_save now FragmentManager.act_add m h h2 Hm Hh2)
    as (m' & h' & Hs & Hok' & Hext').
  { eapply extends_trans; eassumption. }
  rewrite Hs. simpl.
  do 3 eexists. split; [reflexivity|]. split; assumption.
Qed.

Lemma deleteLastElement_state_ok (now : Z) (m : Manager) (h : heap) :
  state_ok h m ->
  exists r m' h',
    deleteLastElement now m h = Some (r, m', h') /\ state_ok h' m' /\ extends h h'.
Proof.
  intros (Hh & Hm). pose proof Hm as (Hc & _).
  destruct (fragment_parts h _ Hh Hc)
    as (f & items & es & md & ts & ks & Ef & Ea & Ees & _ & _ & _ & Hok & Hall).
  unfold deleteLastElement. rewrite Ef. simpl. rewrite Ea. simpl.
  destruct (last items).
  2: { do 3 eexists. split; [reflexivity|].
       split; [split; assumption | apply extends_refl]. }
  set (c := cell_array (removelast items)).
  set (h1 := write (o_elements f) c h).
  assert (Harr : holds h (o_elements f) (kind_of c)) by apply Hok.
  assert (E1 : extends h h1) by (apply extends_write, Harr).
  assert (Hh1 : heap_ok h1).
  { apply heap_ok_write; [assumption | | assumption].
    simpl. apply Forall_removelast, Hall. }
  destruct (updateMetadata_ok m h1) as (h2 & Hu & Hh2 & E2).
  { split; [assumption | eapply manager_ok_extends; eassumption]. }
  rewrite Hu. simpl.
  destruct (write_then_save now FragmentManager.act_delete m h h2 Hm Hh2)
    as (m' & h' & Hs & Hok' & Hext').
  { eapply extends_trans; eassumption. }
  rewrite Hs. simpl.
  do 3 eexists. split; [reflexivity|]. split; assumption.
Qed.

Lemma deleteElementAt_state_ok (now i : Z) (m : Manager) (h : heap) :
  state_ok h m ->
  exists r m' h',
    deleteElementAt now i m h = Some (r, m', h') /\ state_ok h' m' /\ extends h h'.
Proof.
  intros (Hh & Hm). pose proof Hm as (Hc & _).
  destruct (fragment_parts h _ Hh Hc)
    as (f & items & es & md & ts & ks & Ef & Ea & Ees & _ & _ & _ & Hok & Hall).
  unfold deleteElementAt. rewrite Ef. simpl. rewrite Ea. simpl.
  destruct (_ || _).
  { do 3 eexists. split; [reflexivity|].
    split; [split; assumption | apply extends_refl]. }
  destruct (items !! Z.to_nat i).
  2: { do 3 eexists. split; [reflexivity|].
       split; [split; assumption | apply extends_refl]. }
  set (c := cell_array (take (Z.to_nat i) items ++ drop (S (Z.to_nat i)) items)).
  set (h1 := write (o_elements f) c h).
  assert (Harr : holds h (o_elements f) (kind_of c)) by apply Hok.
  assert (E1 : extends h h1) by (apply extends_write, Harr).
  assert (Hh1 : heap_ok h1).
  { apply heap_ok_write; [assumption | | assumption].
    simpl. apply Forall_app. split; [apply Forall_take | apply Forall_drop]; exact Hall. }
  destruct (updateMetadata_ok m h1) as (h2 & Hu & Hh2 & E2).
  { split; [assumption | eapply manager_ok_extends; eassumption]. }
  rewrite Hu. simpl.
  destruct (write_then_save now FragmentManager.act_delete m h h2 Hm Hh2)
    as (m' & h' & Hs & Hok' & Hext').
  { eapply extends_trans; eassumption. }
  rewrite Hs. simpl.
  do 3 eexists. split; [reflexivity|]. split; assumption.
Qed.

Lemma clear_state_ok (now : Z) (m : Manager) (h : heap) :
  state_ok h m ->
  exists m' h', clear now m h = Some (m', h') /\ state_ok h' m' /\ extends h h'.
Proof.
  intros (Hh & Hm). pose proof Hm as (Hc & Hhist & Hk).
  destruct (fragment_parts h _ Hh Hc)
    as (f & items & es & md & ts & ks & Ef & _ & _ & _ & _ & _ & Hok & _).
  unfold clear. rewrite Ef. simpl.
  destruct Hok as (_ & _ & Ht & Hks).
  destruct (createEmptyFragment_ok now _ _ (o_tempo f) h Hh Ht Hks) as (Hh1 & E1 & Hr).
  destruct (createEmptyFragment now _ _ (o_tempo f) h) as [r h1] eqn:Ec. simpl in *.
  destruct (saveToHistory_state_ok now FragmentManager.act_clear (with_current r m) h1)
    as (m' & h' & Hs & Hok' & Hext' & _).
  { split; [assumption|]. repeat split; simpl; [assumption | |].
    - eapply Forall_impl; [exact Hhist|]. intros e. apply E1.
    - eapply Forall_impl; [exact Hk|]. intros x. apply E1. }
  unfold createEmptyFragment, alloc in Ec. simpl in Ec. injection Ec as <- <-.
  exists m', h'. repeat split; try assumption; try apply Hok'.
  eapply extends_trans; eassumption.
Qed.

Lemma index_Forall {A} (P : A -> Prop) (l : list A) (i : Z) (x : A) :
  Forall P l -> FragmentManager.index l i = Some x -> P x.
Proof.
  unfold FragmentManager.index. intros Hl. destruct (_ <? _); [discriminate|].
  intros Hx. eapply Forall_lookup_1; eassumption.
Qed.

Lemma moved_cursor_state_ok (m : Manager) (h : heap) (i : Z) (entry : Entry) :
  state_ok h m -> FragmentManager.index (history m) i = Some entry ->
  exists r h',
    copy_fragment (e_fragment entry) h = Some (r, h')
    /\ state_ok h' (with_current r (with_history (history m) i m))
    /\ extends h h'.
Proof.
  intros (Hh & Hm) Hentry. pose proof Hm as (Hc & Hhist & Hk).
  pose proof (index_Forall _ _ _ _ Hhist Hentry) as He.
  destruct (copy_fragment_ok (e_fragment entry) h Hh He)
    as (r & h1 & f & f' & Hcopy & Hh1 & Hext & Hr & _).
  exists r, h1. split; [exact Hcopy|]. split; [|exact Hext].
  split; [assumption|]. repeat split; simpl; [assumption | |].
  - eapply Forall_impl; [exact Hhist|]. intros e. apply Hext.
  - eapply Forall_impl; [exact Hk|]. intros x. apply Hext.
Qed.

Lemma undo_state_ok (m : Manager) (h : heap) :
  state_ok h m ->
  forall r m' h', undo m h = Some (r, m', h') -> state_ok h' m' /\ extends h h'.
Proof.
  intros Hok r m' h'. unfold undo.
  destruct (_ <=? _).
  - intros [= <- <- <-]. split; [assumption | apply extends_refl].
  - destruct (FragmentManager.index _ _) as [entry|] eqn:Ei; simpl; [|discriminate].
    destruct (moved_cursor_state_ok m h _ entry Hok Ei) as (r' & h1 & -> & Hok' & Hext).
    simpl. intros [= <- <- <-]. split; assumption.
Qed.

Lemma redo_state_ok (m : Manager) (h : heap) :
  state_ok h m ->
  forall r m' h', redo m h = Some (r, m', h') -> state_ok h' m' /\ extends h h'.
Proof.
  intros Hok r m' h'. unfold redo.
  destruct (_ <=? _).
  - intros [= <- <- <-]. split; [assumption | apply extends_refl].
  - destruct (FragmentManager.index _ _) as [entry|] eqn:Ei; simpl; [|discriminate].
    destruct (moved_cursor_state_ok m h _ entry Hok Ei) as (r' & h1 & -> & Hok' & Hext).
    simpl. intros [= <- <- <-]. split; assumption.
Qed.

Lemma commit_state_ok (now : Z) (m : Manager) (h : heap) :
  state_ok h m ->
  exists r m' h', commit now m h = Some (r, m', h') /\ state_ok h' m' /\ extends h h'.
Proof.
  intros (Hh & Hm). pose proof Hm as (Hc & Hhist & Hk).
  destruct (copy_fragment_ok (currentFragment m) h Hh Hc)
    as (r & h1 & f & f' & Hcopy & Hh1 & E1 & Hr & _ & _ & Ef' & _).
  unfold commit, getCurrentFragment. rewrite Hcopy. simpl. rewrite Ef'. simpl.
  set (c := cell_fragment (with_timestamp (Date_toISOString now) f')).
  set (h2 := write r c h1).
  assert (Hf' : cell_ok h1 (cell_fragment f')).
  { apply Hh1 with r. unfold get_fragment in Ef'.
    destruct (h1 !! r) as [[]|]; try discriminate. congruence. }
  assert (E2 : extends h1 h2) by (apply extends_write, Hr).
  assert (Hh2 : heap_ok h2) by (apply heap_ok_write; assumption).
  assert (Hc2 : holds h2 (currentFragment m) k_fragment) by (apply E2, E1, Hc).
  destruct (fragment_parts h2 _ Hh2 Hc2)
    as (g & ? & ? & ? & ? & ? & Eg & _ & _ & _ & _ & _ & Hokg & _).
  rewrite Eg. simpl.
  destruct Hokg as (_ & _ & Ht & Hks).
  destruct (createEmptyFragment_ok now _ _ (o_tempo g) h2 Hh2 Ht Hks) as (Hh3 & E3 & Hr3).
  destruct (createEmptyFragment now _ _ (o_tempo g) h2) as [r3 h3] eqn:Ec. simpl in *.
  destruct (saveToHistory_state_ok now FragmentManager.act_clear
              {| currentFragment := r3; history := []; historyIndex := -1;
                 maxHistorySize := maxHistorySize m;
                 committedFragments := committedFragments m ++ [r] |} h3)
    as (m' & h' & Hs & Hok' & E4 & _).
  { split; [assumption|]. repeat split; simpl; [assumption | constructor |].
    apply Forall_app. split.
    - eapply Forall_impl; [exact Hk|]. intros fr Hfr. apply E3, E2, E1, Hfr.
    - repeat constructor. apply E3, E2, Hr. }
  unfold createEmptyFragment, alloc in Ec. simpl in Ec. injection Ec as <- <-.
  rewrite Hs. simpl. do 3 eexists. split; [reflexivity|]. split; [assumption|].
  eapply extends_trans; [|exact E4]. eapply extends_trans; [|exact E3].
  eapply extends_trans; eassumption.
Qed.

(** Replacing the header fields of the working fragment object. *)
Lemma write_header_ok (ts ks : ref) (tempo : float) (m : Manager) (h : heap)
    (f : FragmentObject) :
  heap_ok h -> holds h (currentFragment m) k_fragment ->
  get_fragment h (currentFragment m) = Some f ->
  holds h ts k_timeSignature -> holds h ks k_keySignature ->
  heap_ok (write (currentFragment m) (cell_fragment (with_header ts ks tempo f)) h)
  /\ extends h (write (currentFragment m) (cell_fragment (with_header ts ks tempo f)) h).
Proof.
  intros Hh Hc Ef Hts Hks.
  assert (Hf : cell_ok h (cell_fragment f)).
  { apply Hh with (currentFragment m). unfold get_fragment in Ef.
    destruct (h !! currentFragment m) as [[]|]; try discriminate. congruence. }
  destruct Hf as (Ha & Hmd & _ & _).
  split.
  - apply heap_ok_write; [assumption | | assumption].
    simpl. repeat split; assumption.
  - apply extends_write, Hc.
Qed.

Lemma setTimeSignature_state_ok (now : Z) (n d : float) (m : Manager) (h : heap) :
  state_ok h m ->
  exists m' h',
    setTimeSignature now n d m h = Some (m', h') /\ state_ok h' m' /\ extends h h'.
Proof.
  intros (Hh & Hm). pose proof Hm as (Hc & _).
  destruct (fragment_parts h _ Hh Hc)
    as (f & ? & ? & ? & ? & ? & Ef & _ & _ & _ & _ & _ & Hok & _).
  unfold setTimeSignature, alloc. rewrite Ef. simpl.
  set (ct := cell_timeSignature {| numerator := n; denominator := d |}).
  set (h1 := h ++ [ct]).
  assert (E1 : extends h h1) by apply extends_alloc.
  assert (Hh1 : heap_ok h1) by (apply heap_ok_alloc; [assumption | exact I]).
  destruct (write_header_ok (length h) (o_keySignature f) (o_tempo f) m h1 f)
    as (Hh2 & E2); try assumption.
  { apply E1, Hc. }
  { eapply get_fragment_agree; [apply agree_below_alloc | apply Nat.le_refl | exact Ef]. }
  { apply (holds_alloc_new h ct). }
  { apply E1, Hok. }
  match type of Hh2 with heap_ok ?x => set (h2 := x) in * end.
  destruct (updateMetadata_ok m h2) as (h3 & Hu & Hh3 & E3).
  { split; [assumption|]. eapply manager_ok_extends; [|exact Hm].
    eapply extends_trans; eassumption. }
  rewrite Hu. simpl.
  apply (write_then_save now FragmentManager.act_modify m h h3 Hm Hh3).
  eapply extends_trans; [|exact E3]. eapply extends_trans; eassumption.
Qed.

Lemma setKeySignature_state_ok (now : Z) (key mode : string) (m : Manager) (h : heap) :
  state_ok h m ->
  exists m' h',
    setKeySignature now key mode m h = Some (m', h') /\ state_ok h' m' /\ extends h h'.
Proof.
  intros (Hh & Hm). pose proof Hm as (Hc & _).
  destruct (fragment_parts h _ Hh Hc)
    as (f & ? & ? & ? & ? & ? & Ef & _ & _ & _ & _ & _ & Hok & _).
  unfold setKeySignature, alloc. rewrite Ef. simpl.
  set (ck := cell_keySignature {| key := key; mode := mode |}).
  set (h1 := h ++ [ck]).
  assert (E1 : extends h h1) by apply extends_alloc.
  assert (Hh1 : heap_ok h1) by (apply heap_ok_alloc; [assumption | exact I]).
  destruct (write_header_ok (o_timeSignature f) (length h) (o_tempo f) m h1 f)
    as (Hh2 & E2); try assumption.
  { apply E1, Hc. }
  { eapply get_fragment_agree; [apply agree_below_alloc | apply Nat.le_refl | exact Ef]. }
  { apply E1, Hok. }
  { apply (holds_alloc_new h ck). }
  apply (write_then_save now FragmentManager.act_modify m h _ Hm Hh2).
  eapply extends_trans; eassumption.
Qed.

Lemma setTempo_state_ok (now : Z) (bpm : float) (m : Manager) (h : heap) :
  state_ok h m ->
  exists m' h', setTempo now bpm m h = Some (m', h') /\ state_ok h' m' /\ extends h h'.
Proof.
  intros (Hh & Hm). pose proof Hm as (Hc & _).
  destruct (fragment_parts h _ Hh Hc)
    as (f & ? & ? & ? & ? & ? & Ef & _ & _ & _ & _ & _ & Hok & _).
  unfold setTempo. rewrite Ef. simpl.
  destruct (write_header_ok (o_timeSignature f) (o_keySignature f) bpm m h f)
    as (Hh1 & E1); try assumption; try apply Hok.
  apply (write_then_save now FragmentManager.act_modify m h _ Hm Hh1 E1).
Qed.

Lemma step_state_ok (now : Z) (c : Call) (m m' : Manager) (h h' : heap) :
  state_ok h m -> step now c m h = Some (m', h') -> state_ok h' m'.
Proof.
  intros Hok. pose proof Hok as (Hh & Hm).
  destruct c as [e | element | | | | | | n d | k md | bpm | | i | a e | a ts | a ks ];
    simpl.
  - intros [= <- <-]. split.
    + apply heap_ok_alloc; [assumption | exact I].
    + eapply manager_ok_extends; [apply extends_alloc | assumption].
  - destruct (addElement now element m h) as [[[r m1] h1]|] eqn:Ea; simpl; [|discriminate].
    intros [= <- <-].
    assert (He : holds h element k_element).
    { unfold addElement in Ea. destruct (get_element h element) eqn:Ee; [|discriminate].
      eapply get_element_holds, Ee. }
    destruct (addElement_state_ok now element m h Hok He) as (? & ? & ? & Ea' & ? & _).
    congruence.
  - destruct (deleteLastElement_state_ok now m h Hok) as (? & ? & ? & -> & ? & _).
    simpl. intros [= <- <-]. assumption.
  - destruct (clear_state_ok now m h Hok) as (? & ? & -> & ? & _).
    intros [= <- <-]. assumption.
  - destruct (undo m h) as [[[r m1] h1]|] eqn:Eu; simpl; [|discriminate].
    intros [= <- <-]. eapply undo_state_ok; eassumption.
  - destruct (redo m h) as [[[r m1] h1]|] eqn:Er; simpl; [|discriminate].
    intros [= <- <-]. eapply redo_state_ok; eassumption.
  - destruct (commit_state_ok now m h Hok) as (? & ? & ? & -> & ? & _).
    simpl. intros [= <- <-]. assumption.
  - destruct (setTimeSignature_state_ok now n d m h Hok) as (? & ? & -> & ? & _).
    intros [= <- <-]. assumption.
  - destruct (setKeySignature_state_ok now k md m h Hok) as (? & ? & -> & ? & _).
    intros [= <- <-]. assumption.
  - destruct (setTempo_state_ok now bpm m h Hok) as (? & ? & -> & ? & _).
    intros [= <- <-]. assumption.
  - destruct (copy_fragment_ok (currentFragment m) h Hh (proj1 Hm))
      as (r & h1 & f & f' & Hcopy & Hh1 & E1 & _).
    unfold getCurrentFragment. rewrite Hcopy. simpl. intros [= <- <-].
    split; [assumption | eapply manager_ok_extends; eassumption].
  - destruct (deleteElementAt_state_ok now i m h Hok) as (? & ? & ? & -> & ? & _).
    simpl. intros [= <- <-]. assumption.
  - destruct (get_element h a) as [e0|] eqn:Ee; simpl; [|discriminate].
    intros [= <- <-].
    assert (Ha : holds h a (kind_of (cell_element e))) by (eapply get_element_holds, Ee).
    split; [apply heap_ok_write; [assumption | exact I | exact Ha]|].
    eapply manager_ok_extends; [apply extends_write, Ha | assumption].
  - destruct (get_timeSignature h a) as [ts0|] eqn:Ee; simpl; [|discriminate].
    intros [= <- <-].
    assert (Ha : holds h a (kind_of (cell_timeSignature ts))).
    { unfold holds, get_timeSignature in *.
      destruct (h !! a) as [[]|]; simpl; try discriminate; reflexivity. }
    split; [apply heap_ok_write; [assumption | exact I | exact Ha]|].
    eapply manager_ok_extends; [apply extends_write, Ha | assumption].
  - destruct (get_keySignature h a) as [ks0|] eqn:Ee; simpl; [|discriminate].
    intros [= <- <-].
    assert (Ha : holds h a (kind_of (cell_keySignature ks))).
    { unfold holds, get_keySignature in *.
      destruct (h !! a) as [[]|]; simpl; try discriminate; reflexivity. }
    split; [apply heap_ok_write; [assumption | exact I | exact Ha]|].
    eapply manager_ok_extends; [apply extends_write, Ha | assumption].
Qed.

(** Every state a client can reach from the constructor is well formed. *)
Lemma reachable_state_ok (now max : Z) (ts : TimeSig) (ks : KeySig) (tempo : float)
    (calls : list (Z * Call)) (m0 m : Manager) (h0 h : heap) :
  constructor now max ts ks tempo = Some (m0, h0) ->
  run calls m0 h0 = Some (m, h) ->
  state_ok h m.
Proof.
  intros Hc.
  assert (H0 : state_ok h0 m0).
  { destruct (constructor_state_ok now max ts ks tempo) as (? & ? & Hc' & ?). congruence. }
  clear Hc. revert m0 h0 H0.
  induction calls as [|[t c] calls IH]; intros m0 h0 H0; simpl.
  - intros [= <- <-]. exact H0.
  - destruct (step t c m0 h0) as [[m1 h1]|] eqn:Es; [|discriminate].
    apply IH. eapply step_state_ok; eassumption.
Qed.

End Sharing.


Section SharingExamples.
Import Objects Spec.
#[local] Existing Instance Eval.runtime.

(** Through the fragment returned by [getCurrentFragment] a caller reaches
    the element object of the working fragment: retuning it retunes the
    working fragment and the snapshot taken when the note was added. *)
Lemma C3_counterexample :
  exists m r h h',
    shared_note_scenario = Some (m, r, h)
    /\ retune_first_element r h = Some h'
    /\ element_sequences (view h m)
       = Some ([quarter_note "C4"], [[]; [quarter_note "C4"]])
    /\ element_sequences (view h' m)
       = Some ([quarter_note "D4"], [[]; [quarter_note "D4"]]).
Proof.
  do 4 eexists. split; [vm_compute; reflexivity|].
  split; [vm_compute; reflexivity|].
  split; vm_compute; reflexivity.
Qed.

(** The same holds of the time signature object. *)
Example shared_time_signature :
  exists m r h h',
    shared_note_scenario = Some (m, r, h)
    /\ set_numerator_in_place r h = Some h'
    /\ (numerator ∘ timeSignature ∘ fst) <$> view h m = Some 4%float
    /\ (numerator ∘ timeSignature ∘ fst) <$> view h' m = Some 3%float.
Proof.
  do 4 eexists. split; [vm_compute; reflexivity|].
  split; [vm_compute; reflexivity|].
  split; vm_compute; reflexivity.
Qed.

(** On the calls of [commit_calls] the two models of the manager agree. *)
Example models_agree :
  (fun p => view (snd p) (fst p))
    <$> (Objects.constructor 0 2 four_four c_major 120%float
           ≫= fun p => Objects.run commit_calls_with_objects (fst p) (snd p))
  = (fun s => Some (canonical s))
    <$> FragmentManager.run commit_calls
          (FragmentManager.constructor 0 2 four_four c_major 120%float).
Proof. vm_compute. reflexivity. Qed.

Lemma C3_returned_copy_is_one_level_deep_witness :
  exists m h,
    Objects.constructor 0 20 four_four c_major 120%float = Some (m, h)
    /\ heap_ok h /\ manager_ok h m
    /\ exists r h1 f v,
         getCurrentFragment m h = Some (r, h1)
         /\ get_fragment h1 r = Some f
         /\ view h m = Some v
         /\ view_fragment h1 r = Some (fst v)
         /\ forall ws,
              Forall (fun w => fst w = r \/ fst w = o_elements f \/ fst w = o_metadata f) ws ->
              view (write_all ws h1) m = Some v.
Proof.
  do 2 eexists. split; [vm_compute; reflexivity|].
  match goal with
  | |- heap_ok ?h /\ manager_ok ?h ?m /\ _ =>
      assert (Hh : heap_ok h);
      [ intros a c Ha;
        repeat (destruct a as [|a];
                [ injection Ha as <-; simpl; repeat split;
                  try reflexivity; repeat constructor | ]);
        simpl in Ha; discriminate Ha
      | assert (Hm : manager_ok h m);
        [ repeat split; repeat constructor
        | split; [exact Hh|]; split; [exact Hm|];
          destruct (C3_returned_copy_is_one_level_deep m h Hh Hm)
            as (r & h1 & f & f0 & v & Hg & Hf & _ & Hv & Hr & _ & _ & _ & Hws & _);
          exists r, h1, f, v; repeat split; assumption ] ]
  end.
Defined.

End SharingExamples.

(** ** The two models of the fragment manager

    As long as clients do not assign to the objects they share with the
    manager, the manager on values describes the manager with its objects
    call for call. *)

Section Simulation.
Import Objects Spec.
Context `{Runtime}.

Lemma lookup_write (h : heap) (x a : ref) (c : cell) :
  holds h x (kind_of c) ->
  write x c h !! a = if decide (a = x) then Some c else h !! a.
Proof.
  intros Hx. unfold write. destruct (decide (a = x)) as [->|Hne].
  - apply list_lookup_insert_eq. unfold holds in Hx.
    destruct (h !! x) eqn:E; [|discriminate]. eapply lookup_lt_Some, E.
  - apply list_lookup_insert_ne. congruence.
Qed.

Ltac getter_write h x a c Hx :=
  rewrite (lookup_write h x a c Hx);
  destruct (decide (a = x)) as [->|]; [|reflexivity];
  unfold holds in Hx; destruct (h !! x) as [[]|]; destruct c;
  simpl in *; congruence.

Lemma get_element_write (h : heap) (x a : ref) (c : cell) :
  holds h x (kind_of c) -> kind_of c <> k_element ->
  get_element (write x c h) a = get_element h a.
Proof. intros Hx Hk. unfold get_element. getter_write h x a c Hx. Qed.

Lemma get_metadata_write (h : heap) (x a : ref) (c : cell) :
  holds h x (kind_of c) -> kind_of c <> k_metadata ->
  get_metadata (write x c h) a = get_metadata h a.
Proof. intros Hx Hk. unfold get_metadata. getter_write h x a c Hx. Qed.

Lemma get_timeSignature_write (h : heap) (x a : ref) (c : cell) :
  holds h x (kind_of c) -> kind_of c <> k_timeSignature ->
  get_timeSignature (write x c h) a = get_timeSignature h a.
Proof. intros Hx Hk. unfold get_timeSignature. getter_write h x a c Hx. Qed.

Lemma get_keySignature_write (h : heap) (x a : ref) (c : cell) :
  holds h x (kind_of c) -> kind_of c <> k_keySignature ->
  get_keySignature (write x c h) a = get_keySignature h a.
Proof. intros Hx Hk. unfold get_keySignature. getter_write h x a c Hx. Qed.

Lemma get_array_write (h : heap) (x a : ref) (c : cell) :
  holds h x (kind_of c) -> kind_of c <> k_array ->
  get_array (write x c h) a = get_array h a.
Proof. intros Hx Hk. unfold get_array. getter_write h x a c Hx. Qed.

Lemma get_fragment_write (h : heap) (x a : ref) (c : cell) :
  holds h x (kind_of c) -> kind_of c <> k_fragment ->
  get_fragment (write x c h) a = get_fragment h a.
Proof. intros Hx Hk. unfold get_fragment. getter_write h x a c Hx. Qed.

Lemma get_array_write_ne (h : heap) (x a : ref) (c : cell) :
  holds h x (kind_of c) -> a <> x -> get_array (write x c h) a = get_array h a.
Proof.
  intros Hx Hne. unfold get_array. rewrite (lookup_write h x a c Hx).
  destruct (decide (a = x)); [contradiction | reflexivity].
Qed.

Lemma get_fragment_write_ne (h : heap) (x a : ref) (c : cell) :
  holds h x (kind_of c) -> a <> x -> get_fragment (write x c h) a = get_fragment h a.
Proof.
  intros Hx Hne. unfold get_fragment. rewrite (lookup_write h x a c Hx).
  destruct (decide (a = x)); [contradiction | reflexivity].
Qed.

Lemma get_array_write_eq (h : heap) (x : ref) (items : list ref) :
  holds h x k_array -> get_array (write x (cell_array items) h) x = Some items.
Proof.
  intros Hx. unfold get_array. rewrite (lookup_write h x x (cell_array items) Hx).
  destruct (decide (x = x)); [reflexivity | contradiction].
Qed.

Lemma get_fragment_write_eq (h : heap) (x : ref) (f : FragmentObject) :
  holds h x k_fragment -> get_fragment (write x (cell_fragment f) h) x = Some f.
Proof.
  intros Hx. unfold get_fragment. rewrite (lookup_write h x x (cell_fragment f) Hx).
  destruct (decide (x = x)); [reflexivity | contradiction].
Qed.

Lemma mapM_pointwise {A B} (f g : A -> option B) (l : list A) :
  (forall x, f x = g x) -> mapM f l = mapM g l.
Proof.
  intros Hfg. induction l as [|x l IH]; simpl; [reflexivity|].
  rewrite Hfg, IH. reflexivity.
Qed.

Lemma read_elements_write (h : heap) (x : ref) (c : cell) (items : list ref) :
  holds h x (kind_of c) -> kind_of c <> k_element ->
  read_elements (write x c h) items = read_elements h items.
Proof.
  intros Hx Hk. unfold read_elements. apply mapM_pointwise.
  intros a. apply get_element_write; assumption.
Qed.

(** Assigning to an elements array changes only the fragments that use
    it. *)
Lemma view_fragment_write_array (h : heap) (x r : ref) (items : list ref) :
  holds h x k_array ->
  (forall g, get_fragment h r = Some g -> o_elements g <> x) ->
  view_fragment (write x (cell_array items) h) r = view_fragment h r.
Proof.
  intros Hx Hr. unfold view_fragment.
  rewrite (get_fragment_write h x r (cell_array items) Hx) by discriminate.
  destruct (get_fragment h r) as [g|] eqn:Eg; [|reflexivity]. simpl.
  rewrite (get_array_write_ne h x _ (cell_array items) Hx) by (apply Hr; reflexivity).
  destruct (get_array h (o_elements g)) as [its|]; [|reflexivity]. simpl.
  rewrite (read_elements_write h x (cell_array items)) by (assumption || discriminate).
  destruct (read_elements h its); [|reflexivity]. simpl.
  rewrite (get_metadata_write h x _ (cell_array items) Hx) by discriminate.
  destruct (get_metadata h (o_metadata g)); [|reflexivity]. simpl.
  rewrite (get_timeSignature_write h x _ (cell_array items) Hx) by discriminate.
  destruct (get_timeSignature h (o_timeSignature g)); [|reflexivity]. simpl.
  rewrite (get_keySignature_write h x _ (cell_array items) Hx) by discriminate.
  reflexivity.
Qed.

(** Assigning to a fragment object changes only that fragment. *)
Lemma view_fragment_write_fragment (h : heap) (x r : ref) (f : FragmentObject) :
  holds h x k_fragment -> r <> x ->
  view_fragment (write x (cell_fragment f) h) r = view_fragment h r.
Proof.
  intros Hx Hr. unfold view_fragment.
  rewrite (get_fragment_write_ne h x r (cell_fragment f) Hx Hr).
  destruct (get_fragment h r) as [g|] eqn:Eg; [|reflexivity]. simpl.
  rewrite (get_array_write h x _ (cell_fragment f) Hx) by discriminate.
  destruct (get_array h (o_elements g)) as [its|]; [|reflexivity]. simpl.
  rewrite (read_elements_write h x (cell_fragment f)) by (assumption || discriminate).
  destruct (read_elements h its); [|reflexivity]. simpl.
  rewrite (get_metadata_write h x _ (cell_fragment f) Hx) by discriminate.
  destruct (get_metadata h (o_metadata g)); [|reflexivity]. simpl.
  rewrite (get_timeSignature_write h x _ (cell_fragment f) Hx) by discriminate.
  destruct (get_timeSignature h (o_timeSignature g)); [|reflexivity]. simpl.
  rewrite (get_keySignature_write h x _ (cell_fragment f) Hx) by discriminate.
  reflexivity.
Qed.

(** The parts of a fragment that a reference stands for. *)
Lemma view_fragment_parts (h : heap) (r : ref) (v : MusicalFragment) :
  view_fragment h r = Some v ->
  exists f items,
    get_fragment h r = Some f
    /\ get_array h (o_elements f) = Some items
    /\ read_elements h items = Some (elements v)
    /\ get_metadata h (o_metadata f) = Some (metadata v)
    /\ get_timeSignature h (o_timeSignature f) = Some (timeSignature v)
    /\ get_keySignature h (o_keySignature f) = Some (keySignature v)
    /\ o_id f = id v /\ o_timestamp f = timestamp v /\ o_tempo f = tempo v.
Proof.
  unfold view_fragment. intros Hv.
  destruct (get_fragment h r) as [f|] eqn:Ef; [|discriminate]. simpl in Hv.
  destruct (get_array h (o_elements f)) as [items|] eqn:Ea; [|discriminate]. simpl in Hv.
  destruct (read_elements h items) as [es|] eqn:Ee; [|discriminate]. simpl in Hv.
  destruct (get_metadata h (o_metadata f)) as [md|] eqn:Em; [|discriminate]. simpl in Hv.
  destruct (get_timeSignature h (o_timeSignature f)) as [ts|] eqn:Et; [|discriminate].
  simpl in Hv.
  destruct (get_keySignature h (o_keySignature f)) as [ks|] eqn:Ek; [|discriminate].
  simpl in Hv.
  injection Hv as <-. exists f, items. simpl. repeat split; assumption || reflexivity.
Qed.

Lemma view_fragment_of_parts (h : heap) (r : ref) (f : FragmentObject)
    (items : list ref) (es : list MusicalElement) (md : FragmentMetadata)
    (ts : TimeSig) (ks : KeySig) :
  get_fragment h r = Some f ->
  get_array h (o_elements f) = Some items ->
  read_elements h items = Some es ->
  get_metadata h (o_metadata f) = Some md ->
  get_timeSignature h (o_timeSignature f) = Some ts ->
  get_keySignature h (o_keySignature f) = Some ks ->
  view_fragment h r
  = Some {| id := o_id f; timestamp := o_timestamp f; timeSignature := ts;
            keySignature := ks; tempo := o_tempo f; elements := es; metadata := md |}.
Proof.
  intros Ef Ea Ee Em Et Ek. unfold view_fragment.
  rewrite Ef. simpl. rewrite Ea. simpl. rewrite Ee. simpl. rewrite Em. simpl.
  rewrite Et. simpl. rewrite Ek. reflexivity.
Qed.

Lemma holds_lt (h : heap) (a : ref) (k : kind) : holds h a k -> (a < length h)%nat.
Proof.
  unfold holds. destruct (h !! a) eqn:E; [|discriminate].
  intros _. eapply lookup_lt_Some, E.
Qed.

Lemma get_fragment_below (n : nat) (h h' : heap) (a : ref) :
  agree_below n h h' -> (a < n)%nat -> get_fragment h' a = get_fragment h a.
Proof. intros Hag Ha. unfold get_fragment. rewrite Hag by assumption. reflexivity. Qed.

Lemma settled_ok (h : heap) (r : ref) :
  heap_ok h -> holds h r k_fragment -> settled (length h) h r.
Proof.
  intros Hh Hr. split; [eapply holds_lt, Hr|].
  intros g Eg. unfold get_fragment in Eg.
  destruct (h !! r) as [[]|] eqn:E; try discriminate. injection Eg as ->.
  destruct (Hh _ _ E) as (Ha & _). eapply holds_lt, Ha.
Qed.

Lemma settled_agree (n : nat) (h h' : heap) (r : ref) :
  agree_below n h h' -> settled n h r -> settled n h' r.
Proof.
  intros Hag (Hr & Hg). split; [assumption|].
  intros g. rewrite (get_fragment_below n h h' r Hag Hr). apply Hg.
Qed.

Lemma settled_le (n n' : nat) (h : heap) (r : ref) :
  (n <= n')%nat -> settled n h r -> settled n' h r.
Proof.
  intros Hle (Hr & Hg). split; [lia|]. intros g Eg. specialize (Hg g Eg). lia.
Qed.

(** A settled fragment is apart from one made afterwards. *)
Lemma apart_fresh (n : nat) (h : heap) (c r : ref) :
  settled n h r -> (n <= c)%nat ->
  (forall f, get_fragment h c = Some f -> (n <= o_elements f)%nat) ->
  apart h c r.
Proof.
  intros (Hr & Hg) Hc Hf. split; [lia|].
  intros f g Ef Eg. specialize (Hg g Eg). specialize (Hf f Ef). lia.
Qed.

Lemma apart_same_fragments (h h' : heap) (c r : ref) :
  get_fragment h' c = get_fragment h c -> get_fragment h' r = get_fragment h r ->
  apart h c r -> apart h' c r.
Proof.
  intros Ec Er (Hne & Ha). split; [assumption|].
  intros f g. rewrite Ec, Er. apply Ha.
Qed.

Lemma simulates_kept (h : heap) (m : Manager) (s : FragmentManager.State) :
  simulates h m s ->
  Forall (fun e => kept_apart h (currentFragment m) (e_fragment e)) (history m)
  /\ Forall (kept_apart h (currentFragment m)) (committedFragments m).
Proof.
  intros ((_ & _ & Hh & Hc) & _ & Sh & Sc). split.
  - apply Forall_and. split; assumption.
  - apply Forall_and. split; assumption.
Qed.

Lemma entries_frame (h h' : heap) (c : ref) (l : list Entry)
    (k : list FragmentManager.FragmentHistoryEntry) :
  Forall2 (entry_rep h) l k ->
  Forall (fun e => kept_apart h c (e_fragment e)) l ->
  (forall r v, kept_apart h c r -> view_fragment h r = Some v -> view_fragment h' r = Some v) ->
  Forall2 (entry_rep h') l k.
Proof.
  intros Hrep Hkept Hframe. induction Hrep as [|e entry l k (Hv & Ht & Ha) _ IH].
  - constructor.
  - inversion Hkept as [|? ? He Hl]; subst. constructor.
    + split; [|split; assumption]. apply (Hframe _ _ He Hv).
    + apply IH, Hl.
Qed.

Lemma committed_frame (h h' : heap) (c : ref) (l : list ref) (k : list MusicalFragment) :
  Forall2 (fun r f => view_fragment h r = Some f) l k ->
  Forall (kept_apart h c) l ->
  (forall r v, kept_apart h c r -> view_fragment h r = Some v -> view_fragment h' r = Some v) ->
  Forall2 (fun r f => view_fragment h' r = Some f) l k.
Proof.
  intros Hrep Hkept Hframe. induction Hrep as [|r f l k Hv _ IH].
  - constructor.
  - inversion Hkept as [|? ? Hr Hl]; subst. constructor.
    + apply (Hframe _ _ Hr Hv).
    + apply IH, Hl.
Qed.

(** A step of the manager that keeps the entries of the history and the
    committed fragments, and may replace or assign to the working
    fragment. *)
Lemma simulates_frame (h h' : heap) (m m' : Manager) (s s' : FragmentManager.State) :
  simulates h m s ->
  state_ok h' m' ->
  history m' = history m -> committedFragments m' = committedFragments m ->
  FragmentManager.history s' = FragmentManager.history s ->
  FragmentManager.committedFragments s' = FragmentManager.committedFragments s ->
  historyIndex m' = FragmentManager.historyIndex s' ->
  maxHistorySize m' = FragmentManager.maxHistorySize s' ->
  view_fragment h' (currentFragment m') = Some (FragmentManager.currentFragment s') ->
  (forall r v, kept_apart h (currentFragment m) r ->
               view_fragment h r = Some v -> view_fragment h' r = Some v) ->
  (forall r, kept_apart h (currentFragment m) r -> apart h' (currentFragment m') r) ->
  simulates h' m' s'.
Proof.
  intros Hsim Hok Eh Ec Eh' Ec' Ei Em Hcur F1 F2.
  destruct (simulates_kept h m s Hsim) as (Kh & Kc).
  destruct Hsim as (_ & (_ & Rh & _ & _ & Rc) & _).
  split; [exact Hok|]. split.
  - repeat split; try assumption.
    + rewrite Eh, Eh'. eapply entries_frame; eassumption.
    + rewrite Ec, Ec'. eapply committed_frame; eassumption.
  - split.
    + rewrite Eh. eapply Forall_impl; [exact Kh|]. intros e. apply F2.
    + rewrite Ec. eapply Forall_impl; [exact Kc|]. apply F2.
Qed.

Lemma simulates_index (h : heap) (m : Manager) (s : FragmentManager.State) :
  simulates h m s ->
  historyIndex m = FragmentManager.historyIndex s
  /\ maxHistorySize m = FragmentManager.maxHistorySize s
  /\ view_fragment h (currentFragment m) = Some (FragmentManager.currentFragment s)
  /\ holds h (currentFragment m) k_fragment /\ heap_ok h.
Proof. intros ((Hh & Hc & _) & (Hv & _ & Ei & Em & _) & _). repeat split; assumption. Qed.

Lemma fragment_cell_ok (h : heap) (r : ref) (f : FragmentObject) :
  heap_ok h -> get_fragment h r = Some f -> cell_ok h (cell_fragment f).
Proof.
  intros Hh Ef. unfold get_fragment in Ef.
  destruct (h !! r) as [[]|] eqn:E; try discriminate. injection Ef as ->.
  eapply Hh, E.
Qed.

(** Assigning to the elements array of the working fragment. *)
Lemma simulates_write_elements (h : heap) (m : Manager) (s : FragmentManager.State)
    (f : FragmentObject) (items' : list ref) (es' : list MusicalElement) :
  simulates h m s ->
  get_fragment h (currentFragment m) = Some f ->
  Forall (fun r => holds h r k_element) items' ->
  read_elements h items' = Some es' ->
  simulates (write (o_elements f) (cell_array items') h) m
    (FragmentManager.with_fragment
       (FragmentManager.set_elements es' (FragmentManager.currentFragment s)) s).
Proof.
  intros Hsim Ef Hitems Hes.
  destruct (simulates_index h m s Hsim) as (Ei & Em & Hv & Hc & Hh).
  pose proof Hsim as ((_ & Hm) & _).
  destruct (fragment_cell_ok h _ f Hh Ef) as (Ha & _).
  set (c := cell_array items').
  assert (Hx : holds h (o_elements f) (kind_of c)) by exact Ha.
  destruct (view_fragment_parts h _ _ Hv)
    as (f0 & items & Ef0 & _ & _ & Emd & Ets & Eks & Eid & Etm & Etp).
  assert (f0 = f) by congruence. subst f0.
  apply (simulates_frame h _ m m s); try reflexivity; try assumption.
  - split.
    + apply heap_ok_write; assumption.
    + eapply manager_ok_extends; [apply extends_write, Hx | assumption].
  - erewrite view_fragment_of_parts.
    + simpl. unfold FragmentManager.set_elements. rewrite Eid, Etm, Etp. reflexivity.
    + rewrite (get_fragment_write h _ _ c Hx) by discriminate. exact Ef.
    + apply get_array_write_eq, Ha.
    + rewrite (read_elements_write h _ c) by (assumption || discriminate). exact Hes.
    + rewrite (get_metadata_write h _ _ c Hx) by discriminate. exact Emd.
    + rewrite (get_timeSignature_write h _ _ c Hx) by discriminate. exact Ets.
    + rewrite (get_keySignature_write h _ _ c Hx) by discriminate. exact Eks.
  - intros r v (_ & _ & Hap) Hr. subst c.
    rewrite view_fragment_write_array; [exact Hr | exact Ha |].
    intros g Eg. apply (Hap f g Ef Eg).
  - intros r (_ & Hap). eapply apart_same_fragments; [| |exact Hap];
      apply get_fragment_write; assumption || discriminate.
Qed.

(** Assigning to the working fragment object, its elements array kept. *)
Lemma simulates_write_fragment (h : heap) (m : Manager) (s : FragmentManager.State)
    (f f' : FragmentObject) (cur' : MusicalFragment) :
  simulates h m s ->
  get_fragment h (currentFragment m) = Some f ->
  o_elements f' = o_elements f ->
  cell_ok h (cell_fragment f') ->
  (forall h', get_fragment h' (currentFragment m) = Some f' ->
              (forall a, get_array h' a = get_array h a) ->
              (forall a, get_element h' a = get_element h a) ->
              (forall a, get_metadata h' a = get_metadata h a) ->
              (forall a, get_timeSignature h' a = get_timeSignature h a) ->
              (forall a, get_keySignature h' a = get_keySignature h a) ->
              view_fragment h' (currentFragment m) = Some cur') ->
  simulates (write (currentFragment m) (cell_fragment f') h) m
    (FragmentManager.with_fragment cur' s).
Proof.
  intros Hsim Ef Eel Hok Hview.
  destruct (simulates_index h m s Hsim) as (Ei & Em & Hv & Hc & Hh).
  pose proof Hsim as ((_ & Hm) & _).
  set (c := cell_fragment f').
  assert (Hx : holds h (currentFragment m) (kind_of c)) by exact Hc.
  apply (simulates_frame h _ m m s); try reflexivity; try assumption.
  - split.
    + apply heap_ok_write; assumption.
    + eapply manager_ok_extends; [apply extends_write, Hx | assumption].
  - apply Hview.
    + apply get_fragment_write_eq, Hc.
    + intros a. apply get_array_write; assumption || discriminate.
    + intros a. apply get_element_write; assumption || discriminate.
    + intros a. apply get_metadata_write; assumption || discriminate.
    + intros a. apply get_timeSignature_write; assumption || discriminate.
    + intros a. apply get_keySignature_write; assumption || discriminate.
  - intros r v (_ & Hne & _) Hr. subst c.
    rewrite view_fragment_write_fragment; assumption.
  - intros r (_ & Hne & Hap). split; [assumption|]. subst c.
    intros f1 g. rewrite (get_fragment_write_eq h _ f' Hc).
    rewrite (get_fragment_write_ne h _ r (cell_fragment f') Hx Hne).
    intros [= <-] Eg. rewrite Eel. apply (Hap f g Ef Eg).
Qed.

(** A new object leaves everything as it is. *)
Lemma simulates_alloc (h : heap) (m : Manager) (s : FragmentManager.State) (c : cell) :
  simulates h m s -> cell_ok h c -> simulates (h ++ [c]) m s.
Proof.
  intros Hsim Hc.
  destruct (simulates_index h m s Hsim) as (Ei & Em & Hv & Hcur & Hh).
  pose proof Hsim as ((_ & Hm) & _).
  apply (simulates_frame h _ m m s); try reflexivity; try assumption.
  - split; [apply heap_ok_alloc; assumption|].
    eapply manager_ok_extends; [apply extends_alloc | assumption].
  - eapply view_fragment_agree; [apply agree_below_alloc | apply Nat.le_refl | exact Hv].
  - intros r v _ Hr.
    eapply view_fragment_agree; [apply agree_below_alloc | apply Nat.le_refl | exact Hr].
  - intros r (Hr & Hap). eapply apart_same_fragments; [| |exact Hap].
    + apply (get_fragment_below (length h)); [apply agree_below_alloc|].
      eapply holds_lt, Hcur.
    + apply (get_fragment_below (length h)); [apply agree_below_alloc|].
      eapply holds_lt, Hr.
Qed.

Lemma simulates_updateMetadata (h h' : heap) (m : Manager) (s : FragmentManager.State) :
  simulates h m s -> updateMetadata m h = Some h' ->
  simulates h' m (FragmentManager.updateMetadata s).
Proof.
  intros Hsim Hu.
  destruct (simulates_index h m s Hsim) as (Ei & Em & Hv & Hc & Hh).
  destruct (view_fragment_parts h _ _ Hv)
    as (f & items & Ef & Ea & Ee & Emd & Ets & Eks & Eid & Etm & Etp).
  unfold updateMetadata in Hu. rewrite Ef in Hu. simpl in Hu.
  rewrite Ea in Hu. simpl in Hu. rewrite Ee in Hu. simpl in Hu.
  rewrite Ets in Hu. simpl in Hu. unfold alloc in Hu. injection Hu as <-.
  match goal with |- context [h ++ [?c]] => set (cm := c) end.
  assert (Hag : agree_below (length h) h (h ++ [cm])) by apply agree_below_alloc.
  assert (Hsim1 : simulates (h ++ [cm]) m s) by (apply simulates_alloc; [assumption | exact I]).
  destruct (fragment_cell_ok h _ f Hh Ef) as (Ka & _ & Kt & Kk).
  apply (simulates_write_fragment (h ++ [cm]) m s f).
  - exact Hsim1.
  - eapply get_fragment_agree; [exact Hag | apply Nat.le_refl | exact Ef].
  - reflexivity.
  - simpl. repeat split.
    + apply (extends_alloc h cm), Ka.
    + apply (holds_alloc_new h cm).
    + apply (extends_alloc h cm), Kt.
    + apply (extends_alloc h cm), Kk.
  - intros h2 Ef2 Garr Gel Gmd Gts Gks.
    assert (E2 : get_array h2 (o_elements f) = Some items).
    { rewrite Garr. eapply get_array_agree; [exact Hag | apply Nat.le_refl | exact Ea]. }
    assert (E3 : read_elements h2 items
                 = Some (elements (FragmentManager.currentFragment s))).
    { unfold read_elements. rewrite (mapM_pointwise _ _ _ Gel).
      eapply read_elements_agree; [exact Hag | apply Nat.le_refl | exact Ee]. }
    assert (E4 : get_metadata h2 (length h) = get_metadata [cm] 0%nat).
    { rewrite Gmd. unfold get_metadata.
      rewrite lookup_app_r by lia. rewrite Nat.sub_diag. reflexivity. }
    assert (E5 : get_timeSignature h2 (o_timeSignature f)
                 = Some (timeSignature (FragmentManager.currentFragment s))).
    { rewrite Gts.
      eapply get_timeSignature_agree; [exact Hag | apply Nat.le_refl | exact Ets]. }
    assert (E6 : get_keySignature h2 (o_keySignature f)
                 = Some (keySignature (FragmentManager.currentFragment s))).
    { rewrite Gks.
      eapply get_keySignature_agree; [exact Hag | apply Nat.le_refl | exact Eks]. }
    rewrite (view_fragment_of_parts h2 _ _ _ _ _ _ _ Ef2 E2 E3 E4 E5 E6).
    simpl. unfold FragmentManager.set_metadata. rewrite Eid, Etm, Etp. reflexivity.
Qed.

Lemma Forall2_slice0 {A B} (P : A -> B -> Prop) (l : list A) (k : list B) (e : Z) :
  Forall2 P l k ->
  Forall2 P (FragmentManager.slice0 l e) (FragmentManager.slice0 k e).
Proof.
  intros Hlk. unfold FragmentManager.slice0.
  rewrite (Forall2_length _ _ _ Hlk).
  destruct (_ <? _); apply Forall2_take, Hlk.
Qed.

Lemma Forall2_tail {A B} (P : A -> B -> Prop) (l : list A) (k : list B) :
  Forall2 P l k -> Forall2 P (tail l) (tail k).
Proof. destruct 1; simpl; [constructor | assumption]. Qed.

Lemma Forall2_len {A B} (P : A -> B -> Prop) (l : list A) (k : list B) :
  Forall2 P l k -> FragmentManager.len l = FragmentManager.len k.
Proof. intros Hlk. unfold FragmentManager.len. rewrite (Forall2_length _ _ _ Hlk). reflexivity. Qed.

(** Taking a snapshot. *)
Lemma simulates_saveToHistory (now : Z) (a : FragmentManager.Action)
    (h h' : heap) (m m' : Manager) (s : FragmentManager.State) :
  simulates h m s -> saveToHistory now a m h = Some (m', h') ->
  simulates h' m' (FragmentManager.saveToHistory now a s).
Proof.
  intros Hsim Hsave.
  destruct (simulates_index h m s Hsim) as (Ei & Em & Hv & Hc & Hh).
  destruct (simulates_kept h m s Hsim) as (Kh & Kc).
  pose proof Hsim as (Hok & (_ & Rh & _ & _ & Rc) & _).
  destruct (saveToHistory_state_ok now a m h Hok) as (m1 & h1 & Hs1 & Hok1 & _).
  rewrite Hs1 in Hsave. injection Hsave as <- <-.
  destruct (copy_fragment_ok (currentFragment m) h Hh Hc)
    as (r & h2 & f & f' & Hcopy & _ & _ & Hr & Hag & Ef & Ef' & Hr_fresh & Ha_fresh
        & _ & _ & _ & _ & Hview).
  unfold saveToHistory in Hs1. rewrite Hcopy in Hs1. simpl in Hs1.
  unfold FragmentManager.saveToHistory.
  rewrite <- Ei, <- Em, <- (Forall2_len _ _ _ Rh).
  set (cond := historyIndex m <? FragmentManager.len (history m) - 1) in *.
  set (hist1 := if cond then FragmentManager.slice0 (history m) (historyIndex m + 1)
                else history m) in *.
  set (vhist1 := if cond
                 then FragmentManager.slice0 (FragmentManager.history s) (historyIndex m + 1)
                 else FragmentManager.history s).
  set (entry := {| e_fragment := r; e_timestamp := now; e_action := a |}) in *.
  set (ventry := {| FragmentManager.fragment := FragmentManager.currentFragment s;
                    FragmentManager.entry_timestamp := now;
                    FragmentManager.action := a |}).
  assert (F1 : forall x v, view_fragment h x = Some v -> view_fragment h2 x = Some v).
  { intros x v. apply (view_fragment_agree (length h)); [exact Hag | apply Nat.le_refl]. }
  assert (F2 : forall x, kept_apart h (currentFragment m) x ->
                         apart h2 (currentFragment m) x).
  { intros x (Hx & Hap). eapply apart_same_fragments; [| |exact Hap].
    - apply (get_fragment_below (length h)); [exact Hag | eapply holds_lt, Hc].
    - apply (get_fragment_below (length h)); [exact Hag | eapply holds_lt, Hx]. }
  assert (R1 : Forall2 (entry_rep h2) hist1 vhist1).
  { apply (entries_frame h h2 (currentFragment m)).
    - unfold hist1, vhist1. destruct cond; [apply Forall2_slice0|]; exact Rh.
    - unfold hist1. destruct cond; [apply Forall_slice0|]; exact Kh.
    - intros x v _. apply F1. }
  assert (R2 : Forall2 (entry_rep h2) (hist1 ++ [entry]) (vhist1 ++ [ventry])).
  { apply Forall2_app; [exact R1|]. repeat constructor. simpl.
    rewrite Hview. exact Hv. }
  assert (S1 : Forall (fun e => apart h2 (currentFragment m) (e_fragment e))
                 (hist1 ++ [entry])).
  { apply Forall_app. split.
    - apply Forall_impl with (P := fun e => kept_apart h (currentFragment m) (e_fragment e)).
      + unfold hist1. destruct cond; [apply Forall_slice0|]; exact Kh.
      + intros e. apply F2.
    - repeat constructor; simpl.
      + apply holds_lt in Hc. lia.
      + intros f1 g.
        rewrite (get_fragment_below (length h) h h2 _ Hag) by (eapply holds_lt, Hc).
        rewrite Ef, Ef'. intros [= <-] [= <-].
        destruct (fragment_cell_ok h _ f Hh Ef) as (Ka & _).
        apply holds_lt in Ka. lia. }
  assert (Hlen : FragmentManager.len (hist1 ++ [entry])
                 = FragmentManager.len (vhist1 ++ [ventry])) by (eapply Forall2_len, R2).
  rewrite <- Hlen.
  destruct (maxHistorySize m <? FragmentManager.len (hist1 ++ [entry]));
    injection Hs1 as <- <-.
  - split; [exact Hok1|]. split.
    + repeat split; simpl; try assumption.
      * apply F1, Hv.
      * apply Forall2_tail, R2.
      * apply (committed_frame h h2 (currentFragment m)); try assumption.
        intros x v _. apply F1.
    + split; simpl.
      * apply Forall_tail, S1.
      * eapply Forall_impl; [exact Kc|]. apply F2.
  - split; [exact Hok1|]. split.
    + repeat split; simpl; try assumption.
      * apply F1, Hv.
      * apply (committed_frame h h2 (currentFragment m)); try assumption.
        intros x v _. apply F1.
    + split; simpl.
      * exact S1.
      * eapply Forall_impl; [exact Kc|]. apply F2.
Qed.

(** Replacing the working fragment by one made of new objects. *)
Lemma simulates_fresh_current (h h1 : heap) (m m' : Manager)
    (s s' : FragmentManager.State) :
  simulates h m s -> agree_below (length h) h h1 -> state_ok h1 m' ->
  history m' = history m -> committedFragments m' = committedFragments m ->
  FragmentManager.history s' = FragmentManager.history s ->
  FragmentManager.committedFragments s' = FragmentManager.committedFragments s ->
  historyIndex m' = FragmentManager.historyIndex s' ->
  maxHistorySize m' = FragmentManager.maxHistorySize s' ->
  (length h <= currentFragment m')%nat ->
  (forall f, get_fragment h1 (currentFragment m') = Some f ->
             (length h <= o_elements f)%nat) ->
  view_fragment h1 (currentFragment m') = Some (FragmentManager.currentFragment s') ->
  simulates h1 m' s'.
Proof.
  intros Hsim Hag Hok Eh Ec Eh' Ec' Ei Em Hr Ha Hv.
  destruct (simulates_index h m s Hsim) as (_ & _ & _ & _ & Hh).
  apply (simulates_frame h h1 m m' s s'); try assumption.
  - intros x v _. apply (view_fragment_agree (length h)); [exact Hag | apply Nat.le_refl].
  - intros x (Hx & _). apply (apart_fresh (length h)); try assumption.
    apply (settled_agree _ h); [exact Hag|]. apply settled_ok; assumption.
Qed.

Lemma createEmptyFragment_view (now : Z) (t k : ref) (tempo : float) (h : heap)
    (tsv : TimeSig) (ksv : KeySig) :
  get_timeSignature h t = Some tsv -> get_keySignature h k = Some ksv ->
  agree_below (length h) h (snd (createEmptyFragment now t k tempo h))
  /\ (length h <= fst (createEmptyFragment now t k tempo h))%nat
  /\ (forall f, get_fragment (snd (createEmptyFragment now t k tempo h))
                            (fst (createEmptyFragment now t k tempo h)) = Some f ->
                (length h <= o_elements f)%nat)
  /\ view_fragment (snd (createEmptyFragment now t k tempo h))
                   (fst (createEmptyFragment now t k tempo h))
     = Some (MusicalHelpers.createEmptyFragment now tsv ksv tempo).
Proof.
  intros Et Ek. unfold createEmptyFragment, alloc. simpl.
  set (h1 := h ++ [cell_array []]).
  set (h2 := h1 ++ [cell_metadata {| measures := 0; totalDuration := "0" |}]).
  match goal with |- agree_below _ _ (h2 ++ [?c]) /\ _ => set (cf := c) end.
  assert (Hlen1 : length h1 = S (length h)) by (unfold h1; rewrite length_app; simpl; lia).
  assert (Hlen2 : length h2 = S (S (length h))) by (unfold h2; rewrite length_app; simpl; lia).
  assert (Hag : agree_below (length h) h (h2 ++ [cf])).
  { intros a Ha. unfold h2, h1. rewrite !lookup_app_l; try reflexivity;
      rewrite ?length_app; simpl; lia. }
  assert (Hr : (h2 ++ [cf]) !! length h2 = Some cf).
  { rewrite lookup_app_r by lia. rewrite Nat.sub_diag. reflexivity. }
  assert (Harr : (h2 ++ [cf]) !! length h = Some (cell_array [])).
  { unfold h2. rewrite !lookup_app_l by (rewrite ?length_app; simpl; lia).
    unfold h1. rewrite lookup_app_r by lia. rewrite Nat.sub_diag. reflexivity. }
  assert (Hmd : (h2 ++ [cf]) !! length h1
                = Some (cell_metadata {| measures := 0; totalDuration := "0" |})).
  { rewrite lookup_app_l by lia.
    unfold h2. rewrite lookup_app_r by lia. rewrite Nat.sub_diag. reflexivity. }
  split; [exact Hag|]. split; [lia|]. split.
  - intros f. unfold get_fragment. rewrite Hr. intros [= <-]. simpl. lia.
  - unfold view_fragment, get_fragment. rewrite Hr. simpl.
    unfold get_array. rewrite Harr. simpl.
    unfold get_metadata. rewrite Hmd. simpl.
    rewrite (get_timeSignature_agree _ h _ _ _ Hag (Nat.le_refl _) Et). simpl.
    rewrite (get_keySignature_agree _ h _ _ _ Hag (Nat.le_refl _) Ek). simpl.
    reflexivity.
Qed.

Lemma get_timeSignature_holds (h : heap) (a : ref) (ts : TimeSig) :
  get_timeSignature h a = Some ts -> holds h a k_timeSignature.
Proof.
  unfold holds, get_timeSignature. destruct (h !! a) as [[]|]; simpl; intros [=]. reflexivity.
Qed.

Lemma get_keySignature_holds (h : heap) (a : ref) (ks : KeySig) :
  get_keySignature h a = Some ks -> holds h a k_keySignature.
Proof.
  unfold holds, get_keySignature. destruct (h !! a) as [[]|]; simpl; intros [=]. reflexivity.
Qed.

(** Assigning to the header fields of the working fragment. *)
Lemma simulates_write_header (h : heap) (m : Manager) (s : FragmentManager.State)
    (f : FragmentObject) (t k : ref) (bpm : float) (tsv : TimeSig) (ksv : KeySig) :
  simulates h m s ->
  get_fragment h (currentFragment m) = Some f ->
  get_timeSignature h t = Some tsv -> get_keySignature h k = Some ksv ->
  simulates (write (currentFragment m) (cell_fragment (with_header t k bpm f)) h) m
    (FragmentManager.with_fragment
       {| id := id (FragmentManager.currentFragment s);
          timestamp := timestamp (FragmentManager.currentFragment s);
          timeSignature := tsv; keySignature := ksv; tempo := bpm;
          elements := elements (FragmentManager.currentFragment s);
          metadata := metadata (FragmentManager.currentFragment s) |} s).
Proof.
  intros Hsim Ef Et Ek.
  destruct (simulates_index h m s Hsim) as (_ & _ & Hv & Hc & Hh).
  destruct (view_fragment_parts h _ _ Hv)
    as (f0 & items & Ef0 & Ea & Ee & Emd & _ & _ & Eid & Etm & _).
  assert (f0 = f) by congruence. subst f0.
  destruct (fragment_cell_ok h _ f Hh Ef) as (Ka & Km & _ & _).
  apply (simulates_write_fragment h m s f); try assumption.
  - reflexivity.
  - simpl. repeat split; try assumption.
    + eapply get_timeSignature_holds, Et.
    + eapply get_keySignature_holds, Ek.
  - intros h2 Ef2 Garr Gel Gmd Gts Gks.
    assert (E2 : get_array h2 (o_elements f) = Some items) by (rewrite Garr; exact Ea).
    assert (E3 : read_elements h2 items
                 = Some (elements (FragmentManager.currentFragment s))).
    { unfold read_elements. rewrite (mapM_pointwise _ _ _ Gel). exact Ee. }
    assert (E4 : get_metadata h2 (o_metadata f)
                 = Some (metadata (FragmentManager.currentFragment s)))
      by (rewrite Gmd; exact Emd).
    assert (E5 : get_timeSignature h2 t = Some tsv) by (rewrite Gts; exact Et).
    assert (E6 : get_keySignature h2 k = Some ksv) by (rewrite Gks; exact Ek).
    rewrite (view_fragment_of_parts h2 _ _ _ _ _ _ _ Ef2 E2 E3 E4 E5 E6).
    simpl. rewrite Eid, Etm. reflexivity.
Qed.

Lemma read_elements_Forall2 (h : heap) (items : list ref) (es : list MusicalElement) :
  read_elements h items = Some es <-> Forall2 (fun a e => get_element h a = Some e) items es.
Proof. unfold read_elements. apply mapM_Some. Qed.

Lemma Forall2_last {A B} (P : A -> B -> Prop) (l : list A) (k : list B) :
  Forall2 P l k ->
  match last l, last k with
  | Some x, Some y => P x y /\ Forall2 P (removelast l) (removelast k)
  | None, None => True
  | _, _ => False
  end.
Proof.
  intros Hlk. destruct l as [|x0 l0] using rev_ind.
  - inversion Hlk; subst. exact I.
  - apply Forall2_app_inv_l in Hlk as (k1 & k2 & H1 & H2 & ->).
    inversion H2 as [|? y ? ? Hxy Hnil]; subst. inversion Hnil; subst.
    rewrite !last_snoc, !removelast_last. split; assumption.
Qed.

(** [undo] and [redo]: the working fragment becomes a copy of a snapshot. *)
Lemma simulates_moved_cursor (h h1 : heap) (m : Manager) (s : FragmentManager.State)
    (i : Z) (entry : Entry) (r : ref) :
  simulates h m s ->
  FragmentManager.index (history m) i = Some entry ->
  copy_fragment (e_fragment entry) h = Some (r, h1) ->
  exists ventry,
    FragmentManager.index (FragmentManager.history s) i = Some ventry
    /\ simulates h1 (with_current r (with_history (history m) i m))
         (FragmentManager.with_fragment (FragmentManager.fragment ventry)
            (FragmentManager.with_history (FragmentManager.history s) i s)).
Proof.
  intros Hsim Hentry Hcopy.
  pose proof Hsim as (Hok & (_ & Hhist & _) & _).
  pose proof Hok as (Hh & _ & Hholds & _).
  assert (Hv : exists ventry,
             FragmentManager.index (FragmentManager.history s) i = Some ventry
             /\ entry_rep h entry ventry).
  { unfold FragmentManager.index in *. destruct (i <? 0); [discriminate|].
    destruct (Forall2_lookup_l _ _ _ _ _ Hhist Hentry) as (ventry & E & Hrep).
    exists ventry. split; assumption. }
  destruct Hv as (ventry & Eventry & Hview & _).
  exists ventry. split; [exact Eventry|].
  destruct (moved_cursor_state_ok m h i entry Hok Hentry) as (r' & h' & Hcopy' & Hok' & _).
  rewrite Hcopy in Hcopy'. injection Hcopy' as <- <-.
  pose proof (index_Forall _ _ _ _ Hholds Hentry) as He.
  destruct (copy_fragment_ok (e_fragment entry) h Hh He)
    as (r2 & h2 & f & f' & Hcopy2 & _ & _ & _ & Hag & _ & Ef' & Hr & Ha & _ & _ & _ & _ & Hvw).
  rewrite Hcopy in Hcopy2. injection Hcopy2 as <- <-.
  apply (simulates_fresh_current h h1 m _ s _); try assumption; try reflexivity.
  - simpl. apply (simulates_index h m s Hsim).
  - simpl. intros g Eg. rewrite Ef' in Eg. injection Eg as <-. exact Ha.
  - simpl. rewrite Hvw. exact Hview.
Qed.

Lemma undo_simulates (h h' : heap) (m m' : Manager) (s : FragmentManager.State)
    (b : bool) :
  simulates h m s -> undo m h = Some (b, m', h') ->
  exists s', FragmentManager.undo s = Some (b, s') /\ simulates h' m' s'.
Proof.
  intros Hsim. destruct (simulates_index h m s Hsim) as (Ei & _).
  pose proof Hsim as (_ & (_ & Hhist & _) & _).
  unfold undo, FragmentManager.undo. rewrite Ei.
  destruct (_ <=? 0).
  { intros [= <- <- <-]. exists s. split; [reflexivity | exact Hsim]. }
  destruct (FragmentManager.index (history m) _) as [entry|] eqn:Hentry; [|discriminate].
  simpl. destruct (copy_fragment _ h) as [[r h1]|] eqn:Hcopy; [|discriminate].
  simpl. intros [= <- <- <-].
  rewrite <- Ei in Hentry.
  destruct (simulates_moved_cursor h h1 m s _ entry r Hsim Hentry Hcopy)
    as (ventry & Ev & Hsim').
  rewrite Ei in Ev. rewrite Ev. eexists. split; [reflexivity|].
  rewrite <- Ei. exact Hsim'.
Qed.

Lemma redo_simulates (h h' : heap) (m m' : Manager) (s : FragmentManager.State)
    (b : bool) :
  simulates h m s -> redo m h = Some (b, m', h') ->
  exists s', FragmentManager.redo s = Some (b, s') /\ simulates h' m' s'.
Proof.
  intros Hsim. destruct (simulates_index h m s Hsim) as (Ei & _).
  pose proof Hsim as (_ & (_ & Hhist & _) & _).
  unfold redo, FragmentManager.redo.
  rewrite Ei, (Forall2_len _ _ _ Hhist).
  destruct (_ <=? _).
  { intros [= <- <- <-]. exists s. split; [reflexivity | exact Hsim]. }
  destruct (FragmentManager.index (history m) _) as [entry|] eqn:Hentry; [|discriminate].
  simpl. destruct (copy_fragment _ h) as [[r h1]|] eqn:Hcopy; [|discriminate].
  simpl. intros [= <- <- <-].
  rewrite <- Ei in Hentry.
  destruct (simulates_moved_cursor h h1 m s _ entry r Hsim Hentry Hcopy)
    as (ventry & Ev & Hsim').
  rewrite Ei in Ev. rewrite Ev. eexists. split; [reflexivity|].
  rewrite <- Ei. exact Hsim'.
Qed.

(** A manager that starts over on a new empty fragment, as the constructor
    and [commit] leave it before the first snapshot is taken. *)
Lemma fresh_manager_simulates (now : Z) (t k : ref) (tempo : float) (h : heap)
    (tsv : TimeSig) (ksv : KeySig) (max : Z) (cm : list ref) (cs : list MusicalFragment) :
  heap_ok h ->
  get_timeSignature h t = Some tsv -> get_keySignature h k = Some ksv ->
  Forall (fun r => holds h r k_fragment) cm ->
  Forall2 (fun r f => view_fragment h r = Some f) cm cs ->
  simulates (snd (createEmptyFragment now t k tempo h))
    {| currentFragment := fst (createEmptyFragment now t k tempo h);
       history := []; historyIndex := -1; maxHistorySize := max;
       committedFragments := cm |}
    {| FragmentManager.currentFragment :=
         MusicalHelpers.createEmptyFragment now tsv ksv tempo;
       FragmentManager.history := []; FragmentManager.historyIndex := -1;
       FragmentManager.maxHistorySize := max;
       FragmentManager.committedFragments := cs |}.
Proof.
  intros Hh Et Ek Hcm Hcs.
  destruct (createEmptyFragment_ok now t k tempo h Hh
              (get_timeSignature_holds _ _ _ Et) (get_keySignature_holds _ _ _ Ek))
    as (Hh1 & Hext & Hr).
  destruct (createEmptyFragment_view now t k tempo h tsv ksv Et Ek)
    as (Hag & Hle & Harr & Hview).
  set (h1 := snd (createEmptyFragment now t k tempo h)) in *.
  set (r := fst (createEmptyFragment now t k tempo h)) in *.
  split; [|split].
  - split; [exact Hh1|]. repeat split; simpl.
    + exact Hr.
    + constructor.
    + eapply Forall_impl; [exact Hcm|]. intros x. apply Hext.
  - repeat split; simpl; try assumption; try reflexivity.
    + constructor.
    + eapply Forall2_impl; [exact Hcs|]. intros x v.
      apply (view_fragment_agree (length h)); [exact Hag | apply Nat.le_refl].
  - split; simpl; [constructor|].
    eapply Forall_impl; [exact Hcm|]. intros x Hx.
    apply (apart_fresh (length h)); try assumption.
    apply (settled_agree _ h); [exact Hag|]. apply settled_ok; assumption.
Qed.

Lemma clear_unfold (now : Z) (m : Manager) (h : heap) (f : FragmentObject) :
  get_fragment h (currentFragment m) = Some f ->
  clear now m h
  = saveToHistory now FragmentManager.act_clear
      (with_current
         (fst (createEmptyFragment now (o_timeSignature f) (o_keySignature f) (o_tempo f) h)) m)
      (snd (createEmptyFragment now (o_timeSignature f) (o_keySignature f) (o_tempo f) h)).
Proof. intros Ef. unfold clear. rewrite Ef. reflexivity. Qed.

Lemma constructor_unfold (now max : Z) (ts : TimeSig) (ks : KeySig) (tempo : float) :
  constructor now max ts ks tempo
  = saveToHistory now FragmentManager.act_clear
      {| currentFragment :=
           fst (createEmptyFragment now 0%nat 1%nat tempo
                  [cell_timeSignature ts; cell_keySignature ks]);
         history := []; historyIndex := -1; maxHistorySize := max;
         committedFragments := [] |}
      (snd (createEmptyFragment now 0%nat 1%nat tempo
              [cell_timeSignature ts; cell_keySignature ks])).
Proof. reflexivity. Qed.

Lemma commit_unfold (now : Z) (m : Manager) (h h1 : heap) (c : ref)
    (f f' : FragmentObject) :
  copy_fragment (currentFragment m) h = Some (c, h1) ->
  get_fragment h1 c = Some f' ->
  get_fragment
    (write c (cell_fragment (with_timestamp (Date_toISOString now) f')) h1)
    (currentFragment m) = Some f ->
  commit now m h
  = '(m', h4) ← saveToHistory now FragmentManager.act_clear
        {| currentFragment :=
             fst (createEmptyFragment now (o_timeSignature f) (o_keySignature f) (o_tempo f)
                    (write c (cell_fragment (with_timestamp (Date_toISOString now) f')) h1));
           history := []; historyIndex := -1; maxHistorySize := maxHistorySize m;
           committedFragments := committedFragments m ++ [c] |}
        (snd (createEmptyFragment now (o_timeSignature f) (o_keySignature f) (o_tempo f)
                (write c (cell_fragment (with_timestamp (Date_toISOString now) f')) h1)));
    Some (c, m', h4).
Proof.
  intros Hcopy Ef' Ef. unfold commit, getCurrentFragment.
  rewrite Hcopy. simpl. rewrite Ef'. simpl. rewrite Ef. reflexivity.
Qed.

Lemma clear_simulates (now : Z) (h h' : heap) (m m' : Manager)
    (s : FragmentManager.State) :
  simulates h m s -> clear now m h = Some (m', h') ->
  simulates h' m' (FragmentManager.clear now s).
Proof.
  intros Hsim.
  destruct (simulates_index h m s Hsim) as (Ei & Emax & Hv & Hc & Hh).
  pose proof Hsim as ((_ & Hm) & _).
  destruct (view_fragment_parts h _ _ Hv)
    as (f & items & Ef & _ & _ & _ & Et & Ek & _ & _ & Etempo).
  rewrite (clear_unfold now m h f Ef). unfold FragmentManager.clear.
  intros Hsave.
  eapply simulates_saveToHistory; [|exact Hsave].
  destruct (createEmptyFragment_ok now (o_timeSignature f) (o_keySignature f) (o_tempo f) h Hh
              (get_timeSignature_holds _ _ _ Et) (get_keySignature_holds _ _ _ Ek))
    as (Hh1 & Hext & Hr).
  destruct (createEmptyFragment_view now (o_timeSignature f) (o_keySignature f) (o_tempo f) h
              _ _ Et Ek) as (Hag & Hle & Harr & Hview).
  apply (simulates_fresh_current h _ m _ s _); try assumption; try reflexivity.
  - split; [exact Hh1|].
    destruct Hm as (_ & Hhist & Hk). repeat split; simpl.
    + exact Hr.
    + eapply Forall_impl; [exact Hhist|]. intros e. apply Hext.
    + eapply Forall_impl; [exact Hk|]. intros x. apply Hext.
  - rewrite <- Etempo. exact Hview.
Qed.

Lemma constructor_simulates (now max : Z) (ts : TimeSig) (ks : KeySig) (tempo : float)
    (m : Manager) (h : heap) :
  constructor now max ts ks tempo = Some (m, h) ->
  simulates h m (FragmentManager.constructor now max ts ks tempo).
Proof.
  rewrite constructor_unfold. unfold FragmentManager.constructor.
  set (h2 := [cell_timeSignature ts; cell_keySignature ks]).
  intros Hsave. eapply simulates_saveToHistory; [|exact Hsave].
  assert (Hh2 : heap_ok h2).
  { intros a c Ha. destruct a as [|[|a]]; simpl in Ha; try discriminate;
      injection Ha as <-; exact I. }
  pose proof (fresh_manager_simulates now 0%nat 1%nat tempo h2 ts ks max [] []
                Hh2 eq_refl eq_refl (Forall_nil_2 _) (Forall2_nil_2 _ _ _)) as Hsim.
  exact Hsim.
Qed.

Lemma commit_simulates (now : Z) (h h' : heap) (m m' : Manager)
    (s : FragmentManager.State) (r : ref) :
  simulates h m s -> commit now m h = Some (r, m', h') ->
  view_fragment h' r = Some (fst (FragmentManager.commit now s))
  /\ simulates h' m' (snd (FragmentManager.commit now s)).
Proof.
  intros Hsim.
  destruct (simulates_index h m s Hsim) as (Ei & Emax & Hv & Hc & Hh).
  pose proof Hsim as ((_ & (_ & _ & Hk)) & (_ & _ & _ & _ & Hcs) & _).
  destruct (copy_fragment_ok (currentFragment m) h Hh Hc)
    as (c & h1 & f & f' & Hcopy & Hh1 & E1 & Hcf & Hag1 & Ef & Ef' & Hle & Ha & Hmd
        & Ets & Eks & Earr & Hvw).
  set (t := Date_toISOString now).
  set (h2 := write c (cell_fragment (with_timestamp t f')) h1).
  assert (Hcur : (currentFragment m < length h)%nat) by (eapply holds_lt, Hc).
  assert (Hne : currentFragment m <> c) by lia.
  assert (Ef2 : get_fragment h2 (currentFragment m) = Some f).
  { unfold h2. rewrite (get_fragment_write_ne h1 c _ (cell_fragment (with_timestamp t f')) Hcf Hne).
    rewrite (get_fragment_below (length h) h h1 _ Hag1 Hcur). exact Ef. }
  rewrite (commit_unfold now m h h1 c f f' Hcopy Ef' Ef2). fold t h2.
  set (r3 := fst (createEmptyFragment now (o_timeSignature f) (o_keySignature f) (o_tempo f) h2)).
  set (h3 := snd (createEmptyFragment now (o_timeSignature f) (o_keySignature f) (o_tempo f) h2)).
  destruct (saveToHistory _ _ _ h3) as [[m4 h4]|] eqn:Hsave; [|discriminate].
  simpl. intros [= <- <- <-].
  (* the heap before the new empty fragment *)
  assert (E2 : extends h1 h2) by (apply extends_write, Hcf).
  assert (Hcell : cell_ok h1 (cell_fragment (with_timestamp t f'))).
  { apply (fragment_cell_ok h1 c f' Hh1 Ef'). }
  assert (Hh2 : heap_ok h2) by (apply heap_ok_write; assumption).
  assert (Hag2 : agree_below (length h) h h2).
  { eapply agree_below_trans; [exact Hag1|]. apply agree_below_write. exact Hle. }
  assert (Hv1 : view_fragment h1 c = Some (FragmentManager.currentFragment s))
    by (rewrite Hvw; exact Hv).
  destruct (view_fragment_parts h1 _ _ Hv1)
    as (g & items & Eg & Ga & Ge & Gmd & Gt & Gk & Gid & Gtm & Gtempo).
  assert (g = f') by congruence. subst g.
  assert (Hv2 : view_fragment h2 c
                = Some (FragmentManager.set_timestamp t (FragmentManager.currentFragment s))).
  { assert (F2 : get_fragment h2 c = Some (with_timestamp t f'))
      by (apply get_fragment_write_eq, Hcf).
    assert (A2 : get_array h2 (o_elements (with_timestamp t f')) = Some items).
    { unfold h2. rewrite (get_array_write h1 c _ (cell_fragment (with_timestamp t f')) Hcf) by discriminate. exact Ga. }
    assert (R2 : read_elements h2 items
                 = Some (elements (FragmentManager.currentFragment s))).
    { unfold read_elements, h2.
      rewrite (mapM_pointwise _ (get_element h1)); [exact Ge|].
      intros x. apply (get_element_write h1 c x (cell_fragment (with_timestamp t f')) Hcf). discriminate. }
    assert (M2 : get_metadata h2 (o_metadata (with_timestamp t f'))
                 = Some (metadata (FragmentManager.currentFragment s))).
    { unfold h2. rewrite (get_metadata_write h1 c _ (cell_fragment (with_timestamp t f')) Hcf) by discriminate. exact Gmd. }
    assert (T2 : get_timeSignature h2 (o_timeSignature (with_timestamp t f'))
                 = Some (timeSignature (FragmentManager.currentFragment s))).
    { unfold h2. rewrite (get_timeSignature_write h1 c _ (cell_fragment (with_timestamp t f')) Hcf) by discriminate. exact Gt. }
    assert (K2 : get_keySignature h2 (o_keySignature (with_timestamp t f'))
                 = Some (keySignature (FragmentManager.currentFragment s))).
    { unfold h2. rewrite (get_keySignature_write h1 c _ (cell_fragment (with_timestamp t f')) Hcf) by discriminate. exact Gk. }
    rewrite (view_fragment_of_parts h2 _ _ _ _ _ _ _ F2 A2 R2 M2 T2 K2).
    simpl. unfold FragmentManager.set_timestamp. rewrite Gid, Gtempo. reflexivity. }
  assert (Hts : get_timeSignature h2 (o_timeSignature f)
                = Some (timeSignature (FragmentManager.currentFragment s))).
  { rewrite <- Ets. unfold h2.
    rewrite (get_timeSignature_write h1 c _ (cell_fragment (with_timestamp t f')) Hcf) by discriminate. exact Gt. }
  assert (Hks : get_keySignature h2 (o_keySignature f)
                = Some (keySignature (FragmentManager.currentFragment s))).
  { rewrite <- Eks. unfold h2.
    rewrite (get_keySignature_write h1 c _ (cell_fragment (with_timestamp t f')) Hcf) by discriminate. exact Gk. }
  assert (Htempo : o_tempo f = tempo (FragmentManager.currentFragment s)).
  { destruct (view_fragment_parts h _ _ Hv) as (g & ? & Eg' & _ & _ & _ & _ & _ & _ & _ & E).
    assert (g = f) by congruence. subst g. exact E. }
  pose proof (fresh_manager_simulates now (o_timeSignature f) (o_keySignature f) (o_tempo f)
                h2 _ _ (maxHistorySize m)
                (committedFragments m ++ [c])
                (FragmentManager.committedFragments s
                   ++ [FragmentManager.set_timestamp t (FragmentManager.currentFragment s)])
                Hh2 Hts Hks) as Hfresh.
  fold r3 h3 in Hfresh.
  assert (Hsim3 : simulates h3
            {| currentFragment := r3; history := []; historyIndex := -1;
               maxHistorySize := maxHistorySize m;
               committedFragments := committedFragments m ++ [c] |}
            {| FragmentManager.currentFragment :=
                 MusicalHelpers.createEmptyFragment now
                   (timeSignature (FragmentManager.currentFragment s))
                   (keySignature (FragmentManager.currentFragment s)) (o_tempo f);
               FragmentManager.history := []; FragmentManager.historyIndex := -1;
               FragmentManager.maxHistorySize := maxHistorySize m;
               FragmentManager.committedFragments :=
                 FragmentManager.committedFragments s
                 ++ [FragmentManager.set_timestamp t (FragmentManager.currentFragment s)] |}).
  { apply Hfresh.
    - apply Forall_app. split.
      + eapply Forall_impl; [exact Hk|]. intros x Hx. apply E2, E1, Hx.
      + repeat constructor. apply E2, Hcf.
    - apply Forall2_app.
      + eapply Forall2_impl; [exact Hcs|]. intros x v.
        apply (view_fragment_agree (length h)); [exact Hag2 | apply Nat.le_refl].
      + repeat constructor. exact Hv2. }
  pose proof (simulates_saveToHistory now _ h3 h4 _ m4 _ Hsim3 Hsave) as Hsim4.
  unfold FragmentManager.commit, FragmentManager.getCurrentFragment. simpl.
  fold t. rewrite <- Emax, <- Htempo. split; [|exact Hsim4].
  (* the committed fragment object is not touched afterwards *)
  destruct (createEmptyFragment_view now (o_timeSignature f) (o_keySignature f) (o_tempo f) h2
              _ _ Hts Hks) as (Hag3 & _).
  fold h3 in Hag3.
  assert (Hv3 : view_fragment h3 c
                = Some (FragmentManager.set_timestamp t (FragmentManager.currentFragment s))).
  { apply (view_fragment_agree (length h2) h2); [exact Hag3 | apply Nat.le_refl | exact Hv2]. }
  destruct Hsim3 as (Hok3 & _).
  destruct (saveToHistory_state_ok now FragmentManager.act_clear _ h3 Hok3)
    as (m5 & h5 & Hsave5 & _).
  unfold saveToHistory in Hsave. simpl in Hsave.
  destruct (copy_fragment r3 h3) as [[r6 h6]|] eqn:Hcopy6; [|discriminate].
  destruct Hok3 as (Hh3 & Hr3 & _). simpl in Hr3.
  destruct (copy_fragment_ok r3 h3 Hh3 Hr3)
    as (r7 & h7 & ? & ? & Hcopy7 & _ & _ & _ & Hag7 & _).
  rewrite Hcopy6 in Hcopy7. injection Hcopy7 as <- <-.
  simpl in Hsave.
  assert (h4 = h6) by (destruct (_ <? _) in Hsave; congruence).
  subst h4.
  apply (view_fragment_agree (length h3) h3); [exact Hag7 | apply Nat.le_refl | exact Hv3].
Qed.

(** The three methods that assign a new array to [elements], then call
    [updateMetadata] and [saveToHistory]. *)
Lemma simulates_new_elements (now : Z) (a : FragmentManager.Action) (h h2 h' : heap)
    (m m' : Manager) (s : FragmentManager.State) (f : FragmentObject)
    (items' : list ref) (es' : list MusicalElement) :
  simulates h m s ->
  get_fragment h (currentFragment m) = Some f ->
  Forall2 (fun x e => get_element h x = Some e) items' es' ->
  updateMetadata m (write (o_elements f) (cell_array items') h) = Some h2 ->
  saveToHistory now a m h2 = Some (m', h') ->
  simulates h' m'
    (FragmentManager.saveToHistory now a
       (FragmentManager.updateMetadata
          (FragmentManager.with_fragment
             (FragmentManager.set_elements es' (FragmentManager.currentFragment s)) s))).
Proof.
  intros Hsim Ef Hall Hu Hsave.
  eapply simulates_saveToHistory; [|exact Hsave].
  eapply simulates_updateMetadata; [|exact Hu].
  apply simulates_write_elements; try assumption.
  - clear -Hall. induction Hall as [|x e l k He _ IH]; constructor; [|exact IH].
    unfold holds, get_element in *.
    destruct (h !! x) as [[]|]; try discriminate. reflexivity.
  - apply read_elements_Forall2, Hall.
Qed.

Lemma addElement_simulates (now : Z) (element : ref) (e : MusicalElement)
    (h h' : heap) (m m' : Manager) (s : FragmentManager.State)
    (r : FragmentManager.AddResult) :
  simulates h m s -> get_element h element = Some e ->
  addElement now element m h = Some (r, m', h') ->
  r = fst (FragmentManager.addElement now e s)
  /\ simulates h' m' (snd (FragmentManager.addElement now e s)).
Proof.
  intros Hsim Ee.
  destruct (simulates_index h m s Hsim) as (_ & _ & Hv & _ & _).
  destruct (view_fragment_parts h _ _ Hv) as (f & items & Ef & Ea & Er & _).
  unfold addElement, FragmentManager.addElement.
  rewrite Ee. simpl. rewrite Ef. simpl. rewrite Ea. simpl. rewrite Er. simpl.
  destruct (_ <? _)%nat.
  { intros [= <- <- <-]. split; [reflexivity | exact Hsim]. }
  destruct (canAddElementToFragment e _).
  2: { intros [= <- <- <-]. split; [reflexivity | exact Hsim]. }
  destruct (updateMetadata m _) as [h2|] eqn:Hu; [|discriminate]. simpl.
  destruct (saveToHistory now _ m h2) as [[m2 h3]|] eqn:Hsave; [|discriminate]. simpl.
  intros [= <- <- <-]. split; [reflexivity|].
  apply (simulates_new_elements now _ h h2 h3 m m2 s f (items ++ [element]));
    try assumption.
  apply Forall2_app; [apply read_elements_Forall2, Er | repeat constructor; exact Ee].
Qed.

Lemma deleteLastElement_simulates (now : Z) (h h' : heap) (m m' : Manager)
    (s : FragmentManager.State) (r : option ref) :
  simulates h m s -> deleteLastElement now m h = Some (r, m', h') ->
  (r ≫= get_element h) = fst (FragmentManager.deleteLastElement now s)
  /\ simulates h' m' (snd (FragmentManager.deleteLastElement now s)).
Proof.
  intros Hsim.
  destruct (simulates_index h m s Hsim) as (_ & _ & Hv & _ & _).
  destruct (view_fragment_parts h _ _ Hv) as (f & items & Ef & Ea & Er & _).
  apply read_elements_Forall2 in Er. pose proof (Forall2_last _ _ _ Er) as Hlast.
  unfold deleteLastElement, FragmentManager.deleteLastElement.
  rewrite Ef. simpl. rewrite Ea. simpl.
  destruct (last items) as [deleted|];
    destruct (last (elements _)) as [e|]; try contradiction.
  2: { intros [= <- <- <-]. split; [reflexivity | exact Hsim]. }
  destruct Hlast as (Hd & Hrest).
  destruct (updateMetadata m _) as [h2|] eqn:Hu; [|discriminate]. simpl.
  destruct (saveToHistory now _ m h2) as [[m2 h3]|] eqn:Hsave; [|discriminate]. simpl.
  intros [= <- <- <-]. split; [exact Hd|].
  apply (simulates_new_elements now _ h h2 h3 m m2 s f (removelast items));
    assumption.
Qed.

Lemma deleteElementAt_simulates (now i : Z) (h h' : heap) (m m' : Manager)
    (s : FragmentManager.State) (r : option ref) :
  simulates h m s -> deleteElementAt now i m h = Some (r, m', h') ->
  (r ≫= get_element h) = fst (FragmentManager.deleteElementAt now i s)
  /\ simulates h' m' (snd (FragmentManager.deleteElementAt now i s)).
Proof.
  intros Hsim.
  destruct (simulates_index h m s Hsim) as (_ & _ & Hv & _ & _).
  destruct (view_fragment_parts h _ _ Hv) as (f & items & Ef & Ea & Er & _).
  apply read_elements_Forall2 in Er.
  unfold deleteElementAt, FragmentManager.deleteElementAt.
  rewrite Ef. simpl. rewrite Ea. simpl.
  rewrite (Forall2_len _ _ _ Er).
  destruct (_ || _).
  { intros [= <- <- <-]. split; [reflexivity | exact Hsim]. }
  destruct (items !! Z.to_nat i) as [deleted|] eqn:Hd.
  2: { assert (En : elements (FragmentManager.currentFragment s) !! Z.to_nat i = None).
       { apply lookup_ge_None. apply lookup_ge_None in Hd.
         rewrite <- (Forall2_length _ _ _ Er). exact Hd. }
       rewrite En. intros [= <- <- <-]. split; [reflexivity | exact Hsim]. }
  destruct (Forall2_lookup_l _ _ _ _ _ Er Hd) as (e & Ee & Hde). rewrite Ee.
  destruct (updateMetadata m _) as [h2|] eqn:Hu; [|discriminate]. simpl.
  destruct (saveToHistory now _ m h2) as [[m2 h3]|] eqn:Hsave; [|discriminate]. simpl.
  intros [= <- <- <-]. split; [exact Hde|].
  apply (simulates_new_elements now _ h h2 h3 m m2 s f
           (take (Z.to_nat i) items ++ drop (S (Z.to_nat i)) items));
    try assumption.
  apply Forall2_app; [apply Forall2_take | apply Forall2_drop]; exact Er.
Qed.

Lemma setTimeSignature_simulates (now : Z) (n d : float) (h h' : heap) (m m' : Manager)
    (s : FragmentManager.State) :
  simulates h m s -> setTimeSignature now n d m h = Some (m', h') ->
  simulates h' m' (FragmentManager.setTimeSignature now n d s).
Proof.
  intros Hsim.
  destruct (simulates_index h m s Hsim) as (_ & _ & Hv & Hc & Hh).
  destruct (view_fragment_parts h _ _ Hv)
    as (f & items & Ef & _ & _ & _ & _ & Ek & _ & _ & Etempo).
  unfold setTimeSignature, FragmentManager.setTimeSignature, alloc.
  rewrite Ef. simpl.
  destruct (updateMetadata m _) as [h3|] eqn:Hu; [|discriminate]. simpl.
  intros Hsave.
  eapply simulates_saveToHistory; [|exact Hsave].
  eapply simulates_updateMetadata; [|exact Hu].
  set (ts := {| numerator := n; denominator := d |}).
  pose proof (simulates_alloc h m s (cell_timeSignature ts) Hsim I) as Hsim1.
  assert (Hag : agree_below (length h) h (h ++ [cell_timeSignature ts]))
    by apply agree_below_alloc.
  assert (Ef1 : get_fragment (h ++ [cell_timeSignature ts]) (currentFragment m) = Some f).
  { eapply get_fragment_agree; [exact Hag | apply Nat.le_refl | exact Ef]. }
  assert (Ek1 : get_keySignature (h ++ [cell_timeSignature ts]) (o_keySignature f)
                = Some (keySignature (FragmentManager.currentFragment s))).
  { eapply get_keySignature_agree; [exact Hag | apply Nat.le_refl | exact Ek]. }
  assert (Et1 : get_timeSignature (h ++ [cell_timeSignature ts]) (length h) = Some ts).
  { unfold get_timeSignature. rewrite lookup_app_r by lia.
    rewrite Nat.sub_diag. reflexivity. }
  pose proof (simulates_write_header _ m s f (length h) (o_keySignature f) (o_tempo f)
                ts _ Hsim1 Ef1 Et1 Ek1) as Hsim2.
  rewrite Etempo in Hsim2 at 2. exact Hsim2.
Qed.

Lemma setKeySignature_simulates (now : Z) (key mode : string) (h h' : heap)
    (m m' : Manager) (s : FragmentManager.State) :
  simulates h m s -> setKeySignature now key mode m h = Some (m', h') ->
  simulates h' m' (FragmentManager.setKeySignature now key mode s).
Proof.
  intros Hsim.
  destruct (simulates_index h m s Hsim) as (_ & _ & Hv & Hc & Hh).
  destruct (view_fragment_parts h _ _ Hv)
    as (f & items & Ef & _ & _ & _ & Et & _ & _ & _ & Etempo).
  unfold setKeySignature, FragmentManager.setKeySignature, alloc.
  rewrite Ef. simpl.
  intros Hsave.
  eapply simulates_saveToHistory; [|exact Hsave].
  set (ks := {| Musical.key := key; Musical.mode := mode |}).
  pose proof (simulates_alloc h m s (cell_keySignature ks) Hsim I) as Hsim1.
  assert (Hag : agree_below (length h) h (h ++ [cell_keySignature ks]))
    by apply agree_below_alloc.
  assert (Ef1 : get_fragment (h ++ [cell_keySignature ks]) (currentFragment m) = Some f).
  { eapply get_fragment_agree; [exact Hag | apply Nat.le_refl | exact Ef]. }
  assert (Et1 : get_timeSignature (h ++ [cell_keySignature ks]) (o_timeSignature f)
                = Some (timeSignature (FragmentManager.currentFragment s))).
  { eapply get_timeSignature_agree; [exact Hag | apply Nat.le_refl | exact Et]. }
  assert (Ek1 : get_keySignature (h ++ [cell_keySignature ks]) (length h) = Some ks).
  { unfold get_keySignature. rewrite lookup_app_r by lia.
    rewrite Nat.sub_diag. reflexivity. }
  pose proof (simulates_write_header _ m s f (o_timeSignature f) (length h) (o_tempo f)
                _ ks Hsim1 Ef1 Et1 Ek1) as Hsim2.
  rewrite Etempo in Hsim2 at 2. exact Hsim2.
Qed.

Lemma setTempo_simulates (now : Z) (bpm : float) (h h' : heap)
    (m m' : Manager) (s : FragmentManager.State) :
  simulates h m s -> setTempo now bpm m h = Some (m', h') ->
  simulates h' m' (FragmentManager.setTempo now bpm s).
Proof.
  intros Hsim.
  destruct (simulates_index h m s Hsim) as (_ & _ & Hv & Hc & Hh).
  destruct (view_fragment_parts h _ _ Hv)
    as (f & items & Ef & _ & _ & _ & Et & Ek & _).
  unfold setTempo, FragmentManager.setTempo.
  rewrite Ef. simpl.
  intros Hsave.
  eapply simulates_saveToHistory; [|exact Hsave].
  exact (simulates_write_header h m s f _ _ bpm _ _ Hsim Ef Et Ek).
Qed.

(** The copy handed out by [getCurrentFragment] is the working fragment of
    the manager on values, and the manager is as before. *)
Lemma getCurrentFragment_simulates (h h' : heap) (m : Manager)
    (s : FragmentManager.State) (r : ref) :
  simulates h m s -> getCurrentFragment m h = Some (r, h') ->
  view_fragment h' r = Some (FragmentManager.getCurrentFragment s)
  /\ simulates h' m s.
Proof.
  intros Hsim Hcopy.
  destruct (simulates_index h m s Hsim) as (_ & _ & Hv & Hc & Hh).
  pose proof Hsim as ((_ & Hm) & _).
  unfold getCurrentFragment in Hcopy.
  destruct (copy_fragment_ok (currentFragment m) h Hh Hc)
    as (r2 & h2 & f & f' & Hcopy2 & Hh2 & Hext & _ & Hag & Ef & _ & _ & _ & _ & _ & _ & _ & Hvw).
  rewrite Hcopy in Hcopy2. injection Hcopy2 as <- <-.
  split; [rewrite Hvw; exact Hv|].
  assert (Hcur : (currentFragment m < length h)%nat) by (eapply holds_lt, Hc).
  apply (simulates_frame h h' m m s s); try assumption; try reflexivity.
  - split; [exact Hh2 | eapply manager_ok_extends; eassumption].
  - apply (simulates_index h m s Hsim).
  - apply (simulates_index h m s Hsim).
  - apply (view_fragment_agree (length h) h); [exact Hag | apply Nat.le_refl | exact Hv].
  - intros x v _. apply (view_fragment_agree (length h)); [exact Hag | apply Nat.le_refl].
  - intros x (Hx & Hap).
    assert (Hxl : (x < length h)%nat) by (eapply holds_lt, Hx).
    eapply apart_same_fragments; [| |exact Hap];
      apply (get_fragment_below (length h)); assumption.
Qed.

(** ** The manager on values describes the manager with its objects *)

(** Every call of a client that leaves the shared objects alone is matched
    by the corresponding call on values. *)
Theorem step_simulates (now : Z) (c : Call) (h h' : heap) (m m' : Manager)
    (s : FragmentManager.State) :
  simulates h m s -> is_manager_call c = true ->
  step now c m h = Some (m', h') ->
  exists vc s',
    call_on_values h c = Some vc
    /\ step_on_values now vc s = Some s'
    /\ simulates h' m' s'.
Proof.
  intros Hsim Hc.
  destruct c as [e | element | | | | | | n d | k md | bpm | | i | a e | a ts | a ks ];
    try discriminate Hc; simpl.
  - intros [= <- <-]. exists None, s. split; [reflexivity|]. split; [reflexivity|].
    apply simulates_alloc; [exact Hsim | exact I].
  - destruct (addElement now element m h) as [[[r m1] h1]|] eqn:Hadd; [|discriminate].
    simpl. intros [= <- <-].
    destruct (get_element h element) as [e|] eqn:Ee.
    2: { unfold addElement in Hadd. rewrite Ee in Hadd. discriminate. }
    destruct (addElement_simulates now element e h h1 m m1 s r Hsim Ee Hadd) as (_ & Hsim').
    exists (Some (FragmentManager.call_addElement e)). eexists.
    split; [reflexivity|]. split; [reflexivity|]. exact Hsim'.
  - destruct (deleteLastElement now m h) as [[[r m1] h1]|] eqn:Hd; [|discriminate].
    simpl. intros [= <- <-].
    destruct (deleteLastElement_simulates now h h1 m m1 s r Hsim Hd) as (_ & Hsim').
    do 2 eexists. split; [reflexivity|]. split; [reflexivity|]. exact Hsim'.
  - intros Hcl. do 2 eexists. split; [reflexivity|]. split; [reflexivity|].
    exact (clear_simulates now h h' m m' s Hsim Hcl).
  - destruct (undo m h) as [[[b m1] h1]|] eqn:Hu; [|discriminate].
    simpl. intros [= <- <-].
    destruct (undo_simulates h h1 m m1 s b Hsim Hu) as (s' & Es & Hsim').
    exists (Some FragmentManager.call_undo), s'. split; [reflexivity|].
    split; [simpl; rewrite Es; reflexivity | exact Hsim'].
  - destruct (redo m h) as [[[b m1] h1]|] eqn:Hu; [|discriminate].
    simpl. intros [= <- <-].
    destruct (redo_simulates h h1 m m1 s b Hsim Hu) as (s' & Es & Hsim').
    exists (Some FragmentManager.call_redo), s'. split; [reflexivity|].
    split; [simpl; rewrite Es; reflexivity | exact Hsim'].
  - destruct (commit now m h) as [[[r m1] h1]|] eqn:Hcm; [|discriminate].
    simpl. intros [= <- <-].
    destruct (commit_simulates now h h1 m m1 s r Hsim Hcm) as (_ & Hsim').
    do 2 eexists. split; [reflexivity|]. split; [reflexivity|]. exact Hsim'.
  - intros Hs. do 2 eexists. split; [reflexivity|]. split; [reflexivity|].
    exact (setTimeSignature_simulates now n d h h' m m' s Hsim Hs).
  - intros Hs. do 2 eexists. split; [reflexivity|]. split; [reflexivity|].
    exact (setKeySignature_simulates now k md h h' m m' s Hsim Hs).
  - intros Hs. do 2 eexists. split; [reflexivity|]. split; [reflexivity|].
    exact (setTempo_simulates now bpm h h' m m' s Hsim Hs).
  - destruct (getCurrentFragment m h) as [[r h1]|] eqn:Hg; [|discriminate].
    simpl. intros [= <- <-].
    destruct (getCurrentFragment_simulates h h1 m s r Hsim Hg) as (_ & Hsim').
    exists None, s. split; [reflexivity|]. split; [reflexivity|]. exact Hsim'.
  - destruct (deleteElementAt now i m h) as [[[r m1] h1]|] eqn:Hd; [|discriminate].
    simpl. intros [= <- <-].
    destruct (deleteElementAt_simulates now i h h1 m m1 s r Hsim Hd) as (_ & Hsim').
    do 2 eexists. split; [reflexivity|]. split; [reflexivity|]. exact Hsim'.
Qed.

(** A whole session: the calls on objects are matched by a sequence of calls
    on values. *)
Theorem run_simulates (calls : list (Z * Call)) (h h' : heap) (m m' : Manager)
    (s : FragmentManager.State) :
  simulates h m s ->
  forallb (fun c => is_manager_call (snd c)) calls = true ->
  run calls m h = Some (m', h') ->
  exists vcalls s',
    FragmentManager.run vcalls s = Some s' /\ simulates h' m' s'.
Proof.
  revert h m s. induction calls as [|[now c] rest IH]; intros h m s Hsim Hall; simpl.
  - intros [= <- <-]. exists [], s. split; [reflexivity | exact Hsim].
  - simpl in Hall. apply andb_prop in Hall as (Hc & Hrest).
    destruct (step now c m h) as [[m1 h1]|] eqn:Hstep; [|discriminate].
    intros Hrun.
    destruct (step_simulates now c h h1 m m1 s Hsim Hc Hstep)
      as (vc & s1 & _ & Hv & Hsim1).
    destruct (IH h1 m1 s1 Hsim1 Hrest Hrun) as (vcalls & s' & Hvrun & Hsim').
    destruct vc as [vc|]; simpl in Hv.
    + exists ((now, vc) :: vcalls), s'. simpl. rewrite Hv. split; assumption.
    + injection Hv as <-. exists vcalls, s'. split; assumption.
Qed.

(** What the references of a simulated manager stand for. *)
Lemma simulates_view (h : heap) (m : Manager) (s : FragmentManager.State) :
  simulates h m s -> view h m = Some (canonical s).
Proof.
  intros (_ & (Hv & Hhist & _) & _). unfold view, view_history, canonical.
  rewrite Hv. simpl.
  assert (E : mapM (fun entry => view_fragment h (e_fragment entry)) (history m)
              = Some (map FragmentManager.fragment (FragmentManager.history s))).
  { apply mapM_Some. induction Hhist as [|x y l k (Hxy & _) _ IH]; simpl; constructor.
    - exact Hxy.
    - exact IH. }
  rewrite E. reflexivity.
Qed.

(** A manager with its objects, built by the constructor and used through
    its methods only, is described by a reachable state of the manager on
    values; its history is therefore within the bound. *)
Lemma manager_with_objects_reachable (now max : Z) (ts : TimeSig) (ks : KeySig)
    (tempo : float) (calls : list (Z * Call)) (m0 m : Manager) (h0 h : heap) :
  constructor now max ts ks tempo = Some (m0, h0) ->
  forallb (fun c => is_manager_call (snd c)) calls = true ->
  run calls m0 h0 = Some (m, h) ->
  exists s, reachable max s /\ simulates h m s /\ view h m = Some (canonical s).
Proof.
  intros Hc Hall Hrun.
  pose proof (constructor_simulates now max ts ks tempo m0 h0 Hc) as Hsim0.
  destruct (run_simulates calls h0 h m0 m _ Hsim0 Hall Hrun) as (vcalls & s & Hv & Hsim).
  exists s. split; [|split; [exact Hsim | apply simulates_view, Hsim]].
  exists now, ts, ks, tempo, vcalls. exact Hv.
Qed.

Corollary manager_with_objects_history_bounded (now max : Z) (ts : TimeSig) (ks : KeySig)
    (tempo : float) (calls : list (Z * Call)) (m0 m : Manager) (h0 h : heap) :
  1 <= max ->
  constructor now max ts ks tempo = Some (m0, h0) ->
  forallb (fun c => is_manager_call (snd c)) calls = true ->
  run calls m0 h0 = Some (m, h) ->
  FragmentManager.len (history m) <= max
  /\ 0 <= historyIndex m < FragmentManager.len (history m).
Proof.
  intros Hmax Hc Hall Hrun.
  destruct (manager_with_objects_reachable now max ts ks tempo calls m0 m h0 h Hc Hall Hrun)
    as (s & Hreach & Hsim & _).
  destruct (reachable_invariant max s Hmax Hreach) as ((_ & (H0 & H1 & H2) & _) & Em).
  pose proof Hsim as (_ & (_ & Hhist & Ei & _) & _).
  rewrite (Forall2_len _ _ _ Hhist), Ei. rewrite Em in H2.
  lia.
Qed.

End Simulation.

(** ** Pitch strings, for every string *)

Section PitchStrings.
Import Spec.

Ltac each_member :=
  repeat match goal with
         | H : In _ (_ :: _) |- _ => destruct H as [<- | H]
         | H : In _ [] |- _ => destruct H
         end.

Lemma is_A_to_G_In (c : ascii) : is_A_to_G c = true -> In c letters_A_to_G.
Proof.
  destruct c as [[] [] [] [] [] [] [] []]; vm_compute; intros E;
    first [discriminate E | tauto].
Qed.

Lemma is_digit_In (c : ascii) :
  is_digit c = true ->
  In c ["0"; "1"; "2"; "3"; "4"; "5"; "6"; "7"; "8"; "9"]%char.
Proof.
  destruct c as [[] [] [] [] [] [] [] []]; vm_compute; intros E;
    first [discriminate E | tauto].
Qed.

(** The strings [parsePitchString] accepts. *)
Lemma parse_shape (p : string) (r : ParsedPitch) :
  parsePitchString p = Some r ->
  exists L a d,
    In L letters_A_to_G
    /\ In d ["0"; "1"; "2"; "3"; "4"; "5"; "6"; "7"; "8"; "9"]%char
    /\ r = {| note := String L ""; accidental := a; octave := parseInt_digit d |}
    /\ p = formatPitch (String L "") a (parseInt_digit d).
Proof.
  destruct p as [|n [|c [|c2 [|c3 rest]]]]; simpl; try discriminate.
  - destruct (is_A_to_G n) eqn:Hn; [|discriminate].
    destruct (is_digit c) eqn:Hc; [|discriminate].
    simpl. intros [= <-]. exists n, None, c.
    apply is_A_to_G_In in Hn. apply is_digit_In in Hc.
    repeat split; try assumption.
    simpl in Hc. decompose [or] Hc; subst; try contradiction; reflexivity.
  - destruct (is_A_to_G n) eqn:Hn; [|discriminate].
    destruct (is_digit c2) eqn:Hc; [|rewrite andb_false_r; discriminate].
    apply is_A_to_G_In in Hn. apply is_digit_In in Hc.
    unfold accidental_of_char.
    destruct (Ascii.eqb_spec c "#") as [->|_]; simpl.
    + intros [= <-]. exists n, (Some sharp), c2. repeat split; try assumption.
      simpl in Hc. decompose [or] Hc; subst; try contradiction; reflexivity.
    + destruct (Ascii.eqb_spec c "b") as [->|_]; simpl; [|discriminate].
      intros [= <-]. exists n, (Some flat), c2. repeat split; try assumption.
      simpl in Hc. decompose [or] Hc; subst; try contradiction; reflexivity.
Qed.

(** X4. [isValidPitch] accepts exactly the strings made of a letter from A
    to G, an optional [#] or [b], and a digit from 0 to 8. *)
Theorem isValidPitch_accepts_the_pattern :
  forall p : string, isValidPitch p = true <-> pitch_pattern p.
Proof.
  intros p. split.
  - unfold isValidPitch.
    destruct (parsePitchString p) as [r|] eqn:Hp; [|discriminate].
    destruct (parse_shape p r Hp) as (L & a & d & HL & Hd & -> & ->).
    cbn [note octave]. intros [_ Ho]%andb_prop.
    exists L, (match a with Some sharp => "#" | Some flat => "b" | None => "" end), d.
    split; [exact HL|]. split; [destruct a as [[]|]; simpl; tauto|].
    each_member; try discriminate Ho;
      (split; [simpl; tauto | destruct a as [[]|]; reflexivity]).
  - intros (L & acc & d & HL & Hacc & Hd & ->).
    unfold letters_A_to_G, accidental_signs, digits_0_to_8 in *.
    each_member; reflexivity.
Qed.

(** X5. [parsePitchString] and [formatPitch] undo each other: whatever
    string is parsed, formatting the three parts of the result gives the
    string back; and for a letter from A to G, any accidental and an octave
    from 0 to 9, parsing the formatted pitch gives the three parts back. *)
Theorem parse_and_format_are_inverse :
  (forall (p : string) (r : ParsedPitch),
     parsePitchString p = Some r ->
     formatPitch (note r) (accidental r) (octave r) = p)
  /\ (forall (L : ascii) (a : option AccidentalMark) (o : Z),
        In L letters_A_to_G -> 0 <= o <= 9 ->
        parsePitchString (formatPitch (String L "") a o)
        = Some {| note := String L ""; accidental := a; octave := o |}).
Proof.
  split.
  - intros p r Hp.
    destruct (parse_shape p r Hp) as (L & a & d & _ & _ & -> & ->). reflexivity.
  - intros L a o HL Ho. unfold letters_A_to_G in HL.
    assert (Hcases : o = 0 \/ o = 1 \/ o = 2 \/ o = 3 \/ o = 4 \/ o = 5 \/ o = 6
                     \/ o = 7 \/ o = 8 \/ o = 9) by lia.
    decompose [or] Hcases; subst o; each_member; destruct a as [[]|]; reflexivity.
Qed.

(** X6. [getDurationFromKeyNumber] answers, for every key, the duration the
    default key mappings bind the key to when that is one of the seven plain
    durations, and [null] otherwise: for a key the default mappings do not
    bind, and for the keys of the two combined entries, [dotted-quarter] and
    [triplet-eighth]. *)
Theorem getDurationFromKeyNumber_follows_the_defaults :
  forall key : string,
    ~ In key inherited_property_names ->
    getDurationFromKeyNumber key
    = match truthy_lookup (durations DEFAULT_KEY_MAPPINGS) key with
      | Some d => if isValidDuration d then Some d else None
      | None => None
      end.
Proof.
  intros key _.
  destruct (decide (key ∈ ["1"; "2"; "4"; "8"; "6"; "3"; "7"])) as [Hin|Hout].
  - repeat (apply elem_of_cons in Hin as [->|Hin]; [vm_compute; reflexivity|]).
    apply elem_of_nil in Hin. contradiction.
  - unfold getDurationFromKeyNumber, truthy_lookup.
    assert (E1 : (durationMap : gmap string string) !! key = None).
    { apply not_elem_of_list_to_map_1. simpl. intros Hin. apply Hout.
      rewrite !elem_of_cons in *. tauto. }
    assert (E2 : durations DEFAULT_KEY_MAPPINGS !! key = None).
    { apply not_elem_of_list_to_map_1. simpl. exact Hout. }
    rewrite E1, E2. reflexivity.
Qed.

Lemma getDurationFromKeyNumber_follows_the_defaults_witness :
  getDurationFromKeyNumber "6" = Some "sixteenth"
  /\ getDurationFromKeyNumber "3" = None
  /\ getDurationFromKeyNumber "6"
     = match truthy_lookup (durations DEFAULT_KEY_MAPPINGS) "6" with
       | Some d => if isValidDuration d then Some d else None
       | None => None
       end.
Proof.
  split; [reflexivity|]. split; [reflexivity|].
  apply (getDurationFromKeyNumber_follows_the_defaults "6").
  unfold inherited_property_names. simpl.
  intros Hin. repeat (destruct Hin as [Hin|Hin]; [discriminate Hin|]). exact Hin.
Defined.

End PitchStrings.

(** ** Transposition *)

Section Transposition.
Import Spec.

Ltac each_member :=
  repeat match goal with
         | H : In _ (_ :: _) |- _ => destruct H as [<- | H]
         | H : In _ [] |- _ => destruct H
         end.

Example transposeNote_up :
  transposeNote "C4" 2 = "D4" /\ transposeNote "C4" 7 = "G4"
  /\ transposeNote "B4" 1 = "C5" /\ transposeNote "B4" 2 = "C#5"
  /\ transposeNote "G7" 12 = "G8".
Proof. repeat split; reflexivity. Qed.

Example transposeNote_down :
  transposeNote "D4" (-2) = "C4" /\ transposeNote "C4" (-1) = "B3"
  /\ transposeNote "F4" (-6) = "B3" /\ transposeNote "C5" (-13) = "B3"
  /\ transposeNote "Bb4" (-1) = "A4".
Proof. repeat split; reflexivity. Qed.

Example transposeNote_invalid :
  transposeNote "X4" 5 = "X4" /\ transposeNote "" 3 = "".
Proof. split; reflexivity. Qed.

(** F natural comes out as E sharp, and a flat as the sharp below. *)
Example transposeNote_respells :
  transposeNote "F4" 0 = "E#4" /\ transposeNote "Bb4" 0 = "A#4"
  /\ transposeNote "E4" 1 = "E#4".
Proof. repeat split; reflexivity. Qed.

(** Past the octaves a pitch string can hold. *)
Example transposeNote_out_of_range :
  transposeNote "C0" (-1) = "B-1" /\ transposeNote "B9" 1 = "C10"
  /\ parsePitchString "B-1" = None /\ parsePitchString "C10" = None.
Proof. repeat split; reflexivity. Qed.

(** The loop of [transposeNote] spells the twelve notes of an octave as
    [transposed_names] lists them. *)
Lemma closest_note_spelled (n : Z) :
  (let '(closestNote, accidental) :=
     closest_note semitoneMap (Z.rem (Z.rem n 12 + 12) 12) in
   formatPitch closestNote accidental (n / 12)) = spelled n.
Proof.
  assert (Hm : Z.rem (Z.rem n 12 + 12) 12 = n mod 12).
  { Z.to_euclidean_division_equations. lia. }
  rewrite Hm. clear Hm. unfold spelled.
  pose proof (Z.mod_pos_bound n 12 ltac:(lia)) as Hb.
  set (m := n mod 12) in *. set (o := n / 12).
  assert (Hcases : m = 0 \/ m = 1 \/ m = 2 \/ m = 3 \/ m = 4 \/ m = 5 \/ m = 6
                   \/ m = 7 \/ m = 8 \/ m = 9 \/ m = 10 \/ m = 11) by lia.
  clearbody m o. decompose [or] Hcases; subst m; reflexivity.
Qed.

Lemma semitone_of_natural (L : ascii) :
  In L letters_A_to_G ->
  semitone_of (String L "") = natural_semitones (String L "")
  /\ is_Some (natural_semitones (String L "")).
Proof.
  unfold letters_A_to_G. intros HL. each_member; (split; [reflexivity | eexists; reflexivity]).
Qed.

Lemma transposeNote_spelled (p : string) (h k : Z) :
  semitones_above_C0 p = Some h -> transposeNote p k = spelled (h + k).
Proof.
  unfold semitones_above_C0, transposeNote.
  destruct (parsePitchString p) as [r|] eqn:Hp; [|discriminate].
  destruct (parse_shape p r Hp) as (L & a & d & HL & Hd & -> & _).
  cbn [mbind option_bind note accidental octave].
  destruct (semitone_of_natural L HL) as (-> & (b & Hb)). rewrite Hb.
  cbn [mbind option_bind]. intros [= <-].
  rewrite <- closest_note_spelled.
  replace (12 * parseInt_digit d + b + accidental_shift a + k)
    with (match a with
          | Some sharp => b + 1
          | Some flat => b - 1
          | None => b
          end + parseInt_digit d * 12 + k)
    by (destruct a as [[]|]; simpl; lia).
  reflexivity.
Qed.

Lemma spelled_height (n : Z) :
  0 <= n < 120 -> semitones_above_C0 (spelled n) = Some n.
Proof.
  intros Hn.
  assert (Hall : forallb (fun i => match semitones_above_C0 (spelled (Z.of_nat i)) with
                                   | Some m => m =? Z.of_nat i
                                   | None => false
                                   end) (seq 0 120) = true)
    by (vm_compute; reflexivity).
  rewrite forallb_forall in Hall.
  specialize (Hall (Z.to_nat n)). rewrite Z2Nat.id in Hall by lia.
  destruct (semitones_above_C0 (spelled n)) as [m|].
  - f_equal. apply Z.eqb_eq, Hall, in_seq. lia.
  - discriminate Hall. apply in_seq. lia.
Qed.

(** X1. [transposeNote] moves a pitch by the number of semitones asked for:
    when the pitch parses and the note asked for lies in the octaves 0 to 9,
    the result parses and its height is the height of the pitch plus the
    number of semitones. *)
Theorem transposeNote_adds_semitones :
  forall (p : string) (h k : Z),
    semitones_above_C0 p = Some h ->
    0 <= h + k < 120 ->
    semitones_above_C0 (transposeNote p k) = Some (h + k).
Proof.
  intros p h k Hp Hr.
  rewrite (transposeNote_spelled p h k Hp). apply spelled_height, Hr.
Qed.

Lemma transposeNote_adds_semitones_witness :
  semitones_above_C0 "Bb4" = Some 58
  /\ semitones_above_C0 (transposeNote "Bb4" (-13)) = Some (58 + -13).
Proof.
  assert (Hp : semitones_above_C0 "Bb4" = Some 58) by reflexivity.
  split; [exact Hp|].
  apply (transposeNote_adds_semitones "Bb4" 58 (-13) Hp). lia.
Defined.




End Transposition.

(** ** Editing, undoing and committing *)

Section ManagerEdits.
Import FragmentManager Spec.
Context `{Runtime}.

Lemma getLastElement_last (s : State) :
  getLastElement s = last (elements (currentFragment s)).
Proof.
  unfold getLastElement. destruct (elements (currentFragment s)) as [|e es] using rev_ind.
  - reflexivity.
  - rewrite last_snoc, length_app. simpl.
    destruct (Nat.ltb_spec 0 (length es + 1)); [|lia].
    rewrite lookup_app_r by lia.
    replace (length es + 1 - 1 - length es)%nat with 0%nat by lia. reflexivity.
Qed.

Lemma saved_fragment (now : Z) (a : Action) (s : State) :
  currentFragment (saveToHistory now a (updateMetadata s))
  = set_metadata
      {| measures := countMeasures (elements (currentFragment s));
         totalDuration := calculateFragmentDuration (elements (currentFragment s))
                            (timeSignature (currentFragment s)) |}
      (currentFragment s).
Proof. destruct (saveToHistory_frame now a (updateMetadata s)) as (-> & _). reflexivity. Qed.

(** X7. [deleteLastElement] returns what [getLastElement] returned just
    before.  That is [null] exactly on an empty fragment, and the manager is
    then left as it was, with no new history entry.  Otherwise the elements before the
    call are those after it followed by the returned one, the measure count
    of the metadata is recomputed, and the signatures and the tempo are
    untouched. *)
Theorem deleteLastElement_removes_the_last :
  forall (now : Z) (s : State),
    fst (deleteLastElement now s) = getLastElement s
    /\ (getLastElement s = None <-> getElementCount s = 0%nat)
    /\ match getLastElement s with
       | None => snd (deleteLastElement now s) = s
       | Some e =>
           let f := currentFragment s in
           let f' := currentFragment (snd (deleteLastElement now s)) in
           elements f = elements f' ++ [e]
           /\ getElementCount s = S (getElementCount (snd (deleteLastElement now s)))
           /\ measures (metadata f') = countMeasures (elements f')
           /\ timeSignature f' = timeSignature f
           /\ keySignature f' = keySignature f
           /\ tempo f' = tempo f
       end.
Proof.
  intros now s. rewrite getLastElement_last. unfold deleteLastElement, getElementCount.
  destruct (last (elements (currentFragment s))) as [e|] eqn:Hl.
  - split; [reflexivity|]. cbn [snd]. rewrite saved_fragment. cbn.
    apply last_Some in Hl as (l' & Hl). rewrite Hl, removelast_last, length_app. simpl.
    split; [split; [discriminate | lia]|].
    repeat split; try reflexivity. lia.
  - split; [reflexivity|]. apply last_None in Hl. rewrite Hl.
    split; [split; reflexivity | reflexivity].
Qed.

Lemma getElementAt_lookup (i : Z) (s : State) :
  getElementAt i s = index (elements (currentFragment s)) i.
Proof.
  unfold getElementAt, index, len.
  destruct (Z.ltb_spec i 0); destruct (Z.leb_spec 0 i); try lia; simpl; [reflexivity|].
  destruct (Z.ltb_spec i (Z.of_nat (length (elements (currentFragment s))))); [reflexivity|].
  symmetry. apply lookup_ge_None. lia.
Qed.

(** X8. [deleteElementAt(i)] returns what [getElementAt(i)] returned just
    before.  That is [null] exactly for an index outside the fragment, and
    the manager is then left as it was.  Inside, the fragment has one element less: the elements before
    position [i] stay where they are and those after it move down by one. *)
Theorem deleteElementAt_removes_one :
  forall (now i : Z) (s : State),
    fst (deleteElementAt now i s) = getElementAt i s
    /\ (getElementAt i s = None <-> ~ 0 <= i < Z.of_nat (getElementCount s))
    /\ match getElementAt i s with
       | None => snd (deleteElementAt now i s) = s
       | Some e =>
           let s' := snd (deleteElementAt now i s) in
           getElementCount s = S (getElementCount s')
           /\ (forall j, j < i -> getElementAt j s' = getElementAt j s)
           /\ (forall j, i <= j -> getElementAt j s' = getElementAt (j + 1) s)
       end.
Proof.
  intros now i s. rewrite getElementAt_lookup.
  unfold deleteElementAt, index, len, getElementCount.
  set (es := elements (currentFragment s)).
  destruct (Z.ltb_spec i 0) as [Hneg|Hpos].
  { split; [reflexivity|]. split; [split; [lia | reflexivity] | reflexivity]. }
  simpl.
  destruct (Z.leb_spec (Z.of_nat (length es)) i) as [Hout|Hin].
  { rewrite (proj2 (lookup_ge_None es (Z.to_nat i))) by lia.
    split; [reflexivity|]. split; [split; [lia | reflexivity] | reflexivity]. }
  destruct (es !! Z.to_nat i) as [e|] eqn:He.
  2: { apply lookup_ge_None in He. lia. }
  split; [reflexivity|]. split; [split; [discriminate | lia]|]. cbn [snd]. cbv zeta.
  set (es' := take (Z.to_nat i) es ++ drop (S (Z.to_nat i)) es).
  assert (Hlen : length es = S (length es')).
  { unfold es'. rewrite length_app, length_take, length_drop. lia. }
  assert (Hf : forall j, getElementAt j (saveToHistory now act_delete
                 (updateMetadata (with_fragment (set_elements es' (currentFragment s)) s)))
               = index es' j).
  { intros j. rewrite getElementAt_lookup, saved_fragment. reflexivity. }
  split; [rewrite saved_fragment; exact Hlen|].
  split; intros j Hj; rewrite Hf, getElementAt_lookup; fold es; unfold index, es'.
  - destruct (Z.ltb_spec j 0); [reflexivity|].
    rewrite lookup_app_l by (rewrite length_take; lia).
    apply lookup_take_lt. lia.
  - destruct (Z.ltb_spec j 0); [lia|]. destruct (Z.ltb_spec (j + 1) 0); [lia|].
    rewrite lookup_app_r by (rewrite length_take; lia).
    rewrite lookup_drop, length_take. f_equal. lia.
Qed.

(** X9. On a manager built with a bound of at least 1 and used through its
    methods, [redo] undoes [undo] and [undo] undoes [redo]: when one of them
    answers [true], the other one, called next, answers [true] and brings
    the whole manager back to the state it was in. *)
Theorem undo_and_redo_are_inverse :
  forall (max : Z) (s : State),
    1 <= max -> reachable max s ->
    (forall s1, undo s = Some (true, s1) -> redo s1 = Some (true, s))
    /\ (forall s1, redo s = Some (true, s1) -> undo s1 = Some (true, s)).
Proof.
  intros max s Hmax Hr.
  destruct (reachable_invariant max s Hmax Hr) as ((_ & (Hi0 & Hi1 & Hlen) & Hsync) & _).
  destruct (in_sync_entry s Hsync) as (entry & He & Hf).
  split; intros s1.
  - unfold undo. destruct (Z.leb_spec (historyIndex s) 0); [discriminate|].
    destruct (index (history s) (historyIndex s - 1)) as [prev|]; [|discriminate].
    intros [= <-]. unfold redo. simpl.
    destruct (Z.leb_spec (len (history s) - 1) (historyIndex s - 1)); [lia|].
    replace (historyIndex s - 1 + 1) with (historyIndex s) by lia.
    rewrite He, Hf. destruct s; reflexivity.
  - unfold redo. destruct (Z.leb_spec (len (history s) - 1) (historyIndex s));
      [discriminate|].
    destruct (index (history s) (historyIndex s + 1)) as [next|]; [|discriminate].
    intros [= <-]. unfold undo. simpl.
    destruct (Z.leb_spec (historyIndex s + 1) 0); [lia|].
    replace (historyIndex s + 1 - 1) with (historyIndex s) by lia.
    rewrite He, Hf. destruct s; reflexivity.
Qed.

(** After a snapshot, [undo] finds the snapshot that was under the cursor
    and [redo] the new one. *)
Lemma undoable_after_save (now : Z) (a : Action) (sp s : State) :
  invariant s -> 2 <= maxHistorySize s -> same_history sp s ->
  undoable s (saveToHistory now a sp).
Proof.
  intros Hs Hmax2 Hsame.
  pose proof Hs as (_ & (Hi0 & Hi1 & Hlen) & Hsync).
  destruct Hsame as (Eh & Ei & Emx).
  assert (Hsp : history_ok sp) by (unfold history_ok; rewrite Eh, Ei, Emx; lia).
  destruct (saveToHistory_previous now a sp) as (Hpos & Hprev);
    [lia | exact Hsp |].
  destruct (saveToHistory_ok now a sp) as (_ & Hsync1 & Hlast);
    [lia | destruct Hsp; lia | destruct Hsp as (_ & _ & ?); lia |].
  rewrite Eh, Ei in Hprev.
  destruct (in_sync_entry s Hsync) as (entry & He & Hf).
  destruct (in_sync_entry _ Hsync1) as (entry1 & He1 & Hf1).
  set (s1 := saveToHistory now a sp) in *.
  exists (with_fragment (fragment entry)
            (with_history (history s1) (historyIndex s1 - 1) s1)).
  exists (with_fragment (fragment entry1)
            (with_history (history s1) (historyIndex s1) s1)).
  split; [|split; [|split]].
  - unfold undo. destruct (Z.leb_spec (historyIndex s1) 0); [lia|].
    rewrite Hprev, He. reflexivity.
  - simpl. exact Hf.
  - unfold redo. simpl.
    destruct (Z.leb_spec (len (history s1) - 1) (historyIndex s1 - 1)); [lia|].
    replace (historyIndex s1 - 1 + 1) with (historyIndex s1) by lia.
    rewrite He1. reflexivity.
  - simpl. exact Hf1.
Qed.

(** X10. On a manager built with a bound of at least 2, every method that
    takes a snapshot can be undone and redone: after [clear], after each of
    the three header setters, and after a [deleteLastElement] or a
    [deleteElementAt] that removed an element, [undo] answers [true] and
    brings back the working fragment of before the call, and [redo] then
    answers [true] and brings back the working fragment the call left. *)
Theorem snapshot_methods_can_be_undone :
  forall (max now : Z) (s : State),
    2 <= max -> reachable max s ->
    undoable s (clear now s)
    /\ (forall n d, undoable s (setTimeSignature now n d s))
    /\ (forall k m, undoable s (setKeySignature now k m s))
    /\ (forall bpm, undoable s (setTempo now bpm s))
    /\ (forall e, getLastElement s = Some e ->
                  undoable s (snd (deleteLastElement now s)))
    /\ (forall i e, getElementAt i s = Some e ->
                    undoable s (snd (deleteElementAt now i s))).
Proof.
  intros max now s Hmax Hr.
  destruct (reachable_invariant max s ltac:(lia) Hr) as (Hs & Em).
  assert (Hm2 : 2 <= maxHistorySize s) by lia.
  assert (Hsave : forall a sp, same_history sp s -> undoable s (saveToHistory now a sp)).
  { intros a sp Hsp. apply undoable_after_save; assumption. }
  split; [|split; [|split; [|split; [|split]]]].
  - apply Hsave. apply same_history_with_fragment.
  - intros n d. apply Hsave, same_history_updateMetadata, same_history_with_fragment.
  - intros k m. apply Hsave, same_history_with_fragment.
  - intros bpm. apply Hsave, same_history_with_fragment.
  - intros e. rewrite getLastElement_last. unfold deleteLastElement.
    intros ->. cbn [snd].
    apply Hsave, same_history_updateMetadata, same_history_with_fragment.
  - intros i e. rewrite getElementAt_lookup. unfold deleteElementAt, index, len.
    destruct (Z.ltb_spec i 0); [discriminate|]. simpl.
    destruct (Z.leb_spec (Z.of_nat (length (elements (currentFragment s)))) i) as [Hout|Hin].
    { intros Hx. apply lookup_lt_Some in Hx. lia. }
    intros ->. cbn [snd].
    apply Hsave, same_history_updateMetadata, same_history_with_fragment.
Qed.

(** X11. [commit] returns the working fragment with the instant of the
    commit as its timestamp and appends it to the committed fragments.  The
    new working fragment is empty and keeps the signatures and the tempo.
    The history starts over: it holds at most the snapshot of the new
    fragment, and [undo] and [redo] both answer [false] and change nothing,
    so a commit cannot be undone. *)
Theorem commit_starts_over :
  forall (now : Z) (s : State),
    let f := fst (commit now s) in
    let s' := snd (commit now s) in
    f = set_timestamp (Date_toISOString now) (currentFragment s)
    /\ committedFragments s' = committedFragments s ++ [f]
    /\ elements (currentFragment s') = []
    /\ timeSignature (currentFragment s') = timeSignature (currentFragment s)
    /\ keySignature (currentFragment s') = keySignature (currentFragment s)
    /\ tempo (currentFragment s') = tempo (currentFragment s)
    /\ len (history s') <= 1
    /\ Forall (fun entry => fragment entry = currentFragment s') (history s')
    /\ undo s' = Some (false, s')
    /\ redo s' = Some (false, s').
Proof.
  intros now s. unfold commit, getCurrentFragment. cbn [fst snd].
  set (f := set_timestamp (Date_toISOString now) (currentFragment s)).
  set (s1 := {| currentFragment := _; history := []; historyIndex := -1;
                maxHistorySize := maxHistorySize s;
                committedFragments := committedFragments s ++ [f] |}).
  destruct (saveToHistory_frame now act_clear s1) as (Ef & _ & Ec).
  rewrite Ef, Ec.
  repeat split; try reflexivity.
  all: unfold saveToHistory, undo, redo; simpl;
    destruct (maxHistorySize s <? len [_]); simpl; try reflexivity;
    try (unfold len; simpl; lia); repeat constructor.
Qed.

Lemma saveToHistory_committed (now : Z) (a : Action) (s : State) :
  committedFragments (saveToHistory now a s) = committedFragments s.
Proof. apply saveToHistory_frame. Qed.

Lemma step_committed (now : Z) (c : Call) (s s' : State) :
  step now c s = Some s' ->
  exists more,
    committedFragments s' = committedFragments s ++ more
    /\ length more = if is_commit c then 1%nat else 0%nat.
Proof.
  assert (Hsame : forall t, committedFragments t = committedFragments s ->
            exists more, committedFragments t = committedFragments s ++ more
                         /\ length more = 0%nat).
  { intros t ->. exists []. rewrite app_nil_r. split; reflexivity. }
  destruct c as [e | | i | | | | | n d | k m | bpm]; simpl.
  - intros [= <-]. apply Hsame. unfold addElement.
    destruct (_ <? _)%nat; [reflexivity|].
    destruct (canAddElementToFragment _ _); [|reflexivity].
    cbn [snd]. rewrite saveToHistory_committed; reflexivity.
  - intros [= <-]. apply Hsame. unfold deleteLastElement.
    destruct (last _); [|reflexivity]. cbn [snd]. rewrite saveToHistory_committed; reflexivity.
  - intros [= <-]. apply Hsame. unfold deleteElementAt.
    destruct (_ || _); [reflexivity|]. destruct (_ !! _); [|reflexivity].
    cbn [snd]. rewrite saveToHistory_committed; reflexivity.
  - intros [= <-]. apply Hsame. unfold clear. rewrite saveToHistory_committed; reflexivity.
  - unfold undo. destruct (_ <=? _); simpl; [intros [= <-]; apply Hsame; reflexivity|].
    destruct (index _ _); simpl; [|discriminate]. intros [= <-]. apply Hsame. reflexivity.
  - unfold redo. destruct (_ <=? _); simpl; [intros [= <-]; apply Hsame; reflexivity|].
    destruct (index _ _); simpl; [|discriminate]. intros [= <-]. apply Hsame. reflexivity.
  - intros [= <-]. eexists. split.
    + unfold commit. cbn [snd]. rewrite saveToHistory_committed. reflexivity.
    + reflexivity.
  - intros [= <-]. apply Hsame. unfold setTimeSignature.
    rewrite saveToHistory_committed; reflexivity.
  - intros [= <-]. apply Hsame. unfold setKeySignature.
    rewrite saveToHistory_committed; reflexivity.
  - intros [= <-]. apply Hsame. unfold setTempo.
    rewrite saveToHistory_committed; reflexivity.
Qed.

(** X12. The committed fragments only grow: whatever the calls, the list
    after them is the list before them followed by one fragment for each
    [commit] among the calls; no call removes or replaces a committed
    fragment. *)
Theorem committed_fragments_only_grow :
  forall (calls : list (Z * Call)) (s s' : State),
    run calls s = Some s' ->
    exists more,
      getCommittedFragments s' = getCommittedFragments s ++ more
      /\ length more = commits calls.
Proof.
  unfold getCommittedFragments, commits.
  induction calls as [|[now c] rest IH]; intros s s'; simpl.
  - intros [= <-]. exists []. rewrite app_nil_r. split; reflexivity.
  - destruct (step now c s) as [s1|] eqn:Hstep; [|discriminate]. intros Hrun.
    destruct (step_committed now c s s1 Hstep) as (m1 & E1 & L1).
    destruct (IH s1 s' Hrun) as (m2 & E2 & L2).
    exists (m1 ++ m2). rewrite E2, E1, <- app_assoc. split; [reflexivity|].
    rewrite length_app, L1, L2. destruct (is_commit c); reflexivity.
Qed.

Lemma measures_counted_empty (now : Z) (ts : TimeSig) (ks : KeySig) (tempo : float) :
  measures_counted (createEmptyFragment now ts ks tempo).
Proof. reflexivity. Qed.

Lemma saveToHistory_measures (now : Z) (a : Action) (s : State) :
  measures_kept s -> measures_kept (saveToHistory now a s).
Proof.
  intros (Hc & Hh & Hk). unfold saveToHistory.
  assert (Hkept : Forall (fun entry => measures_counted (fragment entry))
            ((if historyIndex s <? len (history s) - 1
              then slice0 (history s) (historyIndex s + 1) else history s)
             ++ [{| fragment := currentFragment s; entry_timestamp := now; action := a |}])).
  { apply Forall_app. split; [|repeat constructor; exact Hc].
    destruct (_ <? _); [|exact Hh].
    unfold slice0. destruct (_ <? _); apply Forall_take, Hh. }
  destruct (_ <? len _); repeat split; simpl; try assumption.
  apply Forall_tail, Hkept.
Qed.

Lemma updateMetadata_measures (f : MusicalFragment) (s : State) :
  measures_kept s -> measures_kept (updateMetadata (with_fragment f s)).
Proof. intros (_ & Hh & Hk). repeat split; assumption. Qed.

Lemma with_fragment_measures (f : MusicalFragment) (s : State) :
  measures_kept s -> measures_counted f -> measures_kept (with_fragment f s).
Proof. intros (_ & Hh & Hk) Hf. repeat split; assumption. Qed.

Lemma step_measures (now : Z) (c : Call) (s s' : State) :
  measures_kept s -> step now c s = Some s' -> measures_kept s'.
Proof.
  intros Hs. pose proof Hs as (Hc & Hh & Hk).
  destruct c as [e | | i | | | | | n d | k m | bpm]; simpl.
  - intros [= <-]. unfold addElement.
    destruct (_ <? _)%nat; [exact Hs|].
    destruct (canAddElementToFragment _ _); [|exact Hs].
    cbn [snd]. apply saveToHistory_measures, updateMetadata_measures, Hs.
  - intros [= <-]. unfold deleteLastElement.
    destruct (last _); [|exact Hs]. cbn [snd].
    apply saveToHistory_measures, updateMetadata_measures, Hs.
  - intros [= <-]. unfold deleteElementAt.
    destruct (_ || _); [exact Hs|]. destruct (_ !! _); [|exact Hs].
    cbn [snd]. apply saveToHistory_measures, updateMetadata_measures, Hs.
  - intros [= <-]. unfold clear.
    apply saveToHistory_measures, with_fragment_measures;
      [exact Hs | apply measures_counted_empty].
  - unfold undo. destruct (_ <=? _); simpl; [intros [= <-]; exact Hs|].
    destruct (index _ _) as [entry|] eqn:He; simpl; [|discriminate]. intros [= <-].
    repeat split; simpl; try assumption.
    unfold index in He. destruct (_ <? _); [discriminate|].
    eapply (Forall_lookup_1 _ _ _ _ Hh He).
  - unfold redo. destruct (_ <=? _); simpl; [intros [= <-]; exact Hs|].
    destruct (index _ _) as [entry|] eqn:He; simpl; [|discriminate]. intros [= <-].
    repeat split; simpl; try assumption.
    unfold index in He. destruct (_ <? _); [discriminate|].
    eapply (Forall_lookup_1 _ _ _ _ Hh He).
  - intros [= <-]. unfold commit. cbn [snd].
    apply saveToHistory_measures. repeat split; simpl.
    + constructor.
    + apply Forall_app. split; [exact Hk|]. repeat constructor. exact Hc.
  - intros [= <-]. unfold setTimeSignature.
    apply saveToHistory_measures, updateMetadata_measures, Hs.
  - intros [= <-]. unfold setKeySignature.
    apply saveToHistory_measures, with_fragment_measures; [exact Hs|exact Hc].
  - intros [= <-]. unfold setTempo.
    apply saveToHistory_measures, with_fragment_measures; [exact Hs|exact Hc].
Qed.

(** X13. The measure count of the metadata is always the number of
    barlines: on a manager used through its methods, the working fragment,
    every snapshot of the history and every committed fragment has a
    [metadata.measures] equal to the number of its barline elements. *)
Theorem measures_count_the_barlines :
  forall (max : Z) (s : State),
    reachable max s ->
    measures (metadata (currentFragment s)) = countMeasures (elements (currentFragment s))
    /\ (forall entry, In entry (history s) ->
          measures (metadata (fragment entry)) = countMeasures (elements (fragment entry)))
    /\ (forall f, In f (getCommittedFragments s) ->
          measures (metadata f) = countMeasures (elements f)).
Proof.
  intros max s (now & ts & ks & tempo & calls & Hrun).
  assert (H0 : measures_kept (constructor now max ts ks tempo)).
  { unfold constructor. apply saveToHistory_measures.
    repeat split; simpl; constructor. }
  assert (Hs : measures_kept s).
  { revert Hrun. generalize (constructor now max ts ks tempo) H0.
    induction calls as [|[t c] rest IH]; intros s0 Hs0; simpl.
    - intros [= <-]. exact Hs0.
    - destruct (step t c s0) as [s1|] eqn:Hstep; [|discriminate].
      apply IH. eapply step_measures; eassumption. }
  destruct Hs as (Hc & Hh & Hk). split; [exact Hc|]. split.
  - intros entry Hin. exact (proj1 (List.Forall_forall _ _) Hh entry Hin).
  - intros f Hin. exact (proj1 (List.Forall_forall _ _) Hk f Hin).
Qed.

End ManagerEdits.

(** ** What a fragment can hold *)

Section ManagerElements.
Import FragmentManager Validation Spec.
Context `{Runtime}.

Lemma sound_sublist (f g : MusicalFragment) :
  sublist (elements g) (elements f) -> sound_elements f -> sound_elements g.
Proof.
  intros Hsub (Hv & Hs). split.
  - unfold validated in *. rewrite Forall_forall in *.
    intros e He. apply Hv. eapply elem_of_sublist; eassumption.
  - intros e1 e2 H12. apply Hs. etransitivity; eassumption.
Qed.

Lemma sound_same_elements (f g : MusicalFragment) :
  elements g = elements f -> sound_elements f -> sound_elements g.
Proof. intros E. apply sound_sublist. rewrite E. reflexivity. Qed.

Lemma sound_added (f g : MusicalFragment) (e : MusicalElement) :
  elements g = elements f ++ [e] ->
  validateMusicalElement e = [] ->
  canAddElementToFragment e (elements f) = Valid ->
  sound_elements f -> sound_elements g.
Proof.
  intros E He Hadd (Hv & Hs). unfold sound_elements. rewrite E. split.
  - apply Forall_app. split; [exact Hv|]. constructor; [exact He | constructor].
  - intros e1 e2 H12 H1.
    apply sublist_app_r in H12 as (l1 & l2 & E12 & Hl1 & Hl2).
    destruct l1 as [|a [|b l1]]; simpl in E12.
    + subst l2. apply sublist_length in Hl2. simpl in Hl2. lia.
    + injection E12 as Ea El2. subst a l2.
      apply sublist_cons_l in Hl2 as (k1 & k2 & Ek & _).
      destruct k1 as [|? [|]]; [|discriminate Ek..]. injection Ek as Ee _. subst e.
      unfold canAddElementToFragment in Hadd.
      destruct (is_signature e2); [|reflexivity].
      destruct (existsb is_note_or_rest (elements f)) eqn:Hex; [discriminate Hadd|].
      assert (Hin : In e1 (elements f)).
      { apply list_elem_of_In. eapply elem_of_sublist; [|exact Hl1]. left. }
      rewrite <- not_true_iff_false in Hex. exfalso. apply Hex.
      apply existsb_exists. exists e1. split; assumption.
    + injection E12 as Ea Eb E3. subst a b.
      destruct l1; [|discriminate E3]. apply (Hs e1 e2 Hl1 H1).
Qed.

Lemma sound_empty (now : Z) (ts : TimeSig) (ks : KeySig) (tempo : float) :
  sound_elements (createEmptyFragment now ts ks tempo).
Proof.
  split; [constructor|]. intros e1 e2 H12. apply sublist_length in H12.
  simpl in H12. lia.
Qed.

Lemma saveToHistory_elements (now : Z) (a : Action) (s : State) :
  elements_kept s -> elements_kept (saveToHistory now a s).
Proof.
  intros (Hc & Hh & Hk). unfold saveToHistory.
  assert (Hkept : Forall (fun entry => sound_elements (fragment entry))
            ((if historyIndex s <? len (history s) - 1
              then slice0 (history s) (historyIndex s + 1) else history s)
             ++ [{| fragment := currentFragment s; entry_timestamp := now; action := a |}])).
  { apply Forall_app. split; [|constructor; [exact Hc | constructor]].
    destruct (_ <? _); [|exact Hh].
    unfold slice0. destruct (_ <? _); apply Forall_take, Hh. }
  destruct (_ <? len _); (split; [exact Hc|]; split; [|exact Hk]); simpl;
    [apply Forall_tail, Hkept | exact Hkept].
Qed.

Lemma with_fragment_elements (f : MusicalFragment) (s : State) :
  elements_kept s -> sound_elements f -> elements_kept (with_fragment f s).
Proof. intros (_ & Hh & Hk) Hf. split; [exact Hf|]. split; assumption. Qed.

Lemma updateMetadata_elements (s : State) :
  elements_kept s -> elements_kept (updateMetadata s).
Proof. intros (Hc & Hh & Hk). split; [exact Hc|]. split; assumption. Qed.

Lemma moved_cursor_elements (s : State) (i : Z) (entry : FragmentHistoryEntry) :
  elements_kept s -> index (history s) i = Some entry ->
  elements_kept (with_fragment (fragment entry) (with_history (history s) i s)).
Proof.
  intros (Hc & Hh & Hk) He. split; [|split; assumption]. simpl.
  unfold index in He. destruct (_ <? _); [discriminate|].
  exact (Forall_lookup_1 _ _ _ _ Hh He).
Qed.

Lemma step_elements (now : Z) (c : Call) (s s' : State) :
  elements_kept s -> step now c s = Some s' -> elements_kept s'.
Proof.
  intros Hs. pose proof Hs as (Hc & Hh & Hk).
  destruct c as [e | | i | | | | | n d | k m | bpm]; simpl.
  - intros [= <-]. unfold addElement.
    destruct (0 <? length (validateMusicalElement e))%nat eqn:Hv; [exact Hs|].
    destruct (canAddElementToFragment _ _) eqn:Hadd; [|exact Hs].
    cbn [snd]. apply saveToHistory_elements, updateMetadata_elements.
    apply with_fragment_elements; [exact Hs|].
    apply (sound_added (currentFragment s) _ e); [reflexivity| |exact Hadd|exact Hc].
    destruct (validateMusicalElement e); [reflexivity|discriminate Hv].
  - intros [= <-]. unfold deleteLastElement.
    destruct (last _); [|exact Hs]. cbn [snd].
    apply saveToHistory_elements, updateMetadata_elements.
    apply with_fragment_elements; [exact Hs|].
    apply (sound_sublist (currentFragment s)); [|exact Hc]. simpl.
    rewrite removelast_firstn_len. apply sublist_take.
  - intros [= <-]. unfold deleteElementAt.
    destruct (_ || _); [exact Hs|]. destruct (_ !! _); [|exact Hs].
    cbn [snd]. apply saveToHistory_elements, updateMetadata_elements.
    apply with_fragment_elements; [exact Hs|].
    apply (sound_sublist (currentFragment s)); [|exact Hc]. simpl.
    rewrite <- (take_drop (Z.to_nat i) (elements (currentFragment s))) at 3.
    apply sublist_app; [reflexivity|].
    replace (S (Z.to_nat i)) with (Z.to_nat i + 1)%nat by lia.
    rewrite <- drop_drop. apply sublist_drop.
  - intros [= <-]. unfold clear.
    apply saveToHistory_elements, with_fragment_elements; [exact Hs | apply sound_empty].
  - unfold undo. destruct (_ <=? _); simpl; [intros [= <-]; exact Hs|].
    destruct (index _ _) as [entry|] eqn:He; simpl; [|discriminate]. intros [= <-].
    apply moved_cursor_elements; assumption.
  - unfold redo. destruct (_ <=? _); simpl; [intros [= <-]; exact Hs|].
    destruct (index _ _) as [entry|] eqn:He; simpl; [|discriminate]. intros [= <-].
    apply moved_cursor_elements; assumption.
  - intros [= <-]. unfold commit. cbn [snd].
    apply saveToHistory_elements. split; [apply sound_empty|]. split; simpl.
    + constructor.
    + apply Forall_app. split; [exact Hk|]. constructor; [exact Hc | constructor].
  - intros [= <-]. unfold setTimeSignature.
    apply saveToHistory_elements, updateMetadata_elements, with_fragment_elements;
      [exact Hs | exact Hc].
  - intros [= <-]. unfold setKeySignature.
    apply saveToHistory_elements, with_fragment_elements; [exact Hs | exact Hc].
  - intros [= <-]. unfold setTempo.
    apply saveToHistory_elements, with_fragment_elements; [exact Hs | exact Hc].
Qed.

Lemma run_elements (calls : list (Z * Call)) (s s' : State) :
  elements_kept s -> run calls s = Some s' -> elements_kept s'.
Proof.
  revert s. induction calls as [|[t c] rest IH]; intros s Hs; simpl.
  - intros [= <-]. exact Hs.
  - destruct (step t c s) as [s1|] eqn:Hstep; [|discriminate].
    apply IH. eapply step_elements; eassumption.
Qed.

Lemma reachable_elements (max : Z) (s : State) :
  reachable max s -> elements_kept s.
Proof.
  intros (now & ts & ks & tempo & calls & Hrun).
  apply (run_elements calls (constructor now max ts ks tempo) s); [|exact Hrun].
  unfold constructor. apply saveToHistory_elements.
  split; [apply sound_empty|]. split; constructor.
Qed.

(** X20. A fragment holds only what [addElement] has let in.  On a manager
    used through its methods, in the working fragment, in every snapshot of
    the history and in every committed fragment, every element passes
    [validateMusicalElement] with no error, and no time signature or key
    signature comes after a note or a rest; deleting, undoing, redoing and
    committing do not break this. *)
Theorem fragments_hold_accepted_elements :
  forall (max : Z) (s : State) (f : MusicalFragment),
    reachable max s ->
    f = getCurrentFragment s
    \/ In f (map fragment (history s))
    \/ In f (getCommittedFragments s) ->
    (forall e, In e (elements f) -> validateMusicalElement e = [])
    /\ (forall e1 e2,
          sublist [e1; e2] (elements f) ->
          is_note_or_rest e1 = true -> is_signature e2 = false).
Proof.
  intros max s f Hr Hf.
  destruct (reachable_elements max s Hr) as (Hc & Hh & Hk).
  assert (Hsound : sound_elements f).
  { destruct Hf as [-> | [Hin | Hin]].
    - exact Hc.
    - apply in_map_iff in Hin as (entry & <- & Hin).
      exact (proj1 (List.Forall_forall _ _) Hh entry Hin).
    - exact (proj1 (List.Forall_forall _ _) Hk f Hin). }
  destruct Hsound as (Hv & Hs). split; [|exact Hs].
  intros e He. exact (proj1 (List.Forall_forall _ _) Hv e He).
Qed.

End ManagerElements.

(** ** The manager with its objects, used through its methods *)

Section ManagerWithObjects.
Import Objects Spec.
Context `{Runtime}.



End ManagerWithObjects.

(** ** Sessions of the shortcut engine *)

Section EngineSessions.
Import ShortcutEngine Spec.
Context `{Runtime}.

Ltac each_member :=
  repeat match goal with
         | H : In _ (_ :: _) |- _ => destruct H as [<- | H]
         | H : In _ [] |- _ => destruct H
         end.


(** A method that answers [null] has left the engine as it was. *)
Lemma processControlCommand_None (input : KeyboardInput) (e e1 : Engine) :
  processControlCommand input e = (None, e1) -> e1 = e.
Proof.
  unfold processControlCommand, changeOctave.
  destruct (truthy_lookup _ _) as [control|]; [|congruence].
  repeat (destruct (String.eqb control _); [try congruence|]);
    repeat match goal with
           | |- context [if ?b then _ else _] => destruct b
           end; congruence.
Qed.

Lemma processDurationChange_None (input : KeyboardInput) (e e1 : Engine) :
  processDurationChange input e = (None, e1) -> e1 = e.
Proof.
  unfold processDurationChange. destruct (truthy_lookup _ _); congruence.
Qed.

Lemma processNoteInput_None (now : Z) (input : KeyboardInput) (e e1 : Engine) :
  processNoteInput now input e = (None, e1) -> e1 = e.
Proof.
  unfold processNoteInput. destruct (truthy_lookup _ _); [|congruence].
  destruct (ctrlKey input); congruence.
Qed.

(** An invariant of the engine and a property of its results that the
    four methods changing the engine keep are kept by [processKeyInput]. *)
Section KeyInputInvariant.
Variable I : Engine -> Prop.
Variable R : ProcessedInput -> Prop.
Hypothesis R_invalid : forall msg, R (type_invalid msg).
Hypothesis R_articulation : forall a, R (type_modifier (data_articulation a)).
Hypothesis R_dynamic : forall d, R (type_modifier (data_dynamic d)).
Hypothesis control_kept : forall input e r e1,
  I e -> processControlCommand input e = (Some r, e1) -> I e1 /\ R r.
Hypothesis chord_kept : forall now input e r e1,
  I e -> processChordNote now input e = (r, e1) -> I e1 /\ R r.
Hypothesis duration_kept : forall input e r e1,
  I e -> processDurationChange input e = (Some r, e1) -> I e1 /\ R r.
Hypothesis note_kept : forall now input e r e1,
  I e -> processNoteInput now input e = (Some r, e1) -> I e1 /\ R r.

Lemma processKeyInput_kept (now : Z) (input : KeyboardInput) (mode : InputMode)
    (e : Engine) (r : ProcessedInput) (e' : Engine) :
  I e -> processKeyInput now input mode e = (r, e') -> I e' /\ R r.
Proof using R_invalid R_articulation R_dynamic control_kept chord_kept duration_kept note_kept.
  intros He. unfold processKeyInput.
  destruct (is_stopped_or_error mode); [intros [= <- <-]; auto|].
  destruct (processControlCommand input e) as [[rc|] e1] eqn:Hc.
  { intros [= <- <-]. eapply control_kept; eassumption. }
  apply processControlCommand_None in Hc. subst e1.
  destruct (is_chord_mode mode && negb (ctrlKey input)).
  { intros Hch. eapply chord_kept; eassumption. }
  destruct (processDurationChange input e) as [[rd|] e2] eqn:Hd.
  { intros [= <- <-]. eapply duration_kept; eassumption. }
  apply processDurationChange_None in Hd. subst e2.
  unfold processArticulation, processDynamic.
  destruct (truthy_lookup (articulations _) _); [intros [= <- <-]; auto|].
  destruct (truthy_lookup (dynamics _) _); [intros [= <- <-]; auto|].
  destruct (processNoteInput now input e) as [[rn|] e3] eqn:Hn.
  { intros [= <- <-]. eapply note_kept; eassumption. }
  apply processNoteInput_None in Hn. subst e3.
  intros [= <- <-]. auto.
Qed.

End KeyInputInvariant.








Lemma formatted_pitch_valid (note : string) (a : option AccidentalMark) (o : Z) :
  In note ["C"; "D"; "E"; "F"; "G"; "A"; "B"] -> 0 <= o <= 8 ->
  isValidPitch (formatPitch note a o) = true.
Proof.
  intros Hn Ho.
  assert (Hcases : o = 0 \/ o = 1 \/ o = 2 \/ o = 3 \/ o = 4 \/ o = 5 \/ o = 6
                   \/ o = 7 \/ o = 8) by lia.
  decompose [or] Hcases; subst o; each_member; destruct a as [[]|]; reflexivity.
Qed.

Lemma modified_duration_valid (e : Engine) :
  isValidDuration (currentDuration e) = true ->
  isValidDuration (baseDuration_of (getDurationWithModifiers e)) = true
  /\ match getDurationWithModifiers e with
     | Dotted _ dots => (dots <? 0) = false
     | Plain _ => True
     end.
Proof.
  intros Hd. unfold getDurationWithModifiers.
  destruct (isDotted e); simpl; split; auto.
Qed.

(** An element that passes the validation and is no signature is added to
    any fragment. *)
Lemma valid_element_added (el : MusicalElement) :
  validateMusicalElement el = [] -> is_signature el = false ->
  forall now s, fst (FragmentManager.addElement now el s) = FragmentManager.success_true.
Proof.
  intros Hv Hs now s. unfold FragmentManager.addElement, canAddElementToFragment.
  rewrite Hv, Hs. reflexivity.
Qed.

Lemma note_accepted (pitch : string) (a : option AccidentalMark) (e : Engine) :
  isValidPitch pitch = true -> isValidDuration (currentDuration e) = true ->
  accepted (createNote pitch a e).
Proof.
  intros Hp Hd el. unfold createNote. simpl. intros [= <-].
  destruct (modified_duration_valid e Hd) as (Hb & Hdots).
  assert (Hv : validateMusicalElement
                 (ENote {| note_pitch := pitch;
                           note_duration := getDurationWithModifiers e;
                           note_accidental := a;
                           note_tuplet := if isTriplet e then Some "triplet" else None |})
               = []).
  { unfold validateMusicalElement, validateNote. simpl. rewrite Hp, Hb. simpl.
    destruct (getDurationWithModifiers e); [reflexivity|]. rewrite Hdots. reflexivity. }
  split; [exact Hv | apply valid_element_added; [exact Hv | reflexivity]].
Qed.

Lemma rest_accepted (d : DurationSpec) : accepted (type_rest d).
Proof.
  intros el. simpl. intros [= <-].
  split; [reflexivity | apply valid_element_added; reflexivity].
Qed.

Lemma no_element_accepted (r : ProcessedInput) :
  element_of_result r = None -> accepted r.
Proof. intros Hr el. rewrite Hr. discriminate. Qed.

Lemma valid_pitches_no_error (l : list string) :
  Forall (fun p => isValidPitch p = true) l ->
  flat_map (fun pitch => error_if (negb (isValidPitch pitch))
                           ("Invalid pitch in chord: " ++ pitch)%string) l = [].
Proof.
  induction 1 as [|p l Hp _ IH]; simpl; [reflexivity|]. rewrite Hp. simpl. exact IH.
Qed.

Lemma control_tuned (input : KeyboardInput) (e : Engine) (r : ProcessedInput)
    (e1 : Engine) :
  tuned e -> processControlCommand input e = (Some r, e1) -> tuned e1 /\ accepted r.
Proof.
  intros (Ho & Hd & Hn & Hm). unfold processControlCommand, changeOctave, createBarline.
  destruct (truthy_lookup _ _) as [control|]; [|discriminate].
  repeat (destruct (String.eqb control _);
          [ repeat match goal with
                   | |- context [if ?b then _ else _] => destruct b eqn:?
                   end;
            intros [= <- <-];
            (split;
             [ unfold tuned; simpl; split; [lia | split; [|split]]; assumption
             | first [ apply rest_accepted
                     | apply no_element_accepted; reflexivity
                     | intros el; simpl; intros [= <-];
                       split; [reflexivity | apply valid_element_added; reflexivity] ] ])
          | ]).
  discriminate.
Qed.

Lemma chord_tuned (now : Z) (input : KeyboardInput) (e : Engine) (r : ProcessedInput)
    (e1 : Engine) :
  tuned e -> processChordNote now input e = (r, e1) -> tuned e1 /\ accepted r.
Proof.
  intros He. pose proof He as (Ho & Hd & Hn & Hm). unfold processChordNote, completeChord.
  destruct (String.eqb _ "Enter").
  - destruct (Nat.eqb_spec (length (chordNotes e)) 0) as [Hz|Hnz].
    + intros [= <- <-]. split; [exact He|].
      apply no_element_accepted. reflexivity.
    + intros [= <- <-]. split.
      * unfold tuned. simpl. split; [exact Ho|]. split; [exact Hd|].
        split; [constructor | exact Hm].
      * intros el. simpl. intros [= <-].
        destruct (modified_duration_valid e Hd) as (Hb & _).
        assert (Hv : validateMusicalElement
                       (EChord {| chord_pitches := chordNotes e;
                                  chord_duration := getDurationWithModifiers e |}) = []).
        { unfold validateMusicalElement, validateChord. simpl.
          destruct (Nat.eqb_spec (length (chordNotes e)) 0); [contradiction|].
          rewrite (valid_pitches_no_error _ Hn), Hb. reflexivity. }
        split; [exact Hv | apply valid_element_added; [exact Hv | reflexivity]].
  - destruct (truthy_lookup _ _) as [note|] eqn:Hl.
    2: { intros [= <- <-]. split; [exact He|].
         apply no_element_accepted. reflexivity. }
    set (pitch := formatPitch _ _ _).
    assert (Hp : isValidPitch pitch = true).
    { apply formatted_pitch_valid; [|exact Ho]. destruct Hm as (Hm & _). eapply Hm, Hl. }
    destruct (includes (chordNotes e) pitch); intros [= <- <-].
    + split; [exact He|]. apply no_element_accepted. reflexivity.
    + split; [|apply no_element_accepted; reflexivity].
      unfold tuned. simpl. split; [exact Ho|]. split; [exact Hd|]. split; [|exact Hm].
      apply Forall_app. split; [exact Hn | repeat constructor; exact Hp].
Qed.

Lemma duration_tuned (input : KeyboardInput) (e : Engine) (r : ProcessedInput)
    (e1 : Engine) :
  tuned e -> processDurationChange input e = (Some r, e1) -> tuned e1 /\ accepted r.
Proof.
  intros He. pose proof He as (Ho & Hd & Hn & Hm). unfold processDurationChange.
  destruct (truthy_lookup _ _) as [d|] eqn:Hl; [|discriminate].
  intros [= <- <-]. split; [|apply no_element_accepted; reflexivity].
  pose proof Hm as (Hp & Hdur).
  destruct (String.eqb_spec d "dotted-quarter") as [->|N1].
  { unfold tuned. simpl. split; [exact Ho|]. split; [reflexivity|]. split; assumption. }
  destruct (String.eqb_spec d "triplet-eighth") as [->|N2].
  { unfold tuned. simpl. split; [exact Ho|]. split; [reflexivity|]. split; assumption. }
  destruct (Hdur _ _ Hl) as [Hv|[E|E]]; try contradiction.
  unfold tuned. simpl. split; [exact Ho|]. split; [exact Hv|]. split; assumption.
Qed.

Lemma note_tuned (now : Z) (input : KeyboardInput) (e : Engine) (r : ProcessedInput)
    (e1 : Engine) :
  tuned e -> processNoteInput now input e = (Some r, e1) -> tuned e1 /\ accepted r.
Proof.
  intros He. pose proof He as (Ho & Hd & Hn & Hm). unfold processNoteInput.
  destruct (truthy_lookup _ _) as [note|] eqn:Hl; [|discriminate].
  set (pitch := formatPitch _ _ _).
  assert (Hp : isValidPitch pitch = true).
  { apply formatted_pitch_valid; [|exact Ho]. destruct Hm as (Hm & _). eapply Hm, Hl. }
  destruct (ctrlKey input); intros [= <- <-].
  - split; [|apply no_element_accepted; reflexivity].
    unfold tuned. simpl. split; [exact Ho|]. split; [exact Hd|]. split; [|exact Hm].
    repeat constructor. exact Hp.
  - split; [exact He|]. apply note_accepted; assumption.
Qed.

Lemma engine_step_tuned (c : engine_call) (e : Engine) :
  tuned e -> musical_call c ->
  tuned (snd (engine_step c e)) /\ Forall accepted (fst (engine_step c e)).
Proof.
  intros He Hc. destruct c as [now input mode | | km]; simpl.
  - destruct (processKeyInput now input mode e) as [r e1] eqn:Hk. simpl.
    destruct (processKeyInput_kept tuned accepted
                ltac:(intros; apply no_element_accepted; reflexivity)
                ltac:(intros; apply no_element_accepted; reflexivity)
                ltac:(intros; apply no_element_accepted; reflexivity)
                control_tuned chord_tuned duration_tuned note_tuned
                now input mode e r e1 He Hk) as (H1 & Hr).
    split; [exact H1 | constructor; [exact Hr | constructor]].
  - split; [|constructor]. destruct He as (_ & _ & _ & Hm).
    unfold tuned. simpl. split; [lia|]. split; [reflexivity|]. split; [constructor|exact Hm].
  - split; [|constructor]. destruct He as (Ho & Hd & Hn & _).
    unfold tuned. simpl. split; [exact Ho|]. split; [exact Hd|]. split; [exact Hn|exact Hc].
Qed.

Lemma engine_run_tuned (calls : list engine_call) (e : Engine) :
  tuned e -> Forall musical_call calls ->
  tuned (snd (engine_run calls e)) /\ Forall accepted (fst (engine_run calls e)).
Proof.
  revert e. induction calls as [|c rest IH]; intros e He Hcalls; simpl.
  - split; [exact He | constructor].
  - apply Forall_cons in Hcalls as (Hc & Hrest).
    destruct (engine_step_tuned c e He Hc) as (H1 & Hr1).
    destruct (engine_step c e) as [rs e1]. simpl in *.
    destruct (IH e1 H1 Hrest) as (H2 & Hr2).
    destruct (engine_run rest e1) as [rs' e2]. simpl in *.
    split; [exact H2 | apply Forall_app; split; assumption].
Qed.

(** X17. What the engine produces, the fragment manager takes.  With key
    mappings whose pitch entries name natural notes and whose duration
    entries name durations, every note, rest, chord or barline that the
    engine returns, at any point of any session, passes
    [validateMusicalElement] and is added by [addElement], whatever the
    fragment. *)
Theorem engine_elements_are_accepted :
  forall (km : KeyMappings) (calls : list engine_call),
    musical_mappings km ->
    Forall musical_call calls ->
    forall r el,
      In r (fst (engine_run calls (constructor km))) ->
      element_of_result r = Some el ->
      validateMusicalElement el = []
      /\ forall now s,
           fst (FragmentManager.addElement now el s) = FragmentManager.success_true.
Proof.
  intros km calls Hkm Hcalls r el Hin Hel.
  assert (H0 : tuned (constructor km)).
  { unfold tuned. simpl. split; [lia|]. split; [reflexivity|]. split; [constructor|exact Hkm]. }
  destruct (engine_run_tuned calls _ H0 Hcalls) as (_ & Hrs).
  exact (proj1 (List.Forall_forall accepted _) Hrs r Hin el Hel).
Qed.

Lemma default_mappings_are_musical : musical_mappings DEFAULT_KEY_MAPPINGS.
Proof.
  split; intros k v; unfold truthy_lookup;
    destruct (_ !! k) as [x|] eqn:Hl; try discriminate;
    destruct (String.eqb x ""); try discriminate; intros [= <-];
    apply elem_of_list_to_map_2 in Hl;
    repeat (apply elem_of_cons in Hl as [[= -> ->]|Hl];
            [simpl; first [tauto | left; reflexivity]|]);
    apply elem_of_nil in Hl; contradiction.
Qed.

End EngineSessions.

(** ** Sessions on concrete inputs *)

Section SessionExamples.
Import Spec.
#[local] Existing Instance Eval.runtime.

Lemma undo_and_redo_are_inverse_witness :
  let s := snd (FragmentManager.addElement 1 (quarter_note "C4")
                  (FragmentManager.default_constructor 0)) in
  1 <= 20 /\ reachable 20 s
  /\ (exists s1, FragmentManager.undo s = Some (true, s1))
  /\ (forall s1, FragmentManager.undo s = Some (true, s1) ->
                 FragmentManager.redo s1 = Some (true, s))
  /\ (forall s1, FragmentManager.redo s = Some (true, s1) ->
                 FragmentManager.undo s1 = Some (true, s)).
Proof.
  intros s.
  assert (Hr : reachable 20 s).
  { exists 0, four_four, c_major, 120%float,
      [(1, FragmentManager.call_addElement (quarter_note "C4"))]. reflexivity. }
  split; [lia|]. split; [exact Hr|].
  split; [eexists; vm_compute; reflexivity|].
  exact (undo_and_redo_are_inverse 20 s ltac:(lia) Hr).
Defined.

Lemma snapshot_methods_can_be_undone_witness :
  let s := snd (FragmentManager.addElement 1 (quarter_note "C4")
                  (FragmentManager.default_constructor 0)) in
  2 <= 20 /\ reachable 20 s
  /\ FragmentManager.getLastElement s = Some (quarter_note "C4")
  /\ undoable s (FragmentManager.clear 2 s)
  /\ undoable s (FragmentManager.setTempo 2 90 s)
  /\ undoable s (snd (FragmentManager.deleteLastElement 2 s)).
Proof.
  intros s.
  assert (Hr : reachable 20 s).
  { exists 0, four_four, c_major, 120%float,
      [(1, FragmentManager.call_addElement (quarter_note "C4"))]. reflexivity. }
  destruct (snapshot_methods_can_be_undone 20 2 s ltac:(lia) Hr)
    as (Hclear & _ & _ & Htempo & Hlast & _).
  assert (Hl : FragmentManager.getLastElement s = Some (quarter_note "C4"))
    by reflexivity.
  split; [lia|]. split; [exact Hr|]. split; [exact Hl|].
  split; [exact Hclear|]. split; [apply Htempo | exact (Hlast _ Hl)].
Defined.

Lemma committed_fragments_only_grow_witness :
  exists s',
    FragmentManager.run commit_calls
      (FragmentManager.constructor 0 2 four_four c_major 120%float) = Some s'
    /\ commits commit_calls = 1%nat
    /\ exists more,
         FragmentManager.getCommittedFragments s'
         = FragmentManager.getCommittedFragments
             (FragmentManager.constructor 0 2 four_four c_major 120%float) ++ more
         /\ length more = commits commit_calls.
Proof.
  destruct (run_invariant commit_calls
              (FragmentManager.constructor 0 2 four_four c_major 120%float)
              (constructor_invariant 0 2 four_four c_major 120%float ltac:(lia)))
    as (s' & Hrun & _).
  exists s'. split; [exact Hrun|]. split; [reflexivity|].
  exact (committed_fragments_only_grow commit_calls _ s' Hrun).
Defined.

Lemma measures_count_the_barlines_witness :
  let s := snd (FragmentManager.addElement 2 (EBarline (Some "single"))
             (snd (FragmentManager.addElement 1 (quarter_note "C4")
                     (FragmentManager.default_constructor 0)))) in
  reachable 20 s
  /\ measures (metadata (FragmentManager.currentFragment s)) = 1%nat
  /\ measures (metadata (FragmentManager.currentFragment s))
     = countMeasures (elements (FragmentManager.currentFragment s))
  /\ (forall entry, In entry (FragmentManager.history s) ->
        measures (metadata (FragmentManager.fragment entry))
        = countMeasures (elements (FragmentManager.fragment entry)))
  /\ (forall f, In f (FragmentManager.getCommittedFragments s) ->
        measures (metadata f) = countMeasures (elements f)).
Proof.
  intros s.
  assert (Hr : reachable 20 s).
  { exists 0, four_four, c_major, 120%float,
      [(1, FragmentManager.call_addElement (quarter_note "C4"));
       (2, FragmentManager.call_addElement (EBarline (Some "single")))]. reflexivity. }
  split; [exact Hr|]. split; [reflexivity|].
  exact (measures_count_the_barlines 20 s Hr).
Defined.



Lemma engine_elements_are_accepted_witness :
  let calls :=
    [ engine_key 1 (press "3" false) CAPTURE;
      engine_key 2 (press_with "f" true false) CAPTURE ] in
  let note := {| note_pitch := "F#4"; note_duration := Dotted "quarter" 1;
                 note_accidental := Some sharp; note_tuplet := None |} in
  musical_mappings DEFAULT_KEY_MAPPINGS
  /\ Forall musical_call calls
  /\ In (ShortcutEngine.type_note note)
        (fst (engine_run calls (ShortcutEngine.constructor DEFAULT_KEY_MAPPINGS)))
  /\ validateMusicalElement (ENote note) = []
  /\ forall now s,
       fst (FragmentManager.addElement now (ENote note) s) = FragmentManager.success_true.
Proof.
  intros calls note.
  assert (Hm : musical_mappings DEFAULT_KEY_MAPPINGS)
    by exact default_mappings_are_musical.
  assert (Hc : Forall musical_call calls).
  { repeat constructor; simpl; intros Hin;
      repeat (destruct Hin as [Hin|Hin]; [discriminate Hin|]); exact Hin. }
  assert (Hin : In (ShortcutEngine.type_note note)
                   (fst (engine_run calls (ShortcutEngine.constructor DEFAULT_KEY_MAPPINGS)))).
  { vm_compute. right. left. reflexivity. }
  split; [exact Hm|]. split; [exact Hc|]. split; [exact Hin|].
  exact (engine_elements_are_accepted DEFAULT_KEY_MAPPINGS calls Hm Hc
           (ShortcutEngine.type_note note) (ENote note) Hin eq_refl).
Defined.

Lemma fragments_hold_accepted_elements_witness :
  let s := snd (FragmentManager.addElement 3 (EKeySignature "D" "major")
             (snd (FragmentManager.addElement 2 (quarter_note "C4")
                (snd (FragmentManager.addElement 1 (EKeySignature "G" "major")
                        (FragmentManager.default_constructor 0)))))) in
  let f := FragmentManager.getCurrentFragment s in
  reachable 20 s
  /\ elements f = [EKeySignature "G" "major"; quarter_note "C4"]
  /\ (forall e, In e (elements f) -> validateMusicalElement e = [])
  /\ (forall e1 e2,
        sublist [e1; e2] (elements f) ->
        is_note_or_rest e1 = true -> is_signature e2 = false).
Proof.
  intros s f.
  assert (Hr : reachable 20 s).
  { exists 0, four_four, c_major, 120%float,
      [(1, FragmentManager.call_addElement (EKeySignature "G" "major"));
       (2, FragmentManager.call_addElement (quarter_note "C4"));
       (3, FragmentManager.call_addElement (EKeySignature "D" "major"))].
    reflexivity. }
  split; [exact Hr|]. split; [reflexivity|].
  exact (fragments_hold_accepted_elements 20 s f Hr (or_introl eq_refl)).
Defined.

End SessionExamples.

(** ** More on configurations *)

Section Configurations.
Import ConfigurationManager Spec.

Lemma read_number_exported (v : option float) :
  read_number (json_of_number v) = Some (as_exported v).
Proof.
  destruct v as [x|]; [|reflexivity]. simpl.
  destruct (is_finite x); reflexivity.
Qed.

Lemma json_of_number_as_exported (v : option float) :
  json_of_number (as_exported v) = json_of_number v.
Proof.
  destruct v as [x|]; [|reflexivity]. simpl.
  destruct (is_finite x) eqn:Hf; [|reflexivity].
  destruct (is_negative_zero x) eqn:Hz; simpl.
  - reflexivity.
  - rewrite Hf, Hz. reflexivity.
Qed.

Lemma read_behavior_exported (b : BehaviorConfig) :
  read_behavior (json_of_behavior b)
  = Some {| autoCommitDelay := as_exported (autoCommitDelay b);
            undoHistorySize := as_exported (undoHistorySize b);
            defaultDuration := defaultDuration b;
            defaultOctave := as_exported (defaultOctave b);
            chordModeTimeout := as_exported (chordModeTimeout b);
            errorRecoveryMode := errorRecoveryMode b;
            debounceDelay := as_exported (debounceDelay b) |}.
Proof.
  destruct b; simpl. rewrite !read_number_exported. reflexivity.
Qed.

(** X18. A document produced by [exportConfig] that [importConfig] accepts
    is exported again as the same document, whatever the number fields of
    the configuration it came from; the stored custom mappings of the
    importing manager are untouched. *)
Theorem exported_document_is_stable :
  forall (syntax_error : string) (s s0 s1 : State),
    importConfig syntax_error (Some (exportConfig s)) s0 = (imported, s1) ->
    exportConfig s1 = exportConfig s
    /\ customKeyMappings s1 = customKeyMappings s0.
Proof.
  intros syntax_error s s0 s1. unfold importConfig.
  assert (Hread : read_config (exportConfig s)
                  = Some {| keyMappings := custom (getKeyMappings s);
                            rendering := rendering (config s);
                            behavior :=
                              {| autoCommitDelay := as_exported (autoCommitDelay (behavior (config s)));
                                 undoHistorySize := as_exported (undoHistorySize (behavior (config s)));
                                 defaultDuration := defaultDuration (behavior (config s));
                                 defaultOctave := as_exported (defaultOctave (behavior (config s)));
                                 chordModeTimeout := as_exported (chordModeTimeout (behavior (config s)));
                                 errorRecoveryMode := errorRecoveryMode (behavior (config s));
                                 debounceDelay := as_exported (debounceDelay (behavior (config s))) |} |}).
  { unfold exportConfig, json_of_config, read_config, getFullConfig.
    cbn [get_field String.eqb Ascii.eqb Bool.eqb full_keyMappings full_rendering
         full_behavior mbind option_bind].
    rewrite read_keyMappings_encoded. cbn [mbind option_bind].
    rewrite read_rendering_encoded. cbn [mbind option_bind].
    rewrite read_behavior_exported. reflexivity. }
  rewrite Hread. destruct (validateConfig _); [discriminate|].
  intros [= <-]. split; [|reflexivity].
  unfold exportConfig, json_of_config, getFullConfig, getKeyMappings, set_config.
  cbn [config keyMappings rendering behavior full_keyMappings full_rendering full_behavior].
  f_equal. f_equal. f_equal. f_equal. f_equal.
  unfold json_of_behavior.
  cbn [autoCommitDelay undoHistorySize defaultDuration defaultOctave chordModeTimeout
       errorRecoveryMode debounceDelay].
  rewrite !json_of_number_as_exported. reflexivity.
Qed.

Lemma exported_document_is_stable_witness :
  exists s1,
    importConfig "" (Some (exportConfig never_time_out)) default_configuration
    = (imported, s1)
    /\ exportConfig s1 = exportConfig never_time_out
    /\ customKeyMappings s1 = customKeyMappings default_configuration.
Proof.
  eexists. split; [vm_compute; reflexivity|].
  eapply (exported_document_is_stable "" never_time_out default_configuration).
  vm_compute. reflexivity.
Defined.


End Configurations.

(** ** The event emitter *)

Section Emitter.
Import EventEmitter Spec.

Lemma emit_on (t t0 : string) (l0 : Listener) (s : State) :
  emit t (on t0 l0 s) = if decide (t = t0) then Set_add l0 (emit t0 s) else emit t s.
Proof.
  unfold emit, on. destruct (decide (t = t0)) as [->|Hne].
  - destruct (listeners s !! t0); simpl; rewrite lookup_insert_eq; reflexivity.
  - destruct (listeners s !! t0); simpl; rewrite lookup_insert_ne by congruence;
      reflexivity.
Qed.

Lemma emit_off (t t0 : string) (l0 : Listener) (s : State) :
  emit t (off t0 l0 s) = if decide (t = t0) then Set_delete l0 (emit t0 s) else emit t s.
Proof.
  unfold emit, off. destruct (decide (t = t0)) as [->|Hne].
  - destruct (listeners s !! t0) as [ls|] eqn:E; [|rewrite E; reflexivity].
    destruct (Nat.eqb_spec (length (Set_delete l0 ls)) 0) as [Hz|Hnz]; simpl.
    + rewrite lookup_delete_eq. apply nil_length_inv in Hz. symmetry. exact Hz.
    + rewrite lookup_insert_eq. reflexivity.
  - destruct (listeners s !! t0) as [ls|] eqn:E; [|reflexivity].
    destruct (Nat.eqb (length (Set_delete l0 ls)) 0); simpl.
    + rewrite lookup_delete_ne by congruence. reflexivity.
    + rewrite lookup_insert_ne by congruence. reflexivity.
Qed.

Lemma emit_removeAllListeners (t : string) (t0 : option string) (s : State) :
  emit t (removeAllListeners t0 s)
  = match t0 with
    | Some t' => if decide (t' = "" \/ t' = t) then [] else emit t s
    | None => []
    end.
Proof.
  unfold emit, removeAllListeners. destruct t0 as [t'|]; [|reflexivity].
  destruct (String.eqb_spec t' "") as [->|Hne]; cbn [listeners].
  - destruct (decide ("" = "" \/ "" = t)) as [_|Hn]; [reflexivity|].
    exfalso. apply Hn. left. reflexivity.
  - destruct (decide (t' = "" \/ t' = t)) as [[He| ->]|Hn].
    + contradiction.
    + rewrite lookup_delete_eq. reflexivity.
    + rewrite lookup_delete_ne; [reflexivity|]. intros ->. apply Hn. right. reflexivity.
Qed.

Lemma sorted_weaken {A} (R R' : A -> A -> Prop) (l : list A) :
  (forall x y, x ∈ l -> y ∈ l -> R x y -> R' x y) ->
  StronglySorted R l -> StronglySorted R' l.
Proof.
  intros HR Hs. induction Hs as [|a l Hs IH Ha]; constructor.
  - apply IH. intros x y Hx Hy. apply HR; right; assumption.
  - rewrite Forall_forall in *. intros y Hy. apply HR; [left|right; exact Hy|auto].
Qed.

Lemma sorted_filter {A} (R : A -> A -> Prop) (P : A -> Prop) `{!forall x, Decision (P x)}
    (l : list A) :
  StronglySorted R l -> StronglySorted R (filter P l).
Proof.
  intros Hs. induction Hs as [|a l Hs IH Ha]; [constructor|].
  rewrite filter_cons. destruct (decide (P a)); [|exact IH].
  constructor; [exact IH|]. rewrite Forall_forall in *.
  intros y Hy. apply list_elem_of_filter in Hy as (_ & Hy). auto.
Qed.

Lemma sorted_snoc {A} (R : A -> A -> Prop) (l : list A) (x : A) :
  StronglySorted R l -> (forall y, y ∈ l -> R y x) -> StronglySorted R (l ++ [x]).
Proof.
  intros Hs Hx. induction Hs as [|a l Hs IH Ha]; simpl.
  - constructor; constructor.
  - constructor.
    + apply IH. intros y Hy. apply Hx. right. exact Hy.
    + apply Forall_app. split; [exact Ha|]. constructor; [|constructor].
      apply Hx. left.
Qed.

Lemma emitter_agrees_step (i : nat) (c : emitter_call) (s : State)
    (r : string -> Listener -> option nat) :
  emitter_agrees i s r ->
  emitter_agrees (S i) (emitter_step c s) (fun t l => registration_step i c t l (r t l)).
Proof.
  intros Hs t. destruct (Hs t) as (Hmem & Hlt & Hsort).
  destruct c as [t0 l0 | t0 l0 | [t0|]]; cbn [emitter_step registration_step].
  - (* on *)
    rewrite emit_on. destruct (decide (t = t0)) as [->|Hne].
    + unfold Set_add. destruct (decide (l0 ∈ emit t0 s)) as [Hin|Hout].
      * assert (Hsame : forall l, l ∈ emit t0 s ->
                  registration_step i (emitter_on t0 l0) t0 l (r t0 l) = r t0 l).
        { intros l Hl. cbn. destruct (decide _) as [[_ ->]|_]; [|reflexivity].
          apply Hmem in Hl as [k Hk]. rewrite Hk. reflexivity. }
        cbn in Hsame. split; [|split].
        -- intros l. destruct (decide (t0 = t0 /\ l0 = l)) as [[_ <-]|Hn].
           ++ apply Hmem in Hin as Hk. destruct Hk as [k Hk]. rewrite Hk.
              split; [eauto|]. intros _. apply Hmem. eauto.
           ++ apply Hmem.
        -- intros l k. destruct (decide _) as [[_ <-]|_].
           ++ apply Hmem in Hin as [k' Hk']. rewrite Hk'. intros [= <-].
              apply Hlt in Hk'. lia.
           ++ intros Hk. apply Hlt in Hk. lia.
        -- revert Hsort. apply sorted_weaken. intros x y Hx Hy (k1 & k2 & H1 & H2 & H12).
           exists k1, k2. rewrite (Hsame x Hx), (Hsame y Hy). auto.
      * assert (Hnone : r t0 l0 = None).
        { destruct (r t0 l0) eqn:E; [|reflexivity]. exfalso. apply Hout, Hmem. eauto. }
        split; [|split].
        -- intros l. rewrite elem_of_app, list_elem_of_singleton.
           destruct (decide (t0 = t0 /\ l0 = l)) as [[_ <-]|Hn].
           ++ rewrite Hnone. split; [eauto|]. intros _. right. reflexivity.
           ++ rewrite Hmem. split; [intros [Hl| ->]; [exact Hl|]|intros Hl; left; exact Hl].
              exfalso. apply Hn. split; reflexivity.
        -- intros l k. destruct (decide _) as [[_ <-]|_].
           ++ rewrite Hnone. intros [= <-]. lia.
           ++ intros Hk. apply Hlt in Hk. lia.
        -- apply sorted_snoc.
           ++ revert Hsort. apply sorted_weaken.
              intros x y Hx Hy (k1 & k2 & H1 & H2 & H12). exists k1, k2.
              destruct (decide (t0 = t0 /\ l0 = x)) as [[_ <-]|_]; [contradiction|].
              destruct (decide (t0 = t0 /\ l0 = y)) as [[_ <-]|_]; [contradiction|].
              auto.
           ++ intros y Hy. apply Hmem in Hy as Hk. destruct Hk as [k Hk].
              exists k, i.
              destruct (decide (t0 = t0 /\ l0 = y)) as [[_ <-]|_]; [contradiction|].
              destruct (decide (t0 = t0 /\ l0 = l0)) as [_|Hn];
                [|exfalso; apply Hn; split; reflexivity].
              rewrite Hnone. split; [exact Hk|]. split; [reflexivity|].
              apply Hlt in Hk. exact Hk.
    + assert (Hsame : forall l, registration_step i (emitter_on t0 l0) t l (r t l) = r t l).
      { intros l. cbn. destruct (decide _) as [[E _]|_]; [congruence|reflexivity]. }
      cbn in Hsame. split; [|split].
      * intros l. rewrite Hsame. apply Hmem.
      * intros l k. rewrite Hsame. intros Hk. apply Hlt in Hk. lia.
      * revert Hsort. apply sorted_weaken. intros x y _ _ (k1 & k2 & H1 & H2 & H12).
        exists k1, k2. rewrite !Hsame. auto.
  - (* off *)
    rewrite emit_off. destruct (decide (t = t0)) as [->|Hne].
    + unfold Set_delete. split; [|split].
      * intros l. rewrite list_elem_of_filter.
        destruct (decide (t0 = t0 /\ l0 = l)) as [[_ <-]|Hn].
        -- split; [intros [Hl _]; contradiction | intros [k Hk]; discriminate Hk].
        -- rewrite Hmem. split; [intros [_ Hl]; exact Hl|]. intros Hl.
           split; [|exact Hl]. intros ->. apply Hn. split; reflexivity.
      * intros l k. destruct (decide _); [discriminate|].
        intros Hk. apply Hlt in Hk. lia.
      * apply (sorted_filter _ (fun y => y <> l0)) in Hsort.
        revert Hsort. apply sorted_weaken.
        intros x y Hx Hy (k1 & k2 & H1 & H2 & H12).
        apply list_elem_of_filter in Hx as (Hx & _).
        apply list_elem_of_filter in Hy as (Hy & _).
        exists k1, k2.
        destruct (decide (t0 = t0 /\ l0 = x)) as [[_ <-]|_]; [contradiction|].
        destruct (decide (t0 = t0 /\ l0 = y)) as [[_ <-]|_]; [contradiction|].
        auto.
    + assert (Hsame : forall l, registration_step i (emitter_off t0 l0) t l (r t l) = r t l).
      { intros l. cbn. destruct (decide _) as [[E _]|_]; [congruence|reflexivity]. }
      cbn in Hsame. split; [|split].
      * intros l. rewrite Hsame. apply Hmem.
      * intros l k. rewrite Hsame. intros Hk. apply Hlt in Hk. lia.
      * revert Hsort. apply sorted_weaken. intros x y _ _ (k1 & k2 & H1 & H2 & H12).
        exists k1, k2. rewrite !Hsame. auto.
  - (* removeAllListeners(t0) *)
    rewrite emit_removeAllListeners.
    destruct (decide (t0 = "" \/ t0 = t)) as [Hyes|Hno].
    + split; [|split].
      * intros l. split; [intros Hl; inversion Hl | intros [k Hk]; discriminate Hk].
      * intros l k Hk. discriminate Hk.
      * constructor.
    + split; [exact Hmem|]. split; [|exact Hsort].
      intros l k Hk. apply Hlt in Hk. lia.
  - (* removeAllListeners() *)
    rewrite emit_removeAllListeners. split; [|split].
    + intros l. split; [intros Hl; inversion Hl | intros [k Hk]; discriminate Hk].
    + intros l k Hk. discriminate Hk.
    + constructor.
Qed.

Lemma emitter_agrees_run (calls : list emitter_call) (i : nat) (s : State)
    (r : string -> Listener -> option nat) :
  emitter_agrees i s r ->
  emitter_agrees (i + length calls) (emitter_run calls s)
         (fun t l => registration_from i calls t l (r t l)).
Proof.
  revert i s r. induction calls as [|c rest IH]; intros i s r Hs; simpl.
  - rewrite Nat.add_0_r. exact Hs.
  - replace (i + S (length rest))%nat with (S i + length rest)%nat by lia.
    apply (IH (S i) (emitter_step c s)
              (fun t l => registration_step i c t l (r t l))).
    apply emitter_agrees_step, Hs.
Qed.

Lemma emitter_agrees_new : emitter_agrees 0 new (fun _ _ => None).
Proof.
  intros t. split; [|split].
  - intros l. unfold emit, new. simpl. rewrite lookup_empty.
    split; [intros Hl; inversion Hl | intros [k Hk]; discriminate Hk].
  - intros l k Hk. discriminate Hk.
  - unfold emit, new. simpl. rewrite lookup_empty. constructor.
Qed.

Lemma hasListeners_emit (t : string) (s : State) :
  hasListeners t s = true <-> emit t s <> [].
Proof.
  unfold hasListeners, emit. destruct (listeners s !! t) as [[|l ls]|]; simpl.
  - split; [discriminate | intros Hn; contradiction Hn; reflexivity].
  - split; [discriminate | reflexivity].
  - split; [discriminate | intros Hn; contradiction Hn; reflexivity].
Qed.

(** X21. Who is notified by [emit], after any calls of [on], [off] and
    [removeAllListeners] on a new emitter: exactly the listeners registered
    for the type of the event by an [on] that no later [off] of the same
    type and listener, no later [removeAllListeners] of the type and no
    later [removeAllListeners] without a type (or with the empty string)
    has undone; each of them once, however many times it was registered,
    and in the order of their registrations.  [hasListeners] says whether
    there is one. *)
Theorem emit_notifies_the_registered :
  forall (calls : list emitter_call) (t : string),
    let notified := emit t (emitter_run calls new) in
    (forall l, In l notified <-> exists k, registration calls t l = Some k)
    /\ NoDup notified
    /\ (forall n1 n2 l1 l2,
          (n1 < n2)%nat -> nth_error notified n1 = Some l1 ->
          nth_error notified n2 = Some l2 ->
          exists k1 k2,
            registration calls t l1 = Some k1
            /\ registration calls t l2 = Some k2 /\ (k1 < k2)%nat)
    /\ (hasListeners t (emitter_run calls new) = true
        <-> exists l k, registration calls t l = Some k).
Proof.
  intros calls t notified.
  destruct (emitter_agrees_run calls 0 new (fun _ _ => None) emitter_agrees_new t) as (Hmem & _ & Hsort).
  fold (registration calls t) in Hmem. fold notified in Hmem, Hsort.
  assert (Hord : forall n1 n2 l1 l2,
            (n1 < n2)%nat -> nth_error notified n1 = Some l1 ->
            nth_error notified n2 = Some l2 ->
            exists k1 k2,
              registration calls t l1 = Some k1
              /\ registration calls t l2 = Some k2 /\ (k1 < k2)%nat).
  { clear Hmem. induction Hsort as [|a l Hs IH Ha]; intros n1 n2 l1 l2 Hlt H1 H2.
    - destruct n1; discriminate H1.
    - destruct n2 as [|n2]; [lia|]. destruct n1 as [|n1]; simpl in H1, H2.
      + injection H1 as <-. rewrite Forall_forall in Ha.
        apply Ha, list_elem_of_In, (nth_error_In _ _ H2).
      + apply (IH n1 n2); [lia|assumption..]. }
  split; [|split; [|split]].
  - intros l. rewrite <- list_elem_of_In. apply Hmem.
  - apply NoDup_ListNoDup, NoDup_nth_error. intros n1 n2 Hn1 E.
    destruct (nth_error notified n1) as [l1|] eqn:E1;
      [|apply nth_error_None in E1; lia].
    destruct (Nat.lt_trichotomy n1 n2) as [Hlt|[Heq|Hgt]]; [|exact Heq|].
    + destruct (Hord n1 n2 l1 l1 Hlt E1 (eq_sym E)) as (k1 & k2 & H1 & H2 & Hk).
      rewrite H1 in H2. injection H2 as <-. lia.
    + destruct (Hord n2 n1 l1 l1 Hgt (eq_sym E) E1) as (k1 & k2 & H1 & H2 & Hk).
      rewrite H1 in H2. injection H2 as <-. lia.
  - exact Hord.
  - rewrite hasListeners_emit. fold notified. split.
    + destruct notified as [|l ls] eqn:E; [intros Hn; contradiction Hn; reflexivity|].
      intros _. exists l. apply Hmem. left.
    + intros (l & k & Hk) ->. assert (Hl : l ∈ @nil Listener) by (apply Hmem; eauto).
      inversion Hl.
Qed.

End Emitter.

(** ** Sessions of the capture object *)

Section CaptureSessions.
Import Spec.
Context `{Runtime}.
Variable settings : CaptureSession.Settings.








(** *** Traces *)









(** *** The invariant, method by method *)

Ltac capture_simpl :=
  cbn [CaptureSession.emit CaptureSession.changeMode CaptureSession.updatePreview
       CaptureSession.emitError CaptureSession.attachKeyboardListener
       CaptureSession.startChordModeTimer CaptureSession.enterChordMode
       CaptureSession.set_mode CaptureSession.set_shortcutEngine
       CaptureSession.set_fragmentManager CaptureSession.set_keyboardHandler
       CaptureSession.set_chordModeTimer CaptureSession.set_emitter
       CaptureSession.set_keydown_handlers CaptureSession.set_timeouts
       CaptureSession.set_next_timeout CaptureSession.set_emitted
       CaptureSession.set_notified CaptureSession.set_preview
       CaptureSession.set_delivered
       CaptureSession.mode CaptureSession.shortcutEngine CaptureSession.fragmentManager
       CaptureSession.keyboardHandler CaptureSession.chordModeTimer
       CaptureSession.emitter CaptureSession.keydown_handlers CaptureSession.timeouts
       CaptureSession.next_timeout CaptureSession.emitted CaptureSession.notified
       CaptureSession.preview CaptureSession.delivered] in *;
  unfold FragmentManager.getCurrentFragment in *.








Lemma set_shortcutEngine_keeps (e : ShortcutEngine.Engine) (s : CaptureSession.State) :
  capture_invariant settings s ->
  capture_invariant settings (CaptureSession.set_shortcutEngine e s).
Proof. intros Hs. exact Hs. Qed.


Lemma set_timeouts_keeps (l : list nat) (s : CaptureSession.State) :
  capture_invariant settings s ->
  capture_invariant settings (CaptureSession.set_timeouts l s).
Proof. intros Hs. exact Hs. Qed.






































(** *** No call throws *)

Section Total.
Hypothesis Hmax : 1 <= CaptureSession.undoHistorySize settings.








End Total.




End CaptureSessions.

(** ** Keys pressed while the object is paused *)

Section Paused.
Import Spec.
Context `{Runtime}.
Variable settings : CaptureSession.Settings.

























End Paused.

(** ** Elements are never refused *)

Section CaptureAdds.
Import Spec.
Context `{Runtime}.
Variable settings : CaptureSession.Settings.

Ltac capture_simpl :=
  cbn [CaptureSession.emit CaptureSession.changeMode CaptureSession.updatePreview
       CaptureSession.emitError CaptureSession.attachKeyboardListener
       CaptureSession.startChordModeTimer CaptureSession.enterChordMode
       CaptureSession.set_mode CaptureSession.set_shortcutEngine
       CaptureSession.set_fragmentManager CaptureSession.set_keyboardHandler
       CaptureSession.set_chordModeTimer CaptureSession.set_emitter
       CaptureSession.set_keydown_handlers CaptureSession.set_timeouts
       CaptureSession.set_next_timeout CaptureSession.set_emitted
       CaptureSession.set_notified CaptureSession.set_preview
       CaptureSession.set_delivered
       CaptureSession.mode CaptureSession.shortcutEngine CaptureSession.fragmentManager
       CaptureSession.keyboardHandler CaptureSession.chordModeTimer
       CaptureSession.emitter CaptureSession.keydown_handlers CaptureSession.timeouts
       CaptureSession.next_timeout CaptureSession.emitted CaptureSession.notified
       CaptureSession.preview CaptureSession.delivered] in *.

Lemma in_tune_emit (ev : CaptureSession.NotationEvent) (s : CaptureSession.State) :
  ~ add_failure ev -> in_tune s -> in_tune (CaptureSession.emit ev s).
Proof.
  intros Hev (Ht & He). split; [exact Ht|]. capture_simpl.
  apply Forall_app. split; [exact He|]. constructor; [exact Hev | constructor].
Qed.

Lemma code_is_no_failure (code message : string) :
  existsb (String.eqb code)
    ["ADD_NOTE_FAILED"; "ADD_REST_FAILED"; "ADD_CHORD_FAILED"; "ADD_ELEMENT_FAILED"]
  = false ->
  ~ add_failure (CaptureSession.error code message).
Proof.
  intros Hc Hin. simpl in Hin. rewrite <- not_true_iff_false in Hc. apply Hc.
  apply existsb_exists. exists code. split; [|apply String.eqb_refl].
  simpl. destruct Hin as [<-|[<-|[<-|[<-|[]]]]]; auto.
Qed.

Lemma in_tune_updatePreview (s : CaptureSession.State) :
  in_tune s -> in_tune (CaptureSession.updatePreview s).
Proof. intros Hs. apply in_tune_emit; [intros []|exact Hs]. Qed.

Lemma in_tune_changeMode (m : InputMode) (s : CaptureSession.State) :
  in_tune s -> in_tune (CaptureSession.changeMode m s).
Proof. intros Hs. apply in_tune_emit; [intros []|exact Hs]. Qed.

Lemma tuned_reset (e : ShortcutEngine.Engine) : tuned e -> tuned (ShortcutEngine.reset e).
Proof.
  intros (_ & _ & _ & Hm). unfold tuned. simpl.
  split; [lia|]. split; [reflexivity|]. split; [constructor | exact Hm].
Qed.

Lemma in_tune_reset (s : CaptureSession.State) :
  in_tune s ->
  in_tune (CaptureSession.set_shortcutEngine
             (ShortcutEngine.reset (CaptureSession.shortcutEngine s)) s).
Proof. intros (Ht & He). split; [apply tuned_reset, Ht | exact He]. Qed.

Lemma in_tune_clearChordMode (s : CaptureSession.State) :
  in_tune s -> in_tune (CaptureSession.clearChordMode s).
Proof.
  intros Hs. unfold CaptureSession.clearChordMode.
  destruct (CaptureSession.chordModeTimer s); apply in_tune_reset, Hs.
Qed.

Lemma in_tune_highlightElement (i : Z) (s : CaptureSession.State) :
  in_tune s -> in_tune (CaptureSession.highlightElement settings i s).
Proof.
  intros Hs. unfold CaptureSession.highlightElement.
  destruct (CaptureSession.highlightCurrentElement settings); exact Hs.
Qed.

Lemma in_tune_start (s : CaptureSession.State) :
  in_tune s -> in_tune (CaptureSession.start s).
Proof.
  intros Hs. unfold CaptureSession.start.
  destruct (CaptureSession.mode s); try exact Hs.
  apply in_tune_updatePreview.
  apply (in_tune_changeMode CAPTURE s Hs).
Qed.

Lemma in_tune_stop (s : CaptureSession.State) :
  in_tune s -> in_tune (CaptureSession.stop s).
Proof.
  intros Hs. unfold CaptureSession.stop.
  assert (Hgo : in_tune (CaptureSession.clearChordMode
                   (CaptureSession.detachKeyboardListener
                      (CaptureSession.changeMode STOPPED s)))).
  { apply in_tune_clearChordMode. unfold CaptureSession.detachKeyboardListener.
    destruct (CaptureSession.keyboardHandler _);
      apply (in_tune_changeMode STOPPED s Hs). }
  destruct (CaptureSession.mode s); try exact Hs; exact Hgo.
Qed.

Lemma in_tune_pause (s : CaptureSession.State) :
  in_tune s -> in_tune (CaptureSession.pause s).
Proof.
  intros Hs. unfold CaptureSession.pause.
  destruct (CaptureSession.mode s); try exact Hs;
    apply in_tune_clearChordMode, in_tune_changeMode, Hs.
Qed.

Lemma in_tune_resume (s : CaptureSession.State) :
  in_tune s -> in_tune (CaptureSession.resume s).
Proof.
  intros Hs. unfold CaptureSession.resume.
  destruct (CaptureSession.mode s); try exact Hs. apply in_tune_changeMode, Hs.
Qed.

Lemma in_tune_clear (now : Z) (s : CaptureSession.State) :
  in_tune s -> in_tune (CaptureSession.clear now s).
Proof.
  intros Hs. unfold CaptureSession.clear. cbv zeta.
  apply in_tune_emit; [intros []|]. apply in_tune_updatePreview.
  apply (in_tune_reset (CaptureSession.set_fragmentManager _ s)). exact Hs.
Qed.

Lemma in_tune_commit (now : Z) (s : CaptureSession.State) :
  in_tune s -> in_tune (CaptureSession.commit settings now s).
Proof.
  intros Hs. unfold CaptureSession.commit.
  destruct (FragmentManager.isEmpty _).
  { apply in_tune_emit; [apply code_is_no_failure; reflexivity | exact Hs]. }
  destruct (FragmentManager.commit _ _) as [fragment fm].
  apply in_tune_updatePreview.
  assert (H1 : in_tune (CaptureSession.emit (CaptureSession.fragmentCommitted fragment)
                          (CaptureSession.set_fragmentManager fm s))).
  { apply in_tune_emit; [intros []|exact Hs]. }
  destruct (CaptureSession.onFragmentCommit settings) as [handler|]; [|exact H1].
  cbv zeta. destruct (handler fragment); [|exact H1].
  apply in_tune_emit; [apply code_is_no_failure; reflexivity | exact H1].
Qed.

Lemma in_tune_undo (s s' : CaptureSession.State) :
  in_tune s -> CaptureSession.undo s = Some s' -> in_tune s'.
Proof.
  intros Hs. unfold CaptureSession.undo.
  destruct (FragmentManager.undo _) as [[[|] fm]|]; [| |discriminate];
    intros [= <-]; [apply in_tune_updatePreview|]; exact Hs.
Qed.

Lemma in_tune_redo (s s' : CaptureSession.State) :
  in_tune s -> CaptureSession.redo s = Some s' -> in_tune s'.
Proof.
  intros Hs. unfold CaptureSession.redo.
  destruct (FragmentManager.redo _) as [[[|] fm]|]; [| |discriminate];
    intros [= <-]; [apply in_tune_updatePreview|]; exact Hs.
Qed.

Lemma in_tune_deleteLastElement (now : Z) (s : CaptureSession.State) :
  in_tune s -> in_tune (CaptureSession.deleteLastElement now s).
Proof.
  intros Hs. unfold CaptureSession.deleteLastElement.
  destruct (FragmentManager.deleteLastElement _ _) as [[e|] fm]; cbv zeta; [|exact Hs].
  apply in_tune_updatePreview, in_tune_emit; [intros []|exact Hs].
Qed.

(** An element the manager takes is added without an error event. *)
Lemma in_tune_addNote (now : Z) (note : Note) (s : CaptureSession.State) :
  accepted (ShortcutEngine.type_note note) ->
  in_tune s -> in_tune (CaptureSession.addNote settings now note s).
Proof.
  intros Hacc Hs. unfold CaptureSession.addNote.
  destruct (Hacc (ENote note) eq_refl) as (_ & Hadd).
  specialize (Hadd now (CaptureSession.fragmentManager s)).
  destruct (FragmentManager.addElement _ _ _) as [r fm]. simpl in Hadd. subst r. cbv zeta.
  apply in_tune_highlightElement, in_tune_updatePreview, in_tune_emit; [intros []|exact Hs].
Qed.

Lemma in_tune_addRest (now : Z) (rest : DurationSpec) (s : CaptureSession.State) :
  accepted (ShortcutEngine.type_rest rest) ->
  in_tune s -> in_tune (CaptureSession.addRest now rest s).
Proof.
  intros Hacc Hs. unfold CaptureSession.addRest.
  destruct (Hacc (ERest rest) eq_refl) as (_ & Hadd).
  specialize (Hadd now (CaptureSession.fragmentManager s)).
  destruct (FragmentManager.addElement _ _ _) as [r fm]. simpl in Hadd. subst r. cbv zeta.
  apply in_tune_updatePreview. exact Hs.
Qed.

Lemma in_tune_addChord (now : Z) (chord : Chord) (s : CaptureSession.State) :
  accepted (ShortcutEngine.type_chord chord) ->
  in_tune s -> in_tune (CaptureSession.addChord now chord s).
Proof.
  intros Hacc Hs. unfold CaptureSession.addChord.
  destruct (Hacc (EChord chord) eq_refl) as (_ & Hadd).
  specialize (Hadd now (CaptureSession.fragmentManager s)).
  destruct (FragmentManager.addElement _ _ _) as [r fm]. simpl in Hadd. subst r. cbv zeta.
  unfold CaptureSession.exitChordMode.
  apply in_tune_changeMode, in_tune_clearChordMode, in_tune_updatePreview. exact Hs.
Qed.

Lemma in_tune_addElement (now : Z) (e : MusicalElement) (s : CaptureSession.State) :
  accepted (ShortcutEngine.type_control (ShortcutEngine.data_element e)) ->
  in_tune s -> in_tune (CaptureSession.addElement now e s).
Proof.
  intros Hacc Hs. unfold CaptureSession.addElement.
  destruct (Hacc e eq_refl) as (_ & Hadd).
  specialize (Hadd now (CaptureSession.fragmentManager s)).
  destruct (FragmentManager.addElement _ _ _) as [r fm]. simpl in Hadd. subst r. cbv zeta.
  apply in_tune_updatePreview. exact Hs.
Qed.

Lemma in_tune_handleProcessedInput (now : Z) (processed : ShortcutEngine.ProcessedInput)
    (s s' : CaptureSession.State) :
  accepted processed -> in_tune s ->
  CaptureSession.handleProcessedInput settings now processed s = Some s' ->
  in_tune s'.
Proof.
  intros Hacc Hs. unfold CaptureSession.handleProcessedInput.
  destruct processed as [note|rest|chord|data|data|failure].
  - intros [= <-]. apply in_tune_addNote; assumption.
  - intros [= <-]. apply in_tune_addRest; assumption.
  - intros [= <-]. apply in_tune_addChord; assumption.
  - unfold CaptureSession.handleControlAction. destruct data as [action|element].
    + destruct (String.eqb action "commit"); [intros [= <-]; apply in_tune_commit, Hs|].
      destruct (String.eqb action "delete");
        [intros [= <-]; apply in_tune_deleteLastElement, Hs|].
      destruct (String.eqb action "clear"); [intros [= <-]; apply in_tune_clear, Hs|].
      destruct (String.eqb action "undo"); [apply in_tune_undo, Hs|].
      destruct (String.eqb action "redo"); [apply in_tune_redo, Hs|].
      destruct (String.eqb action "enter-chord-mode"); intros [= <-]; [|exact Hs].
      apply (in_tune_changeMode CHORD_MODE s Hs).
    + intros [= <-]. apply in_tune_addElement; assumption.
  - intros [= <-]. apply in_tune_updatePreview, in_tune_emit; [intros []|exact Hs].
  - intros [= <-]. apply in_tune_emit; [apply code_is_no_failure; reflexivity | exact Hs].
Qed.

Lemma in_tune_key (now : Z) (input : ShortcutEngine.KeyboardInput)
    (s s' : CaptureSession.State) :
  table_key (ShortcutEngine.key_of input) -> in_tune s ->
  (let '(processed, engine) :=
     ShortcutEngine.processKeyInput now input (CaptureSession.mode s)
       (CaptureSession.shortcutEngine s) in
   CaptureSession.handleProcessedInput settings now processed
     (CaptureSession.set_shortcutEngine engine s)) = Some s' ->
  in_tune s'.
Proof.
  intros Hk Hs.
  destruct (engine_step_tuned
              (engine_key now input (CaptureSession.mode s))
              (CaptureSession.shortcutEngine s) (proj1 Hs) Hk) as (Ht & Hacc).
  simpl in Ht, Hacc.
  destruct (ShortcutEngine.processKeyInput _ _ _ _) as [processed engine].
  simpl in Ht, Hacc. apply Forall_cons in Hacc as (Hacc & _).
  apply in_tune_handleProcessedInput; [exact Hacc|].
  split; [exact Ht | exact (proj2 Hs)].
Qed.

Lemma in_tune_keyboardHandler_call (now : Z) (event : CaptureSession.KeyboardEvent)
    (s s' : CaptureSession.State) (p : bool) :
  table_key (ShortcutEngine.key_of (CaptureSession.input_of event)) -> in_tune s ->
  CaptureSession.keyboardHandler_call settings now event s = Some (p, s') ->
  in_tune s'.
Proof.
  intros Hk Hs. unfold CaptureSession.keyboardHandler_call.
  destruct (_ || _); [intros [= _ <-]; exact Hs|].
  pose proof (in_tune_key now (CaptureSession.input_of event) s) as Hgo.
  destruct (engine_step_tuned
              (engine_key now (CaptureSession.input_of event) (CaptureSession.mode s))
              (CaptureSession.shortcutEngine s) (proj1 Hs) Hk) as (Ht & _).
  simpl in Ht.
  destruct (ShortcutEngine.processKeyInput _ _ _ _) as [processed engine]. cbv zeta.
  simpl in Ht.
  destruct processed;
    try (destruct (CaptureSession.handleProcessedInput settings now _ _) as [s2|];
         [intros [= _ <-]; apply (Hgo s2 Hk Hs eq_refl) | discriminate]).
  intros [= _ <-]. split; [exact Ht | exact (proj2 Hs)].
Qed.

Lemma in_tune_dispatch (n : nat) (now : Z) (event : CaptureSession.KeyboardEvent)
    (s s' : CaptureSession.State) :
  table_key (ShortcutEngine.key_of (CaptureSession.input_of event)) -> in_tune s ->
  CaptureSession.dispatch settings n now event s = Some s' ->
  in_tune s'.
Proof.
  intros Hk. revert s. induction n as [|n IH]; intros s Hs; simpl.
  - intros [= <-]. exact Hs.
  - destruct (CaptureSession.keyboardHandler_call settings now event s)
      as [[p s1]|] eqn:E; [|discriminate].
    apply IH. eapply in_tune_keyboardHandler_call; eassumption.
Qed.

Lemma Enter_is_a_table_key : table_key (ShortcutEngine.key_of CaptureSession.Enter_input).
Proof.
  split; simpl; intros Hin;
    repeat (destruct Hin as [Hin|Hin]; [discriminate Hin|]); exact Hin.
Qed.

Lemma in_tune_step (now : Z) (c : CaptureSession.Call) (s s' : CaptureSession.State) :
  musical_capture_call c -> in_tune s ->
  CaptureSession.step settings now c s = Some s' ->
  in_tune s'.
Proof.
  intros Hc Hs. destruct c; simpl.
  - intros [= <-]. apply in_tune_start, Hs.
  - intros [= <-]. apply in_tune_stop, Hs.
  - intros [= <-]. apply in_tune_pause, Hs.
  - intros [= <-]. apply in_tune_resume, Hs.
  - intros [= <-]. apply in_tune_clear, Hs.
  - intros [= <-]. apply in_tune_commit, Hs.
  - apply in_tune_undo, Hs.
  - apply in_tune_redo, Hs.
  - intros [= <-]. apply in_tune_updatePreview. exact Hs.
  - intros [= <-]. apply in_tune_updatePreview. exact Hs.
  - intros [= <-]. apply in_tune_updatePreview. exact Hs.
  - intros [= <-]. destruct Hs as ((Ho & Hd & Hn & _) & He).
    split; [|exact He]. split; [exact Ho|]. split; [exact Hd|]. split; [exact Hn|].
    exact Hc.
  - intros [= <-]. exact Hs.
  - intros [= <-]. exact Hs.
  - intros [= <-]. exact Hs.
  - intros [= <-]. unfold CaptureSession.destroy. cbv zeta.
    apply (in_tune_stop s Hs).
  - apply in_tune_dispatch; assumption.
  - destruct (decide _); [|intros [= <-]; exact Hs].
    unfold CaptureSession.chordModeTimer_call.
    destruct (ShortcutEngine.checkChordModeTimeout _ _ _); [|intros [= <-]; exact Hs].
    apply (in_tune_key now CaptureSession.Enter_input
             (CaptureSession.set_timeouts _ s) s' Enter_is_a_table_key Hs).
Qed.

Lemma in_tune_run (calls : list (Z * CaptureSession.Call)) (s s' : CaptureSession.State) :
  Forall (fun c => musical_capture_call (snd c)) calls -> in_tune s ->
  CaptureSession.run settings calls s = Some s' ->
  in_tune s'.
Proof.
  revert s. induction calls as [|[now c] rest IH]; intros s Hcalls Hs; simpl.
  - intros [= <-]. exact Hs.
  - apply Forall_cons in Hcalls as (Hc & Hrest).
    destruct (CaptureSession.step settings now c s) as [s1|] eqn:E; [|discriminate].
    apply IH; [exact Hrest|]. eapply in_tune_step; eassumption.
Qed.

(** X26. With musical key mappings, the fragment manager never refuses
    what a key produces.  Take key mappings whose pitch entries name the
    notes C to B and whose duration entries name durations, as the default
    mappings do, for the construction and for every later [setKeyMapping],
    and keys that name no inherited property.  Whatever the calls of the
    session, no error event with the code [ADD_NOTE_FAILED],
    [ADD_REST_FAILED], [ADD_CHORD_FAILED] or [ADD_ELEMENT_FAILED] is ever
    emitted: every note, rest, chord and barline a key produces is added to
    the fragment. *)
Theorem musical_session_refuses_no_element :
  forall (now : Z) (keyMappings : option KeyMappings)
         (calls : list (Z * CaptureSession.Call)) (s : CaptureSession.State),
    musical_mappings (default DEFAULT_KEY_MAPPINGS keyMappings) ->
    Forall (fun c => musical_capture_call (snd c)) calls ->
    CaptureSession.run settings calls
      (CaptureSession.constructor settings now keyMappings) = Some s ->
    forall code message,
      In (CaptureSession.error code message) (CaptureSession.emitted s) ->
      ~ In code ["ADD_NOTE_FAILED"; "ADD_REST_FAILED"; "ADD_CHORD_FAILED";
                 "ADD_ELEMENT_FAILED"].
Proof.
  intros now keyMappings calls s Hm Hcalls Hrun code message Hin.
  assert (H0 : in_tune (CaptureSession.constructor settings now keyMappings)).
  { split; [|constructor]. unfold tuned. simpl.
    split; [lia|]. split; [reflexivity|]. split; [constructor | exact Hm]. }
  destruct (in_tune_run calls _ s Hcalls H0 Hrun) as (_ & He).
  exact (proj1 (List.Forall_forall _ _) He _ Hin).
Qed.

End CaptureAdds.

Section CaptureExamples.
Import Spec.
#[local] Existing Instance Eval.runtime.





Lemma musical_session_refuses_no_element_witness :
  match CaptureSession.run default_settings example_session
          (CaptureSession.constructor default_settings 0 None) with
  | Some s =>
      musical_mappings (default DEFAULT_KEY_MAPPINGS None)
      /\ Forall (fun c => musical_capture_call (snd c)) example_session
      /\ forall code message,
           In (CaptureSession.error code message) (CaptureSession.emitted s) ->
           ~ In code ["ADD_NOTE_FAILED"; "ADD_REST_FAILED"; "ADD_CHORD_FAILED";
                      "ADD_ELEMENT_FAILED"]
  | None => False
  end.
Proof.
  assert (Hm : musical_mappings (default DEFAULT_KEY_MAPPINGS None))
    by exact default_mappings_are_musical.
  assert (Hcalls : Forall (fun c => musical_capture_call (snd c)) example_session).
  { repeat constructor; simpl; intros Hin;
      repeat (destruct Hin as [Hin|Hin]; [discriminate Hin|]); exact Hin. }
  destruct (CaptureSession.run default_settings example_session
              (CaptureSession.constructor default_settings 0 None)) as [s|] eqn:Hrun.
  - split; [exact Hm|]. split; [exact Hcalls|].
    exact (musical_session_refuses_no_element default_settings 0 None example_session s
             Hm Hcalls Hrun).
  - assert (E : is_Some (CaptureSession.run default_settings example_session
                           (CaptureSession.constructor default_settings 0 None)))
      by (vm_compute; eauto).
    rewrite Hrun in E. destruct E as [x E]. discriminate E.
Defined.

End CaptureExamples.
